(* ===== verification/_CoqProject ===== *)
-Q . S2P
Prelude.v
ArithUint256.v
Chain.v
Serialize.v
Transaction.v
Text.v
LibBoolEE.v
AssetNames.v
HashStream.v
Sha2.v
Sha256.v
Sha512.v
Sha1.v
Ripemd160.v
Hash.v
Base58.v
Merkle.v
Script.v
Interpreter.v
ScriptLimits.v
VerifyScript.v
Softfork.v
SigHash.v
Standard.v
AssetData.v
AssetChecks.v
ScriptTemplates.v
Coins.v
TxVerify.v
Versionbits.v
Pow.v
Blocks.v
LruCache.v
AssetsCache.v
AssetsFlush.v
