(* ===== verification/Prelude.v ===== *)
(** * A verification of the consensus code of Cmusic

    Cmusic is a node of a Bitcoin-style currency with assets and a KawPow proof of work. A node
    reads blocks and transactions from the network (serialize.h, primitives/), identifies them by
    hashes (crypto/, hash.h), checks a block's header against the difficulty that the chain
    requires (chain.h, pow.cpp), its Merkle root (consensus/merkle.cpp), its transactions, its
    coinbase and its witnesses (validation.cpp, consensus/tx_verify.cpp), the assets that they issue and
    transfer (assets/, LibBoolEE.cpp), the rules that are active for it (versionbits.cpp) and the script of every
    input (script/), and keeps the unspent outputs (coins.cpp, txdb.cpp) and the assets (assets/) in caches over databases. The development models
    these parts, each in a file of its own, as functions that are executed by the kernel in the examples.

    ** Conventions

    Integers of the source are [Z], and their wrap-around is written out ([u8], [u32], [u64],
    [i32], [i64] of this file); C++ division and remainder are [Z.quot] and [Z.rem]. Bytes are
    [Z] below 256 and arrays are lists. A failed assertion, a thrown exception, a null pointer that is
    dereferenced and an overflow of a signed integer are the value [None] (or a constructor of [outcome] in
    the interpreter), so that a theorem that gives a result also excludes them. Sums of amounts are the exception:
    in the checks of transactions and in the balances of the cache of assets they wrap around ([i64]), as
    compiled code does, although C++ leaves that undefined; the theorems either show that nothing wraps or say when the sums fit. Block
    index entries live in a finite map from pointers; iterators into a script are the
    bytes from the iterator on; stacks are lists with their top first. The hash classes leave
    their buffer uninitialised: its contents are the argument [mem], and the digests are
    proved not to depend on it.

    ** Files

    - Prelude.v: machine integers, bytes and the lemmas on lists that the other files share.
    - ArithUint256.v (arith_uint256.h, .cpp): [base_uint<256>] by limbs, compact words. The limb
      operations are those of arithmetic modulo 2^256; compact words are decoded exactly and
      encoding them truncates.
    - Chain.v (chain.h, chain.cpp, primitives/block.h): block index entries, skip pointers,
      [CChain], locators, fork points and times. The invariant is [wf_index]; the
      skip-pointer walk is the walk along [pprev], the active chain is the branch of its
      tip, and the queries find what they are meant to find.
    - Pow.v (pow.cpp, the work functions of chain.cpp, consensus/params.h): both difficulty
      rules and the check of a hash. The limb computation refines a formula on integers and always
      ends within bounds, and the check accepts exactly the hashes up to the target. Where the product of DarkGravityWave does not fit
      in 256 bits, which the main network's limit allows, the target falls short of the one due.
    - Serialize.v (serialize.h, streams.h) and Transaction.v (primitives/): readers and
      writers with the class [Codec] that relates them. What is written is read back and
      encodings are unique; sums of outputs are exact.
    - HashStream.v (the streaming part of the hash classes), Sha2.v, Sha256.v, Sha512.v,
      Sha1.v, Ripemd160.v (crypto/) and Hash.v (hash.h, hash.cpp, crypto/hmac_sha256.cpp, crypto/hmac_sha512.cpp): the
      unrolled block functions, buffering and padding, proved equal to the standards, whose constants
      are derived as the standards say; double hashes, HMAC, identifiers and
      SipHash are built on them.
    - Merkle.v (consensus/merkle.cpp): the constant-space computation of roots and branches
      equals the one by levels, branches prove membership, and a root commits to
      the transactions. Statements on commitment name the hashed messages among which
      a collision would be.
    - Script.v (script/script.h, .cpp): script numbers, building and parsing,
      and the predicates on scripts, those of assets included.
    - Interpreter.v, VerifyScript.v (script/interpreter.cpp): [EvalScript] with one definition for each case of its
      switch, witness programs, [VerifyScript] and the counting of signature operations.
      ScriptLimits.v: evaluation keeps the limits on stacks and operations and reads no element
      that is not there. Softfork.v: more flags accept less.
      ScriptTemplates.v: who can spend an output paid to a key hash.
    - SigHash.v (script/interpreter.cpp, test/sighash_tests.cpp, pubkey.h): the hashes that signatures sign, and the
      transaction's signature checker. The in-place serializer equals the definition kept in the
      tests, and a witness signature covers what its type says.
    - Coins.v (coins.h, coins.cpp, txdb.cpp): the class [CCoinsView] with its laws
      [CoinsViewLaws]. The cache keeps them over any base that does and implements a plain set of
      unspent outputs; the database keeps them, and survives a crash between batches.
    - Text.v: strings, splitting and regular expressions by derivatives, which name checks use.
    - LibBoolEE.v (LibBoolEE.h, .cpp): the evaluator of verifier strings computes propositional logic.
    - AssetNames.v (assets/assets.cpp, assets/assettypes.h): the types of names. The regular expressions and
      checks accept exactly a grammar, with one type for a name; parents and owners are names again.
    - Base58.v (base58.cpp, prefixes of chainparams.cpp): Base58 on digit arrays in place, checksums and
      addresses. No assertion fails and decoding inverts encoding.
    - Standard.v (script/standard.cpp): the templates of outputs. A script made for a destination is solved to it.
    - AssetData.v (assets/assettypes.h, assets/assets.cpp): the data of assets in scripts. All kinds are read back as written,
      but for verifier strings above 74 characters, which a theorem shows to be misread.
    - AssetChecks.v (assets/assets.cpp, chainparams.cpp): the checks of transactions that issue, reissue, transfer, tag or freeze,
      alone and against the class [AssetsView] of what a cache of assets answers. Issues and reissues keep assets
      valid, a restricted asset goes exactly to the addresses that its formula admits, and one theorem shows
      that fees cannot be paid to the addresses of two networks.
    - TxVerify.v (consensus/tx_verify.cpp): lock times, signature operations, and the three checks of a transaction.
      They create no value and conserve assets up to overflow.
    - Blocks.v (validation.cpp, miner.cpp, chainparams.cpp): subsidies, the reward of a coinbase, commitments to
      witnesses, and the checks of headers and blocks. Supply is bounded, what the miner makes passes, and the blocks that pass are
      exactly those with their proof of work, an unambiguous root and valid transactions.
    - LruCache.v ([CLRUCache] of assets/assettypes.h): the list with its iterators keeps the most recently used entries, and is an
      instance of the class [TextCache] of caches to read through.
    - AssetsCache.v ([CAssetsCache] of assets/assets.h, assets/assets.cpp; assets/assetdb.cpp, assets/restricteddb.cpp): the cache of assets of
      a block over the global cache, the caches to read through and the databases, with its queries, changes and their
      undoing, the flush and the dump. The caches to read through are invisible.
      AssetsFlush.v: flush and dump change no answer, where nothing is added that was removed in the global cache, and
      two theorems show what depends on the time of a dump otherwise.
    - Versionbits.v (versionbits.h, .cpp): the cached state of a deployment is the one
      defined period by period, and deployments that are locked in get active.

    ** Fuel and bounds

    Loops that are not structural take fuel, computed by the function that calls them from
    the data, and the theorems show that it is enough: heights for walks along the
    chain (each turn goes to a lower height), the length of a script for its parsing and evaluation (each
    instruction is a byte at least), the length of the input for hashing and reading, the length of
    an expression for its evaluation (every call is on a shorter string, and more fuel is proved to change nothing),
    32 levels for Merkle trees. The Merkle computation is proved for up to 2^31
    leaves, beyond which its counter wraps; SHA-256 for messages below 2^61 bytes; the difficulty formula
    for averages below 2^252, and without wrap-around for products below 2^256.

    ** Arguments

    The verification of an elliptic curve signature ([CPubKey::Verify], in secp256k1) and its check for low S are functions
    that are arguments, as are the iteration order of an unordered map and the moment a database batch
    is full; every statement holds for all of them. [IsUnspendable] and [GetHash] are arguments of
    the cache of coins, which only passes data through them.
    The deployments that are active, the view of coins, the answers of the cache of assets ([AssetsView]) and the value
    of a variable that is read before it is written are arguments of the checks of transactions; the two proof-of-work
    hashes of a header, the last checkpoint, the clock and the number of peers are those of the checks of blocks. The height and the hash
    of a block that the cache of assets reads before they are written are arguments, and a write of the dump that fails is
    an argument; that the hashes of the pairs of names and addresses in use differ is a hypothesis on these pairs.

    ** Not modelled

    - validation.cpp beyond the checks above, and txmempool.cpp: they act on global state, locks, files and databases;
      the rules they call are modelled.
    - assets/: messages beyond their collection, rewards and snapshots, listings for users, and the functions that make
      transactions with the wallet. The checks of transactions see the cache through [AssetsView]. The order of the calls of
      ConnectBlock and DisconnectBlock on the cache is not fixed: the theorems hold for every order.
    - The KawPow and X16R hash functions (crypto/ethash, algo/): a block's hash is an argument of the rules of proof of work.
    - secp256k1, leveldb, univalue: libraries of their own; a database batch is taken to be written as a whole.
    - The network, the wallet, the graphical interface, remote procedure calls, start-up: input, output,
      threads and clocks.
    - In the modelled files: memory accounting, logging, printing, conversions to and from text and floating point, and the
      SSE4 variant of SHA-256. *)
From Stdlib Require Import ZArith Lia List Bool.
Import ListNotations.
Open Scope Z_scope.

(** * Machine integers *)

(** [uN z] is the value of [z] converted to an unsigned [N]-bit integer and
    [iN z] its value converted to a two's complement signed one. *)
Definition u8 (z : Z) : Z := z mod 2 ^ 8.
Definition u16 (z : Z) : Z := z mod 2 ^ 16.
Definition u32 (z : Z) : Z := z mod 2 ^ 32.
Definition u64 (z : Z) : Z := z mod 2 ^ 64.
Definition i32 (z : Z) : Z := (z + 2 ^ 31) mod 2 ^ 32 - 2 ^ 31.
Definition i64 (z : Z) : Z := (z + 2 ^ 63) mod 2 ^ 64 - 2 ^ 63.

Definition is_u8 (z : Z) : Prop := 0 <= z < 2 ^ 8.
Definition is_u16 (z : Z) : Prop := 0 <= z < 2 ^ 16.
Definition is_u32 (z : Z) : Prop := 0 <= z < 2 ^ 32.
Definition is_u64 (z : Z) : Prop := 0 <= z < 2 ^ 64.
Definition is_i32 (z : Z) : Prop := - 2 ^ 31 <= z < 2 ^ 31.
Definition is_i64 (z : Z) : Prop := - 2 ^ 63 <= z < 2 ^ 63.

(** The C++ integer divisions truncate towards zero. *)
Notation "a /c b" := (Z.quot a b) (at level 40, left associativity) : Z_scope.
Notation "a %c b" := (Z.rem a b) (at level 40, left associativity) : Z_scope.

Create HintDb cms.

Ltac unfold_words :=
  unfold is_u8, is_u16, is_u32, is_u64, is_i32, is_i64,
         u8, u16, u32, u64, i32, i64 in *.

Lemma u32_small z : is_u32 z -> u32 z = z.
Proof. unfold_words. intros. now apply Z.mod_small. Qed.

Lemma u64_small z : is_u64 z -> u64 z = z.
Proof. unfold_words. intros. now apply Z.mod_small. Qed.

Lemma u8_small z : is_u8 z -> u8 z = z.
Proof. unfold_words. intros. now apply Z.mod_small. Qed.

Lemma u8_range z : is_u8 (u8 z).
Proof. apply Z.mod_pos_bound. lia. Qed.

Lemma u32_range z : is_u32 (u32 z).
Proof. apply Z.mod_pos_bound. lia. Qed.

Lemma u64_range z : is_u64 (u64 z).
Proof. apply Z.mod_pos_bound. lia. Qed.

#[export] Hint Resolve u8_range u32_range u64_range : cms.

Lemma land_mask (n z : Z) : 0 <= n -> Z.land z (2 ^ n - 1) = z mod 2 ^ n.
Proof. intros. now rewrite <- Z.land_ones, Z.ones_equiv, <- Z.sub_1_r by lia. Qed.

Lemma land_ffffffff z : Z.land z 0xffffffff = z mod 2 ^ 32.
Proof. now apply (land_mask 32). Qed.

Lemma land_pow2 x n : 0 <= n ->
  Z.land x (2 ^ n) = if Z.testbit x n then 2 ^ n else 0.
Proof.
  intros Hn. apply Z.bits_inj'. intros i Hi. rewrite Z.land_spec, Z.pow2_bits_eqb by lia.
  destruct (Z.eqb_spec n i) as [<-|Hne].
  - destruct (Z.testbit x n); [now rewrite Z.pow2_bits_true by lia|now rewrite Z.bits_0].
  - rewrite andb_false_r. destruct (Z.testbit x n); [|now rewrite Z.bits_0].
    now rewrite Z.pow2_bits_false by lia.
Qed.

Lemma land_le_r a b : 0 <= b -> Z.land a b <= b.
Proof.
  intros Hb. assert (H : Z.ldiff (Z.land a b) b = 0).
  { apply Z.bits_inj'. intros n _. rewrite Z.ldiff_spec, Z.land_spec, Z.bits_0.
    now destruct (Z.testbit a n), (Z.testbit b n). }
  pose proof (Z.sub_nocarry_ldiff b (Z.land a b) H) as E.
  pose proof (proj2 (Z.ldiff_nonneg b (Z.land a b)) (or_introl Hb)). lia.
Qed.

(** * Arrays *)

(** [upd i x l] is the array [l] after the assignment [l[i] = x]. *)
Fixpoint upd {A} (i : nat) (x : A) (l : list A) : list A :=
  match l, i with
  | [], _ => []
  | _ :: t, O => x :: t
  | h :: t, S i' => h :: upd i' x t
  end.

Lemma length_upd {A} i (x : A) l : length (upd i x l) = length l.
Proof. revert i; induction l; intros [|i]; simpl; auto. Qed.

Lemma take_S_nth {A} (l : list A) (d : A) t :
  (t < length l)%nat -> firstn (S t) l = (firstn t l ++ [nth t l d])%list.
Proof.
  revert t; induction l as [|x l IH]; intros [|t] H; simpl in *; try lia; auto.
  f_equal. apply IH. lia.
Qed.

Lemma nth_upd {A} (d x : A) l i j :
  nth j (upd i x l) d =
  if (Nat.eqb i j && Nat.ltb i (length l))%bool then x else nth j l d.
Proof.
  revert i j; induction l as [|h t IH]; intros [|i] [|j]; simpl; auto;
    rewrite ?andb_false_r; auto.
Qed.

Lemma upd_middle {A} (x y : A) pre post n :
  length pre = n -> upd n x (pre ++ y :: post) = pre ++ x :: post.
Proof. intros <-. induction pre; simpl; congruence. Qed.

Lemma nth_middle' {A} (d y : A) pre post n :
  length pre = n -> nth n (pre ++ y :: post) d = y.
Proof. intros <-. induction pre; simpl; congruence. Qed.

(** ** Sweeps

    The loop [for (i = 0; i < n; i++) pn[off + i] = f(carry, i, pn[off + i])]
    over an array, threading a carry. *)
Definition sweep {C} (off n : nat) (f : C -> nat -> Z -> C * Z)
    (c : C) (pn : list Z) : C * list Z :=
  fold_left (fun '(c, pn) i =>
      let '(c', x) := f c i (nth (off + i) pn 0) in (c', upd (off + i) x pn))
    (seq 0 n) (c, pn).

(** Its structural counterpart on the swept slice. *)
Fixpoint scan {C} (f : C -> nat -> Z -> C * Z) (c : C) (i : nat) (l : list Z)
    : C * list Z :=
  match l with
  | [] => (c, [])
  | x :: t =>
      let '(c', x') := f c i x in
      let '(c'', t') := scan f c' (S i) t in (c'', x' :: t')
  end.

Lemma sweep_scan_aux {C} (f : C -> nat -> Z -> C * Z) off pre mid post c i :
  length pre = (off + i)%nat ->
  fold_left (fun '(c, pn) i =>
      let '(c', x) := f c i (nth (off + i) pn 0) in (c', upd (off + i) x pn))
    (seq i (length mid)) (c, pre ++ mid ++ post) =
  let '(c', mid') := scan f c i mid in (c', pre ++ mid' ++ post).
Proof.
  revert pre c i; induction mid as [|x t IH]; intros pre c i Hlen; [reflexivity|].
  cbn [length seq fold_left scan].
  rewrite <- app_comm_cons, (nth_middle' _ _ _ _ _ Hlen).
  destruct (f c i x) as [c' x'].
  rewrite (upd_middle _ _ _ _ _ Hlen).
  change (pre ++ x' :: t ++ post) with (pre ++ [x'] ++ t ++ post).
  rewrite app_assoc, IH by (rewrite length_app; simpl; lia).
  destruct (scan f c' (S i) t) as [c'' t']. now rewrite <- app_assoc.
Qed.

Lemma sweep_scan {C} (f : C -> nat -> Z -> C * Z) off n c pre mid post :
  length pre = off -> length mid = n ->
  sweep off n f c (pre ++ mid ++ post) =
  let '(c', mid') := scan f c 0 mid in (c', pre ++ mid' ++ post).
Proof. intros H <-. apply sweep_scan_aux. lia. Qed.

Lemma sweep_all {C} (f : C -> nat -> Z -> C * Z) n c l :
  length l = n -> sweep 0 n f c l = scan f c 0 l.
Proof.
  intros H. pose proof (sweep_scan f 0 n c [] l [] eq_refl H) as E.
  rewrite !app_nil_r in E. simpl in E. rewrite E.
  destruct (scan f c 0 l). now rewrite app_nil_r.
Qed.

Lemma length_scan {C} (f : C -> nat -> Z -> C * Z) l :
  forall c i, length (snd (scan f c i l)) = length l.
Proof.
  induction l as [|x t IH]; intros c i; [reflexivity|]. cbn [scan].
  destruct (f c i x) as [c' x']. specialize (IH c' (S i)).
  destruct (scan f c' (S i) t). simpl in *. lia.
Qed.

(** A property of every written element, given an invariant of the carry. *)
Lemma scan_Forall {C} (f : C -> nat -> Z -> C * Z) (I : C -> Prop) (P Q : Z -> Prop) l :
  (forall c i x, I c -> P x -> I (fst (f c i x)) /\ Q (snd (f c i x))) ->
  forall c i, I c -> Forall P l -> I (fst (scan f c i l)) /\ Forall Q (snd (scan f c i l)).
Proof.
  intros Hf. induction l as [|x t IH]; intros c i Hc HP; [now split|]. cbn [scan].
  inversion_clear HP as [|? ? Hx Ht]. destruct (Hf c i x Hc Hx) as [H1 H2].
  destruct (f c i x) as [c' x']. destruct (IH c' (S i) H1 Ht) as [H3 H4].
  destruct (scan f c' (S i) t). simpl in *. auto.
Qed.

Lemma Forall_firstn {A} (P : A -> Prop) n l : Forall P l -> Forall P (firstn n l).
Proof. intros H. rewrite <- (firstn_skipn n l) in H. now apply Forall_app in H. Qed.

Lemma Forall_skipn {A} (P : A -> Prop) n l : Forall P l -> Forall P (skipn n l).
Proof. intros H. rewrite <- (firstn_skipn n l) in H. now apply Forall_app in H. Qed.

Lemma fold_left_inv {A B} (f : A -> B -> A) (l : list B) a :
  (forall b, In b l -> f a b = a) -> fold_left f l a = a.
Proof.
  induction l as [|b l IH]; intros H; [reflexivity|]. simpl.
  rewrite H by now left. apply IH. intros. apply H. now right.
Qed.
