(* ===== verification/ArithUint256.v ===== *)
(** 256-bit integers (arith_uint256.h, arith_uint256.cpp): the operations on eight
    limbs of 32 bits, compact words, and their meaning as integers modulo 2^256. *)
From Stdlib Require Import ZArith Lia List Bool.
From S2P Require Import Prelude.
Import ListNotations.
Open Scope Z_scope.

(** * [base_uint<256>] (arith_uint256.h, arith_uint256.cpp) *)

Definition WIDTH : nat := 8.

(** The array [uint32_t pn[WIDTH]], least significant limb first. *)
Definition base_uint := list Z.

Definition limb (a : base_uint) (i : nat) : Z := nth i a 0.

(** ** Construction and comparison *)

Definition uint_zero : base_uint := repeat 0 WIDTH.

(** [base_uint(uint64_t b)] and [operator=(uint64_t b)] *)
Definition uint_of_u64 (b : Z) : base_uint :=
  u32 b :: u32 (Z.shiftr b 32) :: repeat 0 (WIDTH - 2).

(** [operator~] *)
Definition uint_not (a : base_uint) : base_uint :=
  map (fun x => u32 (Z.lnot x)) a.

(** The loop of [operator++()], from limb [i] on, at most [n] rounds. *)
Fixpoint inc_loop (n i : nat) (pn : base_uint) : base_uint :=
  match n with
  | O => pn
  | S n' =>
      let x := u32 (limb pn i + 1) in
      let pn := upd i x pn in
      if x =? 0 then inc_loop n' (S i) pn else pn
  end.

Definition uint_inc (a : base_uint) : base_uint := inc_loop WIDTH 0 a.

(** The loop of [operator--()]. *)
Fixpoint dec_loop (n i : nat) (pn : base_uint) : base_uint :=
  match n with
  | O => pn
  | S n' =>
      let x := u32 (limb pn i - 1) in
      let pn := upd i x pn in
      if x =? u32 (-1) then dec_loop n' (S i) pn else pn
  end.

Definition uint_dec (a : base_uint) : base_uint := dec_loop WIDTH 0 a.

(** [operator-()] *)
Definition uint_neg (a : base_uint) : base_uint := uint_inc (uint_not a).

(** [operator+=(const base_uint&)] *)
Definition uint_add (a b : base_uint) : base_uint :=
  snd (sweep 0 WIDTH (fun carry i x =>
         let n := u64 (carry + x + limb b i) in
         (Z.shiftr n 32, Z.land n 0xffffffff)) 0 a).

(** [operator-=(const base_uint&)] *)
Definition uint_sub (a b : base_uint) : base_uint := uint_add a (uint_neg b).

(** [operator+=(uint64_t)] and [operator-=(uint64_t)] *)
Definition uint_add64 (a : base_uint) (b64 : Z) : base_uint :=
  uint_add a (uint_of_u64 b64).
Definition uint_sub64 (a : base_uint) (b64 : Z) : base_uint :=
  uint_add a (uint_neg (uint_of_u64 b64)).

(** [operator*=(uint32_t)] *)
Definition uint_mul32 (a : base_uint) (b32 : Z) : base_uint :=
  snd (sweep 0 WIDTH (fun carry i x =>
         let n := u64 (carry + b32 * x) in
         (Z.shiftr n 32, Z.land n 0xffffffff)) 0 a).

(** [operator*=(const base_uint&)]: round [j] adds [a.pn[j] * b], shifted by
    [j] limbs, into the accumulator. *)
Definition mul_round (a b : base_uint) (pn : base_uint) (j : nat) : base_uint :=
  snd (sweep j (WIDTH - j) (fun carry i x =>
         let n := u64 (carry + x + limb a j * limb b i) in
         (Z.shiftr n 32, Z.land n 0xffffffff)) 0 pn).

Definition uint_mul (a b : base_uint) : base_uint :=
  fold_left (mul_round a b) (seq 0 WIDTH) uint_zero.

(** [operator<<=(unsigned int)] *)
Definition shl_round (a : base_uint) (k : nat) (shift : Z) (pn : base_uint) (i : nat)
    : base_uint :=
  let pn := if (i + k + 1 <? WIDTH)%nat && negb (shift =? 0)
            then upd (i + k + 1)
                     (Z.lor (limb pn (i + k + 1)) (Z.shiftr (limb a i) (32 - shift))) pn
            else pn in
  if (i + k <? WIDTH)%nat
  then upd (i + k) (Z.lor (limb pn (i + k)) (u32 (Z.shiftl (limb a i) shift))) pn
  else pn.

Definition uint_shl (a : base_uint) (shift : Z) : base_uint :=
  fold_left (shl_round a (Z.to_nat (shift / 32)) (shift mod 32)) (seq 0 WIDTH) uint_zero.

(** [operator>>=(unsigned int)] *)
Definition shr_round (a : base_uint) (k : nat) (shift : Z) (pn : base_uint) (i : nat)
    : base_uint :=
  let pn := if (k + 1 <=? i)%nat && negb (shift =? 0)
            then upd (i - k - 1)
                     (Z.lor (limb pn (i - k - 1)) (u32 (Z.shiftl (limb a i) (32 - shift)))) pn
            else pn in
  if (k <=? i)%nat
  then upd (i - k) (Z.lor (limb pn (i - k)) (Z.shiftr (limb a i) shift)) pn
  else pn.

Definition uint_shr (a : base_uint) (shift : Z) : base_uint :=
  fold_left (shr_round a (Z.to_nat (shift / 32)) (shift mod 32)) (seq 0 WIDTH) uint_zero.

(** [CompareTo]: the loop over limbs [n-1 .. 0]. *)
Fixpoint compare_loop (n : nat) (a b : base_uint) : Z :=
  match n with
  | O => 0
  | S i =>
      if limb a i <? limb b i then -1
      else if limb a i >? limb b i then 1
      else compare_loop i a b
  end.

Definition CompareTo (a b : base_uint) : Z := compare_loop WIDTH a b.

Definition uint_gt (a b : base_uint) : bool := CompareTo a b >? 0.
Definition uint_lt (a b : base_uint) : bool := CompareTo a b <? 0.
Definition uint_ge (a b : base_uint) : bool := CompareTo a b >=? 0.
Definition uint_le (a b : base_uint) : bool := CompareTo a b <=? 0.

(** [operator==(const base_uint&, const base_uint&)]: [memcmp] of the limbs. *)
Definition uint_eq (a b : base_uint) : bool :=
  forallb (fun i => limb a i =? limb b i) (seq 0 WIDTH).

(** [EqualTo(uint64_t)] *)
Definition EqualTo (a : base_uint) (b : Z) : bool :=
  forallb (fun i => limb a i =? 0) (seq 2 (WIDTH - 2)) &&
  (limb a 1 =? Z.shiftr b 32) && (limb a 0 =? Z.land b 0xffffffff).

(** [bits()]: position of the highest set bit plus one. *)
Fixpoint limb_bits (n : nat) (x : Z) : Z :=
  match n with
  | O => 1
  | S n' => if negb (Z.land x (Z.shiftl 1 (Z.of_nat n)) =? 0) then Z.of_nat n + 1
            else limb_bits n' x
  end.

Fixpoint bits_loop (n : nat) (a : base_uint) : Z :=
  match n with
  | O => 0
  | S pos => if negb (limb a pos =? 0)
             then 32 * Z.of_nat pos + limb_bits 31 (limb a pos)
             else bits_loop pos a
  end.

Definition uint_bits (a : base_uint) : Z := bits_loop WIDTH a.

(** [GetLow64()] *)
Definition GetLow64 (a : base_uint) : Z := Z.lor (limb a 0) (u64 (Z.shiftl (limb a 1) 32)).

(** [operator/=(const base_uint&)].  [None] is the thrown [uint_error].  The
    loop runs for [shift], [shift - 1], ..., [0]. *)
Definition div_round (shift : Z) (num div q : base_uint) : base_uint * base_uint :=
  if uint_ge num div
  then (uint_sub num div,
        upd (Z.to_nat (shift / 32))
            (Z.lor (limb q (Z.to_nat (shift / 32))) (Z.shiftl 1 (Z.land shift 31))) q)
  else (num, q).

Fixpoint div_loop (n : nat) (num div q : base_uint) : base_uint * base_uint :=
  let '(num, q) := div_round (Z.of_nat n) num div q in
  match n with
  | O => (q, num)
  | S n' => div_loop n' num (uint_shr div 1) q
  end.

Definition uint_div (a b : base_uint) : option base_uint :=
  let num_bits := uint_bits a in
  let div_bits := uint_bits b in
  if div_bits =? 0 then None
  else if div_bits >? num_bits then Some uint_zero
  else
    let shift := num_bits - div_bits in
    Some (fst (div_loop (Z.to_nat shift) a (uint_shl b shift) uint_zero)).

(** * [arith_uint256] *)

(** [SetCompact(nCompact, &fNegative, &fOverflow)] *)
Definition SetCompact (nCompact : Z) : base_uint * bool * bool :=
  let nSize := Z.shiftr nCompact 24 in
  let nWord := Z.land nCompact 0x007fffff in
  let '(nWord, this) :=
    if nSize <=? 3
    then let nWord := Z.shiftr nWord (8 * (3 - nSize)) in (nWord, uint_of_u64 nWord)
    else (nWord, uint_shl (uint_of_u64 nWord) (8 * (nSize - 3))) in
  let fNegative := negb (nWord =? 0) && negb (Z.land nCompact 0x00800000 =? 0) in
  let fOverflow := negb (nWord =? 0) &&
    ((nSize >? 34) || ((nWord >? 0xff) && (nSize >? 33)) || ((nWord >? 0xffff) && (nSize >? 32))) in
  (this, fNegative, fOverflow).

(** [GetCompact(fNegative)] *)
Definition GetCompact (a : base_uint) (fNegative : bool) : Z :=
  let nSize := (uint_bits a + 7) / 8 in
  let nCompact :=
    if nSize <=? 3 then u32 (Z.shiftl (GetLow64 a) (8 * (3 - nSize)))
    else u32 (GetLow64 (uint_shr a (8 * (nSize - 3)))) in
  let '(nCompact, nSize) :=
    if negb (Z.land nCompact 0x00800000 =? 0)
    then (Z.shiftr nCompact 8, nSize + 1) else (nCompact, nSize) in
  let nCompact := Z.lor nCompact (u32 (Z.shiftl nSize 24)) in
  Z.lor nCompact (if fNegative && negb (Z.land nCompact 0x007fffff =? 0) then 0x00800000 else 0).

(** [uint256] as its 32 bytes *)
Definition ReadLE32 (l : list Z) (i : nat) : Z :=
  nth i l 0 + 2 ^ 8 * nth (i + 1) l 0 + 2 ^ 16 * nth (i + 2) l 0 + 2 ^ 24 * nth (i + 3) l 0.
Definition WriteLE32 (x : Z) : list Z :=
  [u8 x; u8 (Z.shiftr x 8); u8 (Z.shiftr x 16); u8 (Z.shiftr x 24)].

Definition ArithToUint256 (a : base_uint) : list Z :=
  flat_map (fun x => WriteLE32 (limb a x)) (seq 0 WIDTH).
Definition UintToArith256 (a : list Z) : base_uint :=
  map (fun x => ReadLE32 a (x * 4)) (seq 0 WIDTH).

(** * The value of a [base_uint] *)

Fixpoint limbs_val (a : base_uint) : Z :=
  match a with
  | [] => 0
  | x :: t => x + 2 ^ 32 * limbs_val t
  end.

Definition wf (a : base_uint) : Prop := length a = WIDTH /\ Forall is_u32 a.

Abbreviation M256 := (2 ^ 256).

(** The exclusive bound of an array of [n] limbs. *)
Definition base (n : nat) : Z := 2 ^ (32 * Z.of_nat n).

Lemma base_0 : base 0 = 1.
Proof. reflexivity. Qed.

Lemma base_S n : base (S n) = 2 ^ 32 * base n.
Proof. unfold base. rewrite <- Z.pow_add_r by lia. f_equal. lia. Qed.

Lemma base_pos n : 0 < base n.
Proof. apply Z.pow_pos_nonneg; lia. Qed.

Lemma base_add m n : base (m + n) = base m * base n.
Proof. unfold base. rewrite <- Z.pow_add_r by lia. f_equal. lia. Qed.

Lemma base_WIDTH : base WIDTH = M256.
Proof. reflexivity. Qed.

Lemma limbs_val_range l : Forall is_u32 l -> 0 <= limbs_val l < base (length l).
Proof.
  induction 1 as [|x t Hx _ IH]; cbn [limbs_val length]; rewrite ?base_0, ?base_S; [lia|].
  unfold_words. nia.
Qed.

Lemma wf_val_range a : wf a -> 0 <= limbs_val a < M256.
Proof. intros [Hl H]. rewrite <- base_WIDTH, <- Hl. now apply limbs_val_range. Qed.

Lemma limbs_val_app l m : limbs_val (l ++ m) = limbs_val l + base (length l) * limbs_val m.
Proof.
  induction l as [|x t IH]; cbn [limbs_val app length]; rewrite ?base_0, ?base_S, ?IH; lia.
Qed.

Lemma limbs_val_repeat0 n : limbs_val (repeat 0 n) = 0.
Proof. induction n; cbn [repeat limbs_val]; lia. Qed.

Lemma limbs_val_inj a b :
  Forall is_u32 a -> Forall is_u32 b -> length a = length b ->
  limbs_val a = limbs_val b -> a = b.
Proof.
  intros Ha; revert b; induction Ha as [|x t Hx Ht IH]; intros [|y u] Hb Hlen Hv;
    try discriminate; [reflexivity|].
  inversion_clear Hb as [|? ? Hy Hu]. cbn [limbs_val] in Hv. unfold_words.
  assert (x = y /\ limbs_val t = limbs_val u) as [-> E] by lia.
  f_equal. apply IH; auto.
Qed.

Lemma limb_u32 a i : Forall is_u32 a -> is_u32 (limb a i).
Proof.
  intros H. unfold limb. destruct (nth_in_or_default i a 0) as [Hin| ->].
  - now apply (proj1 (Forall_forall _ _) H).
  - unfold_words. lia.
Qed.

Lemma map_limb_seq a : map (limb a) (seq 0 (length a)) = a.
Proof.
  apply nth_ext with (d := 0) (d' := 0); rewrite length_map, length_seq; [reflexivity|].
  intros n Hn. rewrite nth_indep with (d' := limb a 0) by (now rewrite length_map, length_seq).
  now rewrite map_nth, seq_nth.
Qed.

Lemma wf_limbs a : wf a -> exists x0 x1 x2 x3 x4 x5 x6 x7,
  a = [x0; x1; x2; x3; x4; x5; x6; x7] /\
  is_u32 x0 /\ is_u32 x1 /\ is_u32 x2 /\ is_u32 x3 /\
  is_u32 x4 /\ is_u32 x5 /\ is_u32 x6 /\ is_u32 x7.
Proof.
  intros [Hl H]. unfold WIDTH in Hl. do 8 (destruct a as [|? a]; [discriminate|]).
  destruct a; [|discriminate]. do 8 eexists. split; [reflexivity|].
  repeat match goal with H : Forall _ (_ :: _) |- _ => inversion_clear H end. tauto.
Qed.

(** ** Sweeps with a 64-bit carry *)

(** The weighted sum of the contributions [h i x] of the limbs. *)
Fixpoint sum_val (h : nat -> Z -> Z) (i : nat) (l : list Z) : Z :=
  match l with
  | [] => 0
  | x :: t => h i x + 2 ^ 32 * sum_val h (S i) t
  end.

Definition carry_step (h : nat -> Z -> Z) (f : Z -> nat -> Z -> Z * Z) : Prop :=
  forall c i x, f c i x = let n := u64 (c + h i x) in (Z.shiftr n 32, Z.land n 0xffffffff).

(** A sweep whose 64-bit accumulator never overflows computes the sum of the
    contributions, up to the last carry. *)
Lemma scan_carry h f l :
  carry_step h f ->
  (forall i x, is_u32 x -> 0 <= h i x <= 2 ^ 64 - 2 ^ 32) ->
  Forall is_u32 l ->
  forall c i, is_u32 c ->
  let '(c', l') := scan f c i l in
  is_u32 c' /\ Forall is_u32 l' /\
  limbs_val l' + base (length l) * c' = c + sum_val h i l.
Proof.
  intros Hf Hh. induction 1 as [|x t Hx Ht IH]; intros c i Hc.
  - cbn [scan length limbs_val sum_val]. rewrite base_0.
    split; [assumption|split; [constructor|lia]].
  - cbn [scan]. rewrite Hf. cbv zeta. specialize (Hh i x Hx) as B.
    rewrite u64_small by (unfold_words; lia).
    rewrite Z.shiftr_div_pow2, land_ffffffff by lia.
    set (n := c + h i x). assert (Hn : 0 <= n < 2 ^ 64) by (unfold n; unfold_words; lia).
    assert (Hq : is_u32 (n / 2 ^ 32)) by (unfold_words; split; [apply Z.div_pos|apply Z.div_lt_upper_bound]; lia).
    specialize (IH (n / 2 ^ 32) (S i) Hq).
    destruct (scan f (n / 2 ^ 32) (S i) t) as [c' l']. destruct IH as (I1 & I2 & I3).
    split; [assumption|split].
    + constructor; [apply (u32_range n)|assumption].
    + cbn [limbs_val length sum_val]. rewrite base_S.
      pose proof (Z.div_mod n (2 ^ 32) ltac:(lia)) as E. unfold n in *. lia.
Qed.

Lemma length_sweep {C} off n (f : C -> nat -> Z -> C * Z) c l :
  length (snd (sweep off n f c l)) = length l.
Proof.
  unfold sweep. generalize (seq 0 n) as ks. intros ks; revert c l.
  induction ks as [|i ks IH]; intros c l; [reflexivity|]. cbn [fold_left].
  destruct (f c i (nth (off + i) l 0)) as [c' x]. now rewrite IH, length_upd.
Qed.

Lemma sweep_carry_mod h f a v :
  carry_step h f ->
  (forall i x, is_u32 x -> 0 <= h i x <= 2 ^ 64 - 2 ^ 32) ->
  wf a -> sum_val h 0 a = v ->
  wf (snd (sweep 0 WIDTH f 0 a)) /\ limbs_val (snd (sweep 0 WIDTH f 0 a)) = v mod M256.
Proof.
  intros Hf Hh [Hl Ha] <-. rewrite sweep_all by assumption.
  pose proof (scan_carry h f a Hf Hh Ha 0 0%nat ltac:(unfold_words; lia)) as E.
  pose proof (length_scan f a 0 0%nat) as Hlen.
  destruct (scan f 0 0 a) as [c' l']. destruct E as (_ & E1 & E2). cbn [snd] in *.
  rewrite Hl, base_WIDTH in E2. assert (W : wf l') by (split; congruence).
  split; [assumption|]. apply Z.mod_unique_pos with (q := c'); [now apply wf_val_range|lia].
Qed.

(** ** Addition, subtraction and multiplication *)

Lemma sum_val_add b i l :
  sum_val (fun i x => x + limb b i) i l =
  limbs_val l + limbs_val (map (limb b) (seq i (length l))).
Proof.
  revert i; induction l as [|x t IH]; intros i; cbn [sum_val limbs_val map seq length]; [lia|].
  rewrite IH. lia.
Qed.

Lemma sum_val_scale k i l : sum_val (fun _ x => k * x) i l = k * limbs_val l.
Proof.
  revert i; induction l as [|x t IH]; intros i; cbn [sum_val limbs_val]; [lia|].
  rewrite IH. lia.
Qed.

Lemma uint_add_spec a b : wf a -> wf b ->
  wf (uint_add a b) /\ limbs_val (uint_add a b) = (limbs_val a + limbs_val b) mod M256.
Proof.
  intros Ha [Hlb Hb]. apply sweep_carry_mod with (h := fun i x => x + limb b i); auto.
  - intros c i x. now rewrite Z.add_assoc.
  - intros i x Hx. pose proof (limb_u32 b i Hb). unfold_words. lia.
  - rewrite sum_val_add, (proj1 Ha), <- Hlb, map_limb_seq. reflexivity.
Qed.

Lemma uint_mul32_spec a b32 : wf a -> is_u32 b32 ->
  wf (uint_mul32 a b32) /\ limbs_val (uint_mul32 a b32) = (limbs_val a * b32) mod M256.
Proof.
  intros Ha Hb. apply sweep_carry_mod with (h := fun _ x => b32 * x); auto.
  - intros c i x. reflexivity.
  - intros i x Hx. unfold_words. nia.
  - rewrite sum_val_scale. lia.
Qed.

Lemma wf_zero : wf uint_zero.
Proof. split; [reflexivity|]. unfold uint_zero, WIDTH. repeat constructor; unfold_words; lia. Qed.

Lemma wf_of_u64 b : wf (uint_of_u64 b).
Proof.
  split; [reflexivity|]. unfold uint_of_u64, WIDTH.
  constructor; [apply u32_range|constructor; [apply u32_range|]].
  repeat constructor; unfold_words; lia.
Qed.

Lemma shiftr32_u32 b : is_u64 b -> is_u32 (Z.shiftr b 32).
Proof.
  intros H. rewrite Z.shiftr_div_pow2 by lia. unfold_words.
  split; [apply Z.div_pos|apply Z.div_lt_upper_bound]; lia.
Qed.

Lemma val_of_u64 b : is_u64 b -> limbs_val (uint_of_u64 b) = b.
Proof.
  intros H. unfold uint_of_u64, WIDTH. cbn [limbs_val]. rewrite limbs_val_repeat0.
  rewrite (u32_small (Z.shiftr b 32)) by (now apply shiftr32_u32).
  rewrite Z.shiftr_div_pow2 by lia. unfold u32. pose proof (Z.div_mod b (2 ^ 32)). lia.
Qed.

Lemma u32_lnot x : is_u32 x -> u32 (Z.lnot x) = 2 ^ 32 - 1 - x.
Proof.
  intros H. pose proof (Z.add_lnot_diag x). unfold_words.
  symmetry. apply Z.mod_unique_pos with (q := -1); lia.
Qed.

Lemma uint_not_spec a : wf a ->
  wf (uint_not a) /\ limbs_val (uint_not a) = M256 - 1 - limbs_val a.
Proof.
  intros [Hl Ha]. unfold uint_not. split; [split|].
  - now rewrite length_map.
  - apply Forall_map. eapply Forall_impl; [|exact Ha]. intros. apply u32_range.
  - rewrite <- base_WIDTH, <- Hl. clear Hl.
    induction Ha as [|x t Hx _ IH]; cbn [map limbs_val length]; [reflexivity|].
    rewrite IH, u32_lnot, base_S by assumption. lia.
Qed.

(** The increment loop adds [base i], from limb [i] on. *)
Lemma inc_loop_spec post pre n i :
  length pre = i -> length post = n -> Forall is_u32 post ->
  exists post', inc_loop n i (pre ++ post) = pre ++ post' /\
    length post' = n /\ Forall is_u32 post' /\
    limbs_val post' = (limbs_val post + 1) mod base n.
Proof.
  intros Hpre Hpost HF. revert pre n i Hpre Hpost.
  induction HF as [|x t Hx Ht IH]; intros pre n i Hpre Hn; subst n; cbn [length inc_loop].
  - exists []. repeat split; auto.
  - unfold limb. rewrite (nth_middle' _ _ _ _ _ Hpre), (upd_middle _ _ _ _ _ Hpre).
    pose proof (limbs_val_range t Ht) as Rt. pose proof (base_pos (length t)) as Bp.
    cbn [limbs_val]. rewrite base_S. destruct (Z.eqb_spec (u32 (x + 1)) 0) as [E|E].
    + assert (x = 2 ^ 32 - 1) as ->.
      { unfold_words. destruct (Z.eq_dec x (2 ^ 32 - 1)); [assumption|].
        rewrite Z.mod_small in E; lia. }
      destruct (IH (pre ++ [0]) (length t) (S i)) as (p & P1 & P2 & P3 & P4); auto.
      { rewrite length_app. simpl. lia. }
      rewrite <- !app_assoc in P1. cbn [app] in P1.
      exists (0 :: p). split; [exact P1|]. repeat split; auto.
      * cbn [length]. lia.
      * constructor; [unfold_words; lia|assumption].
      * cbn [limbs_val]. rewrite P4.
        replace (2 ^ 32 - 1 + 2 ^ 32 * limbs_val t + 1) with (2 ^ 32 * (limbs_val t + 1)) by lia.
        rewrite Z.mul_mod_distr_l by lia. lia.
    + exists (u32 (x + 1) :: t). assert (u32 (x + 1) = x + 1) as R.
      { apply u32_small. unfold_words. destruct (Z.eq_dec x (2 ^ 32 - 1)) as [->|]; [now elim E|lia]. }
      repeat split; auto.
      * constructor; [apply u32_range|assumption].
      * cbn [limbs_val]. rewrite R. rewrite Z.mod_small; [lia|].
        pose proof (u32_range (x + 1)) as U. rewrite R in U. unfold_words. nia.
Qed.

Lemma uint_inc_spec a : wf a ->
  wf (uint_inc a) /\ limbs_val (uint_inc a) = (limbs_val a + 1) mod M256.
Proof.
  intros [Hl Ha].
  destruct (inc_loop_spec a [] WIDTH 0 eq_refl Hl Ha) as (p & P1 & P2 & P3 & P4).
  unfold uint_inc. cbn [app] in P1. rewrite P1. now repeat split.
Qed.

Lemma uint_neg_spec a : wf a ->
  wf (uint_neg a) /\ limbs_val (uint_neg a) = (- limbs_val a) mod M256.
Proof.
  intros Ha. destruct (uint_not_spec a Ha) as [W V].
  destruct (uint_inc_spec _ W) as [W' V']. split; [exact W'|].
  unfold uint_neg. rewrite V', V.
  replace (M256 - 1 - limbs_val a + 1) with (- limbs_val a + 1 * M256) by lia.
  apply Z.mod_add. lia.
Qed.

Lemma uint_sub_spec a b : wf a -> wf b ->
  wf (uint_sub a b) /\ limbs_val (uint_sub a b) = (limbs_val a - limbs_val b) mod M256.
Proof.
  intros Ha Hb. destruct (uint_neg_spec b Hb) as [W V].
  destruct (uint_add_spec a _ Ha W) as [W' V']. split; [exact W'|].
  unfold uint_sub. rewrite V', V, Z.add_mod_idemp_r by lia. f_equal.
Qed.

Lemma sum_val_mul b k i l :
  sum_val (fun i x => x + k * limb b i) i l =
  limbs_val l + k * limbs_val (map (limb b) (seq i (length l))).
Proof.
  revert i; induction l as [|x t IH]; intros i; cbn [sum_val limbs_val map seq length]; [lia|].
  rewrite IH. lia.
Qed.

Lemma firstn_limbs b n : (n <= length b)%nat -> map (limb b) (seq 0 n) = firstn n b.
Proof.
  intros H. rewrite <- (map_limb_seq b) at 2. rewrite firstn_map. f_equal.
  replace (length b) with (n + (length b - n))%nat by lia.
  now rewrite seq_app, firstn_app, length_seq, Nat.sub_diag, app_nil_r, firstn_all2
    by (rewrite length_seq; lia).
Qed.

Lemma limbs_val_firstn n b : Forall is_u32 b -> (n <= length b)%nat ->
  limbs_val (firstn n b) = limbs_val b mod base n.
Proof.
  intros Hb Hn. apply Z.mod_unique_pos with (q := limbs_val (skipn n b)).
  - assert (length (firstn n b) = n) as E by (rewrite length_firstn; lia).
    pose proof (limbs_val_range (firstn n b)) as R. rewrite E in R. apply R.
    now apply Forall_firstn.
  - rewrite <- (firstn_skipn n b) at 1.
    rewrite limbs_val_app, length_firstn, Nat.min_l by lia. lia.
Qed.

Lemma mul_round_spec a b pn j : (j < WIDTH)%nat -> wf a -> wf b -> wf pn ->
  wf (mul_round a b pn j) /\
  limbs_val (mul_round a b pn j) =
    (limbs_val pn + base j * (limb a j * limbs_val b)) mod M256.
Proof.
  intros Hj [Hla Ha] [Hlb Hb] [Hlp Hp].
  rewrite <- (firstn_skipn j pn) in Hp |- *.
  set (pre := firstn j pn) in *. set (mid := skipn j pn) in *.
  assert (Lpre : length pre = j) by (unfold pre; rewrite length_firstn; lia).
  assert (Lmid : length mid = (WIDTH - j)%nat) by (unfold mid; rewrite length_skipn; lia).
  apply Forall_app in Hp as [Hpre Hmid]. unfold mul_round.
  rewrite <- (app_nil_r mid) at 1 2.
  set (f := fun carry i x => _).
  rewrite (sweep_scan f j (WIDTH - j) 0 pre mid [] Lpre Lmid).
  pose proof (scan_carry (fun i x => x + limb a j * limb b i) f mid) as S.
  specialize (S ltac:(intros c i x; unfold f; now rewrite Z.add_assoc)).
  specialize (S ltac:(intros i x Hx; pose proof (limb_u32 a j Ha); pose proof (limb_u32 b i Hb);
                      unfold_words; nia) Hmid 0 0%nat ltac:(unfold_words; lia)).
  pose proof (length_scan f mid 0 0%nat) as L.
  destruct (scan f 0 0 mid) as [c mid']. destruct S as (_ & S2 & S3). cbn [snd] in *.
  rewrite app_nil_r. assert (W : wf (pre ++ mid')).
  { split; [rewrite length_app; lia|now apply Forall_app]. }
  split; [exact W|].
  rewrite sum_val_mul, Lmid, firstn_limbs, limbs_val_firstn in S3 by (auto; lia).
  pose proof (wf_val_range _ W) as R. rewrite limbs_val_app, Lpre in R |- *. rewrite limbs_val_app, Lpre.
  assert (HB : M256 = base j * base (WIDTH - j)) by (rewrite <- base_add, <- base_WIDTH; f_equal; lia).
  pose proof (Z.div_mod (limbs_val b) (base (WIDTH - j)) ltac:(pose proof (base_pos (WIDTH - j)); lia)) as D.
  apply Z.mod_unique_pos with (q := limb a j * (limbs_val b / base (WIDTH - j)) + c); [exact R|].
  rewrite HB. rewrite D at 1. lia.
Qed.

Lemma uint_mul_loop a b n : (n <= WIDTH)%nat -> wf a -> wf b ->
  let pn := fold_left (mul_round a b) (seq 0 n) uint_zero in
  wf pn /\ limbs_val pn = (limbs_val (firstn n a) * limbs_val b) mod M256.
Proof.
  intros Hn Ha Hb. induction n as [|n IH].
  - split; [apply wf_zero|reflexivity].
  - rewrite seq_S, fold_left_app. cbn [fold_left Nat.add]. destruct IH as [W V]; [lia|].
    destruct (mul_round_spec a b _ n ltac:(lia) Ha Hb W) as [W' V']. split; [exact W'|].
    rewrite V', V, Z.add_mod_idemp_l by lia. f_equal.
    assert (firstn (S n) a = firstn n a ++ [limb a n]) as ->.
    { unfold limb. clear -Hn Ha. destruct Ha as [Hl _]. revert n Hn Hl. generalize WIDTH.
      induction a as [|x t IH]; intros w n Hn Hl; simpl in Hl; [lia|].
      destruct n as [|n]; [reflexivity|]. cbn [firstn app nth]. f_equal.
      apply (IH (length t)); simpl in *; lia. }
    rewrite limbs_val_app, length_firstn, Nat.min_l by (destruct Ha; lia).
    cbn [limbs_val]. lia.
Qed.

Lemma uint_mul_spec a b : wf a -> wf b ->
  wf (uint_mul a b) /\ limbs_val (uint_mul a b) = (limbs_val a * limbs_val b) mod M256.
Proof.
  intros Ha Hb. pose proof (uint_mul_loop a b WIDTH ltac:(lia) Ha Hb) as H.
  rewrite firstn_all2 in H by (destruct Ha; lia). exact H.
Qed.

(** ** Shifts *)

(** The two parts of a limb shifted left by [r < 32] bits. *)
Definition lo (r x : Z) : Z := u32 (Z.shiftl x r).
Definition hi (r x : Z) : Z := if r =? 0 then 0 else Z.shiftr x (32 - r).

Fixpoint shl_limbs (r c : Z) (l : list Z) : list Z :=
  match l with
  | [] => []
  | x :: t => Z.lor c (lo r x) :: shl_limbs r (hi r x) t
  end.

Lemma lo_hi r x : 0 <= r < 32 -> is_u32 x ->
  x * 2 ^ r = lo r x + 2 ^ 32 * hi r x /\ is_u32 (lo r x) /\ 0 <= hi r x < 2 ^ r.
Proof.
  intros Hr Hx. unfold lo, hi, u32. rewrite Z.shiftl_mul_pow2 by lia.
  destruct (Z.eqb_spec r 0) as [->|Hr0].
  - change (2 ^ 0) with 1. rewrite Z.mul_1_r, Z.mod_small by exact Hx. unfold_words. lia.
  - rewrite Z.shiftr_div_pow2 by lia.
    assert (2 ^ 32 = 2 ^ (32 - r) * 2 ^ r) as E by (rewrite <- Z.pow_add_r by lia; f_equal; lia).
    assert (0 < 2 ^ r) by (apply Z.pow_pos_nonneg; lia).
    assert (0 < 2 ^ (32 - r)) by (apply Z.pow_pos_nonneg; lia).
    pose proof (Z.div_mod (x * 2 ^ r) (2 ^ 32) ltac:(lia)) as D.
    rewrite E in D at 2. rewrite Z.div_mul_cancel_r in D by lia.
    split; [lia|split; [apply Z.mod_pos_bound; lia|split; [apply Z.div_pos; unfold_words; lia|]]].
    apply Z.div_lt_upper_bound; [lia|]. unfold_words. lia.
Qed.

(** A low part below [2^r] and a multiple of [2^r] have no common bits. *)
Lemma lor_disjoint r c x : 0 <= r -> 0 <= c < 2 ^ r -> x mod 2 ^ r = 0 -> Z.lor c x = c + x.
Proof.
  intros Hr Hc Hx. rewrite <- Z.lxor_lor, <- Z.add_nocarry_lxor; try reflexivity.
  all: apply Z.bits_inj'; intros n Hn; rewrite Z.land_spec, Z.bits_0.
  all: destruct (Z.lt_ge_cases n r) as [Hlt|Hge].
  1,3: replace (Z.testbit x n) with false; [apply andb_false_r|].
  1,2: rewrite <- (Z.mod_pow2_bits_low x r n) by lia; now rewrite Hx, Z.bits_0.
  1,2: rewrite <- (Z.mod_small c (2 ^ r)) by lia; now rewrite Z.mod_pow2_bits_high by lia.
Qed.

Lemma lo_mod r x : 0 <= r < 32 -> lo r x mod 2 ^ r = 0.
Proof.
  intros Hr. unfold lo, u32. rewrite Z.shiftl_mul_pow2 by lia.
  replace (2 ^ 32) with (2 ^ (32 - r) * 2 ^ r) by (rewrite <- Z.pow_add_r by lia; f_equal; lia).
  rewrite Z.mul_mod_distr_r by (apply Z.pow_nonzero; lia).
  apply Z.mod_mul, Z.pow_nonzero; lia.
Qed.

Lemma shl_limbs_spec r l : 0 <= r < 32 -> Forall is_u32 l ->
  forall c, 0 <= c < 2 ^ r ->
  Forall is_u32 (shl_limbs r c l) /\ length (shl_limbs r c l) = length l /\
  exists c', limbs_val (shl_limbs r c l) + base (length l) * c' = c + 2 ^ r * limbs_val l.
Proof.
  intros Hr. induction 1 as [|x t Hx _ IH]; intros c Hc; cbn [shl_limbs length limbs_val].
  - split; [constructor|split; [reflexivity|]]. exists c. rewrite base_0. lia.
  - destruct (lo_hi r x Hr Hx) as (E & Hlo & Hhi). destruct (IH _ Hhi) as (F & L & c' & V).
    rewrite (lor_disjoint r) by (auto using lo_mod; lia).
    assert (is_u32 (c + lo r x)).
    { assert (0 < 2 ^ r) by (apply Z.pow_pos_nonneg; lia).
      pose proof (lo_mod r x Hr) as Hm. apply Z.mod_divide in Hm as [q Hq]; [|lia].
      assert (2 ^ 32 = 2 ^ (32 - r) * 2 ^ r) as E32 by (rewrite <- Z.pow_add_r by lia; f_equal; lia).
      unfold_words. rewrite Hq in Hlo |- *. rewrite E32 in Hlo |- *.
      assert (q < 2 ^ (32 - r)) by (apply Z.mul_lt_mono_pos_r with (p := 2 ^ r); lia). nia. }
    split; [now constructor|split; [lia|]]. exists c'. rewrite base_S. lia.
Qed.

Ltac split_limbs a Ha :=
  let H := fresh in pose proof Ha as H; apply wf_limbs in H;
  destruct H as (?x & ?x & ?x & ?x & ?x & ?x & ?x & ?x & -> & ?H & ?H & ?H & ?H & ?H & ?H & ?H & ?H).

(** The loop of [operator<<=] in closed form. *)
Lemma uint_shl_limbs a k r : wf a -> 0 <= r < 32 ->
  fold_left (shl_round a k r) (seq 0 WIDTH) uint_zero =
  repeat 0 (Nat.min k WIDTH) ++ firstn (WIDTH - k) (shl_limbs r 0 a).
Proof.
  intros Ha Hr. destruct (Nat.lt_ge_cases k 8) as [Hk|Hk].
  - split_limbs a Ha. unfold WIDTH.
    destruct k as [|[|[|[|[|[|[|[|k]]]]]]]]; [..|exfalso; lia]; clear Hk.
    all: unfold shl_round, limb, uint_zero, WIDTH; destruct (r =? 0) eqn:E.
    all: cbn -[Z.lor Z.shiftl Z.shiftr u32 Z.sub]; unfold lo, hi; rewrite ?E.
    all: now rewrite ?Z.lor_0_l.
  - rewrite Nat.min_r by (unfold WIDTH; lia). replace (WIDTH - k)%nat with 0%nat by (unfold WIDTH; lia).
    rewrite app_nil_r. apply fold_left_inv. intros i _. unfold shl_round.
    replace (i + k + 1 <? WIDTH)%nat with false by (symmetry; apply Nat.ltb_ge; unfold WIDTH; lia).
    now replace (i + k <? WIDTH)%nat with false by (symmetry; apply Nat.ltb_ge; unfold WIDTH; lia).
Qed.

Lemma pow_shift s : 0 <= s -> 2 ^ s = base (Z.to_nat (s / 32)) * 2 ^ (s mod 32).
Proof.
  intros Hs. unfold base. pose proof (Z.mod_pos_bound s 32 ltac:(lia)).
  rewrite Z2Nat.id, <- Z.pow_add_r by (try apply Z.div_pos; try apply Z.mul_nonneg_nonneg; try apply Z.div_pos; lia).
  f_equal. apply Z.div_mod. lia.
Qed.

Lemma uint_shl_spec a s : wf a -> 0 <= s ->
  wf (uint_shl a s) /\ limbs_val (uint_shl a s) = (limbs_val a * 2 ^ s) mod M256.
Proof.
  intros Ha Hs. unfold uint_shl. pose proof (Z.mod_pos_bound s 32 ltac:(lia)) as Hr.
  rewrite (pow_shift s Hs). set (k := Z.to_nat (s / 32)). set (r := s mod 32) in *.
  rewrite uint_shl_limbs by assumption. destruct Ha as [Hl Ha].
  assert (0 < 2 ^ r) by (apply Z.pow_pos_nonneg; lia).
  destruct (shl_limbs_spec r a Hr Ha 0 ltac:(lia)) as (F & L & c' & V).
  set (m := Nat.min k WIDTH). assert (Hm : (WIDTH - k = WIDTH - m)%nat) by lia. rewrite Hm.
  assert (W : wf (repeat 0 m ++ firstn (WIDTH - m) (shl_limbs r 0 a))).
  { split.
    - rewrite length_app, repeat_length, length_firstn, L, Hl. lia.
    - apply Forall_app. split; [|now apply Forall_firstn].
      apply Forall_forall. intros x Hx. apply repeat_spec in Hx. subst. unfold_words. lia. }
  split; [exact W|]. pose proof (wf_val_range _ W) as R.
  rewrite limbs_val_app, limbs_val_repeat0, repeat_length, limbs_val_firstn in * by (auto; lia).
  destruct (Nat.le_gt_cases k WIDTH) as [Hk|Hk].
  - replace m with k in * by lia.
    assert (HB : M256 = base k * base (WIDTH - k)) by (rewrite <- base_add, <- base_WIDTH; f_equal; lia).
    replace (limbs_val a * (base k * 2 ^ r)) with (base k * (0 + 2 ^ r * limbs_val a)) by lia.
    rewrite <- V, HB, Z.mul_mod_distr_l by (pose proof (base_pos k); pose proof (base_pos (WIDTH - k)); lia).
    rewrite Hl. replace (base WIDTH) with (base (WIDTH - k) * base k) by (rewrite <- base_add; f_equal; lia).
    rewrite <- Z.mul_assoc, Z.mul_comm, Z.mul_comm with (n := base (WIDTH - k)).
    rewrite Z.mod_add by (pose proof (base_pos (WIDTH - k)); lia). lia.
  - replace m with WIDTH in * by lia. rewrite Nat.sub_diag, base_0, Z.mod_1_r, Z.mul_0_r.
    symmetry. apply Z.mod_divide; [lia|].
    exists (limbs_val a * 2 ^ r * base (k - WIDTH)). rewrite <- base_WIDTH.
    replace (base k) with (base (k - WIDTH) * base WIDTH) by (rewrite <- base_add; f_equal; lia). lia.
Qed.

Definition carry_in (r y : Z) : Z := if r =? 0 then 0 else u32 (Z.shiftl y (32 - r)).

Fixpoint shr_limbs (r : Z) (l : list Z) : list Z :=
  match l with
  | [] => []
  | [x] => [Z.shiftr x r]
  | x :: (y :: _) as t => Z.lor (Z.shiftr x r) (carry_in r y) :: shr_limbs r t
  end.

Lemma carry_in_val r y T : 0 <= r < 32 -> T mod 2 ^ 32 = y ->
  carry_in r y + 2 ^ 32 * (T / 2 ^ r) = 2 ^ (32 - r) * T /\
  carry_in r y mod 2 ^ (32 - r) = 0 /\ is_u32 (carry_in r y).
Proof.
  intros Hr <-. unfold carry_in. assert (0 < 2 ^ (32 - r)) by (apply Z.pow_pos_nonneg; lia).
  destruct (Z.eqb_spec r 0) as [->|Hr0].
  - change (2 ^ 0) with 1. rewrite Z.div_1_r, Z.sub_0_r, Z.mod_0_l by lia. unfold_words. lia.
  - unfold u32. rewrite Z.shiftl_mul_pow2, Z.mul_mod_idemp_l by lia.
    assert (2 ^ 32 = 2 ^ r * 2 ^ (32 - r)) as E by (rewrite <- Z.pow_add_r by lia; f_equal; lia).
    assert (0 < 2 ^ r) by (apply Z.pow_pos_nonneg; lia).
    split; [|split; [|apply Z.mod_pos_bound; lia]].
    + pose proof (Z.div_mod (T * 2 ^ (32 - r)) (2 ^ 32) ltac:(lia)) as D.
      rewrite E in D at 2. rewrite Z.div_mul_cancel_r in D by lia. lia.
    + rewrite E, Z.mul_mod_distr_r by lia. apply Z.mod_mul. lia.
Qed.

Lemma shiftr_lt r x : 0 <= r < 32 -> is_u32 x -> 0 <= Z.shiftr x r < 2 ^ (32 - r).
Proof.
  intros Hr Hx. rewrite Z.shiftr_div_pow2 by lia. unfold_words.
  split; [apply Z.div_pos; [lia|apply Z.pow_pos_nonneg; lia]|].
  apply Z.div_lt_upper_bound; [apply Z.pow_pos_nonneg; lia|].
  rewrite <- Z.pow_add_r by lia. replace (r + (32 - r)) with 32 by lia. lia.
Qed.

Lemma add_div_limb r x T : 0 <= r <= 32 ->
  (x + 2 ^ 32 * T) / 2 ^ r = x / 2 ^ r + 2 ^ (32 - r) * T.
Proof.
  intros Hr. replace (2 ^ 32 * T) with (2 ^ (32 - r) * T * 2 ^ r).
  - apply Z.div_add, Z.pow_nonzero; lia.
  - rewrite <- Z.mul_assoc, (Z.mul_comm T), Z.mul_assoc, <- Z.pow_add_r by lia.
    do 2 f_equal. lia.
Qed.

Lemma shr_limbs_spec r l : 0 <= r < 32 -> Forall is_u32 l ->
  Forall is_u32 (shr_limbs r l) /\ length (shr_limbs r l) = length l /\
  limbs_val (shr_limbs r l) = limbs_val l / 2 ^ r.
Proof.
  intros Hr. induction 1 as [|x t Hx Ht IH]; [repeat split; constructor|].
  pose proof (shiftr_lt r x Hr Hx) as B.
  assert (2 ^ (32 - r) <= 2 ^ 32) by (apply Z.pow_le_mono_r; lia).
  destruct t as [|y t].
  - cbn [shr_limbs limbs_val length]. rewrite Z.mul_0_r, !Z.add_0_r.
    split; [repeat constructor; unfold_words; lia|split; [reflexivity|]].
    apply Z.shiftr_div_pow2. lia.
  - destruct IH as (F & L & V). inversion_clear Ht as [|? ? Hy Ht'].
    destruct (carry_in_val r y (limbs_val (y :: t)) Hr) as (C1 & C2 & C3).
    { cbn [limbs_val]. rewrite Z.mul_comm, Z.mod_add by lia. now apply Z.mod_small. }
    change (shr_limbs r (x :: y :: t)) with
      (Z.lor (Z.shiftr x r) (carry_in r y) :: shr_limbs r (y :: t)).
    rewrite (lor_disjoint (32 - r)) by (auto; lia).
    split; [|split].
    + constructor; [|exact F]. apply Z.mod_divide in C2 as [q Hq]; [|lia].
      assert (2 ^ 32 = 2 ^ r * 2 ^ (32 - r)) as E by (rewrite <- Z.pow_add_r by lia; f_equal; lia).
      unfold_words. rewrite Hq in C3 |- *. rewrite E in C3 |- *.
      assert (q < 2 ^ r) by (apply Z.mul_lt_mono_pos_r with (p := 2 ^ (32 - r)); lia). nia.
    + cbn [length] in *. lia.
    + change (limbs_val (x :: y :: t)) with (x + 2 ^ 32 * limbs_val (y :: t)).
      rewrite add_div_limb, <- C1 by lia. rewrite <- V. cbn [limbs_val].
      rewrite Z.shiftr_div_pow2 by lia. lia.
Qed.

(** The loop of [operator>>=] in closed form. *)
Lemma uint_shr_limbs a k r : wf a ->
  fold_left (shr_round a k r) (seq 0 WIDTH) uint_zero =
  shr_limbs r (skipn k a) ++ repeat 0 (Nat.min k WIDTH).
Proof.
  intros Ha. destruct (Nat.lt_ge_cases k 8) as [Hk|Hk].
  - split_limbs a Ha. unfold WIDTH.
    destruct k as [|[|[|[|[|[|[|[|k]]]]]]]]; [..|exfalso; lia]; clear Hk.
    all: unfold shr_round, limb, uint_zero, WIDTH; destruct (r =? 0) eqn:E.
    all: cbn -[Z.lor Z.shiftl Z.shiftr u32 Z.sub]; unfold carry_in; rewrite ?E.
    all: now rewrite ?Z.lor_0_l, ?Z.lor_0_r.
  - rewrite Nat.min_r by (unfold WIDTH; lia). destruct Ha as [Hl _].
    rewrite skipn_all2 by (rewrite Hl; exact Hk). apply fold_left_inv. intros i Hi.
    apply in_seq in Hi. unfold WIDTH in Hi. unfold shr_round.
    replace (k + 1 <=? i)%nat with false by (symmetry; apply Nat.leb_gt; lia).
    now replace (k <=? i)%nat with false by (symmetry; apply Nat.leb_gt; lia).
Qed.

Lemma limbs_val_skipn n b : Forall is_u32 b -> (n <= length b)%nat ->
  limbs_val (skipn n b) = limbs_val b / base n.
Proof.
  intros Hb Hn. pose proof (limbs_val_firstn n b Hb Hn) as E.
  apply Z.div_unique_pos with (r := limbs_val (firstn n b)).
  - rewrite E. apply Z.mod_pos_bound, base_pos.
  - rewrite <- (firstn_skipn n b) at 1. rewrite limbs_val_app, length_firstn, Nat.min_l; lia.
Qed.

Lemma uint_shr_spec a s : wf a -> 0 <= s ->
  wf (uint_shr a s) /\ limbs_val (uint_shr a s) = limbs_val a / 2 ^ s.
Proof.
  intros Ha Hs. unfold uint_shr. pose proof (Z.mod_pos_bound s 32 ltac:(lia)) as Hr.
  pose proof (wf_val_range a Ha) as R.
  rewrite (pow_shift s Hs). set (k := Z.to_nat (s / 32)). set (r := s mod 32) in *.
  rewrite uint_shr_limbs by assumption. destruct Ha as [Hl Ha].
  destruct (shr_limbs_spec r (skipn k a) Hr (Forall_skipn _ _ _ Ha)) as (F & L & V).
  assert (0 < 2 ^ r) by (apply Z.pow_pos_nonneg; lia). pose proof (base_pos k) as Hb.
  split.
  - split; [rewrite length_app, repeat_length, L, length_skipn; lia|].
    apply Forall_app. split; [exact F|].
    apply Forall_forall. intros x Hx. apply repeat_spec in Hx. subst. unfold_words. lia.
  - rewrite limbs_val_app, limbs_val_repeat0, V, Z.mul_0_r, Z.add_0_r.
    destruct (Nat.le_gt_cases k WIDTH) as [Hk|Hk].
    + rewrite limbs_val_skipn, Z.div_div by (auto; lia). reflexivity.
    + rewrite skipn_all2 by lia. cbn [limbs_val]. rewrite Z.div_0_l by lia.
      symmetry. apply Z.div_small. split; [lia|].
      assert (M256 <= base k) by (rewrite <- base_WIDTH; unfold base; apply Z.pow_le_mono_r; lia).
      nia.
Qed.

(** ** Comparison *)

Lemma firstn_snoc (a : base_uint) n : (n < length a)%nat ->
  firstn (S n) a = firstn n a ++ [limb a n].
Proof.
  unfold limb. revert n; induction a as [|x t IH]; intros n Hn; simpl in Hn; [lia|].
  destruct n as [|n]; [reflexivity|]. cbn [firstn app nth]. f_equal. apply IH. lia.
Qed.

Lemma val_firstn_S a n : (n < length a)%nat ->
  limbs_val (firstn (S n) a) = limbs_val (firstn n a) + base n * limb a n.
Proof.
  intros Hn. rewrite firstn_snoc, limbs_val_app, length_firstn, Nat.min_l by lia.
  cbn [limbs_val]. lia.
Qed.

Lemma val_firstn_range n a : Forall is_u32 a -> (n <= length a)%nat ->
  0 <= limbs_val (firstn n a) < base n.
Proof.
  intros Ha Hn. rewrite limbs_val_firstn by assumption. apply Z.mod_pos_bound, base_pos.
Qed.

Lemma compare_loop_spec n a b : (n <= WIDTH)%nat -> wf a -> wf b ->
  compare_loop n a b =
  match limbs_val (firstn n a) ?= limbs_val (firstn n b) with Lt => -1 | Gt => 1 | Eq => 0 end.
Proof.
  intros Hn [Hla Ha] [Hlb Hb]. induction n as [|n IH]; [reflexivity|].
  cbn [compare_loop]. rewrite !val_firstn_S by lia.
  pose proof (val_firstn_range n a Ha ltac:(lia)). pose proof (val_firstn_range n b Hb ltac:(lia)).
  destruct (Z.ltb_spec (limb a n) (limb b n)) as [L|L].
  { rewrite (proj2 (Z.compare_lt_iff _ _)); [reflexivity|nia]. }
  destruct (Z.gtb_spec (limb a n) (limb b n)) as [G|G].
  { rewrite (proj2 (Z.compare_gt_iff _ _)); [reflexivity|nia]. }
  rewrite IH by lia. replace (limb b n) with (limb a n) by lia.
  now rewrite !(Z.add_comm _ (base n * limb a n)), Z.add_compare_mono_l.
Qed.

Lemma CompareTo_spec a b : wf a -> wf b ->
  CompareTo a b = match limbs_val a ?= limbs_val b with Lt => -1 | Gt => 1 | Eq => 0 end.
Proof.
  intros Ha Hb. unfold CompareTo. rewrite compare_loop_spec by auto.
  rewrite !firstn_all2 by (destruct Ha, Hb; lia). reflexivity.
Qed.

Lemma uint_gt_spec a b : wf a -> wf b -> uint_gt a b = (limbs_val a >? limbs_val b).
Proof.
  intros. unfold uint_gt, Z.gtb at 2. rewrite CompareTo_spec by assumption.
  now destruct (limbs_val a ?= limbs_val b).
Qed.

Lemma uint_ge_spec a b : wf a -> wf b -> uint_ge a b = (limbs_val a >=? limbs_val b).
Proof.
  intros. unfold uint_ge, Z.geb at 2. rewrite CompareTo_spec by assumption.
  now destruct (limbs_val a ?= limbs_val b).
Qed.

Lemma EqualTo_spec a b : wf a -> is_u64 b -> EqualTo a b = (limbs_val a =? b).
Proof.
  intros Ha Hb. pose proof (shiftr32_u32 b Hb) as Hh. split_limbs a Ha. unfold EqualTo, limb, WIDTH.
  cbn [seq forallb Nat.sub nth]. rewrite land_ffffffff.
  pose proof (Z.div_mod b (2 ^ 32) ltac:(lia)) as D. rewrite Z.shiftr_div_pow2 in * by lia.
  pose proof (Z.mod_pos_bound b (2 ^ 32) ltac:(lia)).
  apply eq_true_iff_eq. rewrite !andb_true_iff, !Z.eqb_eq. cbn [limbs_val]. unfold_words. lia.
Qed.

(** ** [bits] *)

Lemma limb_bits_spec n x : 0 < x < 2 ^ (Z.of_nat n + 1) -> limb_bits n x = Z.log2 x + 1.
Proof.
  induction n as [|n IH]; intros Hx.
  - change (Z.of_nat 0 + 1) with 1 in Hx. assert (x = 1) as -> by lia. reflexivity.
  - cbn [limb_bits]. rewrite Z.shiftl_1_l.
    rewrite land_pow2 by lia.
    assert (0 < 2 ^ Z.of_nat (S n)) by (apply Z.pow_pos_nonneg; lia).
    destruct (Z.testbit x (Z.of_nat (S n))) eqn:T.
    + rewrite (proj2 (Z.eqb_neq _ _)) by lia. cbn [negb]. f_equal. symmetry.
      apply Z.log2_unique; [lia|]. split; [|replace (Z.succ (Z.of_nat (S n))) with (Z.of_nat (S n) + 1) by lia; lia].
      destruct (Z.lt_ge_cases x (2 ^ Z.of_nat (S n))) as [L|L]; [|exact L].
      rewrite <- (Z.mod_small x (2 ^ Z.of_nat (S n))) in T by lia.
      rewrite Z.mod_pow2_bits_high in T by lia. discriminate.
    + rewrite Z.eqb_refl. cbn [negb]. apply IH. split; [lia|].
      replace (Z.of_nat n + 1) with (Z.of_nat (S n)) by lia.
      destruct (Z.lt_ge_cases x (2 ^ Z.of_nat (S n))) as [L|L]; [exact L|].
      assert (Z.log2 x = Z.of_nat (S n)) as E.
      { apply Z.log2_unique; [lia|]. replace (Z.succ (Z.of_nat (S n))) with (Z.of_nat (S n) + 1) by lia. lia. }
      pose proof (Z.bit_log2 x ltac:(lia)) as T'. rewrite E in T'. congruence.
Qed.

Lemma bits_loop_spec n a : (n <= WIDTH)%nat -> wf a ->
  let v := limbs_val (firstn n a) in
  bits_loop n a = if v =? 0 then 0 else Z.log2 v + 1.
Proof.
  intros Hn [Hl Ha]. cbv zeta. induction n as [|n IH]; [reflexivity|].
  cbn [bits_loop]. rewrite val_firstn_S, IH by lia.
  pose proof (val_firstn_range n a Ha ltac:(lia)) as R. pose proof (limb_u32 a n Ha) as L.
  pose proof (base_pos n). destruct (Z.eqb_spec (limb a n) 0) as [->|N].
  - now rewrite Z.mul_0_r, Z.add_0_r.
  - cbn [negb]. unfold_words. rewrite limb_bits_spec by (change (Z.of_nat 31 + 1) with 32; lia).
    rewrite (proj2 (Z.eqb_neq _ _)) by nia.
    rewrite Z.add_assoc. f_equal. symmetry. unfold base in *.
    assert (Hlog : 0 <= Z.log2 (limb a n)) by apply Z.log2_nonneg.
    pose proof (Z.log2_spec (limb a n) ltac:(lia)) as S.
    apply Z.log2_unique; [lia|].
    rewrite <- Z.add_succ_r, !Z.pow_add_r by lia. nia.
Qed.

Lemma uint_bits_spec a : wf a ->
  uint_bits a = if limbs_val a =? 0 then 0 else Z.log2 (limbs_val a) + 1.
Proof.
  intros Ha. unfold uint_bits. rewrite bits_loop_spec by auto.
  now rewrite firstn_all2 by (destruct Ha; lia).
Qed.

(** ** Division *)

(** Setting bit [n] of an array whose bits up to [n] are clear adds [2^n]. *)
Lemma set_bit_spec q n : wf q -> (n < 256)%nat -> limbs_val q mod 2 ^ (Z.of_nat n + 1) = 0 ->
  let q' := upd (Z.to_nat (Z.of_nat n / 32))
    (Z.lor (limb q (Z.to_nat (Z.of_nat n / 32))) (Z.shiftl 1 (Z.land (Z.of_nat n) 31))) q in
  wf q' /\ limbs_val q' = limbs_val q + 2 ^ Z.of_nat n.
Proof.
  intros [Hl Hq] Hn Hz. cbv zeta. set (s := Z.of_nat n) in *.
  change 31 with (2 ^ 5 - 1). rewrite land_mask, Z.shiftl_1_l by lia. change (2 ^ 5) with 32.
  pose proof (Z.mod_pos_bound s 32 ltac:(lia)) as Hr. pose proof (pow_shift s ltac:(lia)) as HP.
  assert (Hk : (Z.to_nat (s / 32) < WIDTH)%nat).
  { assert (s / 32 < 8) by (apply Z.div_lt_upper_bound; lia). unfold WIDTH.
    apply Nat2Z.inj_lt. rewrite Z2Nat.id by (apply Z.div_pos; lia). lia. }
  set (k := Z.to_nat (s / 32)) in *. set (r := s mod 32) in *.
  assert (Hsp : s + 1 = 32 * Z.of_nat k + (r + 1)).
  { unfold k, r. rewrite Z2Nat.id by (apply Z.div_pos; lia). pose proof (Z.div_mod s 32). lia. }
  set (pre := firstn k q). set (post := skipn (S k) q). set (x := limb q k).
  assert (Lpre : length pre = k) by (unfold pre; rewrite length_firstn; lia).
  assert (Eq : q = pre ++ x :: post).
  { rewrite <- (firstn_skipn (S k) q). fold post. rewrite firstn_snoc by lia.
    now rewrite <- app_assoc. }
  assert (Hx : is_u32 x) by now apply limb_u32.
  assert (0 < 2 ^ r) by (apply Z.pow_pos_nonneg; lia). pose proof (base_pos k).
  assert (V : limbs_val q = limbs_val pre + base k * (x + 2 ^ 32 * limbs_val post)).
  { rewrite Eq, limbs_val_app, Lpre. reflexivity. }
  assert (Hx0 : x mod 2 ^ (r + 1) = 0).
  { rewrite Hsp, Z.pow_add_r in Hz by lia. fold (base k) in Hz.
    assert (P0 : limbs_val pre = 0).
    { unfold pre. rewrite limbs_val_firstn by (auto; lia).
      rewrite <- (Z.mod_mod_divide _ (base k * 2 ^ (r + 1)) (base k)) by (now exists (2 ^ (r + 1)); lia).
      rewrite Hz. apply Z.mod_0_l. lia. }
    assert (0 < 2 ^ (r + 1)) by (apply Z.pow_pos_nonneg; lia).
    rewrite V, P0, Z.add_0_l, Z.mul_mod_distr_l in Hz by lia.
    apply Z.mul_eq_0 in Hz as [Hz|Hz]; [lia|].
    rewrite <- Hz. replace (2 ^ 32) with (2 ^ (r + 1) * 2 ^ (31 - r)) by (rewrite <- Z.pow_add_r by lia; f_equal; lia).
    rewrite <- Z.mul_assoc, (Z.mul_comm (2 ^ (r + 1))). symmetry. apply Z.mod_add. lia. }
  assert (Hlor : Z.lor x (2 ^ r) = x + 2 ^ r).
  { rewrite Z.lor_comm, (lor_disjoint (r + 1)); try lia.
    rewrite Z.pow_add_r by lia. lia. }
  rewrite Hlor, Eq, (upd_middle _ _ _ _ _ Lpre). split.
  - split; [rewrite <- Hl, Eq, !length_app; reflexivity|].
    rewrite Eq in Hq. apply Forall_app in Hq as [Hq1 Hq2]. inversion_clear Hq2 as [|? ? _ Hp].
    apply Forall_app. split; [assumption|]. constructor; [|assumption].
    assert (2 ^ 32 = 2 ^ (31 - r) * 2 ^ (r + 1)) as E by (rewrite <- Z.pow_add_r by lia; f_equal; lia).
    apply Z.mod_divide in Hx0 as [c Hc]; [|apply Z.pow_nonzero; lia].
    unfold_words. rewrite Hc in Hx |- *. rewrite E in Hx |- *. rewrite Z.pow_add_r in * by lia.
    assert (c < 2 ^ (31 - r)) by nia. nia.
  - rewrite !limbs_val_app, Lpre. cbn [limbs_val]. rewrite HP. lia.
Qed.

(** One round subtracts the aligned divisor when it fits, recording the
    quotient bit. *)
Lemma div_round_spec D n num div q :
  wf num -> wf div -> wf q -> (n < 256)%nat ->
  limbs_val div = D * 2 ^ Z.of_nat n -> limbs_val num < D * 2 ^ (Z.of_nat n + 1) ->
  limbs_val q mod 2 ^ (Z.of_nat n + 1) = 0 ->
  let '(num', q') := div_round (Z.of_nat n) num div q in
  wf num' /\ wf q' /\ limbs_val num' < D * 2 ^ Z.of_nat n /\
  limbs_val q' mod 2 ^ Z.of_nat n = 0 /\
  exists e, limbs_val num = limbs_val num' + e * 2 ^ Z.of_nat n * D /\
            limbs_val q' = limbs_val q + e * 2 ^ Z.of_nat n.
Proof.
  intros Hnum Hdiv Hq Hn Vdiv Bnum Zq. unfold div_round. rewrite uint_ge_spec by assumption.
  set (s := Z.of_nat n) in *. assert (0 < 2 ^ s) by (apply Z.pow_pos_nonneg; lia).
  rewrite Z.pow_add_r in * by lia. change (2 ^ 1) with 2 in *.
  assert (Zq' : (2 ^ s | limbs_val q)).
  { apply (Z.divide_trans _ (2 ^ s * 2)); [now exists 2; lia|]. apply Z.mod_divide; [lia|assumption]. }
  destruct (Z.geb_spec (limbs_val num) (limbs_val div)) as [G|G].
  - destruct (set_bit_spec q n Hq Hn) as [Wq' Vq'].
    { fold s. rewrite Z.pow_add_r by lia. exact Zq. }
    destruct (uint_sub_spec num div Hnum Hdiv) as [Ws Vs].
    rewrite Z.mod_small in Vs by (pose proof (wf_val_range num Hnum); pose proof (wf_val_range div Hdiv); lia).
    fold s in Wq', Vq'. split; [exact Ws|split; [exact Wq'|split; [lia|split]]].
    + rewrite Vq'. apply Z.mod_divide; [lia|]. apply Z.divide_add_r; [assumption|apply Z.divide_refl].
    + exists 1. lia.
  - split; [exact Hnum|split; [exact Hq|split; [lia|split]]].
    + now apply Z.mod_divide; [lia|].
    + exists 0. lia.
Qed.

Lemma div_loop_spec D n : forall num div q,
  wf num -> wf div -> wf q -> (n < 256)%nat -> 0 < D ->
  limbs_val div = D * 2 ^ Z.of_nat n -> limbs_val num < D * 2 ^ (Z.of_nat n + 1) ->
  limbs_val q mod 2 ^ (Z.of_nat n + 1) = 0 ->
  let '(q', num') := div_loop n num div q in
  wf q' /\ limbs_val q' = limbs_val q + limbs_val num / D /\
  wf num' /\ limbs_val num' = limbs_val num mod D.
Proof.
  induction n as [|n IH]; intros num div q Hnum Hdiv Hq Hn HD Vdiv Bnum Zq; cbn [div_loop];
    pose proof (div_round_spec D _ num div q Hnum Hdiv Hq Hn Vdiv Bnum Zq) as R;
    destruct (div_round _ num div q) as [num1 q1]; destruct R as (Wn & Wq & B & Zq1 & e & En & Eq).
  - pose proof (wf_val_range _ Wn). cbn [Z.of_nat] in *. change (2 ^ 0) with 1 in *.
    rewrite En, Z.mul_1_r, Z.div_add, Z.mod_add, Z.div_small, Z.mod_small by lia.
    repeat split; try apply Wq; try apply Wn; lia.
  - destruct (uint_shr_spec div 1 Hdiv ltac:(lia)) as [Wd Vd].
    specialize (IH num1 (uint_shr div 1) q1 Wn Wd Wq ltac:(lia) HD).
    assert (P : 2 ^ Z.of_nat (S n) = 2 ^ Z.of_nat n * 2).
    { rewrite Nat2Z.inj_succ, <- Z.add_1_r, Z.pow_add_r by lia. reflexivity. }
    specialize (IH ltac:(rewrite Vd, Vdiv, P, Z.mul_assoc; apply Z.div_mul; lia)).
    replace (Z.of_nat n + 1) with (Z.of_nat (S n)) in IH by lia.
    specialize (IH B Zq1). destruct (div_loop n _ _ _) as [q' num'].
    destruct IH as (I1 & I2 & I3 & I4).
    split; [exact I1|split; [|split; [exact I3|]]].
    + rewrite I2, Eq, En, Z.div_add by lia. lia.
    + rewrite I4, En, Z.mod_add by lia. reflexivity.
Qed.

Lemma uint_div_spec a b : wf a -> wf b ->
  match uint_div a b with
  | None => limbs_val b = 0
  | Some q => limbs_val b <> 0 /\ wf q /\ limbs_val q = limbs_val a / limbs_val b
  end.
Proof.
  intros Ha Hb. unfold uint_div. rewrite !uint_bits_spec by assumption.
  pose proof (wf_val_range a Ha) as Ra. pose proof (wf_val_range b Hb) as Rb.
  destruct (Z.eqb_spec (limbs_val b) 0) as [Zb|Nb]; [exact Zb|].
  pose proof (Z.log2_nonneg (limbs_val b)) as Lb. pose proof (Z.log2_spec (limbs_val b) ltac:(lia)) as Sb.
  rewrite (proj2 (Z.eqb_neq _ _)) by lia. destruct (Z.eqb_spec (limbs_val a) 0) as [Za|Na].
  { rewrite (proj2 (Z.gtb_gt _ _)) by lia. split; [assumption|split; [apply wf_zero|]].
    rewrite Za, Z.div_0_l by lia. reflexivity. }
  pose proof (Z.log2_spec (limbs_val a) ltac:(lia)) as Sa.
  assert (La : 0 <= Z.log2 (limbs_val a) < 256) by (split; [apply Z.log2_nonneg|apply Z.log2_lt_pow2; lia]).
  set (la := Z.log2 (limbs_val a)) in *. set (lb := Z.log2 (limbs_val b)) in *.
  destruct (Z.gtb_spec (lb + 1) (la + 1)) as [G|G].
  { split; [assumption|split; [apply wf_zero|]]. rewrite Z.div_small; [reflexivity|].
    assert (2 ^ Z.succ la <= 2 ^ lb) by (apply Z.pow_le_mono_r; lia). lia. }
  replace (la + 1 - (lb + 1)) with (la - lb) by lia. set (sh := la - lb).
  destruct (uint_shl_spec b sh Hb ltac:(lia)) as [Wd Vd].
  assert (Psh : 0 < 2 ^ sh) by (apply Z.pow_pos_nonneg; lia).
  assert (Hsh : 2 ^ Z.succ la = 2 ^ Z.succ lb * 2 ^ sh) by (rewrite <- Z.pow_add_r by lia; f_equal; lia).
  assert (2 ^ Z.succ la <= M256) by (apply Z.pow_le_mono_r; lia).
  rewrite Z.mod_small in Vd by nia.
  pose proof (div_loop_spec (limbs_val b) (Z.to_nat sh) a (uint_shl b sh) uint_zero Ha Wd wf_zero
                ltac:(lia) ltac:(lia)) as L.
  rewrite Z2Nat.id in L by lia. specialize (L Vd).
  rewrite Z.pow_succ_r in * by lia. rewrite Z.pow_add_r in L by lia.
  assert (2 ^ lb * 2 ^ sh <= limbs_val b * 2 ^ sh) by (apply Z.mul_le_mono_nonneg_r; lia).
  rewrite Z.pow_succ_r in Hsh by lia. change (2 ^ 1) with 2 in L. specialize (L ltac:(lia) ltac:(reflexivity)).
  destruct (div_loop _ _ _ _) as [q r]. cbn [fst]. destruct L as (L1 & L2 & _).
  split; [assumption|split; [exact L1|]]. rewrite L2. reflexivity.
Qed.

(** ** The compact representation *)

Lemma uint_of_u64_small z : 0 <= z < 2 ^ 64 -> wf (uint_of_u64 z) /\ limbs_val (uint_of_u64 z) = z.
Proof. intros H. split; [apply wf_of_u64|now apply val_of_u64]. Qed.

(** The mantissa and the exponent of a compact word. *)
Definition compact_exp (c : Z) : Z := c / 2 ^ 24.
Definition compact_mant (c : Z) : Z := c mod 2 ^ 23.

(** The integer a compact word denotes, sign and width apart. *)
Definition compact_val (c : Z) : Z :=
  if compact_exp c <=? 3 then compact_mant c / 256 ^ (3 - compact_exp c)
  else compact_mant c * 256 ^ (compact_exp c - 3).

Lemma pow256 k : 0 <= k -> 2 ^ (8 * k) = 256 ^ k.
Proof. intros. now rewrite Z.pow_mul_r by lia. Qed.

(** The overflow test of [SetCompact] on the stored mantissa and exponent. *)
Lemma compact_overflow m e : 0 <= m < 2 ^ 23 -> 3 < e ->
  negb (m =? 0) && ((e >? 34) || ((m >? 0xff) && (e >? 33)) || ((m >? 0xffff) && (e >? 32)))
    = true <-> M256 <= m * 256 ^ (e - 3).
Proof.
  intros Hm He. change M256 with (256 ^ 32).
  assert (P : 0 < 256 ^ (e - 3)) by (apply Z.pow_pos_nonneg; lia).
  destruct (Z.eqb_spec m 0) as [->|Nm]; [cbn; split; [discriminate|lia]|]. cbn [negb andb].
  rewrite !orb_true_iff, !andb_true_iff, !Z.gtb_lt. split.
  - assert (Hge : forall k, k <= e - 3 -> 256 ^ k <= 256 ^ (e - 3))
      by (intros; apply Z.pow_le_mono_r; lia).
    intros [[H|[H H']]|[H H']].
    + specialize (Hge 32 ltac:(lia)). nia.
    + specialize (Hge 31 ltac:(lia)). change (256 ^ 32) with (256 * 256 ^ 31). nia.
    + specialize (Hge 30 ltac:(lia)). change (256 ^ 32) with (65536 * 256 ^ 30). nia.
  - assert (Hle : forall k, e - 3 <= k -> 256 ^ (e - 3) <= 256 ^ k)
      by (intros; apply Z.pow_le_mono_r; lia).
    intros H. destruct (Z.lt_ge_cases 34 e); [now left; left|].
    destruct (Z.lt_ge_cases 33 e); [left; right|right; destruct (Z.lt_ge_cases 32 e)].
    + replace (e - 3) with 31 in H by lia. change (256 ^ 32) with (256 * 256 ^ 31) in H. lia.
    + replace (e - 3) with 30 in H by lia. change (256 ^ 32) with (65536 * 256 ^ 30) in H. lia.
    + specialize (Hle 29 ltac:(lia)). change (256 ^ 32) with (2 ^ 24 * 256 ^ 29) in H. nia.
Qed.

Lemma SetCompact_spec c : is_u32 c ->
  let '(t, neg, ovf) := SetCompact c in
  wf t /\ limbs_val t = compact_val c mod M256 /\
  (neg = true <-> compact_val c <> 0 /\ Z.testbit c 23 = true) /\
  (ovf = true <-> M256 <= compact_val c).
Proof.
  intros Hc. unfold SetCompact. rewrite Z.shiftr_div_pow2 by lia.
  change 0x007fffff with (2 ^ 23 - 1). rewrite land_mask by lia.
  change 0x00800000 with (2 ^ 23). rewrite land_pow2 by lia.
  unfold compact_val, compact_exp, compact_mant.
  assert (He : 0 <= c / 2 ^ 24 < 256)
    by (unfold_words; split; [apply Z.div_pos|apply Z.div_lt_upper_bound]; lia).
  pose proof (Z.mod_pos_bound c (2 ^ 23) ltac:(lia)) as Hm.
  set (e := c / 2 ^ 24) in *. set (m := c mod 2 ^ 23) in *.
  destruct (Z.leb_spec e 3) as [H3|H3].
  - rewrite Z.shiftr_div_pow2, pow256 by lia.
    assert (0 < 256 ^ (3 - e)) by (apply Z.pow_pos_nonneg; lia).
    assert (Hq : 0 <= m / 256 ^ (3 - e) < 2 ^ 23)
      by (split; [apply Z.div_pos; lia|apply Z.div_lt_upper_bound; nia]).
    destruct (uint_of_u64_small (m / 256 ^ (3 - e)) ltac:(lia)) as [W V].
    rewrite Z.mod_small by lia. set (q := m / 256 ^ (3 - e)) in *.
    split; [exact W|split; [exact V|split]].
    + destruct (Z.testbit c 23), (Z.eqb_spec q 0); cbn; intuition congruence.
    + assert ((e >? 34) = false) as -> by lia. assert ((e >? 33) = false) as -> by lia.
      assert ((e >? 32) = false) as -> by lia. rewrite !andb_false_r. split; [discriminate|lia].
  - destruct (uint_of_u64_small m ltac:(lia)) as [W V].
    destruct (uint_shl_spec (uint_of_u64 m) (8 * (e - 3)) W ltac:(lia)) as [W' V'].
    rewrite V, pow256 in V' by lia.
    assert (P : 0 < 256 ^ (e - 3)) by (apply Z.pow_pos_nonneg; lia).
    split; [exact W'|split; [exact V'|split; [|now apply compact_overflow]]].
    destruct (Z.testbit c 23), (Z.eqb_spec m 0); cbn; split; intros; try discriminate; try tauto;
      try (split; [nia|reflexivity]); nia.
Qed.

Lemma GetLow64_spec a : wf a -> GetLow64 a = limbs_val a mod 2 ^ 64.
Proof.
  intros Ha. split_limbs a Ha. unfold GetLow64, limb. cbn [nth limbs_val].
  rewrite Z.shiftl_mul_pow2, u64_small by (unfold_words; lia).
  rewrite (lor_disjoint 32) by (unfold_words; rewrite ?Z.mod_mul; lia).
  symmetry. unfold_words.
  match goal with |- (?x + 2 ^ 32 * (?y + 2 ^ 32 * ?r)) mod _ = _ =>
    symmetry; apply Z.mod_unique_pos with (q := r); lia end.
Qed.

(** The number of significant bytes. *)
Lemma nbytes_spec v : 0 < v -> let n := (Z.log2 v + 1 + 7) / 8 in
  1 <= n /\ 256 ^ (n - 1) <= v < 256 ^ n.
Proof.
  intros Hv. cbv zeta. pose proof (Z.log2_nonneg v). pose proof (Z.log2_spec v Hv) as S.
  set (l := Z.log2 v) in *. pose proof (Z.div_mod (l + 1 + 7) 8 ltac:(lia)) as D.
  pose proof (Z.mod_pos_bound (l + 1 + 7) 8 ltac:(lia)). set (n := (l + 1 + 7) / 8) in *.
  split; [lia|]. rewrite <- !pow256 by lia.
  assert (2 ^ (8 * (n - 1)) <= 2 ^ l) by (apply Z.pow_le_mono_r; lia).
  assert (2 ^ Z.succ l <= 2 ^ (8 * n)) by (apply Z.pow_le_mono_r; lia). lia.
Qed.

(** The leading three bytes, before the sign bit is made room for. *)
Lemma leading_bytes a v n : wf a -> limbs_val a = v -> 1 <= n ->
  256 ^ (n - 1) <= v < 256 ^ n ->
  let m := if n <=? 3 then u32 (Z.shiftl (GetLow64 a) (8 * (3 - n)))
           else u32 (GetLow64 (uint_shr a (8 * (n - 3)))) in
  2 ^ 16 <= m < 2 ^ 24 /\ m = if n <=? 3 then v * 256 ^ (3 - n) else v / 256 ^ (n - 3).
Proof.
  intros Ha Hv Hn B. cbv zeta. destruct (Z.leb_spec n 3) as [H3|H3].
  - assert (B64 : 256 ^ n <= 256 ^ 3) by (apply Z.pow_le_mono_r; lia).
    rewrite GetLow64_spec, Hv, (Z.mod_small v) by (auto; lia).
    rewrite Z.shiftl_mul_pow2, pow256 by lia.
    assert (E : 256 ^ (n - 1) * 256 ^ (3 - n) = 256 ^ 2) by (rewrite <- Z.pow_add_r by lia; f_equal; lia).
    assert (E' : 256 ^ n * 256 ^ (3 - n) = 256 ^ 3) by (rewrite <- Z.pow_add_r by lia; f_equal; lia).
    assert (0 < 256 ^ (3 - n)) by (apply Z.pow_pos_nonneg; lia).
    assert (2 ^ 16 <= v * 256 ^ (3 - n) < 2 ^ 24) by nia.
    rewrite u32_small by (unfold_words; lia). now split.
  - destruct (uint_shr_spec a (8 * (n - 3)) Ha ltac:(lia)) as [W V].
    rewrite pow256, Hv in V by lia. assert (0 < 256 ^ (n - 3)) by (apply Z.pow_pos_nonneg; lia).
    assert (E : 256 ^ (n - 1) = 256 ^ (n - 3) * 256 ^ 2) by (rewrite <- Z.pow_add_r by lia; f_equal; lia).
    assert (E' : 256 ^ n = 256 ^ (n - 3) * 256 ^ 3) by (rewrite <- Z.pow_add_r by lia; f_equal; lia).
    assert (2 ^ 16 <= v / 256 ^ (n - 3) < 2 ^ 24).
    { split; [apply Z.div_le_lower_bound|apply Z.div_lt_upper_bound]; lia. }
    rewrite GetLow64_spec, V, (Z.mod_small _ (2 ^ 64)), u32_small by (auto; unfold_words; lia).
    now split.
Qed.

Lemma testbit_top m k : 0 <= k -> 0 <= m < 2 ^ (k + 1) -> Z.testbit m k = (2 ^ k <=? m).
Proof.
  intros Hk Hm. assert (0 < 2 ^ k) by (apply Z.pow_pos_nonneg; lia).
  rewrite Z.pow_add_r in Hm by lia. change (2 ^ 1) with 2 in Hm.
  destruct (Z.leb_spec (2 ^ k) m) as [L|L].
  - apply Z.testbit_true; [lia|]. replace (m / 2 ^ k) with 1; [reflexivity|].
    apply Z.div_unique_pos with (m - 2 ^ k); lia.
  - apply Z.testbit_false; [lia|]. now rewrite Z.div_small.
Qed.

Lemma compact_join m n : 0 <= m < 2 ^ 24 -> 0 <= n < 256 ->
  Z.lor (Z.lor m (u32 (Z.shiftl n 24))) 0 = m + 2 ^ 24 * n.
Proof.
  intros Hm Hn. rewrite Z.lor_0_r, Z.shiftl_mul_pow2, u32_small by (unfold_words; lia).
  rewrite (lor_disjoint 24) by (rewrite ?Z.mod_mul; lia). lia.
Qed.

Lemma GetCompact_shape a : wf a -> exists m n,
  GetCompact a false = m + 2 ^ 24 * n /\ 0 <= n <= 33 /\ 0 <= m < 2 ^ 23 /\
  (2 ^ 15 <= m \/ n = 0) /\
  m = if n <=? 3 then limbs_val a * 256 ^ (3 - n) else limbs_val a / 256 ^ (n - 3).
Proof.
  intros Ha. unfold GetCompact. rewrite uint_bits_spec by assumption.
  pose proof (wf_val_range a Ha) as R. remember (limbs_val a) as v eqn:Hv. symmetry in Hv.
  destruct (Z.eqb_spec v 0) as [->|Nv].
  { exists 0, 0. change ((0 + 7) / 8) with 0. cbn [Z.leb Z.compare].
    rewrite GetLow64_spec, Hv by assumption. repeat split; try lia; reflexivity. }
  destruct (nbytes_spec v ltac:(lia)) as [Hn B]. set (n := (Z.log2 v + 1 + 7) / 8) in *.
  assert (Hn32 : n <= 32).
  { destruct (Z.le_gt_cases n 32); [assumption|].
    assert (256 ^ 32 <= 256 ^ (n - 1)) by (apply Z.pow_le_mono_r; lia). change M256 with (256 ^ 32) in R. lia. }
  destruct (leading_bytes a v n Ha Hv Hn B) as [Bm Em].
  cbv zeta. revert Bm Em.
  generalize (if n <=? 3 then u32 (Z.shiftl (GetLow64 a) (8 * (3 - n)))
              else u32 (GetLow64 (uint_shr a (8 * (n - 3))))) as m. intros m Bm Em.
  change 0x00800000 with (2 ^ 23). rewrite land_pow2, testbit_top by lia.
  destruct (Z.leb_spec (2 ^ 23) m) as [T|T]; cbn [negb Z.eqb].
  - change (negb (2 ^ 23 =? 0)) with true. cbv iota.
    rewrite Z.shiftr_div_pow2 by lia. change (2 ^ 8) with 256.
    assert (2 ^ 15 <= m / 256 < 2 ^ 16) by (split; [apply Z.div_le_lower_bound|apply Z.div_lt_upper_bound]; lia).
    exists (m / 256), (n + 1). rewrite compact_join by lia. repeat split; try lia.
    rewrite Em. destruct (Z.leb_spec n 3), (Z.leb_spec (n + 1) 3); try lia.
    + replace (3 - n) with (3 - (n + 1) + 1) by lia. rewrite Z.pow_add_r, Z.mul_assoc by lia.
      apply Z.div_mul. lia.
    + replace n with 3 by lia. change (256 ^ (3 - 3)) with 1. now rewrite Z.mul_1_r.
    + rewrite Z.div_div by (try apply Z.pow_pos_nonneg; lia).
      f_equal. change 256 with (256 ^ 1) at 2. rewrite <- Z.pow_add_r by lia. f_equal. lia.
  - exists m, n. rewrite compact_join by lia. repeat split; try lia.
Qed.

Lemma compact_parts m n : 0 <= m < 2 ^ 23 -> 0 <= n ->
  compact_exp (m + 2 ^ 24 * n) = n /\ compact_mant (m + 2 ^ 24 * n) = m /\
  Z.testbit (m + 2 ^ 24 * n) 23 = false.
Proof.
  intros Hm Hn. unfold compact_exp, compact_mant. repeat split.
  - rewrite Z.mul_comm, Z.div_add, Z.div_small; lia.
  - replace (2 ^ 24 * n) with (2 * n * 2 ^ 23) by lia. rewrite Z.mod_add, Z.mod_small; lia.
  - apply Z.testbit_false; [lia|]. replace (2 ^ 24 * n) with (2 * n * 2 ^ 23) by lia.
    rewrite Z.div_add, Z.div_small, Z.add_0_l, Z.mul_comm by lia. reflexivity || now apply Z.mod_mul.
Qed.

(** [GetCompact] keeps the leading bytes: decoding gives back the value
    truncated to a multiple of [256^k], with at least 16 significant bits. *)
Lemma compact_truncates a : wf a ->
  let c := GetCompact a false in
  let k := Z.max 0 (compact_exp c - 3) in
  let '(t, neg, ovf) := SetCompact c in
  is_u32 c /\ neg = false /\ ovf = false /\ wf t /\
  limbs_val t = limbs_val a / 256 ^ k * 256 ^ k /\
  (k = 0 \/ 2 ^ 15 * 256 ^ k <= limbs_val t).
Proof.
  intros Ha. destruct (GetCompact_shape a Ha) as (m & n & -> & Hn & Hm & Hm' & Em). cbv zeta.
  destruct (compact_parts m n Hm ltac:(lia)) as (E1 & E2 & E3).
  assert (Hc : is_u32 (m + 2 ^ 24 * n)) by (unfold_words; lia).
  pose proof (SetCompact_spec _ Hc) as S. destruct (SetCompact _) as [[t neg] ovf].
  destruct S as (W & V & Sn & So). unfold compact_val in *. rewrite E1, E2, E3 in *.
  pose proof (wf_val_range a Ha) as R. set (v := limbs_val a) in *.
  assert (Ev : (if n <=? 3 then m / 256 ^ (3 - n) else m * 256 ^ (n - 3)) =
               v / 256 ^ Z.max 0 (n - 3) * 256 ^ Z.max 0 (n - 3)).
  { rewrite Em. destruct (Z.leb_spec n 3).
    - rewrite Z.max_l, Z.div_mul by (try apply Z.pow_nonzero; lia).
      change (256 ^ 0) with 1. now rewrite Z.div_1_r, Z.mul_1_r.
    - now rewrite Z.max_r by lia. }
  rewrite Ev in *. set (k := Z.max 0 (n - 3)) in *.
  assert (P : 0 < 256 ^ k) by (apply Z.pow_pos_nonneg; lia).
  pose proof (Z.mul_div_le v (256 ^ k) P). pose proof (Z.div_pos v (256 ^ k) ltac:(lia) P).
  rewrite Z.mod_small in V by nia.
  split; [exact Hc|split; [|split; [|split; [exact W|split; [exact V|]]]]].
  - destruct neg; [|reflexivity]. destruct (proj1 Sn eq_refl). discriminate.
  - destruct ovf; [|reflexivity]. pose proof (proj1 So eq_refl). nia.
  - destruct (Z.leb_spec n 3) as [H3|H3]; [left; lia|right].
    assert (k = n - 3) as -> by lia. rewrite V. nia.
Qed.

(** ** Decrement *)

Lemma dec_loop_spec post pre n i :
  length pre = i -> length post = n -> Forall is_u32 post ->
  exists post', dec_loop n i (pre ++ post) = pre ++ post' /\
    length post' = n /\ Forall is_u32 post' /\
    limbs_val post' = (limbs_val post - 1) mod base n.
Proof.
  intros Hpre Hpost HF. revert pre n i Hpre Hpost.
  induction HF as [|x t Hx Ht IH]; intros pre n i Hpre Hn; subst n; cbn [length dec_loop].
  - exists []. repeat split; auto.
  - unfold limb. rewrite (nth_middle' _ _ _ _ _ Hpre), (upd_middle _ _ _ _ _ Hpre).
    pose proof (limbs_val_range t Ht) as Rt. pose proof (base_pos (length t)) as Bp.
    cbn [limbs_val]. rewrite base_S. change (u32 (-1)) with (2 ^ 32 - 1).
    destruct (Z.eq_dec x 0) as [->|Nx].
    + change (u32 (0 - 1)) with (2 ^ 32 - 1). rewrite Z.eqb_refl.
      destruct (IH (pre ++ [2 ^ 32 - 1]) (length t) (S i)) as (p & P1 & P2 & P3 & P4); auto.
      { rewrite length_app. simpl. lia. }
      rewrite <- !app_assoc in P1. cbn [app] in P1.
      exists (2 ^ 32 - 1 :: p). split; [exact P1|]. repeat split; auto.
      * cbn [length]. lia.
      * constructor; [unfold_words; lia|assumption].
      * cbn [limbs_val]. rewrite P4.
        apply Z.mod_unique_pos with (q := (limbs_val t - 1) / base (length t)).
        -- pose proof (Z.mod_pos_bound (limbs_val t - 1) (base (length t)) Bp). lia.
        -- pose proof (Z.div_mod (limbs_val t - 1) (base (length t)) ltac:(lia)). lia.
    + assert (u32 (x - 1) = x - 1) as R by (apply u32_small; unfold_words; lia).
      rewrite R, (proj2 (Z.eqb_neq _ _)) by (unfold_words; lia).
      exists (x - 1 :: t). repeat split; auto.
      * constructor; [unfold_words; lia|assumption].
      * cbn [limbs_val]. rewrite Z.mod_small; unfold_words; nia.
Qed.

Lemma uint_dec_spec a : wf a ->
  wf (uint_dec a) /\ limbs_val (uint_dec a) = (limbs_val a - 1) mod M256.
Proof.
  intros [Hl Ha].
  destruct (dec_loop_spec a [] WIDTH 0 eq_refl Hl Ha) as (p & P1 & P2 & P3 & P4).
  unfold uint_dec. cbn [app] in P1. rewrite P1. now repeat split.
Qed.

(** ** Byte representation *)

(** The little-endian value of a byte string. *)
Fixpoint le_val (l : list Z) : Z :=
  match l with
  | [] => 0
  | b :: t => b + 2 ^ 8 * le_val t
  end.

Lemma WriteLE32_spec x : is_u32 x ->
  Forall is_u8 (WriteLE32 x) /\ le_val (WriteLE32 x) = x.
Proof.
  intros Hx. unfold WriteLE32. split; [repeat constructor; apply u8_range|].
  cbn [le_val]. unfold_words. rewrite !Z.shiftr_div_pow2 by lia.
  change (2 ^ 16) with (2 ^ 8 * 2 ^ 8). change (2 ^ 24) with (2 ^ 8 * 2 ^ 8 * 2 ^ 8).
  rewrite <- !Z.div_div by lia.
  pose proof (Z.div_mod x (2 ^ 8) ltac:(lia)) as D1.
  pose proof (Z.div_mod (x / 2 ^ 8) (2 ^ 8) ltac:(lia)) as D2.
  pose proof (Z.div_mod (x / 2 ^ 8 / 2 ^ 8) (2 ^ 8) ltac:(lia)) as D3.
  assert (0 <= x / 2 ^ 8 / 2 ^ 8 / 2 ^ 8 < 2 ^ 8).
  { rewrite !Z.div_div by lia. split; [apply Z.div_pos; lia|apply Z.div_lt_upper_bound; lia]. }
  rewrite (Z.mod_small (x / 2 ^ 8 / 2 ^ 8 / 2 ^ 8)) by lia. lia.
Qed.

Lemma uint256_roundtrip a : wf a -> UintToArith256 (ArithToUint256 a) = a.
Proof.
  intros Ha. split_limbs a Ha. unfold UintToArith256, ArithToUint256, WIDTH, ReadLE32.
  cbn -[Z.add Z.mul Z.pow u8 Z.shiftr].
  repeat match goal with H : is_u32 ?x |- context [?x] => apply WriteLE32_spec in H as [_ H];
    cbn [WriteLE32 le_val] in H end.
  repeat f_equal; lia.
Qed.

Lemma ReadLE32_spec b0 b1 b2 b3 :
  is_u8 b0 -> is_u8 b1 -> is_u8 b2 -> is_u8 b3 ->
  is_u32 (b0 + 2 ^ 8 * b1 + 2 ^ 16 * b2 + 2 ^ 24 * b3).
Proof. unfold_words. lia. Qed.

Lemma UintToArith256_spec h : length h = 32%nat -> Forall is_u8 h ->
  wf (UintToArith256 h) /\ limbs_val (UintToArith256 h) = le_val h.
Proof.
  intros Hl Hh. do 32 (destruct h as [|? h]; [discriminate|]). destruct h; [clear Hl|discriminate].
  repeat match goal with H : Forall _ (_ :: _) |- _ => inversion_clear H end.
  unfold UintToArith256, WIDTH, ReadLE32. cbn -[Z.add Z.mul Z.pow]. split.
  - split; [reflexivity|]. repeat (constructor; [now apply ReadLE32_spec|]). constructor.
  - lia.
Qed.

(** * Properties *)

(** the limb-by-limb addition, subtraction, negation, increment, decrement
    and both multiplications of [base_uint<256>] compute in the ring of
    integers modulo [2^256], and keep every limb a 32-bit word: no 64-bit
    accumulator of the carry loops overflows. *)
Theorem uint256_ring a b w : wf a -> wf b -> is_u32 w ->
  (wf (uint_add a b) /\ limbs_val (uint_add a b) = (limbs_val a + limbs_val b) mod M256) /\
  (wf (uint_sub a b) /\ limbs_val (uint_sub a b) = (limbs_val a - limbs_val b) mod M256) /\
  (wf (uint_neg a) /\ limbs_val (uint_neg a) = (- limbs_val a) mod M256) /\
  (wf (uint_inc a) /\ limbs_val (uint_inc a) = (limbs_val a + 1) mod M256) /\
  (wf (uint_dec a) /\ limbs_val (uint_dec a) = (limbs_val a - 1) mod M256) /\
  (wf (uint_mul32 a w) /\ limbs_val (uint_mul32 a w) = (limbs_val a * w) mod M256) /\
  (wf (uint_mul a b) /\ limbs_val (uint_mul a b) = (limbs_val a * limbs_val b) mod M256).
Proof.
  auto 12 using uint_add_spec, uint_sub_spec, uint_neg_spec, uint_inc_spec, uint_dec_spec,
    uint_mul32_spec, uint_mul_spec.
Qed.

Lemma uint256_ring_witness :
  let a := uint_not uint_zero in let b := uint_of_u64 7 in
  limbs_val (uint_add a b) = 6 /\ limbs_val (uint_mul a b) = M256 - 7.
Proof.
  assert (Ha : wf (uint_not uint_zero)) by (apply uint_not_spec, wf_zero).
  pose proof (uint256_ring _ _ 3 Ha (wf_of_u64 7) ltac:(unfold_words; lia)) as H.
  destruct H as ((_ & H1) & _ & _ & _ & _ & _ & (_ & H2)). cbv zeta. rewrite H1, H2.
  split; vm_compute; reflexivity.
Defined.

(** C39: the shifts multiply and divide by powers of two (modulo [2^256]), the
    long division of [operator/=] is Euclidean division for every non-zero
    divisor, throws exactly for a zero divisor, and [CompareTo] orders the
    arrays as the integers they denote. *)
Theorem uint256_shift_div_compare a b s : wf a -> wf b -> 0 <= s ->
  limbs_val (uint_shl a s) = (limbs_val a * 2 ^ s) mod M256 /\
  limbs_val (uint_shr a s) = limbs_val a / 2 ^ s /\
  (uint_div a b = None <-> limbs_val b = 0) /\
  (forall q, uint_div a b = Some q -> wf q /\ limbs_val q = limbs_val a / limbs_val b) /\
  CompareTo a b = Z.sgn (limbs_val a - limbs_val b).
Proof.
  intros Ha Hb Hs. pose proof (uint_div_spec a b Ha Hb) as D.
  split; [now apply uint_shl_spec|split; [now apply uint_shr_spec|split; [|split]]].
  - destruct (uint_div a b); intuition congruence.
  - intros q E. rewrite E in D. tauto.
  - rewrite CompareTo_spec by assumption. destruct (Z.compare_spec (limbs_val a) (limbs_val b)); lia.
Qed.

Lemma uint256_shift_div_compare_witness :
  let a := uint_not uint_zero in let b := uint_of_u64 10 in
  limbs_val (uint_shl a 4) = M256 - 16 /\ exists q, uint_div a b = Some q /\ limbs_val q = (M256 - 1) / 10.
Proof.
  assert (Ha : wf (uint_not uint_zero)) by (apply uint_not_spec, wf_zero).
  pose proof (uint256_shift_div_compare _ _ 4 Ha (wf_of_u64 10) ltac:(lia)) as (H1 & _ & _ & H2 & _).
  cbv zeta. split; [rewrite H1; vm_compute; reflexivity|].
  destruct (uint_div (uint_not uint_zero) (uint_of_u64 10)) as [q|] eqn:E.
  - exists q. split; [reflexivity|]. rewrite (proj2 (H2 q eq_refl)). vm_compute. reflexivity.
  - vm_compute in E. discriminate.
Defined.

(** [SetCompact] decodes the mantissa and exponent of a compact word, its
    overflow flag is raised exactly when the denoted integer needs more than
    256 bits, and its negative flag exactly when that integer is not zero and
    the sign bit is set. *)
Theorem SetCompact_exact c : is_u32 c ->
  let '(t, neg, ovf) := SetCompact c in
  wf t /\ limbs_val t = compact_val c mod M256 /\
  (neg = true <-> compact_val c <> 0 /\ Z.testbit c 23 = true) /\
  (ovf = true <-> M256 <= compact_val c).
Proof. apply SetCompact_spec. Qed.

Lemma SetCompact_exact_witness :
  let '(t, _, _) := SetCompact 0x1d00ffff in limbs_val t = 0xffff * 256 ^ 26.
Proof.
  pose proof (SetCompact_exact 0x1d00ffff ltac:(unfold_words; lia)) as H.
  destruct (SetCompact 0x1d00ffff) as [[t neg] ovf]. destruct H as (_ & H & _).
  rewrite H. vm_compute. reflexivity.
Defined.

(** encoding a 256-bit integer with [GetCompact] and decoding it with
    [SetCompact] truncates it to its leading bytes: the result is the integer
    rounded down to a multiple of [256^k], it keeps at least 16 significant
    bits when [k] is not zero, and neither flag is raised. *)
Theorem compact_roundtrip_truncates a : wf a ->
  let c := GetCompact a false in
  let k := Z.max 0 (compact_exp c - 3) in
  let '(t, neg, ovf) := SetCompact c in
  is_u32 c /\ neg = false /\ ovf = false /\ wf t /\
  limbs_val t = limbs_val a / 256 ^ k * 256 ^ k /\
  (k = 0 \/ 2 ^ 15 * 256 ^ k <= limbs_val t).
Proof. apply compact_truncates. Qed.

Lemma compact_roundtrip_truncates_witness :
  let a := uint_shl (uint_of_u64 0x123456789a) 100 in
  let '(t, _, _) := SetCompact (GetCompact a false) in limbs_val t <= limbs_val a.
Proof.
  pose proof (compact_roundtrip_truncates (uint_shl (uint_of_u64 0x123456789a) 100)
    (proj1 (uint_shl_spec _ 100 (wf_of_u64 _) ltac:(lia)))) as H.
  cbv zeta in *. destruct (SetCompact _) as [[t neg] ovf]. destruct H as (_ & _ & _ & _ & H & _).
  rewrite H. vm_compute. discriminate.
Defined.
