(* ===== verification/Chain.v ===== *)
(** The block index and the active chain (primitives/block.h, chain.h, chain.cpp): entries,
    skip pointers, the vector of the active chain, locators, fork points and block times,
    over a heap of entries that the invariant [wf_index] describes. *)
From stdpp Require Import gmap list sorting.
From Stdlib Require Import ZArith Lia.
From S2P Require Import Prelude ArithUint256.
Open Scope Z_scope.

(** * Block headers and block index entries (primitives/block.h, chain.h) *)

(** A [uint256] is its 32 bytes. *)
Definition uint256 := list Z.
Definition uint256_null : uint256 := repeat 0 32.

Record CBlockHeader := mkCBlockHeader {
  hdr_nVersion : Z; hdr_hashPrevBlock : uint256; hdr_hashMerkleRoot : uint256;
  hdr_nTime : Z; hdr_nBits : Z; hdr_nNonce : Z;
  hdr_nHeight : Z; hdr_nNonce64 : Z; hdr_mix_hash : uint256 }.

(** Pointers to index entries; a [nullptr] is [None]. *)
Abbreviation ptr := positive.

Record CBlockIndex := mkCBlockIndex {
  phashBlock : uint256; pprev : option ptr; pskip : option ptr; nHeight : Z;
  nFile : Z; nDataPos : Z; nUndoPos : Z; nChainWork : base_uint;
  nTx : Z; nChainTx : Z; nStatus : Z;
  nVersion : Z; hashMerkleRoot : uint256; nTime : Z; nBits : Z; nNonce : Z;
  nNonce64 : Z; mix_hash : uint256; nSequenceId : Z; nTimeMax : Z }.

(** The memory of index entries ([mapBlockIndex] owns them). *)
Abbreviation blockmap := (gmap ptr CBlockIndex).

(** [CBlockIndex(const CBlockHeader&)]: [SetNull] and the header's fields. *)
Definition CBlockIndex_of_header (block : CBlockHeader) : CBlockIndex := {|
  phashBlock := []; pprev := None; pskip := None; nHeight := hdr_nHeight block;
  nFile := 0; nDataPos := 0; nUndoPos := 0; nChainWork := uint_zero;
  nTx := 0; nChainTx := 0; nStatus := 0;
  nVersion := hdr_nVersion block; hashMerkleRoot := hdr_hashMerkleRoot block;
  nTime := hdr_nTime block; nBits := hdr_nBits block; nNonce := hdr_nNonce block;
  nNonce64 := hdr_nNonce64 block; mix_hash := hdr_mix_hash block;
  nSequenceId := 0; nTimeMax := 0 |}.

(** [GetBlockHeader()] *)
Definition GetBlockHeader (m : blockmap) (b : CBlockIndex) : CBlockHeader := {|
  hdr_nVersion := nVersion b;
  hdr_hashPrevBlock :=
    match pprev b ≫= (m !!.) with Some p => phashBlock p | None => uint256_null end;
  hdr_hashMerkleRoot := hashMerkleRoot b;
  hdr_nTime := nTime b; hdr_nBits := nBits b; hdr_nNonce := nNonce b;
  hdr_nHeight := nHeight b; hdr_nNonce64 := nNonce64 b; hdr_mix_hash := mix_hash b |}.

Definition GetBlockTime (b : CBlockIndex) : Z := nTime b.
Definition GetBlockTimeMax (b : CBlockIndex) : Z := nTimeMax b.

Definition nMedianTimeSpan : nat := 11.

(** The loop of [GetMedianTimePast]: times of [pindex] and its predecessors,
    stored backwards into the array. *)
Fixpoint past_times (n : nat) (m : blockmap) (pindex : option ptr) (acc : list Z) : list Z :=
  match n with
  | O => acc
  | S n' =>
      match pindex ≫= (m !!.) with
      | None => acc
      | Some b => past_times n' m (pprev b) (GetBlockTime b :: acc)
      end
  end.

(** [std::sort] on the filled part of the array. *)
Definition sort_times (l : list Z) : list Z := merge_sort Z.le l.

Definition GetMedianTimePast (m : blockmap) (pindex : ptr) : Z :=
  let l := sort_times (past_times nMedianTimeSpan m (Some pindex) []) in
  nth (length l / 2)%nat l 0.

(** ** Validity levels *)

Definition BLOCK_VALID_MASK : Z := 7.
Definition BLOCK_HAVE_DATA : Z := 8.
Definition BLOCK_HAVE_UNDO : Z := 16.
Definition BLOCK_FAILED_VALID : Z := 32.
Definition BLOCK_FAILED_CHILD : Z := 64.
Definition BLOCK_FAILED_MASK : Z := Z.lor BLOCK_FAILED_VALID BLOCK_FAILED_CHILD.

(** [IsValid(nUpTo)] and [RaiseValidity(nUpTo)] on the status word; [None] is the failed assertion that
    only flags of validity are allowed. *)
Definition IsValid (status nUpTo : Z) : option bool :=
  if negb (Z.land nUpTo (Z.lnot BLOCK_VALID_MASK) =? 0) then None
  else if negb (Z.land status BLOCK_FAILED_MASK =? 0) then Some false
  else Some (Z.land status BLOCK_VALID_MASK >=? nUpTo).

Definition RaiseValidity (status nUpTo : Z) : option (Z * bool) :=
  if negb (Z.land nUpTo (Z.lnot BLOCK_VALID_MASK) =? 0) then None
  else if negb (Z.land status BLOCK_FAILED_MASK =? 0) then Some (status, false)
  else if Z.land status BLOCK_VALID_MASK <? nUpTo
  then Some (Z.lor (Z.land status (Z.lnot BLOCK_VALID_MASK)) nUpTo, true)
  else Some (status, false).

(** * The skip list (chain.cpp) *)

Definition InvertLowestOne (n : Z) : Z := Z.land n (n - 1).

Definition GetSkipHeight (height : Z) : Z :=
  if height <? 2 then 0
  else if negb (Z.land height 1 =? 0)
  then InvertLowestOne (InvertLowestOne (height - 1)) + 1
  else InvertLowestOne height.

(** The test that decides to follow [pskip] from height [heightWalk]. *)
Definition follow_skip (height heightWalk : Z) (b : CBlockIndex) : bool :=
  let heightSkip := GetSkipHeight heightWalk in
  let heightSkipPrev := GetSkipHeight (heightWalk - 1) in
  match pskip b with
  | None => false
  | Some _ =>
      (heightSkip =? height) ||
      ((heightSkip >? height) &&
       negb ((heightSkipPrev <? heightSkip - 2) && (heightSkipPrev >=? height)))
  end.

(** The loop of [GetAncestor].  [None]: an assertion failed (or the entry is
    not in memory). *)
Fixpoint ancestor_walk (fuel : nat) (m : blockmap) (height : Z) (pindexWalk : ptr)
    (heightWalk : Z) : option ptr :=
  if heightWalk >? height then
    match fuel with
    | O => None
    | S fuel' =>
        b ← m !! pindexWalk;
        if follow_skip height heightWalk b
        then s ← pskip b; ancestor_walk fuel' m height s (GetSkipHeight heightWalk)
        else q ← pprev b; ancestor_walk fuel' m height q (heightWalk - 1)
    end
  else Some pindexWalk.

(** [GetAncestor(height)]: [Some None] is the [nullptr] result. *)
Definition GetAncestor (m : blockmap) (this : ptr) (height : Z) : option (option ptr) :=
  b ← m !! this;
  if (height >? nHeight b) || (height <? 0) then Some None
  else Some <$> ancestor_walk (Z.to_nat (nHeight b)) m height this (nHeight b).

Definition set_pskip (b : CBlockIndex) (s : option ptr) : CBlockIndex :=
  mkCBlockIndex (phashBlock b) (pprev b) s (nHeight b) (nFile b) (nDataPos b) (nUndoPos b)
    (nChainWork b) (nTx b) (nChainTx b) (nStatus b) (nVersion b) (hashMerkleRoot b)
    (nTime b) (nBits b) (nNonce b) (nNonce64 b) (mix_hash b) (nSequenceId b) (nTimeMax b).

(** [BuildSkip()] *)
Definition BuildSkip (m : blockmap) (this : ptr) : option blockmap :=
  b ← m !! this;
  match pprev b with
  | None => Some m
  | Some q =>
      s ← GetAncestor m q (GetSkipHeight (nHeight b));
      Some (<[this := set_pskip b s]> m)
  end.

(** * [CChain] *)

(** [std::vector<CBlockIndex*> vChain] *)
Abbreviation CChain := (list (option ptr)).

Definition chain_at (vChain : CChain) (h : Z) : option ptr :=
  if (h <? 0) || (h >=? Z.of_nat (length vChain)) then None
  else mjoin (vChain !! Z.to_nat h).

Definition Height (vChain : CChain) : Z := Z.of_nat (length vChain) - 1.
Definition Genesis (vChain : CChain) : option ptr := mjoin (vChain !! 0%nat).
Definition Tip (vChain : CChain) : option ptr := mjoin (last vChain).

Definition Contains (m : blockmap) (vChain : CChain) (pindex : ptr) : bool :=
  match m !! pindex with
  | None => false
  | Some b => bool_decide (chain_at vChain (nHeight b) = Some pindex)
  end.

Definition Next (m : blockmap) (vChain : CChain) (pindex : ptr) : option ptr :=
  if Contains m vChain pindex
  then b ← m !! pindex; chain_at vChain (nHeight b + 1)
  else None.

(** [vChain.resize(n)] *)
Definition resize_chain (n : nat) (vChain : CChain) : CChain :=
  take n vChain ++ replicate (n - length vChain) None.

(** The loop of [SetTip]. *)
Fixpoint settip_walk (fuel : nat) (m : blockmap) (vChain : CChain) (pindex : option ptr)
    : option CChain :=
  match pindex with
  | None => Some vChain
  | Some p =>
      b ← m !! p;
      if bool_decide (chain_at vChain (nHeight b) = Some p) then Some vChain
      else match fuel with
           | O => None
           | S fuel' =>
               settip_walk fuel' m (<[Z.to_nat (nHeight b) := Some p]> vChain) (pprev b)
           end
  end.

Definition SetTip (m : blockmap) (vChain : CChain) (pindex : option ptr) : option CChain :=
  match pindex with
  | None => Some []
  | Some p =>
      b ← m !! p;
      let n := Z.to_nat (nHeight b + 1) in
      settip_walk n m (resize_chain n vChain) (Some p)
  end.

(** [while (pindex && !Contains(pindex)) pindex = pindex->pprev] *)
Fixpoint fork_walk (fuel : nat) (m : blockmap) (vChain : CChain) (pindex : option ptr)
    : option (option ptr) :=
  match pindex with
  | None => Some None
  | Some p =>
      if Contains m vChain p then Some (Some p)
      else match fuel with
           | O => None
           | S fuel' => b ← m !! p; fork_walk fuel' m vChain (pprev b)
           end
  end.

Definition FindFork (m : blockmap) (vChain : CChain) (pindex : option ptr)
    : option (option ptr) :=
  match pindex with
  | None => Some None
  | Some p =>
      b ← m !! p;
      pindex ← (if nHeight b >? Height vChain then GetAncestor m p (Height vChain)
                else Some (Some p));
      fork_walk (Z.to_nat (nHeight b + 1)) m vChain pindex
  end.

(** [LastCommonAncestor(pa, pb)] *)
Fixpoint common_walk (fuel : nat) (m : blockmap) (pa pb : option ptr) : option (option ptr) :=
  if bool_decide (pa = pb) then Some pa
  else match pa, pb with
       | Some a, Some b =>
           match fuel with
           | O => None
           | S fuel' => ba ← m !! a; bb ← m !! b; common_walk fuel' m (pprev ba) (pprev bb)
           end
       | _, _ => None
       end.

Definition LastCommonAncestor (m : blockmap) (pa pb : ptr) : option (option ptr) :=
  ba ← m !! pa; bb ← m !! pb;
  pa' ← (if nHeight ba >? nHeight bb then GetAncestor m pa (nHeight bb) else Some (Some pa));
  pb' ← (if (nHeight bb >? nHeight ba) && negb (nHeight ba >? nHeight bb)
         then GetAncestor m pb (nHeight ba) else Some (Some pb));
  common_walk (Z.to_nat (nHeight ba + 1)) m pa' pb'.

(** [GetLocator(pindex)]: the hashes collected, with exponentially larger
    steps after the first ten. *)
Fixpoint locator_walk (fuel : nat) (m : blockmap) (vChain : CChain) (pindex : option ptr)
    (nStep : Z) (vHave : list uint256) : option (list uint256) :=
  match pindex with
  | None => Some vHave
  | Some p =>
      b ← m !! p;
      let vHave := vHave ++ [phashBlock b] in
      if nHeight b =? 0 then Some vHave
      else match fuel with
           | O => None
           | S fuel' =>
               let h := Z.max (nHeight b - nStep) 0 in
               next ← (if Contains m vChain p then Some (chain_at vChain h)
                       else GetAncestor m p h);
               locator_walk fuel' m vChain next
                 (if (10 <? length vHave)%nat then nStep * 2 else nStep) vHave
           end
  end.

Definition GetLocator (m : blockmap) (vChain : CChain) (pindex : option ptr)
    : option (list uint256) :=
  let pindex := match pindex with None => Tip vChain | Some p => Some p end in
  match pindex ≫= (m !!.) with
  | None => Some []
  | Some b => locator_walk (Z.to_nat (nHeight b)) m vChain pindex 1 []
  end.

(** [std::lower_bound] on the chain: the half-interval search over
    [first, first + len). *)
Fixpoint lower_bound (fuel : nat) (below : nat -> bool) (first len : nat) : nat :=
  match fuel with
  | O => first
  | S fuel' =>
      if (len =? 0)%nat then first
      else let half := (len / 2)%nat in
           if below (first + half)%nat
           then lower_bound fuel' below (first + half + 1) (len - half - 1)
           else lower_bound fuel' below first half
  end.

Definition FindEarliestAtLeast (m : blockmap) (vChain : CChain) (t : Z) : option ptr :=
  let below i := match mjoin (vChain !! i) ≫= (m !!.) with
                 | Some b => GetBlockTimeMax b <? t
                 | None => false
                 end in
  mjoin (vChain !! lower_bound (length vChain) below 0 (length vChain)).

(** * Reference semantics: following [pprev] *)

(** The [n]-th predecessor. *)
Fixpoint nth_prev (m : blockmap) (n : nat) (p : ptr) : option ptr :=
  match n with
  | O => Some p
  | S n' => q ← m !! p ≫= pprev; nth_prev m n' q
  end.

(** The index entries form a tree rooted in entries of height 0, and every
    skip pointer leads to the ancestor at the skip height. *)
Record wf_entry (m : blockmap) (p : ptr) (b : CBlockIndex) : Prop := {
  wf_height : 0 ≤ nHeight b;
  wf_pprev : match pprev b with
             | None => nHeight b = 0
             | Some q => ∃ c, m !! q = Some c ∧ nHeight b = nHeight c + 1
             end;
  wf_pskip : ∀ s, pskip b = Some s →
             nth_prev m (Z.to_nat (nHeight b - GetSkipHeight (nHeight b))) p = Some s }.

Definition wf_index (m : blockmap) : Prop := ∀ p b, m !! p = Some b → wf_entry m p b.

Lemma InvertLowestOne_range n : 1 ≤ n → 0 ≤ InvertLowestOne n ≤ n - 1.
Proof.
  intros Hn. unfold InvertLowestOne. split; [apply Z.land_nonneg; lia|].
  apply land_le_r. lia.
Qed.

Lemma GetSkipHeight_range h : 1 ≤ h → 0 ≤ GetSkipHeight h < h.
Proof.
  intros Hh. unfold GetSkipHeight. destruct (Z.ltb_spec h 2); [lia|].
  destruct (Z.land h 1 =? 0) eqn:E; cbn [negb].
  - pose proof (InvertLowestOne_range h). lia.
  - assert (3 ≤ h) by (destruct (Z.eq_dec h 2) as [->|]; [discriminate|lia]).
    pose proof (InvertLowestOne_range (h - 1) ltac:(lia)) as R.
    destruct (Z.eq_dec (InvertLowestOne (h - 1)) 0) as [->|]; [change (InvertLowestOne 0) with 0; lia|].
    pose proof (InvertLowestOne_range (InvertLowestOne (h - 1)) ltac:(lia)). lia.
Qed.

Section Walks.
Context (m : blockmap) (Hwf : wf_index m).

Lemma nth_prev_height n : ∀ p b, m !! p = Some b → Z.of_nat n ≤ nHeight b →
  ∃ q c, nth_prev m n p = Some q ∧ m !! q = Some c ∧ nHeight c = nHeight b - Z.of_nat n.
Proof.
  induction n as [|n IH]; intros p b Hp Hn.
  - exists p, b. split_and!; [done..|lia].
  - destruct (Hwf p b Hp) as [Hh Hprev _]. cbn [nth_prev]. rewrite Hp. cbn.
    destruct (pprev b) as [q|]; [|lia]. destruct Hprev as (c & Hq & E).
    destruct (IH q c Hq ltac:(lia)) as (r & d & H1 & H2 & H3).
    exists r, d. split_and!; [done..|lia].
Qed.

Lemma nth_prev_add a c : ∀ p, nth_prev m (a + c) p = nth_prev m a p ≫= nth_prev m c.
Proof.
  induction a as [|a IH]; intros p; [done|]. cbn [nth_prev Nat.add].
  destruct (m !! p ≫= pprev); [apply IH|done].
Qed.

Lemma nth_prev_beyond p b n : m !! p = Some b → nHeight b < Z.of_nat n → nth_prev m n p = None.
Proof.
  intros Hp Hn. destruct (Hwf p b Hp) as [Hh _ _].
  destruct (nth_prev_height (Z.to_nat (nHeight b)) p b Hp ltac:(lia)) as (q & c & E & Hq & Hc).
  replace n with (Z.to_nat (nHeight b) + (S (n - S (Z.to_nat (nHeight b)))))%nat by lia.
  rewrite nth_prev_add, E. cbn [mbind option_bind nth_prev]. rewrite Hq. cbn.
  destruct (Hwf q c Hq) as [_ Hprev _]. destruct (pprev c); [|done].
  destruct Hprev as (d & Hd & E'). destruct (Hwf _ _ Hd). lia.
Qed.

Lemma ancestor_walk_correct fuel : ∀ p b height,
  m !! p = Some b → 0 ≤ height ≤ nHeight b → nHeight b - height ≤ Z.of_nat fuel →
  ancestor_walk fuel m height p (nHeight b) = nth_prev m (Z.to_nat (nHeight b - height)) p.
Proof.
  induction fuel as [|fuel IH]; intros p b height Hp Hh Hf; cbn [ancestor_walk];
    (destruct (Z.gtb_spec (nHeight b) height) as [G|G];
     [|replace (nHeight b - height) with 0 by lia; done]).
  - lia.
  - rewrite Hp. cbn [mbind option_bind]. destruct (Hwf p b Hp) as [_ Hprev Hskip].
    destruct (follow_skip height (nHeight b) b) eqn:F.
    + unfold follow_skip in F. destruct (pskip b) as [s|]; [|done].
      specialize (Hskip s eq_refl). pose proof (GetSkipHeight_range (nHeight b) ltac:(lia)) as R.
      assert (Hs : height ≤ GetSkipHeight (nHeight b)) by lia. cbn [mbind option_bind].
      destruct (nth_prev_height (Z.to_nat (nHeight b - GetSkipHeight (nHeight b))) p b Hp ltac:(lia))
        as (s' & c & E & Hc & Hhc).
      rewrite Hskip in E. injection E as <-. replace (GetSkipHeight (nHeight b)) with (nHeight c) by lia.
      rewrite (IH s c) by (done || lia).
      replace (Z.to_nat (nHeight b - height)) with
        (Z.to_nat (nHeight b - GetSkipHeight (nHeight b)) + Z.to_nat (nHeight c - height))%nat by lia.
      now rewrite nth_prev_add, Hskip.
    + destruct (pprev b) as [q|] eqn:Eq; [|lia]. destruct Hprev as (c & Hq & E).
      cbn [mbind option_bind]. replace (nHeight b - 1) with (nHeight c) by lia.
      rewrite (IH q c) by (done || lia).
      replace (Z.to_nat (nHeight b - height)) with (S (Z.to_nat (nHeight c - height))) by lia.
      cbn [nth_prev]. rewrite Hp. cbn. now rewrite Eq.
Qed.

(** The skip list search finds what following [pprev] finds. *)
Lemma GetAncestor_nth_prev p b height : m !! p = Some b →
  GetAncestor m p height =
  Some (if (height >? nHeight b) || (height <? 0) then None
        else nth_prev m (Z.to_nat (nHeight b - height)) p).
Proof.
  intros Hp. unfold GetAncestor. rewrite Hp. cbn [mbind option_bind].
  destruct ((height >? nHeight b) || (height <? 0)) eqn:E; [done|].
  rewrite (ancestor_walk_correct _ p b) by (done || lia).
  destruct (nth_prev_height (Z.to_nat (nHeight b - height)) p b Hp ltac:(lia)) as (q & c & -> & _).
  done.
Qed.

Lemma GetAncestor_some p b height : m !! p = Some b → 0 ≤ height ≤ nHeight b →
  ∃ q c, GetAncestor m p height = Some (Some q) ∧ m !! q = Some c ∧ nHeight c = height ∧
    nth_prev m (Z.to_nat (nHeight b - height)) p = Some q.
Proof.
  intros Hp Hh. rewrite (GetAncestor_nth_prev p b) by done.
  replace ((height >? nHeight b) || (height <? 0)) with false by lia.
  destruct (nth_prev_height (Z.to_nat (nHeight b - height)) p b Hp ltac:(lia)) as (q & c & E & Hq & Hc).
  exists q, c. rewrite E. split_and!; [done..|lia|done].
Qed.

End Walks.

(** ** [BuildSkip] *)

Lemma nth_prev_pskip (m : blockmap) p b s n : m !! p = Some b →
  ∀ r, nth_prev (<[p := set_pskip b s]> m) n r = nth_prev m n r.
Proof.
  intros Hp. induction n as [|n IH]; intros r; [done|]. cbn [nth_prev].
  replace ((<[p := set_pskip b s]> m) !! r ≫= pprev) with (m !! r ≫= pprev).
  - destruct (m !! r ≫= pprev); [apply IH|done].
  - destruct (decide (p = r)) as [->|]; [|by rewrite lookup_insert_ne].
    by rewrite lookup_insert_eq, Hp.
Qed.

Lemma BuildSkip_spec (m : blockmap) p b : wf_index m → m !! p = Some b →
  ∃ s, BuildSkip m p = Some (match pprev b with None => m | Some _ => <[p := set_pskip b s]> m end) ∧
    (pprev b ≠ None → s ≠ None) ∧
    wf_index (match pprev b with None => m | Some _ => <[p := set_pskip b s]> m end).
Proof.
  intros Hwf Hp. unfold BuildSkip. rewrite Hp. cbn [mbind option_bind].
  destruct (pprev b) as [q|] eqn:Eq; [|by exists None].
  destruct (Hwf p b Hp) as [Hh Hprev _]. rewrite Eq in Hprev. destruct Hprev as (c & Hq & E).
  destruct (Hwf q c Hq) as [Hhc _ _]. pose proof (GetSkipHeight_range (nHeight b) ltac:(lia)) as R.
  destruct (GetAncestor_some m Hwf q c (GetSkipHeight (nHeight b)) Hq ltac:(lia))
    as (s & d & -> & Hs & Hd & Hn). cbn [mbind option_bind].
  exists (Some s). split_and!; [done..|]. intros r d' Hr.
  assert (W : ∀ x y, m !! x = Some y → wf_entry (<[p := set_pskip b (Some s)]> m) x y).
  { intros x y Hx. destruct (Hwf x y Hx) as [H1 H2 H3]. split; [done| |].
    - destruct (pprev y) as [z|]; [|done]. destruct H2 as (w & Hz & Ez).
      destruct (decide (p = z)) as [->|Hne]; [|exists w; by rewrite lookup_insert_ne].
      exists (set_pskip b (Some s)). rewrite lookup_insert_eq. rewrite Hp in Hz. by simplify_eq.
    - intros t Ht. rewrite nth_prev_pskip by done. by apply H3. }
  destruct (decide (p = r)) as [->|Hne]; [|rewrite lookup_insert_ne in Hr by done; auto].
  rewrite lookup_insert_eq in Hr. injection Hr as <-.
  destruct (W r b Hp) as [H1 H2 _]. split; [done..|].
  cbn [set_pskip pskip nHeight]. intros t [= <-]. rewrite nth_prev_pskip by done.
  replace (Z.to_nat (nHeight b - GetSkipHeight (nHeight b))) with
    (S (Z.to_nat (nHeight c - GetSkipHeight (nHeight b)))) by lia.
  cbn [nth_prev]. rewrite Hp. cbn. by rewrite Eq.
Qed.

(** ** [SetTip] *)

(** Every entry of the vector has its ancestors below it. *)
Definition closed (m : blockmap) (v : CChain) : Prop :=
  ∀ h q, v !! h = Some (Some q) → ∀ i, (i ≤ h)%nat → v !! i = Some (nth_prev m (h - i) q).

(** The vector holds the branch ending in [p]. *)
Definition chain_of (m : blockmap) (v : CChain) (p : ptr) : Prop :=
  ∃ b, m !! p = Some b ∧ Z.of_nat (length v) = nHeight b + 1 ∧
  ∀ i, (i < length v)%nat → v !! i = Some (nth_prev m (length v - 1 - i) p).

Lemma chain_of_closed m v p : chain_of m v p → closed m v.
Proof.
  intros (b & Hp & Hl & H) h q Hq i Hi.
  assert (h < length v)%nat by (by eapply lookup_lt_Some).
  rewrite H in Hq by done. injection Hq as Hq. rewrite H by lia. f_equal.
  replace (length v - 1 - i)%nat with ((length v - 1 - h) + (h - i))%nat by lia.
  by rewrite nth_prev_add, Hq.
Qed.

Lemma closed_take m v n : closed m v → closed m (take n v).
Proof.
  intros H h q Hq i Hi. assert (h < n)%nat by (apply lookup_lt_Some in Hq; rewrite length_take in Hq; lia).
  rewrite lookup_take_lt in Hq |- * by lia. by apply H.
Qed.

Lemma closed_resize m v n : closed m v → closed m (resize_chain n v).
Proof.
  intros H h q Hq i Hi. unfold resize_chain in *.
  destruct (decide (h < length (take n v))%nat) as [L|L].
  - rewrite lookup_app_l in Hq |- * by lia. by eapply (closed_take m v n).
  - rewrite lookup_app_r in Hq by lia. apply lookup_replicate in Hq as [? _]. done.
Qed.

Lemma length_resize_chain n v : length (resize_chain n v) = n.
Proof. unfold resize_chain. rewrite length_app, length_take, length_replicate. lia. Qed.

Lemma chain_at_lookup (v : CChain) h : 0 ≤ h < Z.of_nat (length v) →
  chain_at v h = mjoin (v !! Z.to_nat h).
Proof. intros Hh. unfold chain_at. by replace ((h <? 0) || (h >=? Z.of_nat (length v))) with false by lia. Qed.

Lemma settip_walk_spec m : wf_index m → ∀ fuel q c v,
  m !! q = Some c → nHeight c < Z.of_nat (length v) → nHeight c < Z.of_nat fuel →
  closed m (take (Z.to_nat (nHeight c + 1)) v) →
  ∃ v', settip_walk fuel m v (Some q) = Some v' ∧ length v' = length v ∧
    (∀ i, nHeight c < Z.of_nat i → v' !! i = v !! i) ∧
    ∀ i, Z.of_nat i ≤ nHeight c → v' !! i = Some (nth_prev m (Z.to_nat (nHeight c) - i) q).
Proof.
  intros Hwf. induction fuel as [|fuel IH]; intros q c v Hq Hl Hf Hc;
    destruct (Hwf q c Hq) as [Hh Hprev _]; [lia|].
  cbn [settip_walk]. rewrite Hq. cbn [mbind option_bind]. rewrite chain_at_lookup by lia.
  set (h := Z.to_nat (nHeight c)) in *.
  assert (Hlk : ∃ o, v !! h = Some o) by (apply lookup_lt_is_Some; lia). destruct Hlk as [o Ho].
  rewrite Ho. cbn [mjoin option_join]. case_bool_decide as E.
  - subst o. exists v. split_and!; [done..|]. intros i Hi.
    assert (Ht : take (Z.to_nat (nHeight c + 1)) v !! h = Some (Some q)) by (rewrite lookup_take_lt by lia; done).
    pose proof (Hc h q Ht i ltac:(lia)) as Hi'. by rewrite lookup_take_lt in Hi' by lia.
  - destruct (pprev c) as [r|] eqn:Er.
    + destruct Hprev as (d & Hr & Ed).
      destruct (IH r d (<[h := Some q]> v) Hr) as (v' & V1 & V2 & V3 & V4);
        [rewrite length_insert; lia|lia| |].
      { rewrite take_insert_ge by lia. replace (Z.to_nat (nHeight d + 1)) with (Nat.min h (Z.to_nat (nHeight c + 1))) by lia.
        rewrite <- take_take. by apply closed_take. }
      exists v'. split_and!; [done|by rewrite V2, length_insert| |].
      * intros i Hi. rewrite V3, list_lookup_insert_ne by lia. done.
      * intros i Hi. destruct (decide (i = h)) as [->|Hne].
        -- rewrite V3, list_lookup_insert_eq, Nat.sub_diag by lia. done.
        -- rewrite V4 by lia. replace (h - i)%nat with (S (Z.to_nat (nHeight d) - i)) by lia.
           cbn [nth_prev]. rewrite Hq. cbn. by rewrite Er.
    + exists (<[h := Some q]> v). replace (settip_walk fuel m (<[h := Some q]> v) None) with
        (Some (<[h := Some q]> v)) by (by destruct fuel).
      split_and!; [done|by rewrite length_insert| |].
      * intros i Hi. by rewrite list_lookup_insert_ne by lia.
      * intros i Hi. assert (i = h) as -> by lia.
        by rewrite list_lookup_insert_eq, Nat.sub_diag by lia.
Qed.

(** From any closed vector, [SetTip] leaves exactly the branch of the new tip. *)
Lemma SetTip_spec m v p b : wf_index m → closed m v → m !! p = Some b →
  ∃ v', SetTip m v (Some p) = Some v' ∧ chain_of m v' p.
Proof.
  intros Hwf Hc Hp. unfold SetTip. rewrite Hp. cbn [mbind option_bind].
  destruct (Hwf p b Hp) as [Hh _ _]. set (n := Z.to_nat (nHeight b + 1)).
  destruct (settip_walk_spec m Hwf n p b (resize_chain n v) Hp) as (v' & V1 & V2 & _ & V4);
    rewrite ?length_resize_chain in *; [lia..| |].
  { apply closed_take. by apply closed_resize. }
  exists v'. split; [done|]. exists b. rewrite V2. split_and!; [done|lia|].
  intros i Hi. rewrite V4 by lia. do 2 f_equal. lia.
Qed.

(** ** [FindFork] and [LastCommonAncestor] *)

Definition ancestor (m : blockmap) (p a : ptr) : Prop := ∃ n, nth_prev m n p = Some a.

Lemma Contains_chain m v tip q c : wf_index m → chain_of m v tip → m !! q = Some c →
  Contains m v q = true ↔ ancestor m tip q.
Proof.
  intros Hwf (b & Htip & Hl & Hv) Hq. destruct (Hwf q c Hq) as [Hh _ _]. unfold Contains. rewrite Hq.
  rewrite bool_decide_eq_true. split.
  - intros E. unfold chain_at in E. destruct ((nHeight c <? 0) || _) eqn:B; [done|].
    rewrite Hv in E by lia. by eexists.
  - intros [n Hn]. assert (Hnb : Z.of_nat n ≤ nHeight b).
    { destruct (decide (Z.of_nat n ≤ nHeight b)); [done|].
      rewrite (nth_prev_beyond m Hwf tip b) in Hn by (done || lia). done. }
    destruct (nth_prev_height m Hwf n tip b Htip Hnb) as (q' & c' & E & Hq' & Hc').
    rewrite Hn in E. injection E as <-. rewrite Hq in Hq'. injection Hq' as <-.
    rewrite chain_at_lookup, Hv by lia. cbn. rewrite <- Hn. f_equal. lia.
Qed.

Lemma fork_walk_spec m v : wf_index m → ∀ fuel p b,
  m !! p = Some b → nHeight b < Z.of_nat fuel →
  ∃ r, fork_walk fuel m v (Some p) = Some r ∧
  match r with
  | Some f => ∃ n, nth_prev m n p = Some f ∧ Contains m v f = true ∧
              ∀ k a, (k < n)%nat → nth_prev m k p = Some a → Contains m v a = false
  | None => ∀ k a, nth_prev m k p = Some a → Contains m v a = false
  end.
Proof.
  intros Hwf. induction fuel as [|fuel IH]; intros p b Hp Hf;
    destruct (Hwf p b Hp) as [Hh Hprev _]; [lia|].
  cbn [fork_walk]. destruct (Contains m v p) eqn:C.
  - exists (Some p). split; [done|]. exists 0%nat. split_and!; [done..|]. lia.
  - rewrite Hp. cbn [mbind option_bind]. destruct (pprev b) as [q|] eqn:Eq.
    + destruct Hprev as (c & Hq & E). destruct (IH q c Hq ltac:(lia)) as (r & -> & Hr).
      exists r. split; [done|].
      assert (Hstep : ∀ k, nth_prev m (S k) p = nth_prev m k q)
        by (intros k; cbn [nth_prev]; rewrite Hp; cbn; by rewrite Eq).
      destruct r as [f|].
      * destruct Hr as (n & H1 & H2 & H3). exists (S n). rewrite Hstep. split_and!; [done..|].
        intros [|k] a Hk Ha; [cbn in Ha; congruence|]. rewrite Hstep in Ha. eapply H3; [|done]. lia.
      * intros [|k] a Ha; [cbn in Ha; congruence|]. rewrite Hstep in Ha. by eapply Hr.
    + exists None. split; [by destruct fuel|]. intros [|k] a Ha; [cbn in Ha; congruence|].
      cbn [nth_prev] in Ha. rewrite Hp in Ha. cbn in Ha. by rewrite Eq in Ha.
Qed.

Lemma ancestor_height m p b a c : wf_index m → m !! p = Some b → m !! a = Some c →
  ancestor m p a → nth_prev m (Z.to_nat (nHeight b - nHeight c)) p = Some a ∧ nHeight c ≤ nHeight b.
Proof.
  intros Hwf Hp Ha [n Hn]. destruct (Hwf _ _ Hp) as [Hb _ _]. destruct (Hwf _ _ Ha) as [Hc _ _].
  destruct (decide (Z.of_nat n ≤ nHeight b)) as [L|L].
  - destruct (nth_prev_height m Hwf n p b Hp L) as (q & d & E & Hq & Hd).
    rewrite Hn in E. injection E as <-. rewrite Ha in Hq. injection Hq as <-.
    split; [|lia]. rewrite <- Hn. f_equal. lia.
  - rewrite (nth_prev_beyond m Hwf p b) in Hn by (done || lia). done.
Qed.

Lemma ancestor_lookup m p b a : wf_index m → m !! p = Some b → ancestor m p a → ∃ c, m !! a = Some c.
Proof.
  intros Hwf Hp [n Hn]. destruct (decide (Z.of_nat n ≤ nHeight b)) as [L|L].
  - destruct (nth_prev_height m Hwf n p b Hp L) as (q & d & E & Hq & _). rewrite Hn in E. injection E as <-. eauto.
  - rewrite (nth_prev_beyond m Hwf p b) in Hn by (done || lia). done.
Qed.

(** [a] is an ancestor of both, and no common ancestor is higher. *)
Definition highest_common (m : blockmap) (p q : ptr) (r : option ptr) : Prop :=
  match r with
  | Some a => ancestor m p a ∧ ancestor m q a ∧
      ∀ a' c c', m !! a = Some c → m !! a' = Some c' →
        ancestor m p a' → ancestor m q a' → nHeight c' ≤ nHeight c
  | None => ∀ a', ancestor m p a' → ancestor m q a' → False
  end.

Lemma ancestor_trans m p q r : ancestor m p q → ancestor m q r → ancestor m p r.
Proof. intros [a Ha] [c Hc]. exists (a + c)%nat. by rewrite nth_prev_add, Ha. Qed.

Lemma fork_walk_highest m v tip p b fuel : wf_index m → chain_of m v tip → m !! p = Some b →
  nHeight b < Z.of_nat fuel →
  ∃ r, fork_walk fuel m v (Some p) = Some r ∧ highest_common m p tip r.
Proof.
  intros Hwf Hv Hp Hf. destruct (fork_walk_spec m v Hwf fuel p b Hp Hf) as (r & E & Hr).
  exists r. split; [done|]. destruct Hv as (bt & Ht & Hrest). pose proof (conj Ht Hrest) as Hv'.
  assert (Hv : chain_of m v tip) by (by exists bt). destruct r as [f|]; cbn.
  - destruct Hr as (n & Hn & Hc & Hmin). assert (Hf' : ancestor m p f) by (by exists n).
    destruct (ancestor_lookup m p b f Hwf Hp Hf') as [cf Hcf].
    split_and!; [done|by eapply (Contains_chain m v tip f cf)|].
    intros a' c c' Hfc Ha' Hpa Hta. rewrite Hcf in Hfc. injection Hfc as <-.
    destruct (ancestor_height m p b a' c' Hwf Hp Ha' Hpa) as [Hk Hle].
    destruct (ancestor_height m p b f cf Hwf Hp Hcf Hf') as [Hk' Hle'].
    destruct (decide (nHeight c' ≤ nHeight cf)) as [|Hgt]; [done|]. exfalso.
    assert (Contains m v a' = true) by (by eapply Contains_chain).
    assert (Hnn : n = Z.to_nat (nHeight b - nHeight cf)).
    { destruct (decide (Z.of_nat n ≤ nHeight b)) as [L|L].
      - destruct (nth_prev_height m Hwf n p b Hp L) as (x & y & E1 & E2 & E3).
        rewrite Hn in E1. injection E1 as <-. rewrite Hcf in E2. injection E2 as <-. lia.
      - rewrite (nth_prev_beyond m Hwf p b) in Hn by (done || lia). done. }
    rewrite (Hmin (Z.to_nat (nHeight b - nHeight c')) a') in H; [done|lia|done].
  - intros a' [k Hk] Ht'. assert (ancestor m p a') as Ha by (by exists k).
    destruct (ancestor_lookup m p b a' Hwf Hp Ha) as [c' Hc'].
    assert (Contains m v a' = true) by (by eapply Contains_chain).
    rewrite (Hr k a' Hk) in H. done.
Qed.

Lemma FindFork_spec m v tip p b : wf_index m → chain_of m v tip → m !! p = Some b →
  ∃ r, FindFork m v (Some p) = Some r ∧ highest_common m p tip r.
Proof.
  intros Hwf Hv Hp. unfold FindFork. rewrite Hp. cbn [mbind option_bind].
  destruct (Hwf p b Hp) as [Hh _ _]. destruct (Z.gtb_spec (nHeight b) (Height v)) as [G|G].
  - pose proof Hv as (bt & Ht & Hl & _). destruct (Hwf tip bt Ht) as [Hht _ _]. unfold Height in *.
    destruct (GetAncestor_some m Hwf p b (Z.of_nat (length v) - 1) Hp ltac:(lia))
      as (q & c & -> & Hq & Hc & Hn). cbn [mbind option_bind].
    destruct (fork_walk_highest m v tip q c (Z.to_nat (nHeight b + 1)) Hwf Hv Hq ltac:(lia))
      as (r & E & Hr). exists r. split; [done|].
    assert (Hpq : ancestor m p q) by (by eexists).
    assert (Hback : ∀ a, ancestor m p a → ancestor m tip a → ancestor m q a).
    { intros a Hpa Hta. destruct (ancestor_lookup m p b a Hwf Hp Hpa) as [d Hd].
      destruct (ancestor_height m tip bt a d Hwf Ht Hd Hta) as [_ Hle].
      destruct (ancestor_height m p b a d Hwf Hp Hd Hpa) as [Hk _].
      exists (Z.to_nat (nHeight c - nHeight d)).
      replace (Z.to_nat (nHeight b - nHeight d)) with
        (Z.to_nat (nHeight b - (Z.of_nat (length v) - 1)) + Z.to_nat (nHeight c - nHeight d))%nat in Hk by lia.
      by rewrite nth_prev_add, Hn in Hk. }
    destruct r as [f|]; cbn in Hr |- *.
    + destruct Hr as (H1 & H2 & H3). split_and!; [by eapply ancestor_trans|done|].
      intros a' x y Hx Hy Hpa Hta. eapply H3; eauto.
    + intros a' Hpa Hta. eapply Hr; eauto.
  - cbn [mbind option_bind]. apply (fork_walk_highest m v tip p b); [done..|lia].
Qed.

Lemma common_walk_spec m : wf_index m → ∀ fuel p q b c,
  m !! p = Some b → m !! q = Some c → nHeight b = nHeight c → nHeight b < Z.of_nat fuel →
  ∃ r, common_walk fuel m (Some p) (Some q) = Some r ∧ highest_common m p q r.
Proof.
  intros Hwf. induction fuel as [|fuel IH]; intros p q b c Hp Hq Hbc Hf;
    destruct (Hwf p b Hp) as [Hh Hprev _]; [lia|].
  cbn [common_walk]. case_bool_decide as E.
  { injection E as ->. exists (Some q). split; [done|]. split_and!; [by exists 0%nat..|].
    intros a' x y Hx Hy Ha _. rewrite Hq in Hx. injection Hx as <-.
    by destruct (ancestor_height m q c a' y Hwf Hq Hy Ha). }
  assert (Hne : ∀ a d, m !! a = Some d → ancestor m p a → ancestor m q a → nHeight d < nHeight b).
  { intros a d Hd Ha1 Ha2. destruct (ancestor_height m p b a d Hwf Hp Hd Ha1) as [K1 L1].
    destruct (ancestor_height m q c a d Hwf Hq Hd Ha2) as [K2 L2].
    destruct (decide (nHeight d = nHeight b)) as [Heq|]; [|lia].
    rewrite Heq, Z.sub_diag in K1. rewrite Heq, <- Hbc, Z.sub_diag in K2. change (Z.to_nat 0) with 0%nat in *. cbn in K1, K2. congruence. }
  rewrite Hp, Hq. cbn [mbind option_bind]. destruct (Hwf q c Hq) as [_ Hprev' _].
  destruct (pprev b) as [p'|] eqn:Ep, (pprev c) as [q'|] eqn:Eq.
  - destruct Hprev as (b' & Hp' & Eb), Hprev' as (c' & Hq' & Ec).
    destruct (IH p' q' b' c' Hp' Hq' ltac:(lia) ltac:(lia)) as (r & -> & Hr). exists r. split; [done|].
    assert (Sp : ∀ k, nth_prev m (S k) p = nth_prev m k p')
      by (intros k; cbn [nth_prev]; rewrite Hp; cbn; by rewrite Ep).
    assert (Sq : ∀ k, nth_prev m (S k) q = nth_prev m k q')
      by (intros k; cbn [nth_prev]; rewrite Hq; cbn; by rewrite Eq).
    assert (Hdown : ∀ a, ancestor m p a → ancestor m q a → ancestor m p' a ∧ ancestor m q' a).
    { intros a Ha1 Ha2. destruct (ancestor_lookup m p b a Hwf Hp Ha1) as [d Hd].
      specialize (Hne a d Hd Ha1 Ha2).
      destruct (ancestor_height m p b a d Hwf Hp Hd Ha1) as [K1 L1].
      destruct (ancestor_height m q c a d Hwf Hq Hd Ha2) as [K2 L2].
      replace (Z.to_nat (nHeight b - nHeight d)) with (S (Z.to_nat (nHeight b' - nHeight d))) in K1 by lia.
      replace (Z.to_nat (nHeight c - nHeight d)) with (S (Z.to_nat (nHeight c' - nHeight d))) in K2 by lia.
      rewrite Sp in K1. rewrite Sq in K2. split; by eexists. }
    destruct r as [f|]; cbn in Hr |- *.
    + destruct Hr as ([n1 H1] & [n2 H2] & H3). split_and!; [exists (S n1); by rewrite Sp|exists (S n2); by rewrite Sq|].
      intros a' x y Hx Hy Ha1 Ha2. destruct (Hdown a' Ha1 Ha2). eauto.
    + intros a' Ha1 Ha2. destruct (Hdown a' Ha1 Ha2). eauto.
  - destruct Hprev as (b' & Hp' & Eb). destruct (Hwf _ _ Hp'). lia.
  - destruct Hprev' as (b' & Hp' & Eb). destruct (Hwf _ _ Hp'). lia.
  - exists None. split; [by destruct fuel|]. intros a Ha1 Ha2.
    destruct (ancestor_lookup m p b a Hwf Hp Ha1) as [d Hd]. specialize (Hne a d Hd Ha1 Ha2).
    destruct (Hwf a d Hd). lia.
Qed.

(** Replacing one side by its ancestor at the other side's height keeps the
    common ancestors. *)
Lemma highest_common_lift m p b q c p' b' n r : wf_index m →
  m !! p = Some b → m !! q = Some c → m !! p' = Some b' → nth_prev m n p = Some p' →
  nHeight b' = nHeight c → highest_common m p' q r → highest_common m p q r.
Proof.
  intros Hwf Hp Hq Hp' Hn Hbc. assert (Hpp : ancestor m p p') by (by exists n).
  assert (Hup : ∀ a, ancestor m p a → ancestor m q a → ancestor m p' a).
  { intros a Ha1 Ha2. destruct (ancestor_lookup m p b a Hwf Hp Ha1) as [d Hd].
    destruct (ancestor_height m p b a d Hwf Hp Hd Ha1) as [K1 L1].
    destruct (ancestor_height m q c a d Hwf Hq Hd Ha2) as [K2 L2].
    destruct (ancestor_height m p b p' b' Hwf Hp Hp' Hpp) as [K3 L3].
    exists (Z.to_nat (nHeight b' - nHeight d)).
    replace (Z.to_nat (nHeight b - nHeight d)) with
      (Z.to_nat (nHeight b - nHeight b') + Z.to_nat (nHeight b' - nHeight d))%nat in K1
      by (destruct (Hwf _ _ Hd); lia).
    by rewrite nth_prev_add, K3 in K1. }
  destruct r as [f|]; cbn.
  - intros (H1 & H2 & H3). split_and!; [by eapply ancestor_trans|done|]. intros. eauto.
  - intros H a' Ha1 Ha2. eauto.
Qed.

Lemma highest_common_sym m p q r : highest_common m p q r → highest_common m q p r.
Proof. destruct r; cbn; [|naive_solver]. intros (H1 & H2 & H3). split_and!; eauto. Qed.

Lemma LastCommonAncestor_spec m p q b c : wf_index m → m !! p = Some b → m !! q = Some c →
  ∃ r, LastCommonAncestor m p q = Some r ∧ highest_common m p q r.
Proof.
  intros Hwf Hp Hq. unfold LastCommonAncestor. rewrite Hp, Hq. cbn [mbind option_bind].
  destruct (Hwf p b Hp) as [Hb _ _]. destruct (Hwf q c Hq) as [Hc _ _].
  destruct (Z.gtb_spec (nHeight b) (nHeight c)) as [G|G].
  - destruct (GetAncestor_some m Hwf p b (nHeight c) Hp ltac:(lia)) as (p' & b' & -> & Hp' & Eb & Hn).
    rewrite andb_false_r. cbn [mbind option_bind].
    destruct (common_walk_spec m Hwf (Z.to_nat (nHeight b + 1)) p' q b' c Hp' Hq ltac:(lia) ltac:(lia))
      as (r & -> & Hr). exists r. split; [done|]. by eapply highest_common_lift with (p' := p').
  - cbn [mbind option_bind]. destruct (Z.gtb_spec (nHeight c) (nHeight b)) as [G'|G']; cbn [andb negb].
    + destruct (GetAncestor_some m Hwf q c (nHeight b) Hq ltac:(lia)) as (q' & c' & -> & Hq' & Ec & Hn).
      cbn [mbind option_bind].
      destruct (common_walk_spec m Hwf (Z.to_nat (nHeight b + 1)) p q' b c' Hp Hq' ltac:(lia) ltac:(lia))
        as (r & -> & Hr). exists r. split; [done|]. apply highest_common_sym.
      apply highest_common_sym in Hr. by eapply highest_common_lift with (p' := q').
    + apply (common_walk_spec m Hwf _ p q b c); [done..|lia|lia].
Qed.

(** ** [GetLocator] *)

(** A descending list of ancestors of its head that ends at height 0. *)
Inductive locator_path (m : blockmap) : ptr → list uint256 → Prop :=
| locator_genesis p b : m !! p = Some b → nHeight b = 0 → locator_path m p [phashBlock b]
| locator_step p b q c l :
    m !! p = Some b → m !! q = Some c → nHeight c < nHeight b → ancestor m p q →
    locator_path m q l → locator_path m p (phashBlock b :: l).

Lemma locator_walk_spec m v : wf_index m → closed m v → ∀ fuel p b nStep vHave,
  m !! p = Some b → nHeight b ≤ Z.of_nat fuel → 1 ≤ nStep →
  ∃ l, locator_walk fuel m v (Some p) nStep vHave = Some (vHave ++ l) ∧ locator_path m p l.
Proof.
  intros Hwf Hv. induction fuel as [|fuel IH]; intros p b nStep vHave Hp Hf Hs;
    destruct (Hwf p b Hp) as [Hh _ _]; cbn [locator_walk]; rewrite Hp; cbn [mbind option_bind];
    (destruct (Z.eqb_spec (nHeight b) 0) as [E|E];
     [exists [phashBlock b]; split; [done|by apply locator_genesis]|]).
  - lia.
  - remember (Z.max (nHeight b - nStep) 0) as h eqn:Hh'.
    destruct (GetAncestor_some m Hwf p b h Hp ltac:(lia)) as (q & c & Eq & Hq & Hc & Hn).
    assert (Hnext : (if Contains m v p then Some (chain_at v h) else GetAncestor m p h) = Some (Some q)).
    { destruct (Contains m v p) eqn:C; [|done]. unfold Contains in C. rewrite Hp in C.
      apply bool_decide_eq_true in C. unfold chain_at in C.
      destruct ((nHeight b <? 0) || _) eqn:B; [done|].
      destruct (v !! Z.to_nat (nHeight b)) as [[x|]|] eqn:L; [|done..].
      cbn in C. injection C as ->. rewrite chain_at_lookup by lia. f_equal.
      rewrite (Hv _ _ L (Z.to_nat h)) by lia. cbn. rewrite <- Hn. f_equal. lia. }
    rewrite Hnext. cbn [mbind option_bind].
    destruct (IH q c (if (10 <? length (vHave ++ [phashBlock b]))%nat then nStep * 2 else nStep)
      (vHave ++ [phashBlock b]) Hq ltac:(lia)) as (l & -> & Hl); [destruct (10 <? _)%nat; lia|].
    exists (phashBlock b :: l). rewrite <- (assoc_L (++)). split; [done|].
    eapply locator_step; [done..| | |done]; [lia|by eexists].
Qed.

(** ** [FindEarliestAtLeast] *)

Lemma lower_bound_spec below : ∀ fuel first len, (len ≤ fuel)%nat →
  (∀ i j, (first ≤ i ≤ j)%nat → (j < first + len)%nat → below j = true → below i = true) →
  let k := lower_bound fuel below first len in
  (first ≤ k ≤ first + len)%nat ∧ (∀ i, (first ≤ i < k)%nat → below i = true) ∧
  (∀ i, (k ≤ i < first + len)%nat → below i = false).
Proof.
  induction fuel as [|fuel IH]; intros first len Hf Hmono; cbn [lower_bound]; [split_and!; [lia..|]; lia|].
  destruct (Nat.eqb_spec len 0) as [->|Hl]; [split_and!; [lia..|]; lia|].
  pose proof (Nat.div_lt len 2 ltac:(lia) ltac:(lia)) as Hd. set (half := (len / 2)%nat) in *.
  destruct (below (first + half)%nat) eqn:B.
  - destruct (IH (first + half + 1)%nat (len - half - 1)%nat) as (H1 & H2 & H3); [lia| |].
    { intros i j Hij Hj. apply Hmono; lia. }
    split_and!; [lia..| |].
    + intros i Hi. destruct (decide (i ≤ first + half)%nat) as [L|L]; [|apply H2; lia].
      eapply (Hmono i (first + half)%nat); [lia..|done].
    + intros i Hi. apply H3. lia.
  - destruct (IH first half) as (H1 & H2 & H3); [lia| |].
    { intros i j Hij Hj. apply Hmono; lia. }
    split_and!; [lia..|done|].
    intros i Hi. destruct (decide (i < first + half)%nat) as [L|L]; [apply H3; lia|].
    destruct (below i) eqn:Bi; [|done]. rewrite (Hmono (first + half)%nat i) in B by (done || lia). done.
Qed.

(** [nTimeMax] never decreases along a branch. *)
Definition times_ok (m : blockmap) : Prop := ∀ p b q c,
  m !! p = Some b → pprev b = Some q → m !! q = Some c → nTimeMax c ≤ nTimeMax b.

Lemma nTimeMax_mono m p b : wf_index m → times_ok m → m !! p = Some b →
  ∀ n q c, nth_prev m n p = Some q → m !! q = Some c → nTimeMax c ≤ nTimeMax b.
Proof.
  intros Hwf Ht Hp n. revert p b Hp. induction n as [|n IH]; intros p b Hp q c Hn Hq.
  - cbn in Hn. injection Hn as ->. rewrite Hp in Hq. injection Hq as ->. lia.
  - cbn [nth_prev] in Hn. rewrite Hp in Hn. cbn in Hn. destruct (pprev b) as [r|] eqn:Er; [|done].
    destruct (Hwf p b Hp) as [_ Hprev _]. rewrite Er in Hprev. destruct Hprev as (d & Hr & _).
    etrans; [by eapply (IH r d)|by eapply Ht].
Qed.

Definition timemax_at (m : blockmap) (v : CChain) (i : nat) (t : Z) : Prop :=
  ∃ p b, v !! i = Some (Some p) ∧ m !! p = Some b ∧ nTimeMax b = t.

Lemma FindEarliestAtLeast_spec m v tip t : wf_index m → times_ok m → chain_of m v tip →
  match FindEarliestAtLeast m v t with
  | Some p => ∃ i b, v !! i = Some (Some p) ∧ m !! p = Some b ∧ t ≤ nTimeMax b ∧
              ∀ j u, (j < i)%nat → timemax_at m v j u → u < t
  | None => ∀ j u, timemax_at m v j u → u < t
  end.
Proof.
  intros Hwf Ht Hv. pose proof Hv as (bt & Htip & Hl & Hlk). unfold FindEarliestAtLeast.
  set (below := λ i, _).
  assert (Hall : ∀ i, (i < length v)%nat → ∃ p b, v !! i = Some (Some p) ∧ m !! p = Some b ∧
            below i = (nTimeMax b <? t)).
  { intros i Hi. destruct (nth_prev_height m Hwf (length v - 1 - i) tip bt Htip ltac:(lia))
      as (p & b & E & Hp & _). exists p, b. rewrite Hlk, E by done. split_and!; [done..|].
    unfold below. rewrite Hlk, E by done. cbn. by rewrite Hp. }
  destruct (lower_bound_spec below (length v) 0 (length v)) as (K1 & K2 & K3); [lia| |].
  { intros i j Hij Hj Bj. destruct (Hall i ltac:(lia)) as (p & b & Hi & Hp & ->).
    destruct (Hall j ltac:(lia)) as (q & c & Hj' & Hq & Bj'). rewrite Bj' in Bj.
    pose proof (chain_of_closed m v tip Hv j q Hj' i ltac:(lia)) as E. rewrite Hi in E.
    injection E as E. pose proof (nTimeMax_mono m q c Hwf Ht Hq _ p b (eq_sym E) Hp). lia. }
  set (k := lower_bound _ _ _ _) in *.
  assert (Hbelow : ∀ j u, (j < k)%nat → timemax_at m v j u → u < t).
  { intros j u Hj (p & b & Hvj & Hp & <-). specialize (K2 j ltac:(lia)).
    unfold below in K2. rewrite Hvj in K2. cbn in K2. rewrite Hp in K2. unfold GetBlockTimeMax in K2. lia. }
  destruct (decide (k < length v)%nat) as [Hk|Hk].
  - destruct (Hall k Hk) as (p & b & Hvk & Hp & Bk). rewrite Hvk. cbn.
    rewrite K3 in Bk by lia. exists k, b. split_and!; [done..|lia|done].
  - rewrite lookup_ge_None_2 by lia. cbn. intros j u Hju. apply (Hbelow j); [|done].
    destruct Hju as (p & b & Hvj & _). apply lookup_lt_Some in Hvj. lia.
Qed.

(** ** [GetMedianTimePast] *)

(** An entry and its predecessors, [n] at most, latest first. *)
Fixpoint recent_blocks (n : nat) (m : blockmap) (pindex : option ptr) : list CBlockIndex :=
  match n with
  | O => []
  | S n' => match pindex ≫= (m !!.) with
            | None => []
            | Some b => b :: recent_blocks n' m (pprev b)
            end
  end.

Definition recent_times (n : nat) (m : blockmap) (pindex : option ptr) : list Z :=
  nTime <$> recent_blocks n m pindex.

Lemma past_times_recent m n : ∀ pindex acc,
  past_times n m pindex acc = reverse (recent_times n m pindex) ++ acc.
Proof.
  unfold recent_times. induction n as [|n IH]; intros pindex acc; [done|].
  cbn [past_times recent_blocks]. destruct (pindex ≫= (m !!.)) as [b|]; [|done].
  by rewrite IH, fmap_cons, reverse_cons, <- (assoc_L (++)).
Qed.

Lemma filter_all {A} (P : A → Prop) `{!∀ x, Decision (P x)} (l : list A) :
  Forall P l → filter P l = l.
Proof. induction 1; [done|]. rewrite filter_cons_True by done. congruence. Qed.

(** In a sorted list, the element at position [k] is at least [k + 1] elements
    and at most [length l - k]. *)
Lemma sorted_rank (l : list Z) (k : nat) (r : Z) : StronglySorted Z.le l → l !! k = Some r →
  (k + 1 ≤ length (filter (λ x : Z, (x ≤ r)%Z) l))%nat ∧
  (length l - k ≤ length (filter (λ x : Z, (r ≤ x)%Z) l))%nat.
Proof.
  intros Hs Hk. pose proof (lookup_lt_Some _ _ _ Hk) as Hlt.
  assert (Hsplit : l = take k l ++ r :: drop (S k) l) by (symmetry; by apply take_drop_middle).
  rewrite Hsplit in Hs. apply StronglySorted_app in Hs as (Hcross & _ & Hs).
  apply StronglySorted_inv in Hs as [_ Hge].
  assert (Hle : Forall (λ x, x ≤ r) (take k l)).
  { apply Forall_forall. intros x Hx. apply Hcross; [done|]. left. }
  rewrite Hsplit, !filter_app, !length_app. split.
  - rewrite (filter_all _ (take k l)) by done. rewrite filter_cons_True by lia.
    cbn [length]. rewrite length_take. lia.
  - rewrite (filter_cons_True (λ x, r ≤ x)) by lia. rewrite (filter_all _ (drop (S k) l)) by done.
    cbn [length]. rewrite length_take, length_drop. lia.
Qed.

Lemma GetMedianTimePast_spec m p b : m !! p = Some b →
  let ts := recent_times nMedianTimeSpan m (Some p) in
  let r := GetMedianTimePast m p in
  r ∈ ts ∧ (length ts / 2 + 1 ≤ length (filter (λ x : Z, (x ≤ r)%Z) ts))%nat ∧
  (length ts - length ts / 2 ≤ length (filter (λ x : Z, (r ≤ x)%Z) ts))%nat.
Proof.
  intros Hp. cbv zeta. unfold GetMedianTimePast, sort_times.
  set (ts := recent_times nMedianTimeSpan m (Some p)).
  set (l := merge_sort Z.le _).
  assert (HP : l ≡ₚ ts).
  { unfold l. rewrite merge_sort_Permutation, past_times_recent, app_nil_r. apply reverse_Permutation. }
  assert (HS : StronglySorted Z.le l) by (apply StronglySorted_merge_sort; apply _).
  assert (Hl : length l = length ts) by (by apply Permutation_length).
  assert (Hne : (0 < length ts)%nat) by (unfold ts, recent_times; rewrite length_fmap; cbn [recent_blocks nMedianTimeSpan mbind option_bind];
    rewrite Hp; cbn; lia).
  assert (Hk : (length l / 2 < length l)%nat) by (apply Nat.div_lt; lia).
  destruct (lookup_lt_is_Some_2 l (length l / 2)%nat Hk) as [r Hr].
  assert (nth (length l / 2) l 0 = r) as ->.
  { rewrite nth_lookup, Hr. done. }
  split; [rewrite <- HP; by eapply list_elem_of_lookup_2|].
  destruct (sorted_rank l _ r HS Hr) as [H1 H2]. rewrite Hl in *.
  assert (Hf : ∀ (P : Z → Prop) `{!∀ x, Decision (P x)}, length (filter P l) = length (filter P ts))
    by (intros; apply Permutation_length; by rewrite HP).
  rewrite !Hf in *. done.
Qed.

(** ** Deciding [wf_index] *)

Definition wf_entryb (m : blockmap) (p : ptr) (b : CBlockIndex) : bool :=
  (0 <=? nHeight b) &&
  match pprev b with
  | None => nHeight b =? 0
  | Some q => match m !! q with Some c => nHeight b =? nHeight c + 1 | None => false end
  end &&
  match pskip b with
  | None => true
  | Some s => bool_decide (nth_prev m (Z.to_nat (nHeight b - GetSkipHeight (nHeight b))) p = Some s)
  end.

Definition wf_indexb (m : blockmap) : bool :=
  forallb (λ '(p, b), wf_entryb m p b) (map_to_list m).

Lemma wf_indexb_sound m : wf_indexb m = true → wf_index m.
Proof.
  unfold wf_indexb. rewrite forallb_forall. intros H p b Hp.
  specialize (H (p, b)). rewrite <- list_elem_of_In, elem_of_map_to_list in H. specialize (H Hp).
  cbn in H. unfold wf_entryb in H. apply andb_true_iff in H as [H H3].
  apply andb_true_iff in H as [H1 H2]. split; [lia| |].
  - destruct (pprev b) as [q|]; [|lia]. destruct (m !! q) as [c|]; [|done]. exists c. split; [done|lia].
  - intros s Hs. rewrite Hs in H3. by apply bool_decide_eq_true in H3.
Qed.

(** ** A straight chain, for examples

    Entry [i] has height [i], the given bits and time [t0 + i * dt]; every
    entry's skip pointer is built when it is added. *)
Definition example_block (i : nat) (bits t0 dt : Z) : CBlockIndex :=
  let b := CBlockIndex_of_header
    (mkCBlockHeader 0 [] [] (t0 + Z.of_nat i * dt) bits 0 (Z.of_nat i) 0 []) in
  mkCBlockIndex [Z.of_nat i] (match i with O => None | S j => Some (Pos.of_succ_nat j) end) None
    (nHeight b) 0 0 0 uint_zero 0 0 0 0 [] (nTime b) (nBits b) 0 0 [] 0 (nTime b).

Fixpoint example_chain (n : nat) (bits t0 dt : Z) : blockmap :=
  match n with
  | O => ∅
  | S i =>
      let m := <[Pos.of_succ_nat i := example_block i bits t0 dt]> (example_chain i bits t0 dt) in
      default m (BuildSkip m (Pos.of_succ_nat i))
  end.

(** * Properties *)

(** C14: in a well-formed block index, [GetAncestor] by skip pointers returns
    exactly the entry that following [pprev] reaches at the requested height,
    [nullptr] exactly for heights above the entry or below zero, and never
    fails an assertion; [BuildSkip] keeps the index well formed, so that the
    skip pointers of later entries can be built. *)
Theorem GetAncestor_refines_pprev m p b height : wf_index m → m !! p = Some b →
  GetAncestor m p height =
    Some (if (height >? nHeight b) || (height <? 0) then None
          else nth_prev m (Z.to_nat (nHeight b - height)) p) ∧
  (0 ≤ height ≤ nHeight b → ∃ q c, GetAncestor m p height = Some (Some q) ∧
     m !! q = Some c ∧ nHeight c = height) ∧
  (∃ m', BuildSkip m p = Some m' ∧ wf_index m').
Proof.
  intros Hwf Hp. split_and!.
  - by apply GetAncestor_nth_prev.
  - intros Hh. destruct (GetAncestor_some m Hwf p b height Hp Hh) as (q & c & ? & ? & ? & _). eauto.
  - destruct (BuildSkip_spec m p b Hwf Hp) as (s & ? & _ & ?). eauto.
Qed.

Lemma GetAncestor_refines_pprev_witness :
  let m := example_chain 40 0 0 60 in GetAncestor m 40%positive 3 = Some (Some 4%positive).
Proof.
  cbv zeta. set (m := example_chain 40 0 0 60).
  assert (Hwf : wf_index m) by (apply wf_indexb_sound; vm_compute; reflexivity).
  destruct (m !! 40%positive) as [b|] eqn:E; [|vm_compute in E; discriminate].
  rewrite (proj1 (GetAncestor_refines_pprev m 40%positive b 3 Hwf E)).
  assert (nHeight b = 39) as -> by (vm_compute in E; injection E as <-; reflexivity).
  vm_compute. reflexivity.
Defined.

(** C30: from any vector in which entries have their ancestors below them (the
    empty one, or the result of an earlier call), [SetTip] terminates and
    leaves exactly the branch of the new tip, indexed by height, although it
    stops at the first entry that is already in place. *)
Theorem SetTip_branch m v p b : wf_index m → closed m v → m !! p = Some b →
  ∃ v', SetTip m v (Some p) = Some v' ∧ closed m v' ∧
    Z.of_nat (length v') = nHeight b + 1 ∧ Tip v' = Some p ∧
    ∀ i, 0 ≤ i ≤ nHeight b → chain_at v' i = nth_prev m (Z.to_nat (nHeight b - i)) p.
Proof.
  intros Hwf Hc Hp. destruct (SetTip_spec m v p b Hwf Hc Hp) as (v' & E & Hv).
  exists v'. destruct (Hwf p b Hp) as [Hh _ _].
  pose proof Hv as (b' & Hp' & Hl & Hlk). rewrite Hp in Hp'. injection Hp' as <-.
  split_and!; [done|by eapply chain_of_closed|done| |].
  - unfold Tip. rewrite last_lookup, Hlk by lia.
    replace (length v' - 1 - Nat.pred (length v'))%nat with 0%nat by lia. done.
  - intros i Hi. rewrite chain_at_lookup, Hlk by lia. cbn. f_equal. lia.
Qed.

Lemma SetTip_branch_witness :
  let m := example_chain 5 0 0 60 in
  ∃ v', SetTip m [] (Some 5%positive) = Some v' ∧ chain_at v' 2 = Some 3%positive.
Proof.
  cbv zeta. set (m := example_chain 5 0 0 60).
  assert (Hwf : wf_index m) by (apply wf_indexb_sound; vm_compute; reflexivity).
  destruct (m !! 5%positive) as [b|] eqn:E; [|vm_compute in E; discriminate].
  destruct (SetTip_branch m [] 5%positive b Hwf ltac:(intros h q H; by rewrite lookup_nil in H) E)
    as (v' & H & _ & _ & _ & Hc).
  assert (nHeight b = 4) as Hb by (vm_compute in E; injection E as <-; reflexivity).
  exists v'. split; [exact H|]. rewrite Hc, Hb by lia. vm_compute. reflexivity.
Defined.

(** [FindFork] and [LastCommonAncestor] terminate and return the highest
    entry that is an ancestor of both arguments (of the entry and the chain's
    tip, for [FindFork]), or [nullptr] when there is none. *)
Theorem fork_points_highest m v tip p q b c :
  wf_index m → chain_of m v tip → m !! p = Some b → m !! q = Some c →
  (∃ r, FindFork m v (Some p) = Some r ∧ highest_common m p tip r) ∧
  (∃ r, LastCommonAncestor m p q = Some r ∧ highest_common m p q r).
Proof. eauto using FindFork_spec, LastCommonAncestor_spec. Qed.

(** Two blocks of height 2 on the same block of height 1. *)
Definition example_fork : blockmap :=
  <[4%positive := mkCBlockIndex [9] (Some 2%positive) None 2 0 0 0 uint_zero 0 0 0 0 [] 100 0 0 0 [] 0 100]>
    (example_chain 3 0 0 60).

Lemma fork_points_highest_witness :
  ∃ v, SetTip example_fork [] (Some 3%positive) = Some v ∧
    (∃ r, FindFork example_fork v (Some 4%positive) = Some r ∧ highest_common example_fork 4 3 r) ∧
    LastCommonAncestor example_fork 4 3 = Some (Some 2%positive).
Proof.
  set (m := example_fork).
  assert (Hwf : wf_index m) by (apply wf_indexb_sound; vm_compute; reflexivity).
  destruct (m !! 4%positive) as [b|] eqn:Eb; [|vm_compute in Eb; discriminate].
  destruct (m !! 3%positive) as [c|] eqn:Ec; [|vm_compute in Ec; discriminate].
  destruct (SetTip_spec m [] 3%positive c Hwf ltac:(intros h q H; by rewrite lookup_nil in H) Ec)
    as (v & E & Hv).
  exists v. split; [exact E|].
  split; [exact (proj1 (fork_points_highest m v 3%positive 4%positive 3%positive b c Hwf Hv Eb Ec))|].
  vm_compute. reflexivity.
Defined.

(** a block locator starts at the requested entry (the tip by default),
    lists hashes of ancestors at strictly decreasing heights and ends at the
    genesis block; the exponential back-off always terminates. *)
Theorem GetLocator_path m v p b : wf_index m → closed m v → m !! p = Some b →
  ∃ l, GetLocator m v (Some p) = Some l ∧ locator_path m p l ∧
    (Tip v = Some p → GetLocator m v None = Some l).
Proof.
  intros Hwf Hv Hp.
  destruct (locator_walk_spec m v Hwf Hv (Z.to_nat (nHeight b)) p b 1 [] Hp ltac:(lia) ltac:(lia))
    as (l & E & Hl).
  assert (GetLocator m v (Some p) = Some l) as E1.
  { unfold GetLocator. cbn [mbind option_bind]. by rewrite Hp. }
  exists l. split_and!; [done..|]. intros Ht. rewrite <- E1. unfold GetLocator. by rewrite Ht.
Qed.

Lemma GetLocator_path_witness :
  let m := example_chain 40 0 0 60 in
  ∃ l, GetLocator m [] (Some 40%positive) = Some l ∧ locator_path m 40 l ∧ length l = 16%nat.
Proof.
  cbv zeta. set (m := example_chain 40 0 0 60).
  assert (Hwf : wf_index m) by (apply wf_indexb_sound; vm_compute; reflexivity).
  destruct (m !! 40%positive) as [b|] eqn:E; [|vm_compute in E; discriminate].
  destruct (GetLocator_path m [] 40%positive b Hwf ltac:(intros h q H; by rewrite lookup_nil in H) E)
    as (l & H1 & H2 & _).
  exists l. split; [exact H1|split; [exact H2|]]. vm_compute in H1. injection H1 as <-. reflexivity.
Defined.

(** with [nTimeMax] non-decreasing along branches, the binary search of
    [FindEarliestAtLeast] returns the lowest block of the chain whose maximal
    time is at least the argument, or [nullptr] when all are earlier; and
    [GetMedianTimePast] returns a time of one of the last eleven blocks with at
    least half of them on either side. *)
Theorem time_queries m v tip b t : wf_index m → times_ok m → chain_of m v tip → m !! tip = Some b →
  match FindEarliestAtLeast m v t with
  | Some p => ∃ i b, v !! i = Some (Some p) ∧ m !! p = Some b ∧ t ≤ nTimeMax b ∧
              ∀ j u, (j < i)%nat → timemax_at m v j u → u < t
  | None => ∀ j u, timemax_at m v j u → u < t
  end ∧
  let ts := recent_times 11 m (Some tip) in
  let r := GetMedianTimePast m tip in
  r ∈ ts ∧ (length ts / 2 + 1 ≤ length (filter (λ x : Z, (x ≤ r)%Z) ts))%nat ∧
  (length ts - length ts / 2 ≤ length (filter (λ x : Z, (r ≤ x)%Z) ts))%nat.
Proof.
  intros Hwf Ht Hv Hb. split; [by apply (FindEarliestAtLeast_spec m v tip)|].
  by apply (GetMedianTimePast_spec m tip b).
Qed.

(** Decides [times_ok]. *)
Definition times_okb (m : blockmap) : bool :=
  forallb (λ '(p, b), match pprev b ≫= (m !!.) with
                      | Some c => nTimeMax c <=? nTimeMax b | None => true end) (map_to_list m).

Lemma times_okb_sound m : times_okb m = true → times_ok m.
Proof.
  unfold times_okb. rewrite forallb_forall. intros H p b q c Hp Hq Hc.
  specialize (H (p, b)). rewrite <- list_elem_of_In, elem_of_map_to_list in H. specialize (H Hp).
  cbn in H. rewrite Hq in H. cbn in H. rewrite Hc in H. lia.
Qed.

Lemma time_queries_witness :
  let m := example_chain 12 0 0 60 in
  GetMedianTimePast m 12 ∈ recent_times 11 m (Some 12%positive) ∧
  ∃ v, SetTip m [] (Some 12%positive) = Some v ∧ FindEarliestAtLeast m v 130 = Some 4%positive.
Proof.
  cbv zeta. set (m := example_chain 12 0 0 60).
  assert (Hwf : wf_index m) by (apply wf_indexb_sound; vm_compute; reflexivity).
  assert (Ht : times_ok m) by (apply times_okb_sound; vm_compute; reflexivity).
  destruct (m !! 12%positive) as [b|] eqn:E; [|vm_compute in E; discriminate].
  destruct (SetTip_spec m [] 12%positive b Hwf ltac:(intros h q H; by rewrite lookup_nil in H) E)
    as (v & Ev & Hv).
  pose proof (time_queries m v 12%positive b 130 Hwf Ht Hv E) as [_ H]. cbv zeta in H.
  split; [apply H|]. exists v. split; [exact Ev|]. vm_compute in Ev. injection Ev as <-.
  vm_compute. reflexivity.
Defined.
