(* ===== verification/Serialize.v ===== *)
(** The byte-level serialization of serialize.h: fixed-width integers,
    [CompactSize], [VarInt], strings, vectors and flat data, as writers into
    and readers from a byte list, with the type class [Codec] that relates the
    two directions. *)
From stdpp Require Import base list option.
From Stdlib Require Import ZArith Lia.
From S2P Require Import Prelude ArithUint256.
Open Scope Z_scope.

(** * Streams

    A writer yields the bytes it appends. A reader consumes a prefix of the
    stream; [None] is the exception [std::ios_base::failure]. *)

Definition bytes := list Z.
Definition reader (A : Type) : Type := bytes → option (A * bytes).

Definition rret {A} (a : A) : reader A := λ s, Some (a, s).
Definition rfail {A} : reader A := λ _, None.
Definition rbind {A B} (r : reader A) (f : A → reader B) : reader B :=
  λ s, match r s with Some (a, s') => f a s' | None => None end.

Declare Scope reader_scope.
Delimit Scope reader_scope with reader.
Notation "'let*' x := r 'in' k" := (rbind r (λ x, k%reader))
  (at level 10, x pattern, r at level 100, k at level 200) : reader_scope.
Bind Scope reader_scope with reader.

(** [s.read(p, n)] of a data stream. *)
Definition read_bytes (n : nat) : reader bytes :=
  λ s, if (length s <? n)%nat then None else Some (take n s, drop n s).

(** * Integers *)

(** The [n] low bytes of a word in little-endian order. *)
Fixpoint le_bytes (n : nat) (x : Z) : bytes :=
  match n with
  | O => []
  | S n' => x mod 256 :: le_bytes n' (x / 256)
  end.

Definition read_le (n : nat) : reader Z := (let* b := read_bytes n in rret (le_val b))%reader.

Definition ser_writedata8 (obj : Z) : bytes := le_bytes 1 (u8 obj).
Definition ser_writedata16 (obj : Z) : bytes := le_bytes 2 (u16 obj).
Definition ser_writedata32 (obj : Z) : bytes := le_bytes 4 (u32 obj).
Definition ser_writedata32be (obj : Z) : bytes := rev (le_bytes 4 (u32 obj)).
Definition ser_writedata64 (obj : Z) : bytes := le_bytes 8 (u64 obj).
Definition ser_readdata8 : reader Z := read_le 1.
Definition ser_readdata16 : reader Z := read_le 2.
Definition ser_readdata32 : reader Z := read_le 4.
Definition ser_readdata32be : reader Z := (let* b := read_bytes 4 in rret (le_val (rev b)))%reader.
Definition ser_readdata64 : reader Z := read_le 8.

#[global] Arguments read_bytes : simpl never.
#[global] Arguments ser_writedata8 : simpl never.
#[global] Arguments ser_writedata16 : simpl never.
#[global] Arguments ser_writedata32 : simpl never.
#[global] Arguments ser_writedata64 : simpl never.
#[global] Arguments ser_readdata8 : simpl never.
#[global] Arguments ser_readdata16 : simpl never.
#[global] Arguments ser_readdata32 : simpl never.
#[global] Arguments ser_readdata64 : simpl never.

(** Signed fields are cast to and from the unsigned word. *)
Definition ser_write_i32 (n : Z) : bytes := ser_writedata32 n.
Definition ser_read_i32 : reader Z := (let* n := ser_readdata32 in rret (i32 n))%reader.
Definition ser_write_i64 (n : Z) : bytes := ser_writedata64 n.
Definition ser_read_i64 : reader Z := (let* n := ser_readdata64 in rret (i64 n))%reader.

(** * Compact sizes *)

Definition MAX_SIZE : Z := 0x02000000.

Definition GetSizeOfCompactSize (nSize : Z) : Z :=
  if nSize <? 253 then 1
  else if nSize <=? 0xffff then 3
  else if nSize <=? 0xffffffff then 5
  else 9.

Definition WriteCompactSize (nSize : Z) : bytes :=
  if nSize <? 253 then ser_writedata8 nSize
  else if nSize <=? 0xffff then ser_writedata8 253 ++ ser_writedata16 nSize
  else if nSize <=? 0xffffffff then ser_writedata8 254 ++ ser_writedata32 nSize
  else ser_writedata8 255 ++ ser_writedata64 nSize.

Definition ReadCompactSize : reader Z := (
  let* chSize := ser_readdata8 in
  let* nSizeRet :=
    (if chSize <? 253 then rret chSize
     else if chSize =? 253 then
       let* n := ser_readdata16 in if n <? 253 then rfail else rret n
     else if chSize =? 254 then
       let* n := ser_readdata32 in if n <? 0x10000 then rfail else rret n
     else
       let* n := ser_readdata64 in if n <? 0x100000000 then rfail else rret n) in
  if nSizeRet >? MAX_SIZE then rfail else rret nSizeRet)%reader.

(** * Variable-length integers of a [w]-bit unsigned type *)

Definition umax (w : Z) : Z := 2 ^ w - 1.

(** [unsigned char tmp[(sizeof(n)*8+6)/7]] *)
Definition varint_tmp (w : Z) : nat := Z.to_nat ((w + 6) / 7).

Fixpoint GetSizeOfVarInt_loop (fuel : nat) (n nRet : Z) : option Z :=
  match fuel with
  | O => None
  | S fuel' =>
      let nRet := nRet + 1 in
      if n <=? 0x7F then Some nRet
      else GetSizeOfVarInt_loop fuel' (Z.shiftr n 7 - 1) nRet
  end.

Definition GetSizeOfVarInt (w n : Z) : option Z := GetSizeOfVarInt_loop (varint_tmp w) n 0.

(** [room] counts the unused places of [tmp], [acc] holds the digits written,
    the last one first: [None] is a write past the array. *)
Fixpoint WriteVarInt_loop (room : nat) (n : Z) (len : nat) (acc : bytes) : option bytes :=
  match room with
  | O => None
  | S room' =>
      let acc := Z.lor (Z.land n 0x7F) (if (len =? 0)%nat then 0x00 else 0x80) :: acc in
      if n <=? 0x7F then Some acc
      else WriteVarInt_loop room' (Z.shiftr n 7 - 1) (S len) acc
  end.

Definition WriteVarInt (w n : Z) : option bytes := WriteVarInt_loop (varint_tmp w) n 0 [].

Fixpoint ReadVarInt_loop (w n : Z) (s : bytes) : option (Z * bytes) :=
  match s with
  | [] => None
  | chData :: s' =>
      if n >? Z.shiftr (umax w) 7 then None
      else
        let n := Z.lor (Z.shiftl n 7 mod 2 ^ w) (Z.land chData 0x7F) in
        if negb (Z.land chData 0x80 =? 0) then
          if n =? umax w then None else ReadVarInt_loop w (n + 1) s'
        else Some (n, s')
  end.

Definition ReadVarInt (w : Z) : reader Z := ReadVarInt_loop w 0.

(** * Containers *)

(** Serialization of a type, as the overloads of [Serialize] and
    [Unserialize] give it. *)
Class Serializable (A : Type) := { Serialize : A → bytes; Unserialize : reader A }.

(** Byte vectors, scripts and strings: the size, then the bytes; they are read
    in blocks of at most 5,000,000 bytes. *)
Fixpoint read_blocks (fuel : nat) (nSize i : Z) (v : bytes) : reader bytes :=
  if i <? nSize then
    match fuel with
    | O => rfail
    | S fuel' =>
        let blk := Z.min (nSize - i) (1 + 4999999) in
        (let* b := read_bytes (Z.to_nat blk) in read_blocks fuel' nSize (i + blk) (v ++ b))%reader
    end
  else rret v.

Definition Serialize_bytes (v : bytes) : bytes := WriteCompactSize (Z.of_nat (length v)) ++ v.
Definition Unserialize_bytes : reader bytes :=
  (let* nSize := ReadCompactSize in read_blocks (Z.to_nat (nSize / 5000000 + 1)) nSize 0 [])%reader.

Definition Serialize_string (str : bytes) : bytes := WriteCompactSize (Z.of_nat (length str)) ++ str.
Definition Unserialize_string : reader bytes :=
  (let* nSize := ReadCompactSize in read_bytes (Z.to_nat nSize))%reader.

Definition LimitedString_Unserialize (Limit : Z) : reader bytes :=
  (let* size := ReadCompactSize in
   if size >? Limit then rfail else read_bytes (Z.to_nat size))%reader.

(** Vectors of other types: [Unserialize] runs once per element. The vector is
    resized in steps so that a bogus size allocates little; the elements read
    are the same. *)
Section Vectors.
Context {A} `{Serializable A}.

Fixpoint read_elements (n : nat) (v : list A) : reader (list A) :=
  match n with
  | O => rret v
  | S n' => (let* a := Unserialize in read_elements n' (v ++ [a]))%reader
  end.

Fixpoint read_batches (fuel : nat) (batch nSize nMid i : Z) (v : list A) : reader (list A) :=
  if nMid <? nSize then
    match fuel with
    | O => rfail
    | S fuel' =>
        let nMid := nMid + batch in
        let nMid := if nMid >? nSize then nSize else nMid in
        (let* v := read_elements (Z.to_nat (nMid - i)) v in
         read_batches fuel' batch nSize nMid nMid v)%reader
    end
  else rret v.

(** [5000000 / sizeof(T)] elements at a time *)
Definition Serialize_vector (v : list A) : bytes :=
  WriteCompactSize (Z.of_nat (length v)) ++ concat (map Serialize v).
Definition Unserialize_vector (batch : Z) : reader (list A) :=
  (let* nSize := ReadCompactSize in read_batches (Z.to_nat nSize) batch nSize 0 0 [])%reader.
End Vectors.

(** A pair is its components one after the other. *)
Definition Serialize_pair {A B} `{Serializable A, Serializable B} (item : A * B) : bytes :=
  Serialize item.1 ++ Serialize item.2.
Definition Unserialize_pair {A B} `{Serializable A, Serializable B} : reader (A * B) :=
  (let* k := Unserialize in let* v := Unserialize in rret (k, v))%reader.

(** * Codecs *)

Definition is_bytes (s : bytes) : Prop := Forall is_u8 s.

(** A writer and a reader that are inverse on the values [P]: what is written
    is read back leaving the rest of the stream, and nothing else is read as
    a value. *)
Record codec {A} (w : A → bytes) (r : reader A) (P : A → Prop) : Prop := {
  codec_write : ∀ a, P a → is_bytes (w a);
  codec_read : ∀ a rest, P a → r (w a ++ rest) = Some (a, rest);
  codec_canon : ∀ s a rest, is_bytes s → r s = Some (a, rest) → P a ∧ s = w a ++ rest }.

Class Codec A `{Serializable A} (P : A → Prop) : Prop := codec_class : codec Serialize Unserialize P.

Create HintDb codec discriminated.
#[export] Hint Constants Opaque : codec.

Lemma is_bytes_app s t : is_bytes (s ++ t) ↔ is_bytes s ∧ is_bytes t.
Proof. apply Forall_app. Qed.

Lemma is_bytes_cons x s : is_bytes (x :: s) ↔ is_u8 x ∧ is_bytes s.
Proof. apply Forall_cons_iff. Qed.

(** Sequencing: a codec at the head of a reader. *)
Lemma codec_bind {A B} (w : A → bytes) r P (f : A → reader B) a rest :
  codec w r P → P a → rbind r f (w a ++ rest) = f a rest.
Proof. intros C Ha. unfold rbind. by rewrite (codec_read _ _ _ C). Qed.

Lemma codec_bind_inv {A B} (w : A → bytes) r P (f : A → reader B) s b rest :
  codec w r P → is_bytes s → rbind r f s = Some (b, rest) →
  ∃ a s', P a ∧ s = w a ++ s' ∧ is_bytes s' ∧ f a s' = Some (b, rest).
Proof.
  intros C Hs. unfold rbind. destruct (r s) as [[a s']|] eqn:E; [|done]. intros H.
  destruct (codec_canon _ _ _ C s a s' Hs E) as [Ha ->].
  apply is_bytes_app in Hs as [_ Hs]. eauto 10.
Qed.

Lemma codec_impl {A} (w : A → bytes) r P Q : codec w r P → (∀ a, P a ↔ Q a) → codec w r Q.
Proof.
  intros [C1 C2 C3] HPQ. split.
  - intros a Ha. apply C1, HPQ, Ha.
  - intros a rest Ha. apply C2, HPQ, Ha.
  - intros s a rest Hs H. destruct (C3 s a rest Hs H) as [Ha ->]. split; [by apply HPQ|done].
Qed.

(** ** Fixed-width integers *)

Lemma length_le_bytes n x : length (le_bytes n x) = n.
Proof. revert x. induction n as [|n IH]; intros x; cbn; [done|]. by rewrite IH. Qed.

Lemma le_bytes_u8 n x : is_bytes (le_bytes n x).
Proof.
  revert x. induction n as [|n IH]; intros x; cbn; constructor; [|apply IH].
  unfold_words. pose proof (Z.mod_pos_bound x 256). lia.
Qed.

Lemma le_val_bytes n x : 0 ≤ x < 256 ^ Z.of_nat n → le_val (le_bytes n x) = x.
Proof.
  revert x. induction n as [|n IH]; intros x Hx; cbn [le_bytes le_val].
  - change (256 ^ Z.of_nat 0) with 1 in Hx. lia.
  - rewrite Nat2Z.inj_succ, Z.pow_succ_r in Hx by lia. rewrite IH.
    + pose proof (Z.div_mod x 256 ltac:(lia)). lia.
    + split; [apply Z.div_pos; lia|apply Z.div_lt_upper_bound; lia].
Qed.

Lemma le_bytes_val s : is_bytes s → le_bytes (length s) (le_val s) = s.
Proof.
  induction 1 as [|x s Hx _ IH]; [done|]. cbn [length le_bytes le_val].
  unfold is_u8 in Hx. replace (x + 2 ^ 8 * le_val s) with (x + le_val s * 256) by lia.
  rewrite Z.mod_add, Z.mod_small, Z.div_add, Z.div_small, Z.add_0_l, IH by lia. done.
Qed.

Lemma le_val_range s : is_bytes s → 0 ≤ le_val s < 256 ^ Z.of_nat (length s).
Proof.
  induction 1 as [|x s Hx _ IH]; cbn [le_val length]; [done|].
  rewrite Nat2Z.inj_succ, Z.pow_succ_r by lia. unfold is_u8 in Hx. lia.
Qed.

Lemma read_bytes_app n b rest : length b = n → read_bytes n (b ++ rest) = Some (b, rest).
Proof.
  intros <-. unfold read_bytes. rewrite length_app, (proj2 (Nat.ltb_ge _ _)) by lia.
  by rewrite take_app_length, drop_app_length.
Qed.

Lemma codec_bytes n : codec (λ b, b) (read_bytes n) (λ b, is_bytes b ∧ length b = n).
Proof.
  split.
  - by intros a [? _].
  - intros a rest [_ ?]. by apply read_bytes_app.
  - intros s a rest Hs. unfold read_bytes. destruct (Nat.ltb_spec (length s) n); [done|].
    intros [= <- <-]. rewrite length_take, take_drop. split; [split; [by apply Forall_take|lia]|done].
Qed.

Lemma codec_le n : codec (le_bytes n) (read_le n) (λ x, 0 ≤ x < 256 ^ Z.of_nat n).
Proof.
  split.
  - intros. apply le_bytes_u8.
  - intros x rest Hx. unfold read_le, rbind. rewrite read_bytes_app by apply length_le_bytes.
    unfold rret. by rewrite le_val_bytes.
  - intros s x rest Hs H. unfold read_le in H.
    apply (codec_bind_inv _ _ _ _ _ _ _ (codec_bytes n) Hs) in H as (b & s' & [Hb Hl] & -> & _ & [= <- <-]).
    subst n. split; [by apply le_val_range|]. by rewrite le_bytes_val.
Qed.

Lemma codec_ext {A} (w w' : A → bytes) r P : (∀ a, P a → w a = w' a) → codec w r P → codec w' r P.
Proof.
  intros E [C1 C2 C3]. split.
  - intros a Ha. rewrite <- E by done. auto.
  - intros a rest Ha. rewrite <- E by done. auto.
  - intros s a rest Hs H. destruct (C3 s a rest Hs H) as [Ha ->]. by rewrite E.
Qed.

Lemma codec_u8 : codec ser_writedata8 ser_readdata8 is_u8.
Proof. eapply codec_ext; [|apply (codec_le 1)]. intros a Ha. unfold ser_writedata8. rewrite u8_small; [done|exact Ha]. Qed.

Lemma codec_u16 : codec ser_writedata16 ser_readdata16 is_u16.
Proof.
  eapply codec_ext; [|apply (codec_le 2)]. intros a Ha. unfold ser_writedata16. f_equal.
  symmetry. apply Z.mod_small, Ha.
Qed.

Lemma codec_u32 : codec ser_writedata32 ser_readdata32 is_u32.
Proof. eapply codec_ext; [|apply (codec_le 4)]. intros a Ha. unfold ser_writedata32. rewrite u32_small; [done|exact Ha]. Qed.

Lemma codec_u64 : codec ser_writedata64 ser_readdata64 is_u64.
Proof. eapply codec_ext; [|apply (codec_le 8)]. intros a Ha. unfold ser_writedata64. rewrite u64_small; [done|exact Ha]. Qed.

(** Signed integers through their unsigned words. *)
Lemma codec_map {A B} (w : A → bytes) r P (f : A → B) (g : B → A) Q :
  codec w r P → (∀ b, Q b → P (g b) ∧ f (g b) = b) → (∀ a, P a → Q (f a) ∧ g (f a) = a) →
  codec (λ b, w (g b)) (rbind r (λ a, rret (f a))) Q.
Proof.
  intros C Hg Hf. split.
  - intros b Hb. apply (codec_write _ _ _ C), Hg, Hb.
  - intros b rest Hb. destruct (Hg b Hb) as [Ha E]. rewrite (codec_bind _ _ _ _ _ _ C Ha).
    unfold rret. by rewrite E.
  - intros s b rest Hs H. apply (codec_bind_inv _ _ _ _ _ _ _ C Hs) in H as (a & s' & Ha & -> & _ & [= <- <-]).
    destruct (Hf a Ha) as [? ->]. done.
Qed.

Lemma codec_i32 : codec ser_write_i32 ser_read_i32 is_i32.
Proof.
  apply (codec_ext (λ b, ser_writedata32 (u32 b))).
  - intros a Ha. unfold ser_write_i32, ser_writedata32, u32. by rewrite Z.mod_mod.
  - apply (codec_map _ _ _ i32 u32 is_i32 codec_u32); unfold_words; intros x Hx;
    (split; [|Z.to_euclidean_division_equations; lia]); Z.to_euclidean_division_equations; lia.
Qed.

Lemma codec_i64 : codec ser_write_i64 ser_read_i64 is_i64.
Proof.
  apply (codec_ext (λ b, ser_writedata64 (u64 b))).
  - intros a Ha. unfold ser_write_i64, ser_writedata64, u64. by rewrite Z.mod_mod.
  - apply (codec_map _ _ _ i64 u64 is_i64 codec_u64); unfold_words; intros x Hx;
    (split; [|Z.to_euclidean_division_equations; lia]); Z.to_euclidean_division_equations; lia.
Qed.

#[export] Hint Resolve codec_u8 codec_u16 codec_u32 codec_u64 codec_i32 codec_i64 codec_bytes : codec.

(** [rread] runs the codec at the head of a reader on what its writer wrote;
    [rinv H] inverts a successful read. *)
Ltac rread :=
  rewrite <- ?app_assoc; erewrite codec_bind; [|eauto with codec..].
Ltac rinv H :=
  let a := fresh "x" in let s := fresh "s" in let Hs := fresh "Hs" in let Ha := fresh "Hx" in
  eapply codec_bind_inv in H as (a & s & Ha & -> & Hs & H); [|eauto with codec|eassumption].

(** ** Compact sizes *)

Definition is_size (n : Z) : Prop := 0 ≤ n ≤ MAX_SIZE.

Lemma GetSizeOfCompactSize_spec n : Z.of_nat (length (WriteCompactSize n)) = GetSizeOfCompactSize n.
Proof. unfold WriteCompactSize, GetSizeOfCompactSize. by repeat case_match. Qed.

Lemma codec_CompactSize : codec WriteCompactSize ReadCompactSize is_size.
Proof.
  unfold is_size, MAX_SIZE. split.
  - intros n Hn. unfold WriteCompactSize, ser_writedata8, ser_writedata16, ser_writedata32, ser_writedata64.
    repeat case_match; rewrite ?is_bytes_app; repeat split; apply le_bytes_u8.
  - intros n rest Hn. unfold WriteCompactSize, ReadCompactSize, MAX_SIZE.
    destruct (Z.ltb_spec n 253) as [L|L]; [|destruct (Z.leb_spec n 0xffff); [|destruct (Z.leb_spec n 0xffffffff); [|lia]]].
    + rread; [|unfold_words; lia]. cbn beta. rewrite (proj2 (Z.ltb_lt _ _)) by lia. cbn.
      rewrite (Z.gtb_ltb), (proj2 (Z.ltb_ge _ _)) by lia. done.
    + rread; [|unfold_words; lia]. cbn [Z.ltb Z.eqb Z.compare Pos.compare Pos.compare_cont Pos.eqb]. unfold rbind at 1.
      rread; [|unfold_words; lia]. rewrite (proj2 (Z.ltb_ge _ _)) by lia. cbn.
      rewrite (Z.gtb_ltb), (proj2 (Z.ltb_ge _ _)) by lia. done.
    + rread; [|unfold_words; lia]. cbn [Z.ltb Z.eqb Z.compare Pos.compare Pos.compare_cont Pos.eqb]. unfold rbind at 1.
      rread; [|unfold_words; lia]. rewrite (proj2 (Z.ltb_ge _ _)) by lia. cbn.
      rewrite (Z.gtb_ltb), (proj2 (Z.ltb_ge _ _)) by lia. done.
  - intros s n rest Hs H. unfold ReadCompactSize in H. rinv H. unfold is_u8 in Hx.
    unfold WriteCompactSize, MAX_SIZE in *.
    destruct (Z.ltb_spec x 253); [|destruct (Z.eqb_spec x 253) as [->|]; [|destruct (Z.eqb_spec x 254) as [->|]]].
    + cbn in H. destruct (Z.gtb_spec x 33554432); [done|]. injection H as <- <-.
      split; [lia|]. by rewrite (proj2 (Z.ltb_lt _ _)) by lia.
    + unfold rbind at 1 in H. destruct (rbind _ _ s0) as [[y s1]|] eqn:E; [|done]. rinv E.
      unfold is_u16 in Hx0. destruct (Z.ltb_spec x 253); [done|]. injection E as <- <-.
      destruct (Z.gtb_spec x 33554432); [done|]. injection H as <- <-. split; [lia|].
      rewrite (proj2 (Z.ltb_ge x _)), (proj2 (Z.leb_le x _)) by lia. by rewrite app_assoc.
    + unfold rbind at 1 in H. destruct (rbind _ _ s0) as [[y s1]|] eqn:E; [|done]. rinv E.
      unfold is_u32 in Hx0. destruct (Z.ltb_spec x 0x10000); [done|]. injection E as <- <-.
      destruct (Z.gtb_spec x 33554432); [done|]. injection H as <- <-. split; [lia|].
      rewrite (proj2 (Z.ltb_ge x _)), (proj2 (Z.leb_gt x 65535)), (proj2 (Z.leb_le x _)) by lia.
      by rewrite app_assoc.
    + unfold rbind at 1 in H. destruct (rbind _ _ s0) as [[y s1]|] eqn:E; [|done]. rinv E.
      destruct (Z.ltb_spec x0 0x100000000); [done|]. injection E as <- <-.
      destruct (Z.gtb_spec x0 33554432); [done|]. lia.
Qed.
#[export] Hint Resolve codec_CompactSize : codec.

(** ** Variable-length integers *)

(** The continuation bytes of a prefix and the number they stand for. *)
Inductive cont : Z → bytes → Prop :=
  | cont_nil : cont 0 []
  | cont_snoc m l d : cont m l → 0 ≤ d < 128 → cont (m * 128 + d + 1) (l ++ [128 + d]).

Lemma cont_nonneg m l : cont m l → 0 ≤ m.
Proof. induction 1; lia. Qed.

Lemma cont_bytes m l : cont m l → is_bytes l.
Proof. induction 1; [constructor|]. apply is_bytes_app. split; [done|]. constructor; [unfold_words; lia|done]. Qed.

Lemma cont_fun m l l' : cont m l → cont m l' → l = l'.
Proof.
  intros H. revert l'. induction H as [|m l d H IH Hd]; intros l' H'; inversion H' as [E|m' l1 d' H1 Hd' E]; subst.
  - done.
  - apply cont_nonneg in H1. lia.
  - apply cont_nonneg in H. lia.
  - pose proof (cont_nonneg _ _ H). pose proof (cont_nonneg _ _ H1).
    assert (m' = m) as -> by lia. assert (d' = d) as -> by lia. by rewrite (IH l1).
Qed.

Lemma lor_cont d : 0 ≤ d < 128 → Z.lor d 128 = 128 + d.
Proof. intros Hd. rewrite (lor_disjoint 7 d 128) by (reflexivity || lia). lia. Qed.

Lemma land_7F n : Z.land n 0x7F = n mod 128.
Proof. apply (Z.land_ones n 7). lia. Qed.

Lemma land_80 n : 0 ≤ n < 256 → (Z.land n 0x80 =? 0) = (n <? 128).
Proof.
  intros Hn. change (Z.land n 0x80) with (Z.land n (2 ^ 7)). rewrite land_pow2 by lia.
  destruct (Z.ltb_spec n 128).
  - assert (Z.testbit n 7 = false) as -> by (apply Z.testbit_false; [lia|]; by rewrite Z.div_small by lia).
    reflexivity.
  - assert (Z.testbit n 7 = true) as ->; [|reflexivity].
    apply Z.testbit_true; [lia|]. replace (n / 2 ^ 7) with 1; [done|].
    apply (Z.div_unique _ _ _ (n - 128)); lia.
Qed.

Lemma WriteVarInt_step room n len acc :
  WriteVarInt_loop (S room) n len acc =
    let acc := Z.lor (Z.land n 0x7F) (if (len =? 0)%nat then 0x00 else 0x80) :: acc in
    if n <=? 0x7F then Some acc
    else WriteVarInt_loop room (Z.shiftr n 7 - 1) (S len) acc.
Proof. done. Qed.

Lemma WriteVarInt_loop_spec room : ∀ n len acc, 0 ≤ n < 128 ^ Z.of_nat (S room) →
  ∃ l, WriteVarInt_loop (S room) n len acc =
         Some (l ++ ((if (len =? 0)%nat then 0 else 128) + n mod 128) :: acc) ∧ cont (n / 128) l.
Proof.
  induction room as [|room IH]; intros n len acc Hn; rewrite WriteVarInt_step; cbv zeta;
    rewrite land_7F; pose proof (Z.mod_pos_bound n 128 ltac:(lia)) as Hd;
    replace (Z.lor (n mod 128) (if (len =? 0)%nat then 0 else 128))
      with ((if (len =? 0)%nat then 0 else 128) + n mod 128)
      by (destruct (len =? 0)%nat; [by rewrite Z.lor_0_r|by rewrite lor_cont]).
  - change (128 ^ Z.of_nat 1) with 128 in Hn. rewrite (proj2 (Z.leb_le _ _)) by lia.
    exists []. split; [done|]. rewrite Z.div_small by lia. constructor.
  - destruct (Z.leb_spec n 127).
    { exists []. split; [done|]. rewrite Z.div_small by lia. constructor. }
    rewrite Nat2Z.inj_succ, Z.pow_succ_r in Hn by lia. rewrite Z.shiftr_div_pow2 by lia.
    change (2 ^ 7) with 128. pose proof (Z.div_le_lower_bound n 128 1 ltac:(lia) ltac:(lia)).
    pose proof (Z.div_lt_upper_bound n 128 (128 ^ Z.of_nat (S room)) ltac:(lia) ltac:(lia)).
    destruct (IH (n / 128 - 1) (S len) (((if (len =? 0)%nat then 0 else 128) + n mod 128) :: acc)
      ltac:(lia)) as (l & -> & Hc).
    eexists (l ++ [128 + (n / 128 - 1) mod 128]). split; [by rewrite <- app_assoc|].
    pose proof (Z.mod_pos_bound (n / 128 - 1) 128 ltac:(lia)).
    pose proof (Z.div_mod (n / 128 - 1) 128 ltac:(lia)).
    replace (n / 128) with ((n / 128 - 1) / 128 * 128 + (n / 128 - 1) mod 128 + 1) at 1 by lia.
    by constructor.
Qed.

Section VarInt.
Context (w : Z) (Hw : 7 ≤ w).

Definition is_uw (n : Z) : Prop := 0 ≤ n < 2 ^ w.

Lemma umax7 : 0 ≤ Z.shiftr (umax w) 7 ∧ (∀ m, m ≤ Z.shiftr (umax w) 7 ↔ m * 128 ≤ umax w) ∧ umax w mod 128 = 127.
Proof.
  unfold umax. assert (2 ^ w = 2 ^ (w - 7) * 128) as E.
  { change 128 with (2 ^ 7). rewrite <- Z.pow_add_r by lia. f_equal. lia. }
  assert (0 < 2 ^ (w - 7)) by (apply Z.pow_pos_nonneg; lia). rewrite Z.shiftr_div_pow2 by lia.
  change (2 ^ 7) with 128. split_and!.
  - apply Z.div_pos; lia.
  - intros m. split; intros; [|apply Z.div_le_lower_bound; lia].
    pose proof (Z.mul_div_le (2 ^ w - 1) 128 ltac:(lia)). nia.
  - rewrite E. replace (2 ^ (w - 7) * 128 - 1) with (127 + (2 ^ (w - 7) - 1) * 128) by lia.
    rewrite Z.mod_add; [done|lia].
Qed.

(** One round of the reader. *)
Lemma ReadVarInt_step n ch s : 0 ≤ n → is_u8 ch →
  ReadVarInt_loop w n (ch :: s) =
    if umax w <? n * 128 then None
    else if ch <? 128 then Some (n * 128 + ch, s)
    else if n * 128 + (ch - 128) =? umax w then None
    else ReadVarInt_loop w (n * 128 + (ch - 128) + 1) s.
Proof.
  intros Hn Hch. unfold is_u8 in Hch. destruct umax7 as (H0 & H1 & H2). cbn [ReadVarInt_loop].
  rewrite Z.gtb_ltb. destruct (Z.ltb_spec (Z.shiftr (umax w) 7) n) as [L|L];
    destruct (Z.ltb_spec (umax w) (n * 128)) as [L'|L']; try (done || (exfalso; specialize (H1 n); lia)).
  rewrite land_80, land_7F by lia. rewrite Z.shiftl_mul_pow2 by lia. change (2 ^ 7) with 128.
  rewrite (Z.mod_small (n * 128)) by (unfold umax in *; lia).
  pose proof (Z.mod_pos_bound ch 128 ltac:(lia)).
  assert (E : Z.lor (n * 128) (ch mod 128) = n * 128 + ch mod 128).
  { rewrite Z.lor_comm, (lor_disjoint 7 (ch mod 128) (n * 128)); [lia..|].
    change (2 ^ 7) with 128. by rewrite Z.mod_mul. }
  rewrite E. destruct (Z.ltb_spec ch 128); cbn [negb].
  - by rewrite Z.mod_small by lia.
  - replace (ch mod 128) with (ch - 128); [done|]. apply (Z.mod_unique _ _ 1); lia.
Qed.

Lemma ReadVarInt_cont m l t : cont m l → m ≤ umax w → ReadVarInt_loop w 0 (l ++ t) = ReadVarInt_loop w m t.
Proof.
  intros H. revert t. induction H as [|m l d H IH Hd]; intros t Hm; [done|].
  pose proof (cont_nonneg _ _ H). rewrite <- app_assoc, IH by lia. cbn [app].
  rewrite ReadVarInt_step by (unfold_words; lia).
  rewrite (proj2 (Z.ltb_ge _ _)), (proj2 (Z.ltb_ge (128 + d) _)) by lia.
  rewrite (proj2 (Z.eqb_neq _ _)) by lia. f_equal. lia.
Qed.

Lemma ReadVarInt_canon s : ∀ m l n rest, is_bytes s → cont m l → m ≤ umax w →
  ReadVarInt_loop w m s = Some (n, rest) →
  is_uw n ∧ ∃ l', cont (n / 128) l' ∧ l ++ s = l' ++ n mod 128 :: rest.
Proof.
  induction s as [|ch s IH]; intros m l n rest Hs Hc Hm H; [done|].
  apply is_bytes_cons in Hs as [Hch Hs]. pose proof (cont_nonneg _ _ Hc) as Hm0.
  destruct umax7 as (_ & _ & Hu). rewrite ReadVarInt_step in H by done. unfold is_u8 in Hch.
  destruct (Z.ltb_spec (umax w) (m * 128)); [done|].
  assert (m * 128 + 127 ≤ umax w).
  { pose proof (Z.div_mod (umax w) 128 ltac:(lia)). nia. }
  destruct (Z.ltb_spec ch 128).
  - injection H as <- <-. unfold is_uw, umax in *. split; [lia|]. exists l.
    rewrite Z.add_comm, Z.div_add, Z.mod_add, Z.mod_small, Z.div_small by lia. done.
  - destruct (Z.eqb_spec (m * 128 + (ch - 128)) (umax w)); [done|].
    apply (IH _ (l ++ [128 + (ch - 128)])) in H; [|done|constructor; [done|lia]|lia].
    destruct H as (Hn & l' & Hl' & E). split; [done|]. exists l'. split; [done|].
    rewrite <- E, <- app_assoc. cbn. f_equal. f_equal. lia.
Qed.

Lemma WriteVarInt_total n : is_uw n → ∃ l, WriteVarInt w n = Some (l ++ [n mod 128]) ∧ cont (n / 128) l.
Proof.
  intros Hn. unfold WriteVarInt, varint_tmp.
  assert (1 ≤ (w + 6) / 7) by (apply Z.div_le_lower_bound; lia).
  destruct (Z.to_nat ((w + 6) / 7)) as [|room] eqn:E; [lia|].
  destruct (WriteVarInt_loop_spec room n 0 []) as (l & -> & Hc); [|by exists l].
  assert (Z.of_nat (S room) = (w + 6) / 7) as -> by lia. unfold is_uw in Hn. split; [lia|].
  change 128 with (2 ^ 7). rewrite <- Z.pow_mul_r by lia.
  eapply Z.lt_le_trans; [apply Hn|]. apply Z.pow_le_mono_r; [lia|].
  pose proof (Z.div_mod (w + 6) 7 ltac:(lia)). pose proof (Z.mod_pos_bound (w + 6) 7 ltac:(lia)). lia.
Qed.

Lemma GetSizeOfVarInt_loop_spec room : ∀ n len acc k, WriteVarInt_loop room n len acc = Some k →
  ∀ r, GetSizeOfVarInt_loop room n r = Some (r + Z.of_nat (length k) - Z.of_nat (length acc)).
Proof.
  induction room as [|room IH]; intros n len acc k H r; [done|]. cbn in *.
  destruct (n <=? 127); [injection H as <-; cbn; f_equal; lia|].
  rewrite (IH _ _ _ _ H). cbn. f_equal. lia.
Qed.

Definition write_varint (n : Z) : bytes := default [] (WriteVarInt w n).

Lemma codec_VarInt : codec write_varint (ReadVarInt w) is_uw.
Proof.
  split.
  - intros n Hn. unfold write_varint. destruct (WriteVarInt_total n Hn) as (l & -> & Hc). cbn.
    apply is_bytes_app. split; [by eapply cont_bytes|]. constructor; [|constructor].
    unfold_words. pose proof (Z.mod_pos_bound n 128 ltac:(lia)). lia.
  - intros n rest Hn. unfold write_varint. destruct (WriteVarInt_total n Hn) as (l & -> & Hc).
    cbn [from_option id]. unfold is_uw in Hn. pose proof (Z.mod_pos_bound n 128 ltac:(lia)).
    pose proof (Z.div_mod n 128 ltac:(lia)). pose proof (cont_nonneg _ _ Hc).
    unfold ReadVarInt. rewrite <- app_assoc, (ReadVarInt_cont _ _ _ Hc) by (unfold umax; lia).
    cbn [app]. rewrite ReadVarInt_step by (unfold_words; lia).
    rewrite (proj2 (Z.ltb_ge _ _)), (proj2 (Z.ltb_lt _ _)) by (unfold umax; lia).
    f_equal. f_equal. lia.
  - intros s n rest Hs H.
    assert (0 ≤ umax w) by (unfold umax; pose proof (Z.pow_pos_nonneg 2 w); lia).
    apply (ReadVarInt_canon s 0 [] n rest Hs cont_nil) in H as (Hn & l & Hl & E); [|done].
    split; [done|]. unfold write_varint. destruct (WriteVarInt_total n Hn) as (l' & -> & Hc).
    rewrite (cont_fun _ _ _ Hl Hc) in E. cbn in E |- *. by rewrite <- app_assoc.
Qed.
End VarInt.
#[export] Hint Extern 1 (codec (write_varint _) (ReadVarInt _) _) => (apply codec_VarInt; lia) : codec.

(** ** Byte vectors and strings *)

(** Reading in blocks is reading all at once. *)
Lemma read_blocks_spec fuel : ∀ nSize i v s, 0 ≤ i → nSize - i ≤ 5000000 * Z.of_nat fuel →
  read_blocks fuel nSize i v s =
    (let* b := read_bytes (Z.to_nat (nSize - i)) in rret (v ++ b))%reader s.
Proof.
  induction fuel as [|fuel IH]; intros nSize i v s Hi Hf; cbn [read_blocks];
    (destruct (Z.ltb_spec i nSize);
      [|replace (Z.to_nat (nSize - i)) with 0%nat by lia; unfold rbind, read_bytes, rret;
        destruct (Nat.ltb_spec (length s) 0); [lia|]; by rewrite take_0, drop_0, app_nil_r]); [lia|].
  set (blk := Z.min (nSize - i) (1 + 4999999)).
  unfold rbind at 1, read_bytes at 1. unfold rbind, read_bytes, rret.
  destruct (Nat.ltb_spec (length s) (Z.to_nat blk)).
  { rewrite (proj2 (Nat.ltb_lt _ _)); [done|]. lia. }
  rewrite IH by lia. unfold rbind, read_bytes, rret. rewrite length_drop.
  destruct (Nat.ltb_spec (length s - Z.to_nat blk) (Z.to_nat (nSize - (i + blk))));
    destruct (Nat.ltb_spec (length s) (Z.to_nat (nSize - i))); try (done || lia).
  rewrite <- app_assoc. f_equal. f_equal.
  - f_equal. replace (Z.to_nat (nSize - i)) with (Z.to_nat blk + Z.to_nat (nSize - (i + blk)))%nat by lia.
    by rewrite take_take_drop.
  - rewrite drop_drop. f_equal. lia.
Qed.

Lemma Unserialize_bytes_string s : Unserialize_bytes s = Unserialize_string s.
Proof.
  unfold Unserialize_bytes, Unserialize_string, rbind at 1 2.
  destruct (ReadCompactSize s) as [[n t]|] eqn:E; [|done].
  rewrite read_blocks_spec; [|lia|].
  - unfold rbind, rret. rewrite Z.sub_0_r. by destruct (read_bytes _ t) as [[b t']|].
  - destruct (Z.le_gt_cases 0 n); [|lia].
    pose proof (Z.div_mod n 5000000 ltac:(lia)). pose proof (Z.mod_pos_bound n 5000000 ltac:(lia)).
    pose proof (Z.div_pos n 5000000). lia.
Qed.

Definition is_vec (v : bytes) : Prop := is_bytes v ∧ is_size (Z.of_nat (length v)).

Lemma codec_string : codec Serialize_string Unserialize_string is_vec.
Proof.
  split.
  - intros v [Hv Hl]. apply is_bytes_app. split; [by apply codec_CompactSize|done].
  - intros v rest [Hv Hl]. unfold Serialize_string, Unserialize_string.
    rread. apply read_bytes_app. lia.
  - intros s v rest Hs H. unfold Unserialize_string in H. rinv H.
    apply (codec_canon _ _ _ (codec_bytes _) _ _ _ Hs0) in H as [[Hb Hl] ->].
    unfold Serialize_string, is_vec, is_size in *. rewrite Hl, Z2Nat.id by lia.
    split; [done|]. by rewrite app_assoc.
Qed.

Lemma codec_reader {A} (w : A → bytes) r r' P : (∀ s, r s = r' s) → codec w r P → codec w r' P.
Proof. intros E [C1 C2 C3]. split; [done|..]; intros; rewrite <- ?E in *; eauto. Qed.

Lemma codec_byte_vector : codec Serialize_bytes Unserialize_bytes is_vec.
Proof. eapply codec_reader; [|apply codec_string]. intros s. by rewrite Unserialize_bytes_string. Qed.
#[export] Hint Resolve codec_string codec_byte_vector : codec.

(** ** Vectors *)

Section Vector_codec.
Context {A} `{Serializable A} (P : A → Prop) `{!Codec A P}.
Context (batch : Z) (Hbatch : 1 ≤ batch).

Lemma read_elements_app n m : ∀ (v : list A) s,
  read_elements (n + m) v s = (let* v := read_elements n v in read_elements m v)%reader s.
Proof.
  induction n as [|n IH]; intros v s; [done|]. cbn [plus read_elements]. unfold rbind in *.
  destruct (Unserialize s) as [[a t]|]; [|done]. apply IH.
Qed.

(** Resizing in batches does not change what is read. *)
Lemma read_batches_spec fuel : ∀ nSize i (v : list A) s, 0 ≤ i → nSize - i ≤ Z.of_nat fuel →
  read_batches fuel batch nSize i i v s = read_elements (Z.to_nat (nSize - i)) v s.
Proof.
  induction fuel as [|fuel IH]; intros nSize i v s Hi Hf; cbn [read_batches];
    (destruct (Z.ltb_spec i nSize);
      [|replace (Z.to_nat (nSize - i)) with 0%nat by lia; done]); [lia|].
  set (mid := if i + batch >? nSize then nSize else i + batch).
  assert (i < mid ≤ nSize) by (unfold mid; destruct (Z.gtb_spec (i + batch) nSize); lia).
  replace (Z.to_nat (nSize - i)) with (Z.to_nat (mid - i) + Z.to_nat (nSize - mid))%nat by lia.
  rewrite read_elements_app. unfold rbind. destruct (read_elements _ v s) as [[v' t]|]; [|done].
  apply IH; lia.
Qed.

Lemma read_elements_write l : Forall P l → ∀ v rest,
  read_elements (length l) v (concat (map Serialize l) ++ rest) = Some (v ++ l, rest).
Proof.
  induction 1 as [|a l Ha _ IH]; intros v rest; cbn; [by rewrite app_nil_r|].
  rewrite <- app_assoc, (codec_bind _ _ _ _ _ _ (codec_class : codec _ _ P) Ha), IH, <- app_assoc. done.
Qed.

Lemma read_elements_canon n : ∀ v s l rest, is_bytes s → read_elements n v s = Some (l, rest) →
  ∃ l', l = v ++ l' ∧ length l' = n ∧ Forall P l' ∧ s = concat (map Serialize l') ++ rest.
Proof.
  induction n as [|n IH]; intros v s l rest Hs H'; cbn in H'.
  - injection H' as <- <-. exists []. by rewrite app_nil_r.
  - apply (codec_bind_inv _ _ _ _ _ _ _ (codec_class : codec _ _ P) Hs) in H' as (a & s' & Ha & -> & Hs' & H').
    apply (IH _ _ _ _ Hs') in H' as (l' & -> & Hl & HP & ->). exists (a :: l').
    cbn. rewrite <- !app_assoc, Hl. split_and!; [done..|by constructor|done].
Qed.

Definition is_vector (l : list A) : Prop := Forall P l ∧ is_size (Z.of_nat (length l)).

Lemma codec_vector : codec Serialize_vector (Unserialize_vector batch) is_vector.
Proof.
  split.
  - intros l [Hl Hn]. apply is_bytes_app. split; [by apply codec_CompactSize|].
    induction Hl as [|a l Ha Hl IH]; [constructor|]. apply is_bytes_app. unfold is_size in *. cbn in Hn.
    split; [by apply (codec_write _ _ _ (codec_class : codec _ _ P))|apply IH; lia].
  - intros l rest [Hl Hn]. unfold Serialize_vector, Unserialize_vector. rread.
    unfold is_size in Hn. rewrite read_batches_spec, Z.sub_0_r, Nat2Z.id by lia.
    by rewrite read_elements_write.
  - intros s l rest Hs H'. unfold Unserialize_vector in H'. rinv H'. unfold is_size in Hx.
    rewrite read_batches_spec, Z.sub_0_r in H' by lia.
    apply read_elements_canon in H' as (l' & -> & Hl & HP & ->); [|done].
    unfold Serialize_vector, is_vector, is_size. cbn. rewrite Hl, Z2Nat.id by lia.
    split; [done|]. by rewrite app_assoc.
Qed.
End Vector_codec.

(** * Properties *)

(** sizes and variable-length integers have exactly one encoding: writing
    then reading returns the number and the rest of the stream, whatever is
    read successfully is what the writer emits (non-canonical and oversized
    inputs throw), the temporary array of [WriteVarInt] is never overrun, and
    the size functions agree with the bytes written. *)
Theorem integers_canonical w : 7 ≤ w →
  codec WriteCompactSize ReadCompactSize is_size ∧
  codec (write_varint w) (ReadVarInt w) (is_uw w) ∧
  (∀ n, Z.of_nat (length (WriteCompactSize n)) = GetSizeOfCompactSize n) ∧
  (∀ n, is_uw w n → ∃ s, WriteVarInt w n = Some s ∧
     GetSizeOfVarInt w n = Some (Z.of_nat (length s))).
Proof.
  intros Hw. split_and!; eauto with codec; [apply GetSizeOfCompactSize_spec|].
  intros n Hn. destruct (WriteVarInt_total w Hw n Hn) as (l & E & _). eexists. split; [done|].
  unfold GetSizeOfVarInt. rewrite (GetSizeOfVarInt_loop_spec _ _ _ _ _ E). cbn. f_equal. lia.
Qed.

Lemma integers_canonical_witness :
  ReadVarInt 32 (write_varint 32 16512 ++ [7]) = Some (16512, [7]) ∧
  write_varint 32 16512 = [128; 128; 0].
Proof.
  split; [|vm_compute; reflexivity].
  apply (codec_read _ _ _ (proj1 (proj2 (integers_canonical 32 ltac:(lia))))). unfold is_uw. lia.
Defined.

(** vectors read back element by element, canonically, for every element
    codec, although the reader grows the vector in batches of any positive
    size; byte vectors read in 5,000,000-byte blocks likewise. *)
Theorem vectors_canonical A (H : Serializable A) P batch : Codec A P → 1 ≤ batch →
  codec Serialize_vector (Unserialize_vector batch) (is_vector P) ∧
  codec Serialize_bytes Unserialize_bytes is_vec ∧
  codec Serialize_string Unserialize_string is_vec.
Proof. intros HP Hb. split_and!; eauto with codec. by apply codec_vector. Qed.

Lemma vectors_canonical_witness :
  let H := {| Serialize := ser_writedata32; Unserialize := ser_readdata32 |} in
  Unserialize_vector 2 (Serialize_vector [1; 2; 70000] ++ [9]) = Some ([1; 2; 70000], [9]).
Proof.
  cbv zeta. set (H := {| Serialize := ser_writedata32; Unserialize := ser_readdata32 |}).
  assert (HP : Codec Z is_u32) by exact codec_u32.
  apply (codec_read _ _ _ (proj1 (vectors_canonical Z H is_u32 2 HP ltac:(lia)))).
  split; [|cbn; unfold is_size, MAX_SIZE; lia].
  repeat constructor; unfold_words; lia.
Defined.
