(* ===== verification/Transaction.v ===== *)
(** Transactions and blocks (primitives/transaction.h, primitives/block.h):
    the data types, their serialization with and without witness data, and
    the sum of the outputs. *)
From stdpp Require Import base list option.
From Stdlib Require Import ZArith Lia.
From S2P Require Import Prelude ArithUint256 Serialize Chain.
Open Scope Z_scope.

(** * Data *)

Record COutPoint := mkCOutPoint { out_hash : uint256; out_n : Z }.
Record CTxIn := mkCTxIn {
  prevout : COutPoint; scriptSig : bytes; nSequence : Z; scriptWitness : list bytes }.
Record CTxOut := mkCTxOut { nValue : Z; scriptPubKey : bytes }.
Record CTransaction := mkCTransaction {
  tx_nVersion : Z; vin : list CTxIn; vout : list CTxOut; nLockTime : Z }.

#[export] Instance COutPoint_eq_dec : EqDecision COutPoint.
Proof. solve_decision. Defined.
#[export] Instance CTxOut_eq_dec : EqDecision CTxOut.
Proof. solve_decision. Defined.
#[export] Instance CTxIn_eq_dec : EqDecision CTxIn.
Proof. solve_decision. Defined.

Definition uint256_IsNull (h : uint256) : bool := forallb (λ x, x =? 0) h.

Definition COutPoint_SetNull : COutPoint := mkCOutPoint uint256_null (u32 (-1)).
Definition COutPoint_IsNull (o : COutPoint) : bool := uint256_IsNull (out_hash o) && (out_n o =? u32 (-1)).

(** [a.hash.Compare(b.hash)] is a [memcmp]. *)
Fixpoint memcmp (a b : bytes) : Z :=
  match a, b with
  | x :: a', y :: b' => if x <? y then -1 else if x >? y then 1 else memcmp a' b'
  | _, _ => 0
  end.
Definition COutPoint_lt (a b : COutPoint) : bool :=
  let cmp := memcmp (out_hash a) (out_hash b) in (cmp <? 0) || ((cmp =? 0) && (out_n a <? out_n b)).
Definition COutPoint_eqb (a b : COutPoint) : bool := (memcmp (out_hash a) (out_hash b) =? 0) && (out_n a =? out_n b).

Definition SEQUENCE_FINAL : Z := 0xffffffff.
Definition SEQUENCE_LOCKTIME_DISABLE_FLAG : Z := Z.shiftl 1 31.
Definition SEQUENCE_LOCKTIME_TYPE_FLAG : Z := Z.shiftl 1 22.
Definition SEQUENCE_LOCKTIME_MASK : Z := 0x0000ffff.
Definition SEQUENCE_LOCKTIME_GRANULARITY : Z := 9.

Definition CTxOut_SetNull : CTxOut := mkCTxOut (-1) [].
Definition CTxOut_IsNull (o : CTxOut) : bool := nValue o =? -1.

Definition CURRENT_VERSION : Z := 2.
Definition tx_IsNull (tx : CTransaction) : bool :=
  match vin tx, vout tx with [], [] => true | _, _ => false end.
Definition IsCoinBase (tx : CTransaction) : bool :=
  match vin tx with [i] => COutPoint_IsNull (prevout i) | _ => false end.

(** [CScriptWitness::IsNull] is an empty stack. *)
Definition witness_IsNull (w : list bytes) : bool := match w with [] => true | _ => false end.

Fixpoint HasWitness_loop (l : list CTxIn) : bool :=
  match l with
  | [] => false
  | i :: l' => if negb (witness_IsNull (scriptWitness i)) then true else HasWitness_loop l'
  end.
Definition HasWitness (tx : CTransaction) : bool := HasWitness_loop (vin tx).

(** * Serialization *)

#[export] Instance COutPoint_ser : Serializable COutPoint := {
  Serialize o := out_hash o ++ ser_writedata32 (out_n o);
  Unserialize := (let* h := read_bytes 32 in
                  let* k := ser_readdata32 in rret (mkCOutPoint h k))%reader }.

(** The witness of an input is serialized by the transaction only. *)
#[export] Instance CTxIn_ser : Serializable CTxIn := {
  Serialize i := Serialize (prevout i) ++ Serialize_bytes (scriptSig i) ++ ser_writedata32 (nSequence i);
  Unserialize := (let* o := Unserialize in
                  let* s := Unserialize_bytes in
                  let* q := ser_readdata32 in rret (mkCTxIn o s q []))%reader }.

#[export] Instance CTxOut_ser : Serializable CTxOut := {
  Serialize o := ser_write_i64 (nValue o) ++ Serialize_bytes (scriptPubKey o);
  Unserialize := (let* v := ser_read_i64 in
                  let* s := Unserialize_bytes in rret (mkCTxOut v s))%reader }.

#[export] Instance stack_item_ser : Serializable bytes := {
  Serialize := Serialize_bytes; Unserialize := Unserialize_bytes }.

(** What the reader of a vector uses of the compiler: the sizes of the element
    types, by which it grows the vector. *)
Class Platform := {
  sizeof_CTxIn : Z; sizeof_CTxOut : Z; sizeof_vector : Z; sizeof_shared_ptr : Z;
  sizeof_CTxIn_pos : 1 ≤ sizeof_CTxIn ≤ 5000000; sizeof_CTxOut_pos : 1 ≤ sizeof_CTxOut ≤ 5000000;
  sizeof_vector_pos : 1 ≤ sizeof_vector ≤ 5000000; sizeof_shared_ptr_pos : 1 ≤ sizeof_shared_ptr ≤ 5000000 }.

Section Format.
Context `{Platform}.

Definition batch_CTxIn : Z := 5000000 / sizeof_CTxIn.
Definition batch_CTxOut : Z := 5000000 / sizeof_CTxOut.
Definition batch_stack : Z := 5000000 / sizeof_vector.
Definition batch_tx : Z := 5000000 / sizeof_shared_ptr.

Definition SERIALIZE_TRANSACTION_NO_WITNESS : Z := 0x40000000.
Definition fAllowWitness (version : Z) : bool := Z.land version SERIALIZE_TRANSACTION_NO_WITNESS =? 0.

Definition set_witness (i : CTxIn) (w : list bytes) : CTxIn :=
  mkCTxIn (prevout i) (scriptSig i) (nSequence i) w.

(** [for (i ...) s >> tx.vin[i].scriptWitness.stack] *)
Fixpoint read_witnesses (l : list CTxIn) : reader (list CTxIn) :=
  match l with
  | [] => rret []
  | i :: l' => (let* w := Unserialize_vector batch_stack in
                let* r := read_witnesses l' in rret (set_witness i w :: r))%reader
  end.

Definition UnserializeTransaction (version : Z) : reader CTransaction := (
  let* nVersion := ser_read_i32 in
  let* vin0 := Unserialize_vector batch_CTxIn in
  let* (vin1, vout1, flags) :=
    (if (length vin0 =? 0)%nat && fAllowWitness version then
       let* flags := ser_readdata8 in
       if negb (flags =? 0) then
         let* vi := Unserialize_vector batch_CTxIn in
         let* vo := Unserialize_vector batch_CTxOut in
         rret (vi, vo, flags)
       else rret (vin0, [], flags)
     else
       let* vo := Unserialize_vector batch_CTxOut in rret (vin0, vo, 0)) in
  let* (vin2, flags) :=
    (if negb (Z.land flags 1 =? 0) && fAllowWitness version then
       let* vi := read_witnesses vin1 in rret (vi, Z.lxor flags 1)
     else rret (vin1, flags)) in
  if negb (flags =? 0) then rfail
  else let* nLockTime := ser_readdata32 in rret (mkCTransaction nVersion vin2 vout1 nLockTime))%reader.

Definition SerializeTransaction (version : Z) (tx : CTransaction) : bytes :=
  let flags := if fAllowWitness version then (if HasWitness tx then 1 else 0) else 0 in
  ser_write_i32 (tx_nVersion tx) ++
  (if negb (flags =? 0) then Serialize_vector ([] : list CTxIn) ++ ser_writedata8 flags else []) ++
  Serialize_vector (vin tx) ++ Serialize_vector (vout tx) ++
  (if negb (Z.land flags 1 =? 0)
   then concat (map (λ i, Serialize_vector (scriptWitness i)) (vin tx)) else []) ++
  ser_writedata32 (nLockTime tx).

(** ** Blocks *)

Record CBlock := mkCBlock { header : CBlockHeader; vtx : list CTransaction }.

(** [activation] is the global [nKAWPOWActivationTime]: earlier headers carry
    a 32-bit nonce, later ones the height, a 64-bit nonce and the mix hash.
    The fields not read keep the values of [SetNull]. *)
Definition CBlockHeader_Serialize (activation : Z) (h : CBlockHeader) : bytes :=
  ser_write_i32 (hdr_nVersion h) ++ hdr_hashPrevBlock h ++ hdr_hashMerkleRoot h ++
  ser_writedata32 (hdr_nTime h) ++ ser_writedata32 (hdr_nBits h) ++
  (if hdr_nTime h <? activation then ser_writedata32 (hdr_nNonce h)
   else ser_writedata32 (hdr_nHeight h) ++ ser_writedata64 (hdr_nNonce64 h) ++ hdr_mix_hash h).

Definition CBlockHeader_Unserialize (activation : Z) : reader CBlockHeader := (
  let* v := ser_read_i32 in
  let* prev := read_bytes 32 in
  let* root := read_bytes 32 in
  let* t := ser_readdata32 in
  let* bits := ser_readdata32 in
  if t <? activation then
    let* nonce := ser_readdata32 in
    rret (mkCBlockHeader v prev root t bits nonce 0 0 uint256_null)
  else
    let* h := ser_readdata32 in
    let* nonce64 := ser_readdata64 in
    let* mix := read_bytes 32 in
    rret (mkCBlockHeader v prev root t bits 0 h nonce64 mix))%reader.

Instance CTransaction_ser (version : Z) : Serializable CTransaction := {
  Serialize := SerializeTransaction version; Unserialize := UnserializeTransaction version }.

Definition CBlock_Serialize (activation version : Z) (b : CBlock) : bytes :=
  CBlockHeader_Serialize activation (header b) ++
  Serialize_vector (H := CTransaction_ser version) (vtx b).
Definition CBlock_Unserialize (activation version : Z) : reader CBlock := (
  let* h := CBlockHeader_Unserialize activation in
  let* l := Unserialize_vector (H := CTransaction_ser version) batch_tx in rret (mkCBlock h l))%reader.

End Format.

(** * Amounts *)

Definition COIN : Z := 100000000.
Definition MAX_MONEY : Z := 175000000 * COIN.
Definition MoneyRange (nValue : Z) : bool := (nValue >=? 0) && (nValue <=? MAX_MONEY).

(** The running sum is tested after every output; [None] is the exception. *)
Fixpoint GetValueOut_loop (IsAssetScript : bytes → bool) (fAreEnforcedValues : bool)
    (nValueOut : Z) (l : list CTxOut) : option Z :=
  match l with
  | [] => Some nValueOut
  | o :: l' =>
      if negb fAreEnforcedValues && IsAssetScript (scriptPubKey o)
      then GetValueOut_loop IsAssetScript fAreEnforcedValues nValueOut l'
      else
        let nValueOut := i64 (nValueOut + nValue o) in
        if negb (MoneyRange (nValue o)) || negb (MoneyRange nValueOut) then None
        else GetValueOut_loop IsAssetScript fAreEnforcedValues nValueOut l'
  end.

Definition GetValueOut (IsAssetScript : bytes → bool) (fAreEnforcedValues : bool) (tx : CTransaction) : option Z :=
  GetValueOut_loop IsAssetScript fAreEnforcedValues 0 (vout tx).

(** * Codecs of the components *)

Definition uint256_ok (h : uint256) : Prop := is_bytes h ∧ length h = 32%nat.
Definition outpoint_ok (o : COutPoint) : Prop := uint256_ok (out_hash o) ∧ is_u32 (out_n o).
Definition txin_ok (i : CTxIn) : Prop :=
  outpoint_ok (prevout i) ∧ is_vec (scriptSig i) ∧ is_u32 (nSequence i) ∧ scriptWitness i = [].
Definition txout_ok (o : CTxOut) : Prop := is_i64 (nValue o) ∧ is_vec (scriptPubKey o).

Lemma codec_uint256 : codec (λ h, h) (read_bytes 32) uint256_ok.
Proof. apply codec_bytes. Qed.
#[export] Hint Resolve codec_uint256 : codec.

Ltac codec_bytes_goal :=
  repeat match goal with |- is_bytes (_ ++ _) => apply is_bytes_app; split end;
  try done; try (eapply codec_write; [eauto with codec|done]).

#[export] Instance COutPoint_codec : Codec COutPoint outpoint_ok.
Proof.
  split.
  - intros [h k] [Hh Hk]. cbn in *. codec_bytes_goal. apply Hh.
  - intros [h k] rest [Hh Hk]. cbn in *. rewrite <- app_assoc.
    rewrite (codec_bind _ _ _ _ _ _ codec_uint256 Hh). rread. done.
  - intros s o rest Hs H. cbn in H. rinv H. rinv H. injection H as <- <-. cbn.
    rewrite <- app_assoc. done.
Qed.
Lemma codec_COutPoint : codec Serialize Unserialize outpoint_ok.
Proof. exact COutPoint_codec. Qed.
#[export] Hint Resolve codec_COutPoint : codec.

#[export] Instance CTxIn_codec : Codec CTxIn txin_ok.
Proof.
  split.
  - intros [o s q w] (Ho & Hs & Hq & Hw). cbn in Ho, Hs, Hq, Hw. cbn [Serialize CTxIn_ser prevout scriptSig nSequence].
    codec_bytes_goal.
  - intros [o s q w] rest (Ho & Hs & Hq & Hw). cbn in Ho, Hs, Hq, Hw. subst w. cbn [Serialize Unserialize CTxIn_ser].
    cbn [prevout scriptSig nSequence]. rread. rread. rread. done.
  - intros s i rest Hs H. cbn [Unserialize CTxIn_ser] in H. rinv H. rinv H. rinv H. injection H as <- <-.
    split; [done|]. cbn [Serialize CTxIn_ser prevout scriptSig nSequence]. by rewrite <- !app_assoc.
Qed.

#[export] Instance CTxOut_codec : Codec CTxOut txout_ok.
Proof.
  split.
  - intros [v s] (Hv & Hs). cbn in *. codec_bytes_goal.
  - intros [v s] rest (Hv & Hs). cbn in *. rread. rread. done.
  - intros s o rest Hs H. cbn in H. rinv H. rinv H. injection H as <- <-. split; [done|]. cbn.
    by rewrite <- app_assoc.
Qed.

#[export] Instance stack_item_codec : Codec bytes is_vec.
Proof. exact codec_byte_vector. Qed.

Section Format_codec.
Context `{Platform}.

Lemma batches_pos : 1 ≤ batch_CTxIn ∧ 1 ≤ batch_CTxOut ∧ 1 ≤ batch_stack ∧ 1 ≤ batch_tx.
Proof.
  unfold batch_CTxIn, batch_CTxOut, batch_stack, batch_tx.
  pose proof sizeof_CTxIn_pos. pose proof sizeof_CTxOut_pos. pose proof sizeof_vector_pos.
  pose proof sizeof_shared_ptr_pos.
  split_and!; (apply Z.div_le_lower_bound; lia).
Qed.

Lemma codec_vin : codec Serialize_vector (Unserialize_vector batch_CTxIn) (is_vector txin_ok).
Proof. apply codec_vector; [apply _|apply batches_pos]. Qed.
Lemma codec_vout : codec Serialize_vector (Unserialize_vector batch_CTxOut) (is_vector txout_ok).
Proof. apply codec_vector; [apply _|apply batches_pos]. Qed.
Lemma codec_stack : codec Serialize_vector (Unserialize_vector batch_stack) (is_vector is_vec).
Proof. apply codec_vector; [apply _|apply batches_pos]. Qed.
#[local] Hint Resolve codec_vin codec_vout codec_stack : codec.

(** An input without its witness. *)
Definition strip (i : CTxIn) : CTxIn := set_witness i [].

Lemma Serialize_strip l : Serialize_vector (map strip l) = Serialize_vector l.
Proof. unfold Serialize_vector. rewrite length_map, map_map. done. Qed.

Definition write_witnesses (l : list CTxIn) : bytes :=
  concat (map (λ i, Serialize_vector (scriptWitness i)) l).

Definition witness_ok (i : CTxIn) : Prop := is_vector is_vec (scriptWitness i).

Lemma read_witnesses_write l rest : Forall witness_ok l →
  read_witnesses (map strip l) (write_witnesses l ++ rest) = Some (l, rest).
Proof.
  induction 1 as [|i l Hi _ IH]; [done|]. unfold write_witnesses in *. cbn [map concat read_witnesses].
  rread. unfold rbind. rewrite IH. unfold rret. by destruct i.
Qed.

Lemma read_witnesses_canon l : ∀ s l' rest, is_bytes s → read_witnesses l s = Some (l', rest) →
  map strip l' = map strip l ∧ Forall witness_ok l' ∧ s = write_witnesses l' ++ rest.
Proof.
  induction l as [|i l IH]; intros s l' rest Hs E; cbn in E; [by injection E as <- <-|].
  rinv E. unfold rbind in E. destruct (read_witnesses l s0) as [[r t]|] eqn:Er; [|done].
  injection E as <- <-. destruct (IH _ _ _ Hs0 Er) as (E1 & E2 & E3). subst s0.
  split_and!.
  - cbn. by rewrite E1.
  - by constructor.
  - unfold write_witnesses. cbn. by rewrite app_assoc.
Qed.

Lemma HasWitness_strip l : HasWitness_loop l = false ↔ map strip l = l.
Proof.
  induction l as [|[o s q w] l IH]; [done|]. cbn. destruct w; cbn.
  - rewrite IH. split; [by intros ->|by intros [= ?]].
  - split; [done|by intros [= ?]].
Qed.

(** ** Transactions *)

Definition strip_tx (tx : CTransaction) : CTransaction :=
  mkCTransaction (tx_nVersion tx) (map strip (vin tx)) (vout tx) (nLockTime tx).

Definition tx_ok (tx : CTransaction) : Prop :=
  is_i32 (tx_nVersion tx) ∧ is_vector txin_ok (map strip (vin tx)) ∧ Forall witness_ok (vin tx) ∧
  is_vector txout_ok (vout tx) ∧ is_u32 (nLockTime tx).

(** The extended format, whatever the witnesses are. *)
Definition extended (tx : CTransaction) : bytes :=
  ser_write_i32 (tx_nVersion tx) ++ Serialize_vector ([] : list CTxIn) ++ ser_writedata8 1 ++
  Serialize_vector (vin tx) ++ Serialize_vector (vout tx) ++ write_witnesses (vin tx) ++
  ser_writedata32 (nLockTime tx).
Definition basic (tx : CTransaction) : bytes :=
  ser_write_i32 (tx_nVersion tx) ++ Serialize_vector (vin tx) ++ Serialize_vector (vout tx) ++
  ser_writedata32 (nLockTime tx).

Lemma SerializeTransaction_format v tx :
  SerializeTransaction v tx = if fAllowWitness v && HasWitness tx then extended tx else basic tx.
Proof.
  unfold SerializeTransaction, extended, basic, write_witnesses.
  destruct (fAllowWitness v); [|done]. destruct (HasWitness tx); [|done].
  cbn [andb negb Z.eqb Z.land Pos.land]. by rewrite <- !app_assoc.
Qed.

Lemma empty_vin_ok : is_vector txin_ok [].
Proof. split; [constructor|unfold is_size, MAX_SIZE; cbn; lia]. Qed.

Lemma Unserialize_extended v tx rest : tx_ok tx → fAllowWitness v = true →
  UnserializeTransaction v (extended tx ++ rest) = Some (tx, rest).
Proof.
  intros (H1 & H2 & H3 & H4 & H5) Ha. unfold UnserializeTransaction, extended.
  rewrite <- (Serialize_strip (vin tx)). pose proof empty_vin_ok.
  rread. rread. cbn [length Nat.eqb andb]. rewrite Ha.
  unfold rbind at 1. rread; [|unfold_words; lia]. cbn [negb Z.eqb]. rread. rread. unfold rret at 1.
  change (Z.land 1 1) with 1. change (Z.lxor 1 1) with 0. cbn [Z.eqb negb andb].
  unfold rbind at 1. unfold rbind at 1.
  rewrite read_witnesses_write by done. unfold rret at 1. cbn [Z.eqb negb].
  rread. by destruct tx.
Qed.

Lemma Unserialize_basic v tx rest : tx_ok tx → map strip (vin tx) = vin tx →
  (fAllowWitness v = true → vin tx ≠ [] ∨ vout tx = []) →
  UnserializeTransaction v (basic tx ++ rest) = Some (tx, rest).
Proof.
  intros (H1 & H2 & H3 & H4 & H5) Hs Ha. rewrite Hs in H2. unfold UnserializeTransaction, basic.
  rread. rread. destruct tx as [ver vi vo lt]. cbn [vin vout tx_nVersion nLockTime] in *.
  destruct ((length vi =? 0)%nat && fAllowWitness v) eqn:E.
  - apply andb_true_iff in E as [E1 E2]. apply Nat.eqb_eq, nil_length_inv in E1 as ->.
    destruct (Ha E2) as [| ->]; [done|].
    change (Serialize_vector ([] : list CTxOut)) with (ser_writedata8 0).
    unfold rbind at 1. rread; [|unfold_words; lia]. cbn [negb Z.eqb]. unfold rret at 1.
    change (Z.land 0 1) with 0. cbn [negb Z.eqb andb]. unfold rbind at 1, rret at 1. cbn [negb Z.eqb]. rread. done.
  - unfold rbind at 1. rread. unfold rret at 1. change (Z.land 0 1) with 0. cbn [negb Z.eqb andb]. unfold rbind at 1, rret at 1.
    cbn [negb Z.eqb]. rread. done.
Qed.

Lemma txin_ok_strip l : is_vector txin_ok l → map strip l = l ∧ Forall witness_ok l.
Proof.
  intros [Hl _]. split.
  - induction Hl as [|[o sc q w] l (_ & _ & _ & Hw) _ IH]; cbn in *; [done|]. subst w. by rewrite IH.
  - eapply Forall_impl; [|exact Hl]. intros i (_ & _ & _ & Hw). unfold witness_ok. rewrite Hw.
    split; [constructor|unfold is_size, MAX_SIZE; cbn; lia].
Qed.

(** What is read, in each of the three shapes the reader accepts. *)
Lemma UnserializeTransaction_inv v s tx rest : is_bytes s →
  UnserializeTransaction v s = Some (tx, rest) →
  tx_ok tx ∧
  ((s = basic tx ++ rest ∧ map strip (vin tx) = vin tx ∧ (fAllowWitness v = true → vin tx ≠ [] ∨ vout tx = [])) ∨
   (s = extended tx ++ rest ∧ fAllowWitness v = true)).
Proof.
  intros Hs E. unfold UnserializeTransaction in E. rinv E. rename x into ver. rinv E. rename x into vi.
  destruct ((length vi =? 0)%nat && fAllowWitness v) eqn:Ec.
  - apply andb_true_iff in Ec as [E1 Ea]. apply Nat.eqb_eq, nil_length_inv in E1 as ->.
    unfold rbind at 1 in E. destruct (rbind ser_readdata8 _ s1) as [[[[vi1 vo1] flags] t]|] eqn:Ef; [|done].
    rinv Ef. rename x into fl. destruct (Z.eqb_spec fl 0) as [->|Hfl]; cbn [negb] in Ef.
    + injection Ef as <- <- <- <-. change (Z.land 0 1) with 0 in E. cbn [negb Z.eqb andb] in E.
      unfold rbind at 1, rret at 1 in E. cbn [negb Z.eqb] in E. rinv E. injection E as <- <-.
      pose proof empty_vin_ok. unfold basic. cbn [vin vout tx_nVersion nLockTime map].
      assert (is_vector txout_ok []) by (split; [constructor|unfold is_size, MAX_SIZE; cbn; lia]).
      split; [done|]. left. split_and!; [|done|by right].
      rewrite <- !app_assoc. done.
    + rinv Ef. rename x into vi. rinv Ef. rename x into vo. injection Ef as <- <- <- <-.
      rewrite Ea in E. destruct (Z.eqb_spec (Z.land fl 1) 0) as [El|El]; cbn [negb andb] in E.
      { unfold rbind at 1, rret at 1 in E. rewrite (proj2 (Z.eqb_neq _ _) Hfl) in E. done. }
      unfold rbind at 1 in E. destruct (rbind (read_witnesses vi) _ _) as [[[vi2 fl2] t2]|] eqn:Ew; [|done].
      unfold rbind in Ew. destruct (read_witnesses vi _) as [[vi3 t3]|] eqn:Ew2; [|done].
      injection Ew as <- <- <-. apply read_witnesses_canon in Ew2 as (W1 & W2 & ->); [|done].
      apply is_bytes_app in Hs4 as [_ Hs4].
      destruct (Z.eqb_spec (Z.lxor fl 1) 0) as [Ex|]; [|done]. apply Z.lxor_eq in Ex as ->.
      cbn [negb] in E. rinv E. injection E as <- <-.
      split; [|right; split; [|done]].
      * unfold tx_ok. cbn [vin vout tx_nVersion nLockTime]. rewrite W1, (proj1 (txin_ok_strip vi Hx2)). done.
      * unfold extended. cbn [vin vout tx_nVersion nLockTime].
        rewrite <- (Serialize_strip vi3), W1, Serialize_strip, <- !app_assoc. done.
  - unfold rbind at 1 in E. destruct (rbind (Unserialize_vector batch_CTxOut) _ s1) as [[[[vi' vo] flags] t]|] eqn:Ef; [|done].
    rinv Ef. rename x into vo'. injection Ef as <- <- <- <-. change (Z.land 0 1) with 0 in E.
    cbn [negb Z.eqb andb] in E. unfold rbind at 1, rret at 1 in E. cbn [negb Z.eqb] in E. rinv E.
    injection E as <- <-. destruct (txin_ok_strip vi Hx0) as [S1 S2]. unfold tx_ok, basic.
    cbn [vin vout tx_nVersion nLockTime]. rewrite S1. split; [done|]. left. rewrite <- !app_assoc.
    split_and!; [done..|]. intros Ha. rewrite Ha, andb_true_r in Ec. left. by intros ->.
Qed.
End Format_codec.

(** ** Headers *)

(** A header of its format: the fields of the other format are null. *)
Definition header_ok (activation : Z) (h : CBlockHeader) : Prop :=
  is_i32 (hdr_nVersion h) ∧ uint256_ok (hdr_hashPrevBlock h) ∧ uint256_ok (hdr_hashMerkleRoot h) ∧
  is_u32 (hdr_nTime h) ∧ is_u32 (hdr_nBits h) ∧
  (if hdr_nTime h <? activation
   then is_u32 (hdr_nNonce h) ∧ hdr_nHeight h = 0 ∧ hdr_nNonce64 h = 0 ∧ hdr_mix_hash h = uint256_null
   else is_u32 (hdr_nHeight h) ∧ is_u64 (hdr_nNonce64 h) ∧ uint256_ok (hdr_mix_hash h) ∧ hdr_nNonce h = 0).

Lemma codec_header activation :
  codec (CBlockHeader_Serialize activation) (CBlockHeader_Unserialize activation) (header_ok activation).
Proof.
  unfold CBlockHeader_Serialize, CBlockHeader_Unserialize, header_ok. split.
  - intros h (H1 & H2 & H3 & H4 & H5 & H6). destruct (hdr_nTime h <? activation).
    + destruct H6 as (H6 & _). codec_bytes_goal; [apply H2|apply H3].
    + destruct H6 as (H6 & H7 & H8 & _). codec_bytes_goal; [apply H2|apply H3|apply H8].
  - intros [v p r t b nn hh n64 mx] rest (H1 & H2 & H3 & H4 & H5 & H6).
    cbn [hdr_nVersion hdr_hashPrevBlock hdr_hashMerkleRoot hdr_nTime hdr_nBits hdr_nNonce hdr_nHeight
         hdr_nNonce64 hdr_mix_hash] in *.
    rread. rewrite (codec_bind _ _ _ _ _ _ codec_uint256 H2), (codec_bind _ _ _ _ _ _ codec_uint256 H3).
    rread. rread. destruct (t <? activation).
    + destruct H6 as (H6 & -> & -> & ->). rread. done.
    + destruct H6 as (H6 & H7 & H8 & ->). rread. rread.
      rewrite (codec_bind _ _ _ _ _ _ codec_uint256 H8). done.
  - intros s h rest Hs H. rinv H. rinv H. rinv H. rinv H. rinv H. destruct (x2 <? activation) eqn:Et.
    + rinv H. injection H as <- <-.
      cbn [hdr_nVersion hdr_hashPrevBlock hdr_hashMerkleRoot hdr_nTime hdr_nBits hdr_nNonce hdr_nHeight
         hdr_nNonce64 hdr_mix_hash]. rewrite Et. split; [done|]. by rewrite <- !app_assoc.
    + rinv H. rinv H. rinv H. injection H as <- <-.
      cbn [hdr_nVersion hdr_hashPrevBlock hdr_hashMerkleRoot hdr_nTime hdr_nBits hdr_nNonce hdr_nHeight
         hdr_nNonce64 hdr_mix_hash]. rewrite Et. split; [done|]. by rewrite <- !app_assoc.
Qed.

(** ** Amounts *)

Definition sum_values (l : list CTxOut) : Z := foldr (λ o acc, nValue o + acc) 0 l.

Lemma MoneyRange_spec v : MoneyRange v = true ↔ 0 ≤ v ≤ MAX_MONEY.
Proof. unfold MoneyRange. rewrite andb_true_iff, Z.geb_le, Z.leb_le. done. Qed.

(** The outputs that count: all of them once values are enforced, those that
    carry no asset before. *)
Definition counted (isa : bytes → bool) (enf : bool) : list CTxOut → list CTxOut :=
  List.filter (λ o, negb (negb enf && isa (scriptPubKey o))).

Lemma sum_values_nonneg l : Forall (λ o, 0 ≤ nValue o) l → 0 ≤ sum_values l.
Proof. unfold sum_values. induction 1; cbn [foldr]; lia. Qed.

Lemma GetValueOut_loop_spec isa enf l : ∀ acc r, 0 ≤ acc ≤ MAX_MONEY →
  Forall (λ o, is_i64 (nValue o)) l →
  GetValueOut_loop isa enf acc l = Some r ↔
    Forall (λ o, 0 ≤ nValue o) (counted isa enf l) ∧ r = acc + sum_values (counted isa enf l) ∧ r ≤ MAX_MONEY.
Proof.
  induction l as [|o l IH]; intros acc r Hacc Hl.
  { cbn. split; [intros [= <-]; split_and!; [constructor|lia..]|intros (_ & -> & _); f_equal; lia]. }
  apply Forall_cons_iff in Hl as [Ho Hl]. cbn [GetValueOut_loop counted List.filter].
  fold (counted isa enf). destruct (negb enf && isa (scriptPubKey o)); cbn [negb]; [by apply IH|].
  rewrite Forall_cons_iff. cbn [sum_values foldr]. fold (sum_values (counted isa enf l)).
  unfold is_i64 in Ho. pose proof (sum_values_nonneg (counted isa enf l)) as Hk.
  destruct (MoneyRange (nValue o)) eqn:Er; cbn [negb orb].
  - apply MoneyRange_spec in Er. unfold MAX_MONEY, COIN in *.
    assert (i64 (acc + nValue o) = acc + nValue o) as -> by (unfold i64; rewrite Z.mod_small; lia).
    destruct (MoneyRange (acc + nValue o)) eqn:Er2; cbn [negb].
    + apply MoneyRange_spec in Er2. unfold MAX_MONEY, COIN in *. rewrite IH by done.
      rewrite Z.add_assoc. intuition.
    + split; [done|]. intros ([? ?] & -> & ?). specialize (Hk ltac:(done)).
      assert (MoneyRange (acc + nValue o) = true); [|congruence]. apply MoneyRange_spec. unfold MAX_MONEY, COIN. lia.
  - split; [done|]. intros ([? ?] & -> & ?). specialize (Hk ltac:(done)).
    assert (MoneyRange (nValue o) = true); [|congruence]. apply MoneyRange_spec. lia.
Qed.

(** * Properties *)

(** C6: a serialized transaction reads back, with its witnesses when the format
    allows them and without them otherwise; the one exception of the format
    is a transaction with outputs and no inputs, which an extended reader
    mistakes for a marker. *)
Theorem transaction_roundtrip `{Platform} v tx rest : tx_ok tx →
  (fAllowWitness v = true → vin tx ≠ [] ∨ vout tx = []) →
  UnserializeTransaction v (SerializeTransaction v tx ++ rest) =
    Some (if fAllowWitness v then tx else strip_tx tx, rest).
Proof.
  intros Hok He. rewrite SerializeTransaction_format. destruct (fAllowWitness v) eqn:Ea; cbn [andb].
  - destruct (HasWitness tx) eqn:Ew; [by apply Unserialize_extended|].
    apply Unserialize_basic; [done|by apply HasWitness_strip|auto].
  - unfold basic. rewrite <- Serialize_strip. apply (Unserialize_basic v (strip_tx tx) rest).
    + destruct Hok as (H1 & H2 & H3 & H4 & H5). pose proof (txin_ok_strip _ H2) as [E1 E2].
      unfold strip_tx, tx_ok. cbn [vin vout tx_nVersion nLockTime]. by rewrite E1.
    + unfold strip_tx. cbn [vin]. rewrite map_map. done.
    + by rewrite Ea.
Qed.

(** Sizes of a 64-bit build. *)
Definition lp64 : Platform.
Proof. refine {| sizeof_CTxIn := 104; sizeof_CTxOut := 40; sizeof_vector := 24; sizeof_shared_ptr := 16 |}; lia. Defined.

Definition example_tx (wit : list bytes) : CTransaction :=
  mkCTransaction 2 [mkCTxIn (mkCOutPoint uint256_null 3) [81; 82] SEQUENCE_FINAL wit]
    [mkCTxOut 5000 [118; 169]; mkCTxOut 0 []] 17.

Lemma example_tx_ok wit : is_vector is_vec wit → tx_ok (example_tx wit).
Proof.
  intros Hw. unfold tx_ok, example_tx, is_vector, is_size, MAX_SIZE, witness_ok, txin_ok, txout_ok,
    outpoint_ok, uint256_ok, is_vec, is_size, MAX_SIZE.
  cbn [vin vout tx_nVersion nLockTime map strip set_witness prevout scriptSig nSequence scriptWitness
       out_hash out_n nValue scriptPubKey length].
  repeat match goal with
  | |- _ ∧ _ => split
  | |- Forall _ _ => constructor
  | |- is_bytes _ => unfold is_bytes
  end; cbn; unfold_words; unfold SEQUENCE_FINAL; try (lia || done).
Qed.

Lemma transaction_roundtrip_witness :
  UnserializeTransaction (H := lp64) 0
    (SerializeTransaction 0 (example_tx [[1; 2; 3]; []]) ++ [5]) = Some (example_tx [[1; 2; 3]; []], [5]).
Proof.
  apply (@transaction_roundtrip lp64 0 (example_tx [[1; 2; 3]; []]) [5]).
  - apply example_tx_ok. repeat constructor; unfold_words; cbn; unfold MAX_SIZE; lia.
  - left. discriminate.
Defined.

(** C34: the reader accepts nothing but what the writer emits, with one
    exception: an extended encoding all of whose witnesses are empty is
    accepted, although the writer would have chosen the basic one. *)
Theorem transaction_canonical `{Platform} v s tx rest : is_bytes s →
  UnserializeTransaction v s = Some (tx, rest) →
  tx_ok tx ∧ (s = SerializeTransaction v tx ++ rest ∨
              fAllowWitness v = true ∧ HasWitness tx = false ∧ s = extended tx ++ rest).
Proof.
  intros Hs E. destruct (UnserializeTransaction_inv v s tx rest Hs E) as [Hok [(E1 & E2 & _)|[E1 E2]]];
    (split; [done|]); rewrite SerializeTransaction_format.
  - left. replace (HasWitness tx) with false by (symmetry; by apply HasWitness_strip).
    by rewrite andb_false_r.
  - rewrite E2. destruct (HasWitness tx); [by left|by right].
Qed.

Lemma transaction_canonical_witness : tx_ok (example_tx []).
Proof.
  apply (@transaction_canonical lp64 0 (extended (example_tx [])) (example_tx []) []).
  - apply (Forall_impl is_u8 (P := λ x, 0 ≤ x < 256)); [unfold_words; intros; lia|].
    vm_compute. repeat constructor; discriminate.
  - vm_compute. reflexivity.
Defined.

(** block headers round-trip and are canonical in both formats, before and
    after the KawPow activation time that the header's own time selects. *)
Theorem header_canonical activation :
  codec (CBlockHeader_Serialize activation) (CBlockHeader_Unserialize activation) (header_ok activation).
Proof. apply codec_header. Qed.

(** [GetValueOut] returns the exact sum of the counted outputs when every
    one is non-negative and the sum is at most the money supply, and throws
    otherwise: the running check leaves no 64-bit overflow undetected. *)
Theorem GetValueOut_exact isa enf tx r : Forall (λ o, is_i64 (nValue o)) (vout tx) →
  GetValueOut isa enf tx = Some r ↔
    Forall (λ o, 0 ≤ nValue o) (counted isa enf (vout tx)) ∧
    r = sum_values (counted isa enf (vout tx)) ∧ r ≤ MAX_MONEY.
Proof. intros H. unfold GetValueOut. rewrite GetValueOut_loop_spec by (done || unfold MAX_MONEY, COIN; lia). by rewrite Z.add_0_l. Qed.

Lemma GetValueOut_exact_witness : GetValueOut (λ _, false) true (example_tx []) = Some 5000.
Proof.
  apply GetValueOut_exact.
  - repeat constructor; cbn; unfold_words; lia.
  - split; [repeat constructor; cbn; lia|]. split; [reflexivity|]. unfold MAX_MONEY, COIN. lia.
Defined.
