(* ===== verification/Text.v ===== *)
(** Strings as the code of assets uses them: [std::string] with its classes of characters,
    [substr] and [find], [boost::split], and the regular expressions of [std::regex], matched by
    derivatives and related to the languages they denote. *)
From stdpp Require Import base list option.
From Stdlib Require Import ZArith Lia.
From Stdlib Require String Ascii.
Import String.StringSyntax.
From S2P Require Import Prelude Serialize.
Open Scope Z_scope.

(** The characters of a string are their codes. *)
Abbreviation text := (list Z).

Definition str (s : String.string) : text := List.map (λ a, Z.of_N (Ascii.N_of_ascii a)) (String.list_ascii_of_string s).
Arguments str s%_string_scope.
(** A character, from a string of length one. *)
Definition chr (s : String.string) : Z := hd 0 (str s).
Arguments chr s%_string_scope.

Definition in_range (lo hi c : Z) : bool := (lo <=? c) && (c <=? hi).
Definition is_upper (c : Z) : bool := in_range (chr "A") (chr "Z") c.
Definition is_lower (c : Z) : bool := in_range (chr "a") (chr "z") c.
Definition is_digit (c : Z) : bool := in_range (chr "0") (chr "9") c.
(** [isalnum] and [isspace] in the locale of C. *)
Definition isalnum (c : Z) : bool := is_upper c || is_lower c || is_digit c.
Definition isspace (c : Z) : bool := (c =? 32) || in_range 9 13 c.

(** [s.substr(pos, len)] with [pos] in range: the length is cut at the end. *)
Definition substr (pos len : nat) (s : text) : text := take len (drop pos s).

(** [boost::split(parts, s, boost::is_any_of(d))] for one delimiter: one more part than delimiters. *)
Fixpoint split (d : Z) (s : text) : list text :=
  match s with
  | [] => [[]]
  | c :: s' => if c =? d then [] :: split d s'
               else match split d s' with p :: ps => (c :: p) :: ps | [] => [[c]] end
  end.

(** The index of the last occurrence of a character, [std::string::npos] if there is none. *)
Fixpoint find_last (d : Z) (s : text) : option nat :=
  match s with
  | [] => None
  | c :: s' => match find_last d s' with Some i => Some (S i) | None => if c =? d then Some O else None end
  end.

Definition text_eqb (a b : text) : bool := bool_decide (a = b).

Lemma text_eqb_spec a b : text_eqb a b = true ↔ a = b.
Proof. apply bool_decide_eq_true. Qed.

(** Literals evaluated. *)
Ltac chars :=
  repeat match goal with
  | |- context [chr ?s] => let v := eval vm_compute in (chr s) in change (chr s) with v
  | H : context [chr ?s] |- _ => let v := eval vm_compute in (chr s) in change (chr s) with v in H
  | |- context [str ?s] => let v := eval vm_compute in (str s) in change (str s) with v
  | H : context [str ?s] |- _ => let v := eval vm_compute in (str s) in change (str s) with v in H
  end.

(** * Parts *)

Lemma split_nonempty d s : split d s ≠ [].
Proof. induction s as [|c s IH]; cbn [split]; [done|]. destruct (c =? d); [done|]. by destruct (split d s). Qed.

Lemma split_none d s : Forall (λ c, c ≠ d) s → split d s = [s].
Proof.
  induction 1 as [|c s Hc Hs IH]; [done|]. cbn [split]. rewrite (proj2 (Z.eqb_neq _ _) Hc), IH. done.
Qed.

Lemma split_app d s t : Forall (λ c, c ≠ d) s → split d (s ++ d :: t) = s :: split d t.
Proof.
  induction 1 as [|c s Hc Hs IH]; cbn [app split]; [by rewrite Z.eqb_refl|].
  rewrite (proj2 (Z.eqb_neq _ _) Hc), IH. done.
Qed.

(** Joining the parts with the delimiter gives the string back. *)
Fixpoint join (d : Z) (ps : list text) : text :=
  match ps with [] => [] | [p] => p | p :: ps' => p ++ d :: join d ps' end.

Lemma join_split d s : join d (split d s) = s.
Proof.
  induction s as [|c s IH]; [done|]. cbn [split]. pose proof (split_nonempty d s). destruct (Z.eqb_spec c d) as [->|Hc].
  - destruct (split d s) as [|p ps]; [done|]. cbn [join app] in *. by rewrite IH.
  - destruct (split d s) as [|p ps]; [done|]. destruct ps; cbn [join app] in *; by rewrite IH.
Qed.

Lemma split_parts d s : Forall (Forall (λ c, c ≠ d)) (split d s).
Proof.
  induction s as [|c s IH]; cbn [split]; [by repeat constructor|]. destruct (Z.eqb_spec c d) as [->|Hc]; [by constructor|].
  destruct (split d s) as [|p ps]; [by repeat constructor|]. inversion IH. by repeat constructor.
Qed.

Lemma find_last_none d s : Forall (λ c, c ≠ d) s → find_last d s = None.
Proof. induction 1 as [|c s Hc Hs IH]; [done|]. cbn [find_last]. by rewrite IH, (proj2 (Z.eqb_neq _ _) Hc). Qed.

Lemma find_last_app d s t : Forall (λ c, c ≠ d) t → find_last d (s ++ d :: t) = Some (length s).
Proof.
  intros Ht. induction s as [|c s IH]; cbn [app find_last length].
  - by rewrite find_last_none, Z.eqb_refl.
  - by rewrite IH.
Qed.

(** * Regular expressions *)

Inductive regex :=
  | Void | Empty
  | Class (p : Z → bool)
  | Cat (a b : regex)
  | Alt (a b : regex)
  | Star (a : regex).

Definition Plus (a : regex) : regex := Cat a (Star a).
(** [a{n,}] *)
Fixpoint AtLeast (n : nat) (a : regex) : regex := match n with O => Star a | S n' => Cat a (AtLeast n' a) end.
Definition Chars (s : text) : regex := foldr (λ c, Cat (Class (Z.eqb c))) Empty s.

(** The strings an expression matches as a whole. *)
Inductive lang : regex → text → Prop :=
  | lang_empty : lang Empty []
  | lang_class p c : p c = true → lang (Class p) [c]
  | lang_cat a b s t : lang a s → lang b t → lang (Cat a b) (s ++ t)
  | lang_left a b s : lang a s → lang (Alt a b) s
  | lang_right a b s : lang b s → lang (Alt a b) s
  | lang_nil a : lang (Star a) []
  | lang_more a s t : lang a s → lang (Star a) t → lang (Star a) (s ++ t).

Fixpoint nullable (r : regex) : bool :=
  match r with
  | Void | Class _ => false
  | Empty | Star _ => true
  | Cat a b => nullable a && nullable b
  | Alt a b => nullable a || nullable b
  end.

Fixpoint derivative (c : Z) (r : regex) : regex :=
  match r with
  | Void | Empty => Void
  | Class p => if p c then Empty else Void
  | Cat a b => if nullable a then Alt (Cat (derivative c a) b) (derivative c b) else Cat (derivative c a) b
  | Alt a b => Alt (derivative c a) (derivative c b)
  | Star a => Cat (derivative c a) (Star a)
  end.

(** [std::regex_match]: the whole string matches. *)
Fixpoint regex_match (s : text) (r : regex) : bool :=
  match s with
  | [] => nullable r
  | c :: s' => regex_match s' (derivative c r)
  end.

Lemma nullable_spec r : nullable r = true ↔ lang r [].
Proof.
  split.
  - induction r as [| |p|a IHa b IHb|a IHa b IHb|a IHa]; cbn [nullable]; intros H; try done.
    + constructor.
    + apply andb_true_iff in H as [H1 H2]. apply (lang_cat a b [] []); auto.
    + apply orb_true_iff in H as [H|H]; [apply lang_left|apply lang_right]; auto.
    + constructor.
  - intros H. remember [] as s eqn:E. induction H; cbn [nullable]; subst; try done.
    + apply app_eq_nil in E as [-> ->]. rewrite IHlang1, IHlang2; done.
    + by rewrite IHlang.
    + rewrite IHlang by done. apply orb_true_r.
Qed.

Lemma derivative_sound c r : ∀ s, lang (derivative c r) s → lang r (c :: s).
Proof.
  induction r as [| |p|a IHa b IHb|a IHa b IHb|a IHa]; cbn [derivative]; intros s H.
  - inversion H.
  - inversion H.
  - destruct (p c) eqn:E; inversion H; subst. by constructor.
  - destruct (nullable a) eqn:E; inversion H; subst.
    + match goal with H : lang (Cat _ _) _ |- _ => inversion H; subst end. apply (lang_cat a b (c :: s0)); auto.
    + apply (lang_cat a b [] (c :: s)); [by apply nullable_spec|auto].
    + apply (lang_cat a b (c :: s0)); auto.
  - inversion H; subst; [apply lang_left|apply lang_right]; auto.
  - inversion H; subst. apply (lang_more a (c :: s0)); auto.
Qed.

Lemma derivative_complete c r s : lang r (c :: s) → lang (derivative c r) s.
Proof.
  intros H. remember (c :: s) as u eqn:E. revert s E.
  induction H as [|p d Hp|a b u v Ha IHa Hb IHb|a b u Ha IHa|a b u Hb IHb|a|a u v Ha IHa Hs IHs]; intros s E; cbn [derivative];
    try discriminate.
  - injection E as -> <-. rewrite Hp. constructor.
  - destruct u as [|d u]; cbn [app] in E.
    + subst v. rewrite (proj2 (nullable_spec a) Ha). apply lang_right. by apply IHb.
    + injection E as -> <-. pose proof (lang_cat _ _ _ _ (IHa u eq_refl) Hb). destruct (nullable a); [by apply lang_left|done].
  - apply lang_left. by apply IHa.
  - apply lang_right. by apply IHb.
  - destruct u as [|d u]; cbn [app] in E; [by apply IHs|]. injection E as -> <-. apply lang_cat; auto.
Qed.

(** Matching by derivatives decides the language. *)
Lemma regex_match_spec s : ∀ r, regex_match s r = true ↔ lang r s.
Proof.
  induction s as [|c s IH]; intros r; cbn [regex_match]; [apply nullable_spec|]. rewrite IH.
  split; [apply derivative_sound|apply derivative_complete].
Qed.

(** ** Expressions over classes of characters *)

Lemma regex_match_ext s r b : (lang r s ↔ b = true) → regex_match s r = b.
Proof.
  intros H. destruct (regex_match s r) eqn:E; [symmetry; apply H; by apply regex_match_spec|].
  destruct b; [|done]. rewrite <- E. apply regex_match_spec. by apply H.
Qed.

Lemma lang_cat_inv a b s : lang (Cat a b) s ↔ ∃ u v, s = u ++ v ∧ lang a u ∧ lang b v.
Proof. split; [intros H; inversion H; subst; eauto|intros (u & v & -> & ? & ?); by constructor]. Qed.

Lemma lang_class_inv p s : lang (Class p) s ↔ ∃ c, s = [c] ∧ p c = true.
Proof. split; [intros H; inversion H; subst; eauto|intros (c & -> & ?); by constructor]. Qed.

Lemma regex_class_cat p r c s : regex_match (c :: s) (Cat (Class p) r) = p c && regex_match s r.
Proof.
  apply regex_match_ext. rewrite lang_cat_inv, andb_true_iff, regex_match_spec. split.
  - intros (u & v & E & (d & -> & Hd)%lang_class_inv & Hv). by injection E as -> ->.
  - intros [Hc Hs]. exists [c], s. split_and!; [done|by constructor|done].
Qed.

Lemma regex_class_cat_nil p r : regex_match [] (Cat (Class p) r) = false.
Proof. done. Qed.

Lemma regex_star p s : regex_match s (Star (Class p)) = forallb p s.
Proof.
  induction s as [|c s IH]; [done|]. cbn [forallb]. rewrite <- IH. cbn [regex_match derivative].
  apply regex_match_ext. rewrite andb_true_iff, regex_match_spec, lang_cat_inv. split.
  - intros (u & v & -> & Hu & Hv). destruct (p c); inversion Hu; subst. done.
  - intros [-> Hs]. exists [], s. split_and!; [done|constructor|done].
Qed.

Lemma regex_atleast p n : ∀ s, regex_match s (AtLeast n (Class p)) = (n <=? length s)%nat && forallb p s.
Proof.
  induction n as [|n IH]; intros s; cbn [AtLeast]; [apply regex_star|].
  destruct s as [|c s]; [done|]. rewrite regex_class_cat, IH. cbn [length forallb Nat.leb]. destruct (p c), (n <=? length s)%nat; done.
Qed.

Lemma regex_plus p s : regex_match s (Plus (Class p)) = (1 <=? length s)%nat && forallb p s.
Proof. apply (regex_atleast p 1). Qed.

Lemma lang_chars l : ∀ s, lang (Chars l) s ↔ s = l.
Proof.
  induction l as [|c l IH]; intros s; cbn [Chars foldr].
  - split; [by inversion 1|intros ->; constructor].
  - rewrite lang_cat_inv. split.
    + intros (u & v & -> & (d & -> & Hd)%lang_class_inv & Hv%IH). apply Z.eqb_eq in Hd. by subst.
    + intros ->. exists [c], l. split_and!; [done|constructor; apply Z.eqb_refl|by apply IH].
Qed.

(** An alternative of strings. *)
Lemma regex_strings ls s : regex_match s (foldr (λ l, Alt (Chars l)) Void ls) = existsb (text_eqb s) ls.
Proof.
  apply regex_match_ext. induction ls as [|l ls IH]; cbn [foldr existsb].
  - split; [inversion 1|done].
  - rewrite orb_true_iff, text_eqb_spec, <- IH, <- lang_chars. split; [inversion 1; auto|intros [?|?]; by constructor].
Qed.

(** A run of one class, a character, and a run of another class. *)
Lemma regex_two_runs p q d s :
  regex_match s (Cat (Plus (Class p)) (Cat (Class q) (Plus (Class d)))) = true ↔
  ∃ a c b, s = a ++ c :: b ∧ a ≠ [] ∧ forallb p a = true ∧ q c = true ∧ b ≠ [] ∧ forallb d b = true.
Proof.
  assert (Plain : ∀ p s, lang (Plus (Class p)) s ↔ s ≠ [] ∧ forallb p s = true).
  { intros p' s'. rewrite <- regex_match_spec, regex_plus, andb_true_iff, Nat.leb_le. destruct s'; cbn; intuition (done || lia). }
  rewrite regex_match_spec. split.
  - intros (u & v & -> & [? ?]%Plain & (w & t & -> & (c & -> & ?)%lang_class_inv & [? ?]%Plain)%lang_cat_inv)%lang_cat_inv.
    exists u, c, t. by split_and!.
  - intros (a & c & b & -> & ? & ? & ? & ? & ?). apply (lang_cat _ _ a (c :: b)); [by apply Plain|].
    apply (lang_cat _ _ [c] b); [by constructor|by apply Plain].
Qed.

Lemma regex_run_char p q s :
  regex_match s (Cat (Plus (Class p)) (Class q)) = true ↔ ∃ a c, s = a ++ [c] ∧ a ≠ [] ∧ forallb p a = true ∧ q c = true.
Proof.
  rewrite regex_match_spec, lang_cat_inv. setoid_rewrite lang_class_inv. setoid_rewrite <- (regex_match_spec _ (Plus _)).
  setoid_rewrite regex_plus. setoid_rewrite andb_true_iff. setoid_rewrite Nat.leb_le. split.
  - intros (u & v & -> & [Hu ?] & c & -> & ?). exists u, c. split_and!; try done. destruct u; [cbn in Hu; lia|done].
  - intros (a & c & -> & Ha & ? & ?). exists a, [c]. split_and!; try done; [destruct a; [done|cbn; lia]|eauto].
Qed.

(** ** Splitting around a delimiter *)

Lemma split_middle d s t : split d (s ++ d :: t) = split d s ++ split d t.
Proof.
  induction s as [|c s IH]; cbn [app split]; [by rewrite Z.eqb_refl|]. destruct (c =? d); [by rewrite IH|].
  rewrite IH. pose proof (split_nonempty d s). destruct (split d s); done.
Qed.

Lemma join_snoc d ps s : ps ≠ [] → join d (ps ++ [s]) = join d ps ++ d :: s.
Proof.
  induction ps as [|p ps IH]; [done|intros _]. destruct ps as [|q ps]; [done|].
  change ((p :: q :: ps) ++ [s]) with (p :: ((q :: ps) ++ [s])). cbn [join app] in *. rewrite IH by done. by rewrite <- app_assoc.
Qed.
