(* ===== verification/LibBoolEE.v ===== *)
(** The evaluator of boolean expressions (LibBoolEE.h, LibBoolEE.cpp) that the verifier strings of
    restricted assets are written in, against the formulas that the expressions denote. *)
From stdpp Require Import base list option gmap.
From Stdlib Require Import ZArith Lia.
From Stdlib Require String.
From S2P Require Import Prelude Serialize Text.
Import String.StringSyntax.
Open Scope Z_scope.

(** * The evaluator *)

(** [valuation.count] and [valuation.at]. *)
Abbreviation Vals := (gmap text bool).

Definition belongsToName (ch : Z) : bool := isalnum ch || (ch =? chr "_") || (ch =? chr "#") || (ch =? chr ".").
Definition removeWhitespaces (source : text) : text := List.filter (λ c, negb (isspace c)) source.
Definition removeCharacter (source : text) (ch : Z) : text := List.filter (λ c, negb (ch =? c)) source.

(** The loop of [singleParse]: [rest] is the formula from [i] on; a negative [start_pos] is the initial -1. [None] is
    the exception. *)
Fixpoint singleParse_loop (formula : text) (op : Z) (rest : text) (i start_pos parity_count : Z) (subexpressions : list text)
    : option (list text) :=
  match rest with
  | [] =>
      let subexpressions :=
        if start_pos =? -1 then subexpressions
        else subexpressions ++ [substr (Z.to_nat start_pos) (length formula - Z.to_nat start_pos) formula] in
      if parity_count =? 0 then Some subexpressions else None
  | c :: rest' =>
      if c =? chr ")" then singleParse_loop formula op rest' (i + 1) start_pos (parity_count - 1) subexpressions
      else if c =? chr "(" then
        singleParse_loop formula op rest' (i + 1) (if start_pos =? -1 then i else start_pos) (parity_count + 1) subexpressions
      else if parity_count =? 0 then
        if start_pos =? -1 then
          singleParse_loop formula op rest' (i + 1) (if belongsToName c || (c =? chr "!") then i else start_pos) parity_count subexpressions
        else if negb (belongsToName c || (c =? chr "!")) then
          if op =? c then
            singleParse_loop formula op rest' (i + 1) (i + 1) parity_count
              (subexpressions ++ [substr (Z.to_nat start_pos) (Z.to_nat (i - start_pos)) formula])
          else if negb (c =? chr "&") && negb (c =? chr "|") then None
          else singleParse_loop formula op rest' (i + 1) start_pos parity_count subexpressions
        else singleParse_loop formula op rest' (i + 1) start_pos parity_count subexpressions
      else singleParse_loop formula op rest' (i + 1) start_pos parity_count subexpressions
  end.
Definition singleParse (formula : text) (op : Z) : option (list text) := singleParse_loop formula op formula 0 (-1) 0 [].

(** [result |= resolve(...)] or [result &= resolve(...)] over the subexpressions, all of which are evaluated. *)
Definition resolve_all (resolve : text → option bool) (op : bool → bool → bool) (result : bool) (l : list text) : option bool :=
  foldl (λ acc s, result ← acc; b ← resolve s; Some (op result b)) (Some result) l.

(** The body of [resolveRec], with [resolve] for its calls. *)
Definition resolveRec (resolve : text → option bool) (source : text) (valuation : Vals) : option bool :=
  if bool_decide (source = []) then None
  else
    subs ← singleParse source (chr "|");
    '(current_op, subexpressions) ←
      (if (length subs =? 1)%nat then subs ← singleParse source (chr "&"); Some (chr "&", subs) else Some (chr "|", subs));
    if (length subexpressions =? 0)%nat then None
    else if (length subexpressions =? 1)%nat then
      if hd 0 source =? chr "!" then negb <$> resolve (substr 1 (length source) source)
      else if hd 0 source =? chr "(" then resolve (substr 1 (length source - 2) source)
      else if text_eqb source (str "1") then Some true
      else if text_eqb source (str "0") then Some false
      else valuation !! source
    else if current_op =? chr "|" then resolve_all resolve orb false subexpressions
    else resolve_all resolve andb true subexpressions.

(** Every call is on a shorter string. *)
Fixpoint resolve_fuel (fuel : nat) (valuation : Vals) (source : text) : option bool :=
  match fuel with
  | O => None
  | S fuel' => resolveRec (resolve_fuel fuel' valuation) (removeWhitespaces source) valuation
  end.
Definition resolve (source : text) (valuation : Vals) : option bool := resolve_fuel (S (length source)) valuation source.

(** * Formulas *)

Inductive formula :=
  | FTrue | FFalse
  | FVar (name : text)
  | FNot (f : formula)
  | FAnd (f g : formula)
  | FOr (f g : formula).

(** The value, when every variable has one. *)
Fixpoint value (v : Vals) (f : formula) : option bool :=
  match f with
  | FTrue => Some true
  | FFalse => Some false
  | FVar x => v !! x
  | FNot f => negb <$> value v f
  | FAnd f g => a ← value v f; b ← value v g; Some (a && b)
  | FOr f g => a ← value v f; b ← value v g; Some (a || b)
  end.

Definition parens (b : bool) (s : text) : text := if b then str "(" ++ s ++ str ")" else s.

(** A formula as an expression: [prec] is 0 where a disjunction may stand, 1 where a conjunction may, 2 otherwise. *)
Fixpoint print (prec : nat) (f : formula) : text :=
  match f with
  | FTrue => str "1"
  | FFalse => str "0"
  | FVar x => x
  | FNot f => str "!" ++ print 2 f
  | FAnd f g => parens (1 <? prec)%nat (print 1 f ++ [chr "&"] ++ print 1 g)
  | FOr f g => parens (0 <? prec)%nat (print 0 f ++ [chr "|"] ++ print 0 g)
  end.

(** Variables have names, and not those of the constants. *)
Definition name_ok (x : text) : bool :=
  negb (text_eqb x []) && forallb belongsToName x && negb (text_eqb x (str "0")) && negb (text_eqb x (str "1")).
Fixpoint names_ok (f : formula) : bool :=
  match f with
  | FTrue | FFalse => true
  | FVar x => name_ok x
  | FNot f => names_ok f
  | FAnd f g | FOr f g => names_ok f && names_ok g
  end.

Fixpoint disjuncts (f : formula) : list formula := match f with FOr f g => disjuncts f ++ disjuncts g | _ => [f] end.
Fixpoint conjuncts (f : formula) : list formula := match f with FAnd f g => conjuncts f ++ conjuncts g | _ => [f] end.

(** * Splitting *)

Lemma belongs_char c : belongsToName c = true → c ≠ chr "(" ∧ c ≠ chr ")" ∧ isspace c = false.
Proof.
  unfold belongsToName, isalnum, isspace, is_upper, is_lower, is_digit, in_range. chars. intros H. lia.
Qed.

(** The nesting after a part of a formula in which nothing is split off, from nesting [d]. *)
Fixpoint quiet (op d : Z) (s : text) : option Z :=
  match s with
  | [] => Some d
  | c :: s' =>
      if c =? chr ")" then quiet op (d - 1) s'
      else if c =? chr "(" then quiet op (d + 1) s'
      else if (d =? 0) && negb (belongsToName c || (c =? chr "!")) && ((op =? c) || (negb (c =? chr "&") && negb (c =? chr "|"))) then None
      else quiet op d s'
  end.

Lemma quiet_app op s : ∀ d t, quiet op d (s ++ t) = d' ← quiet op d s; quiet op d' t.
Proof. induction s as [|c s IH]; intros d t; [done|]. cbn [app quiet]. by repeat case_match; rewrite ?IH. Qed.

Lemma quiet_name op d x : forallb belongsToName x = true → quiet op d x = Some d.
Proof.
  induction x as [|c x IH]; intros H; [done|]. cbn [forallb quiet] in *. apply andb_true_iff in H as [Hc Hx].
  destruct (belongs_char c Hc) as (H1 & H2 & _). rewrite (proj2 (Z.eqb_neq _ _) H1), (proj2 (Z.eqb_neq _ _) H2), Hc.
  cbn [orb negb andb]. rewrite andb_false_r. by apply IH.
Qed.

Section Split.
Context (F : text) (op : Z).

Lemma loop_quiet s : ∀ rest i start d d' acc, quiet op d s = Some d' → start ≠ -1 →
  singleParse_loop F op (s ++ rest) i start d acc = singleParse_loop F op rest (i + Z.of_nat (length s)) start d' acc.
Proof.
  induction s as [|c s IH]; intros rest i start d d' acc Hq Hs; cbn [app singleParse_loop quiet length] in *.
  - injection Hq as <-. by rewrite Z.add_0_r.
  - replace (i + Z.of_nat (S (length s))) with (i + 1 + Z.of_nat (length s)) by lia. rewrite (proj2 (Z.eqb_neq start (-1)) Hs).
    destruct (c =? chr ")"); [by apply IH|]. destruct (c =? chr "("); [by apply IH|]. destruct (d =? 0); [|by apply IH].
    destruct (negb _); cbn [andb] in Hq; [|by apply IH]. destruct (op =? c); [done|]. cbn [orb] in Hq.
    destruct (negb _ && negb _); [done|]. by apply IH.
Qed.

(** The first character of a subexpression. *)
Definition opens (s : text) : bool :=
  match s with c :: _ => belongsToName c || (c =? chr "!") || (c =? chr "(") | [] => false end.

Lemma loop_start s rest i acc : opens s = true → 0 ≤ i →
  singleParse_loop F op (s ++ rest) i (-1) 0 acc = singleParse_loop F op (s ++ rest) i i 0 acc.
Proof.
  destruct s as [|c s]; [done|]. cbn [opens app singleParse_loop]. intros H Hi. rewrite (proj2 (Z.eqb_neq i (-1))) by lia.
  change (-1 =? -1) with true. change (0 =? 0) with true. cbv iota. destruct (c =? chr ")") eqn:E1.
  { exfalso. apply Z.eqb_eq in E1. subst c. by vm_compute in H. }
  destruct (c =? chr "("); [done|]. rewrite orb_false_r in H. by rewrite H.
Qed.

Definition piece (s : text) : Prop := opens s = true ∧ quiet op 0 s = Some 0.

Context (Hop : op = chr "|" ∨ op = chr "&").

Lemma loop_join ps : ∀ pre acc, ps ≠ [] → Forall piece ps → F = pre ++ join op ps →
  singleParse_loop F op (join op ps) (Z.of_nat (length pre)) (Z.of_nat (length pre)) 0 acc = Some (acc ++ ps).
Proof using Hop.
  induction ps as [|p [|q ps] IH]; intros pre acc Hne Hp HF; [done| |].
  - apply Forall_singleton in Hp as [_ Hq]. cbn [join] in *. rewrite <- (app_nil_r p) at 1.
    rewrite (loop_quiet p [] _ _ 0 0) by (done || lia). cbn [singleParse_loop]. rewrite (proj2 (Z.eqb_neq _ (-1))) by lia.
    change (0 =? 0) with true. rewrite Nat2Z.id, HF. unfold substr. rewrite drop_app_length, take_ge; [done|]. rewrite length_app. lia.
  - apply Forall_cons in Hp as [[_ Hq] Hp]. change (join op (p :: q :: ps)) with (p ++ op :: join op (q :: ps)) in *.
    rewrite (loop_quiet p _ _ _ 0 0) by (done || lia). cbn [singleParse_loop].
    rewrite (proj2 (Z.eqb_neq (Z.of_nat _) (-1))) by lia. change (0 =? 0) with true. rewrite Z.eqb_refl.
    assert ((op =? chr ")") = false ∧ (op =? chr "(") = false ∧ (belongsToName op || (op =? chr "!")) = false) as (-> & -> & ->)
      by (destruct Hop as [-> | ->]; by vm_compute).
    cbn [negb]. replace (Z.of_nat (length pre) + Z.of_nat (length p) + 1) with (Z.of_nat (length (pre ++ p ++ [op]))) by
      (rewrite !length_app; cbn [length]; lia).
    rewrite IH; [| |done|]; [|done|by rewrite HF, <- !app_assoc].
    rewrite Nat2Z.id. replace (Z.to_nat _) with (length p) by lia. unfold substr. rewrite HF, drop_app_length, take_app_length.
    by rewrite <- app_assoc.
Qed.
End Split.

Lemma singleParse_join op ps : op = chr "|" ∨ op = chr "&" → ps ≠ [] → Forall (piece op) ps → singleParse (join op ps) op = Some ps.
Proof.
  intros Hop Hne Hp. unfold singleParse. destruct ps as [|p ps]; [done|]. destruct (proj1 (Forall_cons _ _ _) Hp) as [[Ho _] _].
  assert (∃ t, join op (p :: ps) = p ++ t) as [t E] by (destruct ps; [exists []; by rewrite app_nil_r|by eexists]).
  rewrite E at 2. rewrite loop_start by done. rewrite <- E. apply (loop_join _ op Hop (p :: ps) [] []); done.
Qed.

(** * Printed formulas *)

Lemma join_app d xs ys : xs ≠ [] → ys ≠ [] → join d (xs ++ ys) = join d xs ++ d :: join d ys.
Proof.
  intros Hx Hy. induction xs as [|x [|x' xs] IH]; [done| |].
  - by destruct ys.
  - change ((x :: x' :: xs) ++ ys) with (x :: ((x' :: xs) ++ ys)). cbn [join]. rewrite <- app_assoc. cbn [app] in *.
    by rewrite IH.
Qed.

Lemma disjuncts_nonempty f : disjuncts f ≠ [].
Proof. induction f; cbn [disjuncts]; try done. intros H. by apply app_eq_nil in H as [? _]. Qed.
Lemma conjuncts_nonempty f : conjuncts f ≠ [].
Proof. induction f; cbn [conjuncts]; try done. intros H. by apply app_eq_nil in H as [? _]. Qed.

Lemma map_nonempty {A B} (g : A → B) l : l ≠ [] → List.map g l ≠ [].
Proof. by destruct l. Qed.

Lemma print_disjuncts f : print 0 f = join (chr "|") (List.map (print 1) (disjuncts f)).
Proof.
  induction f as [| |x|f IH|f IHf g IHg|f IHf g IHg]; try done. cbn [disjuncts print parens Nat.ltb Nat.leb].
  rewrite map_app, join_app, <- IHf, <- IHg by (apply map_nonempty, disjuncts_nonempty). done.
Qed.
Lemma print_conjuncts f : print 1 f = join (chr "&") (List.map (print 2) (conjuncts f)).
Proof.
  induction f as [| |x|f IH|f IHf g IHg|f IHf g IHg]; try done. cbn [conjuncts print parens Nat.ltb Nat.leb].
  rewrite map_app, join_app, <- IHf, <- IHg by (apply map_nonempty, conjuncts_nonempty). done.
Qed.

Lemma name_ok_spec x : name_ok x = true → x ≠ [] ∧ forallb belongsToName x = true ∧ x ≠ str "0" ∧ x ≠ str "1".
Proof.
  unfold name_ok. rewrite !andb_true_iff, !negb_true_iff. intros (((H1 & H2) & H3) & H4).
  by repeat split; [intros ->|done|intros ->|intros ->].
Qed.

Lemma print_opens f p : names_ok f = true → opens (print p f) = true.
Proof.
  revert p. induction f as [| |x|f IH|f IHf g IHg|f IHf g IHg]; intros p; cbn [names_ok print]; intros H; try done.
  - destruct (name_ok_spec x H) as (Hne & Hn & _). destruct x as [|c x]; [done|]. cbn [forallb opens] in *.
    apply andb_true_iff in Hn as [-> _]. done.
  - unfold parens. apply andb_true_iff in H as [Hf _]. case_match; [done|]. specialize (IHf 1%nat Hf). by destruct (print 1 f).
  - unfold parens. apply andb_true_iff in H as [Hf _]. case_match; [done|]. specialize (IHf 0%nat Hf). by destruct (print 0 f).
Qed.

Lemma quiet_not op d s : quiet op d (str "!" ++ s) = quiet op d s.
Proof. cbn. by rewrite andb_false_r. Qed.
Lemma quiet_parens op d s : quiet op d (str "(" ++ s ++ str ")") = d' ← quiet op (d + 1) s; Some (d' - 1).
Proof.
  change (str "(" ++ s ++ str ")") with (chr "(" :: (s ++ [chr ")"])). cbn [quiet].
  change (chr "(" =? chr ")") with false. rewrite Z.eqb_refl, quiet_app. destruct (quiet op (d + 1) s); [|done].
  cbn [mbind option_bind quiet]. by rewrite Z.eqb_refl.
Qed.
Lemma quiet_op op d c : (c = chr "|" ∨ c = chr "&") → d ≠ 0 ∨ op ≠ c → quiet op d [c] = Some d.
Proof.
  intros Hc Hd. cbn [quiet]. rewrite (proj2 (Z.eqb_neq c (chr ")"))), (proj2 (Z.eqb_neq c (chr "("))) by (destruct Hc as [-> | ->]; by chars).
  destruct (Z.eqb_spec d 0) as [E|E]; [|done]. rewrite (proj2 (Z.eqb_neq op c)) by tauto. cbn [andb orb].
  destruct Hc as [-> | ->]; rewrite Z.eqb_refl; cbn [negb andb]; by rewrite ?andb_false_r.
Qed.

(** A constant or a name. *)
Lemma quiet_digit op d c : belongsToName c = true → quiet op d [c] = Some d.
Proof. intros H. apply quiet_name. cbn [forallb]. by rewrite H. Qed.

Lemma quiet_seq op d a c b : quiet op d a = Some d → quiet op d [c] = Some d → quiet op d b = Some d → quiet op d (a ++ [c] ++ b) = Some d.
Proof. intros Ha Hc Hb. rewrite quiet_app, Ha. cbn [mbind option_bind]. rewrite quiet_app, Hc. done. Qed.

(** Inside parentheses nothing is split. *)
Lemma quiet_inside f : names_ok f = true → ∀ op p d, 0 < d → quiet op d (print p f) = Some d.
Proof.
  induction f as [| |x|f IH|f IHf g IHg|f IHf g IHg]; cbn [names_ok print]; intros H op p d Hd.
  - by apply quiet_digit.
  - by apply quiet_digit.
  - apply quiet_name. apply (name_ok_spec x H).
  - rewrite quiet_not. by apply IH.
  - apply andb_true_iff in H as [Hf Hg]. unfold parens. case_match; rewrite ?quiet_parens, quiet_seq; rewrite ?(IHf Hf), ?(IHg Hg) by lia; try done;
      (apply quiet_op; [tauto|lia]) || (cbn [mbind option_bind]; f_equal; lia).
  - apply andb_true_iff in H as [Hf Hg]. unfold parens. case_match; rewrite ?quiet_parens, quiet_seq; rewrite ?(IHf Hf), ?(IHg Hg) by lia; try done;
      (apply quiet_op; [tauto|lia]) || (cbn [mbind option_bind]; f_equal; lia).
Qed.

Lemma quiet_group f op : names_ok f = true → quiet op 0 (str "(" ++ print 0 f ++ str ")") = Some 0.
Proof. intros H. by rewrite quiet_parens, (quiet_inside f H). Qed.

Lemma quiet_print2 f op : names_ok f = true → quiet op 0 (print 2 f) = Some 0.
Proof.
  induction f as [| |x|f IH|f IHf g IHg|f IHf g IHg]; intros H.
  - by apply quiet_digit.
  - by apply quiet_digit.
  - apply quiet_name. apply (name_ok_spec x H).
  - cbn [print]. rewrite quiet_not. by apply IH.
  - apply (quiet_group (FAnd f g) op H).
  - apply (quiet_group (FOr f g) op H).
Qed.

Lemma quiet_print1 f : names_ok f = true → quiet (chr "|") 0 (print 1 f) = Some 0.
Proof.
  induction f as [| |x|f IH|f IHf g IHg|f IHf g IHg]; intros H; try by apply (quiet_print2 _ (chr "|") H).
  cbn [names_ok print parens Nat.ltb Nat.leb] in *. apply andb_true_iff in H as [Hf Hg].
  apply quiet_seq; [by apply IHf|apply quiet_op; [tauto|by right]|by apply IHg].
Qed.

Lemma names_ok_all f : names_ok f = true → Forall (λ g, names_ok g = true) (disjuncts f) ∧ Forall (λ g, names_ok g = true) (conjuncts f).
Proof.
  induction f as [| |x|f IH|f IHf g IHg|f IHf g IHg]; cbn [names_ok disjuncts conjuncts]; intros H; try (split; by repeat constructor).
  - pose proof H as H0. apply andb_true_iff in H as [Hf Hg]. split; [by repeat constructor|]. apply Forall_app. split; [apply (IHf Hf)|apply (IHg Hg)].
  - pose proof H as H0. apply andb_true_iff in H as [Hf Hg]. split; [|by repeat constructor]. apply Forall_app. split; [apply (IHf Hf)|apply (IHg Hg)].
Qed.

Lemma print1_pieces f : names_ok f = true → Forall (piece (chr "|")) (List.map (print 1) (disjuncts f)).
Proof.
  intros H. apply Forall_fmap. eapply Forall_impl; [apply (names_ok_all f H)|]. intros g Hg. split; [by apply print_opens|by apply quiet_print1].
Qed.
Lemma print2_pieces f : names_ok f = true → Forall (piece (chr "&")) (List.map (print 2) (conjuncts f)).
Proof.
  intros H. apply Forall_fmap. eapply Forall_impl; [apply (names_ok_all f H)|]. intros g Hg. split; [by apply print_opens|by apply quiet_print2].
Qed.

Lemma parse_or f : names_ok f = true → singleParse (print 0 f) (chr "|") = Some (List.map (print 1) (disjuncts f)).
Proof.
  intros H. rewrite print_disjuncts. apply singleParse_join; [tauto|apply map_nonempty, disjuncts_nonempty|by apply print1_pieces].
Qed.
Lemma parse_and f : names_ok f = true → singleParse (print 1 f) (chr "&") = Some (List.map (print 2) (conjuncts f)).
Proof.
  intros H. rewrite print_conjuncts. apply singleParse_join; [tauto|apply map_nonempty, conjuncts_nonempty|by apply print2_pieces].
Qed.
Lemma parse_one op f p : op = chr "|" ∧ (0 < p)%nat ∨ op = chr "&" ∧ (1 < p)%nat → names_ok f = true → singleParse (print p f) op = Some [print p f].
Proof.
  intros Hop H. apply (singleParse_join op [print p f]); [tauto|done|]. apply Forall_singleton. split; [by apply print_opens|].
  destruct p as [|[|p]]; [lia| |].
  - destruct Hop as [[-> _]|[_ ?]]; [|lia]. by apply quiet_print1.
  - replace (print (S (S p)) f) with (print 2 f) by (by destruct f). by apply quiet_print2.
Qed.

Lemma removeWhitespaces_id s : forallb (λ c, negb (isspace c)) s = true → removeWhitespaces s = s.
Proof. induction s as [|c s IH]; intros H; [done|]. cbn [forallb removeWhitespaces List.filter] in *. apply andb_true_iff in H as [-> H]. f_equal. by apply IH. Qed.

Lemma removeWhitespaces_spaces s : forallb (λ c, negb (isspace c)) (removeWhitespaces s) = true.
Proof. induction s as [|c s IH]; [done|]. unfold removeWhitespaces in *. cbn [List.filter]. destruct (negb (isspace c)) eqn:E; [cbn [forallb]; by rewrite E|done]. Qed.

Lemma length_removeWhitespaces s : (length (removeWhitespaces s) ≤ length s)%nat.
Proof. induction s as [|c s IH]; [done|]. unfold removeWhitespaces in *. cbn [List.filter]. case_match; cbn [length]; lia. Qed.

Lemma print_spaces f : names_ok f = true → ∀ p, forallb (λ c, negb (isspace c)) (print p f) = true.
Proof.
  induction f as [| |x|f IH|f IHf g IHg|f IHf g IHg]; cbn [names_ok print]; intros H p; try done.
  - destruct (name_ok_spec x H) as (_ & Hx & _). rewrite forallb_forall in *. intros c Hc. destruct (belongs_char c (Hx c Hc)) as (_ & _ & ->). done.
  - cbn. by rewrite IH.
  - apply andb_true_iff in H as [Hf Hg]. unfold parens. case_match; rewrite ?forallb_app, IHf, IHg by done; done.
  - apply andb_true_iff in H as [Hf Hg]. unfold parens. case_match; rewrite ?forallb_app, IHf, IHg by done; done.
Qed.

Lemma print_nonempty f p : names_ok f = true → print p f ≠ [].
Proof. intros H E. pose proof (print_opens f p H) as Ho. by rewrite E in Ho. Qed.

(** The values of the subexpressions combine to the value of the formula. *)
Lemma resolve_all_app r op b l l' : resolve_all r op b (l ++ l') = b' ← resolve_all r op b l; resolve_all r op b' l'.
Proof.
  unfold resolve_all. rewrite foldl_app. destruct (foldl _ (Some b) l); [done|]. cbn [mbind option_bind]. by induction l'.
Qed.
Lemma resolve_all_one r op b s : resolve_all r op b [s] = x ← r s; Some (op b x).
Proof. done. Qed.
Lemma resolve_disjuncts r v f : Forall (λ g, r (print 1 g) = value v g) (disjuncts f) →
  ∀ b, resolve_all r orb b (List.map (print 1) (disjuncts f)) = x ← value v f; Some (b || x).
Proof.
  induction f as [| |x|f IH|f IHf g IHg|f IHf g IHg]; cbn [disjuncts List.map]; intros H b;
    try (apply (proj1 (Forall_singleton _ _)) in H; by rewrite resolve_all_one, H).
  apply Forall_app in H as [Hf Hg]. rewrite map_app, resolve_all_app, (IHf Hf). cbn [value].
  destruct (value v f) as [x|]; [|done]. cbn [mbind option_bind]. rewrite (IHg Hg). destruct (value v g); [|done].
  cbn [mbind option_bind]. by rewrite orb_assoc.
Qed.
Lemma resolve_conjuncts r v f : Forall (λ g, r (print 2 g) = value v g) (conjuncts f) →
  ∀ b, resolve_all r andb b (List.map (print 2) (conjuncts f)) = x ← value v f; Some (b && x).
Proof.
  induction f as [| |x|f IH|f IHf g IHg|f IHf g IHg]; cbn [conjuncts List.map]; intros H b;
    try (apply (proj1 (Forall_singleton _ _)) in H; by rewrite resolve_all_one, H).
  apply Forall_app in H as [Hf Hg]. rewrite map_app, resolve_all_app, (IHf Hf). cbn [value].
  destruct (value v f) as [x|]; [|done]. cbn [mbind option_bind]. rewrite (IHg Hg). destruct (value v g); [|done].
  cbn [mbind option_bind]. by rewrite andb_assoc.
Qed.

Lemma length_join d ps p : p ∈ ps → (length p ≤ length (join d ps))%nat ∧ ((1 < length ps)%nat → (length p < length (join d ps))%nat).
Proof.
  induction ps as [|q [|q' ps] IH]; intros Hp.
  - by apply not_elem_of_nil in Hp.
  - apply list_elem_of_singleton in Hp as ->. cbn [join length]. lia.
  - change (join d (q :: q' :: ps)) with (q ++ d :: join d (q' :: ps)). rewrite length_app. cbn [length].
    apply elem_of_cons in Hp as [->|Hp]; [lia|]. destruct (IH Hp). lia.
Qed.

Lemma length_or f g : (1 < length (disjuncts (FOr f g)))%nat.
Proof. cbn [disjuncts]. rewrite length_app. pose proof (disjuncts_nonempty f). pose proof (disjuncts_nonempty g). destruct (disjuncts f), (disjuncts g); try done. cbn. lia. Qed.
Lemma length_and f g : (1 < length (conjuncts (FAnd f g)))%nat.
Proof. cbn [conjuncts]. rewrite length_app. pose proof (conjuncts_nonempty f). pose proof (conjuncts_nonempty g). destruct (conjuncts f), (conjuncts g); try done. cbn. lia. Qed.

Lemma substr_inner c s d : substr 1 (length (c :: s ++ [d]) - 2) (c :: s ++ [d]) = s.
Proof.
  unfold substr. cbn [length drop]. rewrite length_app. replace (S (length s + length [d]) - 2)%nat with (length s) by (cbn [length]; lia).
  apply take_app_length.
Qed.

Section Resolve.
Context (v : Vals) (r : text → option bool).

(** A disjunction, and a conjunction. *)
Lemma resolveRec_or f g : names_ok (FOr f g) = true →
  (∀ h p, names_ok h = true → (length (print p h) < length (print 0 (FOr f g)))%nat → r (print p h) = value v h) →
  resolveRec r (print 0 (FOr f g)) v = value v (FOr f g).
Proof.
  intros H Hr. unfold resolveRec. rewrite bool_decide_eq_false_2 by (by apply print_nonempty). rewrite (parse_or _ H). cbn [mbind option_bind].
  pose proof (length_or f g) as Hl. rewrite length_map. rewrite (proj2 (Nat.eqb_neq (length (disjuncts _)) 1)) by lia. cbn [mbind option_bind].
  rewrite length_map, !(proj2 (Nat.eqb_neq (length (disjuncts _)) _)) by lia. change (chr "|" =? chr "|") with true. cbv iota.
  rewrite (resolve_disjuncts r v). { by destruct (value v (FOr f g)). }
  apply Forall_forall. intros h Hh. pose proof (proj1 (names_ok_all _ H)) as Hn. rewrite Forall_forall in Hn. apply Hr; [by apply Hn|].
  rewrite (print_disjuncts (FOr f g)). apply length_join; [by apply list_elem_of_fmap_2|by rewrite length_map].
Qed.
Lemma resolveRec_and f g : names_ok (FAnd f g) = true →
  (∀ h p, names_ok h = true → (length (print p h) < length (print 1 (FAnd f g)))%nat → r (print p h) = value v h) →
  resolveRec r (print 1 (FAnd f g)) v = value v (FAnd f g).
Proof.
  intros H Hr. unfold resolveRec. rewrite bool_decide_eq_false_2 by (by apply print_nonempty). rewrite (parse_one (chr "|")) by (done || (left; split; [done|lia])).
  cbn [mbind option_bind length Nat.eqb]. rewrite (parse_and _ H). cbn [mbind option_bind]. pose proof (length_and f g) as Hl.
  rewrite length_map, !(proj2 (Nat.eqb_neq (length (conjuncts _)) _)) by lia. change (chr "&" =? chr "|") with false. cbv iota.
  rewrite (resolve_conjuncts r v). { by destruct (value v (FAnd f g)). }
  apply Forall_forall. intros h Hh. pose proof (proj2 (names_ok_all _ H)) as Hn. rewrite Forall_forall in Hn. apply Hr; [by apply Hn|].
  rewrite (print_conjuncts (FAnd f g)). apply length_join; [by apply list_elem_of_fmap_2|by rewrite length_map].
Qed.

(** Expressions without an operator outside parentheses. *)
Lemma resolveRec_one f : names_ok f = true →
  (∀ h p, names_ok h = true → (length (print p h) < length (print 2 f))%nat → r (print p h) = value v h) →
  resolveRec r (print 2 f) v = value v f.
Proof.
  intros H Hr. unfold resolveRec. rewrite bool_decide_eq_false_2 by (by apply print_nonempty).
  rewrite (parse_one (chr "|")) by (done || (left; split; [done|lia])). cbn [mbind option_bind length Nat.eqb].
  rewrite (parse_one (chr "&")) by (done || (right; split; [done|lia])). cbn [mbind option_bind length Nat.eqb].
  assert (Hg : ∀ g, names_ok g = true → print 2 f = str "(" ++ print 0 g ++ str ")" →
    r (substr 1 (length (print 2 f) - 2) (print 2 f)) = value v g).
  { intros g Hg E. rewrite <- (Hr g 0%nat Hg) by (rewrite E, !length_app; cbn; lia). f_equal. rewrite E. apply (substr_inner (chr "(") (print 0 g) (chr ")")). }
  destruct f as [| |x|f|f g|f g].
  - done.
  - done.
  - destruct (name_ok_spec x H) as (Hx & Hn & H0 & H1). cbn [print value]. destruct x as [|c x]; [done|]. cbn [hd forallb] in *.
    apply andb_true_iff in Hn as [Hc _]. destruct (belongs_char c Hc) as (Hc1 & _ & _).
    rewrite (proj2 (Z.eqb_neq c (chr "("))) by done. rewrite (proj2 (Z.eqb_neq c (chr "!"))) by (intros ->; by vm_compute in Hc).
    unfold text_eqb. by rewrite !bool_decide_eq_false_2 by done.
  - cbn [print names_ok value] in *. change (hd 0 (str "!" ++ print 2 f) =? chr "!") with true. cbv iota.
    rewrite <- (Hr f 2%nat H) by (cbn; lia). f_equal. unfold substr. cbn. f_equal. apply take_ge. lia.
  - apply (Hg (FAnd f g) H). done.
  - apply (Hg (FOr f g) H). done.
Qed.
End Resolve.

Lemma resolve_print v n : ∀ f p, names_ok f = true → (length (print p f) < n)%nat → resolve_fuel n v (print p f) = value v f.
Proof.
  induction n as [|n IH]; intros f p H Hn; [lia|]. cbn [resolve_fuel]. rewrite (removeWhitespaces_id _ (print_spaces f H p)).
  assert (Hr : ∀ h q, names_ok h = true → (length (print q h) < length (print p f))%nat → resolve_fuel n v (print q h) = value v h)
    by (intros h q Hh Hl; apply IH; [done|lia]).
  assert (print p f = print 2 f ∨ (∃ g h, f = FOr g h ∧ p = 0%nat) ∨ ∃ g h, f = FAnd g h ∧ print p f = print 1 f) as [E|[(g & h & -> & ->)|(g & h & -> & E)]].
  { destruct f as [| |x|f|f g|f g]; try by left.
    - destruct p as [|[|p]]; [right; right; by eexists _, _|right; right; by eexists _, _|left; done].
    - destruct p as [|p]; [right; left; by eexists _, _|left; done]. }
  - rewrite E in *. by apply resolveRec_one.
  - by apply resolveRec_or.
  - rewrite E in *. by apply resolveRec_and.
Qed.

(** * Termination *)

Lemma length_substr pos len s : (length (substr pos len s) ≤ len)%nat ∧ (length (substr pos len s) ≤ length s - pos)%nat.
Proof. unfold substr. rewrite length_take, length_drop. lia. Qed.

(** Subexpressions of a formula that was split are shorter. *)
Lemma loop_shorter F op rest : ∀ i start d acc l, singleParse_loop F op rest i start d acc = Some l →
  i + Z.of_nat (length rest) = Z.of_nat (length F) → 0 ≤ i → -1 ≤ start ≤ i → acc = [] ∨ 1 ≤ start →
  Forall (λ s, (length s < length F)%nat) acc → Forall (λ s, (length s < length F)%nat) l ∨ (length l ≤ 1)%nat.
Proof.
  induction rest as [|c rest IH]; intros i start d acc l; cbn [singleParse_loop length]; intros E Hi Hi0 Hs Ha Hf.
  - destruct (d =? 0); [|done]. injection E as <-. destruct (Z.eqb_spec start (-1)) as [->|Hne]; [by left|].
    destruct Ha as [->|Ha]; [right; cbn; lia|]. left. apply Forall_app. split; [done|]. apply Forall_singleton.
    destruct (length_substr (Z.to_nat start) (length F - Z.to_nat start) F). lia.
  - destruct (Z.eqb_spec start (-1)) as [Es|Es];
      repeat match type of E with context [if ?b then _ else _] => destruct b end; try done;
      (eapply IH; [exact E| | | | |]); try done; try lia; try (destruct Ha as [->|?]; [by left|lia]); try (right; lia).
    + apply Forall_app. split; [done|]. apply Forall_singleton.
      destruct (length_substr (Z.to_nat start) (Z.to_nat (i - start)) F). lia.
Qed.

Lemma singleParse_shorter F op l : singleParse F op = Some l → Forall (λ s, (length s < length F)%nat) l ∨ (length l ≤ 1)%nat.
Proof. intros E. eapply loop_shorter; [exact E|..]; try done; try lia; by left. Qed.

Lemma resolve_all_ext r r' op l : Forall (λ s, r s = r' s) l → ∀ b, resolve_all r op b l = resolve_all r' op b l.
Proof.
  unfold resolve_all. induction 1 as [|s l Hs Hl IH]; intros b; [done|]. cbn [foldl mbind option_bind]. rewrite Hs.
  destruct (r' s); [apply IH|]. clear. by induction l.
Qed.

Lemma resolveRec_ext r r' s v : (∀ t, (length t < length s)%nat → r t = r' t) → resolveRec r s v = resolveRec r' s v.
Proof.
  intros Hr. unfold resolveRec. case_bool_decide as Hs; [done|]. assert (0 < length s)%nat by (destruct s; [done|cbn; lia]).
  assert (Hall : ∀ op f b l, singleParse s op = Some l → (length l =? 0)%nat = false → (length l =? 1)%nat = false → resolve_all r f b l = resolve_all r' f b l).
  { intros op f b l E H0 H1. apply Nat.eqb_neq in H0, H1. apply resolve_all_ext. destruct (singleParse_shorter s op l E) as [Hf|]; [|lia].
    eapply Forall_impl; [exact Hf|]. intros t Ht. by apply Hr. }
  destruct (singleParse s (chr "|")) as [l|] eqn:E; [|done]. cbn [mbind option_bind]. destruct (length l =? 1)%nat eqn:E1.
  - destruct (singleParse s (chr "&")) as [l'|] eqn:E'; [|done]. cbn [mbind option_bind]. destruct (length l' =? 0)%nat eqn:E0; [done|].
    destruct (length l' =? 1)%nat eqn:E1'; [|by rewrite !(Hall (chr "&"))].
    rewrite !Hr; [done|..]; match goal with |- context [substr ?a ?b s] => destruct (length_substr a b s) end; lia.
  - cbn [mbind option_bind]. destruct (length l =? 0)%nat eqn:E0; [done|]. rewrite E1. by rewrite !(Hall (chr "|")).
Qed.

(** The fuel is enough. *)
Lemma resolve_enough v n : ∀ m s, (length s < n)%nat → (length s < m)%nat → resolve_fuel n v s = resolve_fuel m v s.
Proof.
  induction n as [|n IH]; intros [|m] s Hn Hm; try lia. cbn [resolve_fuel]. apply resolveRec_ext. intros t Ht.
  pose proof (length_removeWhitespaces s). apply IH; lia.
Qed.

Lemma removeWhitespaces_twice s : removeWhitespaces (removeWhitespaces s) = removeWhitespaces s.
Proof. apply removeWhitespaces_id, removeWhitespaces_spaces. Qed.

(** Whitespace does not matter. *)
Lemma resolve_whitespace s v : resolve s v = resolve (removeWhitespaces s) v.
Proof.
  unfold resolve. cbn [resolve_fuel]. rewrite removeWhitespaces_twice. apply resolveRec_ext. intros t Ht.
  pose proof (length_removeWhitespaces s). apply resolve_enough; lia.
Qed.

Lemma resolve_spec f s v : names_ok f = true → removeWhitespaces s = print 0 f → resolve s v = value v f.
Proof. intros H E. rewrite resolve_whitespace, E. apply resolve_print; [done|lia]. Qed.

(** * Properties *)

(** C10: the evaluator of verifier strings computes propositional logic. Of any expression that is a formula written
    with its operators, the usual precedences, parentheses where they are needed and whitespace anywhere, [resolve]
    returns the value of the formula under the valuation, or throws exactly when a variable of the formula has no
    value; it always ends, and more fuel does not change a result, of any string. *)
Theorem resolve_correct f s v : names_ok f = true → removeWhitespaces s = print 0 f →
  resolve s v = value v f ∧ ∀ n t, (length t < n)%nat → resolve_fuel n v t = resolve t v.
Proof. intros H E. split; [by apply resolve_spec|]. intros n t Hn. apply resolve_enough; [done|lia]. Qed.

(** [!(KYC | VIP) & ACC] *)
Lemma resolve_correct_witness :
  let v : Vals := <[str "KYC" := false]> (<[str "VIP" := false]> {[str "ACC" := true]}) in
  resolve (str "!(KYC | VIP) & ACC") v = Some true.
Proof.
  intros v. destruct (resolve_correct (FAnd (FNot (FOr (FVar (str "KYC")) (FVar (str "VIP")))) (FVar (str "ACC"))) (str "!(KYC | VIP) & ACC") v) as [E _].
  - vm_compute. reflexivity.
  - vm_compute. reflexivity.
  - rewrite E. vm_compute. reflexivity.
Defined.
