(* ===== verification/AssetNames.v ===== *)
(** The names of assets (assets/assets.cpp, assets/assettypes.h): the regular expressions, the checks
    by type, the classification of a name and its parent, against a grammar of names. *)
From stdpp Require Import base list option.
From Stdlib Require Import ZArith Lia.
From Stdlib Require String.
From S2P Require Import Prelude Serialize Text.
Import String.StringSyntax.
Open Scope Z_scope.

Inductive AssetType :=
  | ROOT | SUB | UNIQUE | MSGCHANNEL | QUALIFIER | SUB_QUALIFIER | RESTRICTED | VOTE | REISSUE | OWNER
  | NULL_ADD_QUALIFIER | INVALID.

#[export] Instance AssetType_eq_dec : EqDecision AssetType.
Proof. solve_decision. Defined.

Abbreviation MAX_NAME_LENGTH := 31%nat.
Abbreviation MAX_CHANNEL_NAME_LENGTH := 12%nat.
Abbreviation MIN_ASSET_LENGTH := 3%nat.
Abbreviation OWNER_TAG := (str "!").

(** * The expressions *)

Definition one_of_chars (s : text) (c : Z) : bool := existsb (Z.eqb c) s.

(** [[A-Z0-9._]] *)
Definition name_char (c : Z) : bool := is_upper c || is_digit c || one_of_chars (str "._") c.
(** [.] matches all but the ends of lines. *)
Definition dot (c : Z) : bool := negb (one_of_chars [10; 13] c).
Definition punctuation (c : Z) : bool := one_of_chars (str "._") c.
Definition none_of (s : text) (c : Z) : bool := negb (one_of_chars s c).
Definition char_of (s : text) : regex := Class (one_of_chars s).

Definition ROOT_NAME_CHARACTERS : regex := AtLeast 3 (Class name_char).
Definition SUB_NAME_CHARACTERS : regex := Plus (Class name_char).
Definition UNIQUE_TAG_CHARACTERS : regex := Plus (Class (λ c, isalnum c || one_of_chars (str "-@$%&*()[]{}_.?:") c)).
Definition MSGCHANNEL_TAG_CHARACTERS : regex := Plus (Class (λ c, isalnum c || one_of_chars (str "_") c)).
Definition VOTE_TAG_CHARACTERS : regex := Plus (Class name_char).

Definition QUALIFIER_NAME_CHARACTERS : regex := Cat (char_of (str "#")) (AtLeast 3 (Class name_char)).
Definition SUB_QUALIFIER_NAME_CHARACTERS : regex := Cat (char_of (str "#")) (Plus (Class name_char)).
Definition RESTRICTED_NAME_CHARACTERS : regex := Cat (char_of (str "$")) (AtLeast 3 (Class name_char)).

Definition DOUBLE_PUNCTUATION : regex := Cat (Star (Class dot)) (Cat (AtLeast 2 (Class punctuation)) (Star (Class dot))).
Definition LEADING_PUNCTUATION : regex := Cat (Class punctuation) (Star (Class dot)).
Definition TRAILING_PUNCTUATION : regex := Cat (Star (Class dot)) (Class punctuation).
Definition QUALIFIER_LEADING_PUNCTUATION : regex := Cat (char_of (str "#$")) (Cat (Class punctuation) (Star (Class dot))).

Definition UNIQUE_INDICATOR : regex :=
  Cat (Plus (Class (none_of (str "^~#!")))) (Cat (char_of (str "#")) (Plus (Class (none_of (str "~#!/"))))).
Definition MSGCHANNEL_INDICATOR : regex :=
  Cat (Plus (Class (none_of (str "^~#!")))) (Cat (char_of (str "~")) (Plus (Class (none_of (str "~#!/"))))).
Definition OWNER_INDICATOR : regex := Cat (Plus (Class (none_of (str "^~#!")))) (char_of (str "!")).
Definition VOTE_INDICATOR : regex :=
  Cat (Plus (Class (none_of (str "^~#!")))) (Cat (char_of (str "^")) (Plus (Class (none_of (str "~#!/"))))).

Definition QUALIFIER_INDICATOR : regex := Cat (char_of (str "#")) (AtLeast 3 (Class name_char)).
Definition SUB_QUALIFIER_INDICATOR : regex :=
  Cat (char_of (str "#")) (Cat (Plus (Class name_char)) (Cat (char_of (str "/")) (Cat (char_of (str "#")) (Plus (Class name_char))))).
Definition RESTRICTED_INDICATOR : regex := Cat (char_of (str "$")) (AtLeast 3 (Class name_char)).

Definition CMUSICAI_NAMES : regex :=
  foldr (λ s, Alt (Chars s)) Void
    [str "RVN"; str "RAVEN"; str "RAVENCOIN"; str "#RVN"; str "#RAVEN"; str "#RAVENCOIN"; str "cmusicai"; str "cmusicai"; str "CMS";
     str "CMUSICAICOIN"; str "#cmusicai"; str "#CMS"; str "#CMUSICAICOIN"].

(** * The checks *)

Definition IsRootNameValid (name : text) : bool :=
  regex_match name ROOT_NAME_CHARACTERS && negb (regex_match name DOUBLE_PUNCTUATION) && negb (regex_match name LEADING_PUNCTUATION) &&
  negb (regex_match name TRAILING_PUNCTUATION) && negb (regex_match name CMUSICAI_NAMES).
Definition IsQualifierNameValid (name : text) : bool :=
  regex_match name QUALIFIER_NAME_CHARACTERS && negb (regex_match name DOUBLE_PUNCTUATION) &&
  negb (regex_match name QUALIFIER_LEADING_PUNCTUATION) && negb (regex_match name TRAILING_PUNCTUATION) && negb (regex_match name CMUSICAI_NAMES).
Definition IsRestrictedNameValid (name : text) : bool :=
  regex_match name RESTRICTED_NAME_CHARACTERS && negb (regex_match name DOUBLE_PUNCTUATION) && negb (regex_match name LEADING_PUNCTUATION) &&
  negb (regex_match name TRAILING_PUNCTUATION) && negb (regex_match name CMUSICAI_NAMES).
Definition IsSubQualifierNameValid (name : text) : bool :=
  regex_match name SUB_QUALIFIER_NAME_CHARACTERS && negb (regex_match name DOUBLE_PUNCTUATION) && negb (regex_match name LEADING_PUNCTUATION) &&
  negb (regex_match name TRAILING_PUNCTUATION).
Definition IsSubNameValid (name : text) : bool :=
  regex_match name SUB_NAME_CHARACTERS && negb (regex_match name DOUBLE_PUNCTUATION) && negb (regex_match name LEADING_PUNCTUATION) &&
  negb (regex_match name TRAILING_PUNCTUATION).
Definition IsUniqueTagValid (tag : text) : bool := regex_match tag UNIQUE_TAG_CHARACTERS.
Definition IsVoteTagValid (tag : text) : bool := regex_match tag VOTE_TAG_CHARACTERS.
Definition IsMsgChannelTagValid (tag : text) : bool :=
  regex_match tag MSGCHANNEL_TAG_CHARACTERS && negb (regex_match tag DOUBLE_PUNCTUATION) && negb (regex_match tag LEADING_PUNCTUATION) &&
  negb (regex_match tag TRAILING_PUNCTUATION).

(** [parts.front()] and [parts.back()] *)
Definition front (parts : list text) : text := hd [] parts.
Definition back (parts : list text) : text := List.last parts [].

Definition IsNameValidBeforeTag (name : text) : bool :=
  let parts := split (chr "/") name in IsRootNameValid (front parts) && forallb IsSubNameValid (tail parts).
Definition IsQualifierNameValidBeforeTag (name : text) : bool :=
  let parts := split (chr "/") name in
  IsQualifierNameValid (front parts) && negb (2 <? length parts)%nat && forallb IsSubQualifierNameValid (tail parts).
Definition IsAssetNameASubasset (name : text) : bool :=
  let parts := split (chr "/") name in IsRootNameValid (front parts) && (1 <? length parts)%nat.
Definition IsAssetNameASubQualifier (name : text) : bool :=
  let parts := split (chr "/") name in IsQualifierNameValid (front parts) && (1 <? length parts)%nat.

(** The returned boolean, as an error: [None] is [true]. *)
Definition IsTypeCheckNameValid (type : AssetType) (name : text) : option text :=
  let too_long := str "Name is greater than max length of 31" in
  match type with
  | UNIQUE =>
      if (MAX_NAME_LENGTH <? length name)%nat then Some too_long
      else
        let parts := split (chr "#") name in
        if IsNameValidBeforeTag (front parts) && IsUniqueTagValid (back parts) then None
        else Some (str "Unique name contains invalid characters (Valid characters are: A-Z a-z 0-9 @ $ % & * ( ) [ ] { } _ . ? : -)")
  | MSGCHANNEL =>
      if (MAX_NAME_LENGTH <? length name)%nat then Some too_long
      else
        let parts := split (chr "~") name in
        let valid := IsNameValidBeforeTag (front parts) && IsMsgChannelTagValid (back parts) in
        if (MAX_CHANNEL_NAME_LENGTH <? length (back parts))%nat then Some (str "Channel name is greater than max length of 12")
        else if negb valid then Some (str "Message Channel name contains invalid characters (Valid characters are: A-Z 0-9 _ .) (special characters can't be the first or last characters)")
        else None
  | OWNER =>
      if (MAX_NAME_LENGTH <? length name)%nat then Some too_long
      else if IsNameValidBeforeTag (take (length name - 1) name) then None
      else Some (str "Owner name contains invalid characters (Valid characters are: A-Z 0-9 _ .) (special characters can't be the first or last characters)")
  | VOTE =>
      if (MAX_NAME_LENGTH <? length name)%nat then Some too_long
      else
        let parts := split (chr "^") name in
        if IsNameValidBeforeTag (front parts) && IsVoteTagValid (back parts) then None
        else Some (str "Vote name contains invalid characters (Valid characters are: A-Z 0-9 _ .) (special characters can't be the first or last characters)")
  | QUALIFIER | SUB_QUALIFIER =>
      if (MAX_NAME_LENGTH <? length name)%nat then Some too_long
      else if IsQualifierNameValidBeforeTag name then None
      else Some (str "Qualifier name contains invalid characters (Valid characters are: A-Z 0-9 _ .) (# must be the first character, _ . special characters can't be the first or last characters)")
  | RESTRICTED =>
      if (MAX_NAME_LENGTH <? length name)%nat then Some too_long
      else if IsRestrictedNameValid name then None
      else Some (str "Restricted name contains invalid characters (Valid characters are: A-Z 0-9 _ .) ($ must be the first character, _ . special characters can't be the first or last characters)")
  | _ =>
      if (MAX_NAME_LENGTH - 1 <? length name)%nat then Some (str "Name is greater than max length of 30")
      else if negb (IsAssetNameASubasset name) && (length name <? MIN_ASSET_LENGTH)%nat then Some (str "Name must be contain 3 characters")
      else
        let valid := IsNameValidBeforeTag name in
        if negb valid && IsAssetNameASubasset name && (length name <? 3)%nat then
          Some (str "Name must have at least 3 characters (Valid characters are: A-Z 0-9 _ .)")
        else if negb valid then
          Some (str "Name contains invalid characters (Valid characters are: A-Z 0-9 _ .) (special characters can't be the first or last characters)")
        else None
  end.

Definition is_none {A} (x : option A) : bool := match x with None => true | Some _ => false end.

(** The result, and the type that is assigned; [None] leaves the variable of the caller as it is. *)
Definition IsAssetNameValid (name : text) : bool * option AssetType :=
  let check type := let ret := is_none (IsTypeCheckNameValid type name) in (ret, Some (if ret then type else INVALID)) in
  if (40 <? length name)%nat then (false, None)
  else if regex_match name UNIQUE_INDICATOR then check UNIQUE
  else if regex_match name MSGCHANNEL_INDICATOR then check MSGCHANNEL
  else if regex_match name OWNER_INDICATOR then check OWNER
  else if regex_match name VOTE_INDICATOR then check VOTE
  else if regex_match name QUALIFIER_INDICATOR then
    let ret := is_none (IsTypeCheckNameValid QUALIFIER name) in
    (ret, Some (if ret then if IsAssetNameASubQualifier name then SUB_QUALIFIER else QUALIFIER else INVALID))
  else if regex_match name SUB_QUALIFIER_INDICATOR then
    let ret := is_none (IsTypeCheckNameValid SUB_QUALIFIER name) in
    (ret, Some (if ret then if IsAssetNameASubQualifier name then SUB_QUALIFIER else INVALID else INVALID))
  else if regex_match name RESTRICTED_INDICATOR then check RESTRICTED
  else check (if IsAssetNameASubasset name then SUB else ROOT).

Definition asset_name_valid (name : text) : bool := (IsAssetNameValid name).1.
Definition asset_type_is (type : AssetType) (name : text) : bool := bool_decide (IsAssetNameValid name = (true, Some type)).

Definition IsAssetNameARoot (name : text) : bool := asset_type_is ROOT name.
Definition IsAssetNameAnOwner (name : text) : bool := asset_name_valid name && regex_match name OWNER_INDICATOR.
Definition IsAssetNameAnRestricted (name : text) : bool := asset_name_valid name && regex_match name RESTRICTED_INDICATOR.
Definition IsAssetNameAQualifier (name : text) (fOnlyQualifiers : bool) : bool :=
  if fOnlyQualifiers then asset_name_valid name && regex_match name QUALIFIER_INDICATOR
  else asset_name_valid name && (regex_match name QUALIFIER_INDICATOR || regex_match name SUB_QUALIFIER_INDICATOR).
Definition IsAssetNameAnMsgChannel (name : text) : bool := asset_name_valid name && regex_match name MSGCHANNEL_INDICATOR.

Definition RestrictedNameToOwnerName (name : text) : text :=
  if negb (IsAssetNameAnRestricted name) then [] else drop 1 name ++ OWNER_TAG.

Definition GetParentName (name : text) : text :=
  let before d := match find_last d name with Some i => take i name | None => name end in
  match IsAssetNameValid name with
  | (false, _) => []
  | (true, Some SUB) => before (chr "/")
  | (true, Some UNIQUE) => before (chr "#")
  | (true, Some MSGCHANNEL) => before (chr "~")
  | (true, Some VOTE) => before (chr "^")
  | (true, Some SUB_QUALIFIER) => before (chr "/")
  | (true, _) => name
  end.

Definition GetUniqueAssetName (parent tag : text) : text :=
  let unique := parent ++ str "#" ++ tag in if asset_type_is UNIQUE unique then unique else [].

(** * The grammar of names *)

Fixpoint no_double (s : text) : bool :=
  match s with a :: (b :: _) as t => negb (punctuation a && punctuation b) && no_double t | _ => true end.
Definition begins (s : text) : bool := match s with c :: _ => punctuation c | [] => false end.
Fixpoint ends (s : text) : bool := match s with [c] => punctuation c | _ :: s' => ends s' | [] => false end.

(** A word of at least [n] characters: no two signs in a row, none at the ends. *)
Definition word (n : nat) (s : text) : bool :=
  (n <=? length s)%nat && forallb name_char s && no_double s && negb (begins s) && negb (ends s).

Definition reserved (s : text) : bool :=
  existsb (text_eqb s)
    [str "RVN"; str "RAVEN"; str "RAVENCOIN"; str "#RVN"; str "#RAVEN"; str "#RAVENCOIN"; str "cmusicai"; str "cmusicai"; str "CMS";
     str "CMUSICAICOIN"; str "#cmusicai"; str "#CMS"; str "#CMUSICAICOIN"].

Inductive path : text → Prop :=
  | path_root s : word 3 s = true → reserved s = false → path s
  | path_sub p s : path p → word 1 s = true → path (p ++ str "/" ++ s).

Definition unique_char (c : Z) : bool := isalnum c || one_of_chars (str "-@$%&*()[]{}_.?:") c.
Definition channel_char (c : Z) : bool := isalnum c || one_of_chars (str "_") c.

Inductive asset_name : AssetType → text → Prop :=
  | name_root s : word 3 s = true → reserved s = false → (length s ≤ 30)%nat → asset_name ROOT s
  | name_sub p s : path p → word 1 s = true → (length (p ++ str "/" ++ s) ≤ 30)%nat → asset_name SUB (p ++ str "/" ++ s)
  | name_owner p : path p → (length p ≤ 30)%nat → asset_name OWNER (p ++ str "!")
  | name_unique p t : path p → t ≠ [] → forallb unique_char t = true → (length (p ++ str "#" ++ t) ≤ 31)%nat →
      asset_name UNIQUE (p ++ str "#" ++ t)
  | name_channel p t : path p → t ≠ [] → forallb channel_char t = true → no_double t = true → begins t = false → ends t = false →
      (length t ≤ 12)%nat → (length (p ++ str "~" ++ t) ≤ 31)%nat → asset_name MSGCHANNEL (p ++ str "~" ++ t)
  | name_vote p m t : path p → (m = [] ∨ ∃ m', m = m' ++ str "^" ∧ forallb (none_of (str "~#!/")) m' = true) →
      t ≠ [] → forallb name_char t = true → (length (p ++ str "^" ++ m ++ t) ≤ 31)%nat → asset_name VOTE (p ++ str "^" ++ m ++ t)
  | name_qualifier s : word 3 s = true → reserved (str "#" ++ s) = false → (length s ≤ 30)%nat → asset_name QUALIFIER (str "#" ++ s)
  | name_sub_qualifier s t : word 3 s = true → reserved (str "#" ++ s) = false → t ≠ [] → forallb name_char t = true →
      no_double t = true → ends t = false → (length (str "#" ++ s ++ str "/#" ++ t) ≤ 31)%nat →
      asset_name SUB_QUALIFIER (str "#" ++ s ++ str "/#" ++ t)
  | name_restricted s : (3 ≤ length s)%nat → forallb name_char s = true → no_double s = true → ends s = false → (length s ≤ 30)%nat →
      asset_name RESTRICTED (str "$" ++ s).

(** * Characters *)

Ltac class := unfold name_char, dot, punctuation, none_of, unique_char, channel_char, isalnum, one_of_chars, is_upper, is_lower, is_digit,
  in_range in *; chars; cbn [existsb] in *; lia.

Lemma name_char_dot c : name_char c = true → dot c = true.
Proof. intros H. class. Qed.

Lemma channel_char_dot c : channel_char c = true → dot c = true.
Proof. intros H. class. Qed.

Lemma forallb_impl {A} (p q : A → bool) s : (∀ c, p c = true → q c = true) → forallb p s = true → forallb q s = true.
Proof. intros H Hs. rewrite forallb_forall in *. auto. Qed.

Lemma forallb_ne (p : Z → bool) d s : p d = false → forallb p s = true → Forall (λ c, c ≠ d) s.
Proof.
  intros Hd. induction s as [|c s IH]; cbn [forallb]; [done|]. intros [Hc Hs]%andb_true_iff. constructor; [|by apply IH].
  intros ->. congruence.
Qed.

Lemma ends_app s c t : ends (s ++ c :: t) = ends (c :: t).
Proof. induction s as [|a s IH]; [done|]. cbn [app]. rewrite <- IH. cbn [ends]. destruct (s ++ c :: t) eqn:E; [|done]. by destruct s. Qed.

(** * Punctuation *)

Lemma no_double_spec s : no_double s = false ↔ ∃ u a b v, s = u ++ a :: b :: v ∧ punctuation a = true ∧ punctuation b = true.
Proof.
  split.
  - induction s as [|a s IH]; [done|]. destruct s as [|b s]; [done|]. cbn [no_double].
    intros [H%negb_false_iff|H]%andb_false_iff.
    + apply andb_true_iff in H as [? ?]. by exists [], a, b, s.
    + destruct (IH H) as (u & x & y & v & -> & ? & ?). by exists (a :: u), x, y, v.
  - intros (u & a & b & v & -> & Ha & Hb). induction u as [|c u IH]; cbn [app no_double]; [by rewrite Ha, Hb|].
    destruct (u ++ a :: b :: v) eqn:E; [by destruct u|]. rewrite IH. apply andb_false_r.
Qed.

Lemma double_punctuation s : forallb dot s = true → regex_match s DOUBLE_PUNCTUATION = negb (no_double s).
Proof.
  intros Hs. apply regex_match_ext. rewrite negb_true_iff, no_double_spec. unfold DOUBLE_PUNCTUATION. split.
  - intros (u & v & -> & _ & (w & t & -> & Hw & _)%lang_cat_inv)%lang_cat_inv.
    rewrite <- regex_match_spec, regex_atleast in Hw. destruct w as [|a [|b w]]; try done. cbn in Hw.
    apply andb_true_iff in Hw as [? [? ?]%andb_true_iff]. by exists u, a, b, (w ++ t).
  - intros (u & a & b & v & -> & Ha & Hb). rewrite forallb_app in Hs. cbn [forallb] in Hs.
    apply andb_true_iff in Hs as [Hu [_ [_ Hv]%andb_true_iff]%andb_true_iff].
    apply lang_cat; [by apply regex_match_spec; rewrite regex_star|]. apply (lang_cat _ _ [a; b] v); [|by apply regex_match_spec; rewrite regex_star].
    apply regex_match_spec. rewrite regex_atleast. cbn [length forallb Nat.leb]. by rewrite Ha, Hb.
Qed.

Lemma leading_punctuation s : forallb dot s = true → regex_match s LEADING_PUNCTUATION = begins s.
Proof.
  intros Hs. destruct s as [|c s]; [done|]. unfold LEADING_PUNCTUATION. rewrite regex_class_cat, regex_star. cbn [forallb begins] in *.
  apply andb_true_iff in Hs as [_ ->]. apply andb_true_r.
Qed.

Lemma trailing_punctuation s : forallb dot s = true → regex_match s TRAILING_PUNCTUATION = ends s.
Proof.
  intros Hs. apply regex_match_ext. unfold TRAILING_PUNCTUATION. split.
  - intros (u & v & -> & _ & (c & -> & Hc)%lang_class_inv)%lang_cat_inv. by rewrite ends_app.
  - destruct s as [|c s _] using rev_ind; [done|]. rewrite ends_app. intros Hc. apply lang_cat; [|by constructor].
    apply regex_match_spec. rewrite regex_star. rewrite forallb_app in Hs. by apply andb_true_iff in Hs as [? _].
Qed.

Lemma cmusicai_names s : regex_match s CMUSICAI_NAMES = reserved s.
Proof. apply regex_strings. Qed.

(** The tail of three tests that most checks share. *)
Lemma punctuation_tests s :
  forallb dot s = true →
  negb (regex_match s DOUBLE_PUNCTUATION) && negb (regex_match s LEADING_PUNCTUATION) && negb (regex_match s TRAILING_PUNCTUATION) =
  no_double s && negb (begins s) && negb (ends s).
Proof. intros H. by rewrite double_punctuation, leading_punctuation, trailing_punctuation, negb_involutive. Qed.

Lemma andb_ext (a b c : bool) : (a = true → b = c) → a && b = a && c.
Proof. destruct a; intros H; [by apply H|done]. Qed.

(** * What the checks accept *)

Lemma IsSubNameValid_word s : IsSubNameValid s = word 1 s.
Proof.
  unfold IsSubNameValid, word. rewrite <- !andb_assoc. unfold SUB_NAME_CHARACTERS. rewrite regex_plus, <- !andb_assoc.
  apply andb_ext; intros _. apply andb_ext; intros H. rewrite !andb_assoc. apply punctuation_tests.
  by apply (forallb_impl _ _ _ name_char_dot).
Qed.

Lemma IsRootNameValid_word s : IsRootNameValid s = word 3 s && negb (reserved s).
Proof.
  unfold IsRootNameValid, word. rewrite cmusicai_names. f_equal. unfold ROOT_NAME_CHARACTERS. rewrite regex_atleast, <- !andb_assoc.
  apply andb_ext; intros _. apply andb_ext; intros H. rewrite !andb_assoc. apply punctuation_tests.
  by apply (forallb_impl _ _ _ name_char_dot).
Qed.

Lemma IsMsgChannelTagValid_tag t :
  IsMsgChannelTagValid t = (1 <=? length t)%nat && forallb channel_char t && no_double t && negb (begins t) && negb (ends t).
Proof.
  unfold IsMsgChannelTagValid, MSGCHANNEL_TAG_CHARACTERS. rewrite regex_plus, <- !andb_assoc.
  apply andb_ext; intros _. apply andb_ext; intros H. rewrite !andb_assoc. apply punctuation_tests.
  by apply (forallb_impl _ _ _ channel_char_dot).
Qed.

(** A mark in front of a word does not count as punctuation. *)
Lemma marked_tests m s :
  punctuation m = false → no_double (m :: s) = no_double s ∧ begins (m :: s) = false ∧ (s ≠ [] → ends (m :: s) = ends s).
Proof. intros H. destruct s as [|c s]; cbn [no_double begins ends]; rewrite ?H; done. Qed.

Lemma IsQualifierNameValid_word c s :
  IsQualifierNameValid (c :: s) = (c =? chr "#") && word 3 s && negb (reserved (c :: s)).
Proof.
  unfold IsQualifierNameValid, QUALIFIER_NAME_CHARACTERS, char_of, word. rewrite cmusicai_names. f_equal.
  rewrite regex_class_cat, regex_atleast, <- !andb_assoc. replace (one_of_chars (str "#") c) with (c =? chr "#") by class.
  apply andb_ext; intros ->%Z.eqb_eq. apply andb_ext; intros Hn. apply andb_ext; intros H%(forallb_impl _ _ _ name_char_dot).
  assert (Hd : forallb dot (chr "#" :: s) = true) by (cbn [forallb]; by rewrite H).
  destruct (marked_tests (chr "#") s eq_refl) as (E1 & _ & E2). unfold QUALIFIER_LEADING_PUNCTUATION, char_of.
  rewrite double_punctuation, trailing_punctuation, negb_involutive, E1, E2 by (done || by destruct s).
  rewrite regex_class_cat. fold LEADING_PUNCTUATION. rewrite leading_punctuation by done. done.
Qed.

(** The tests of sub qualifiers and of restricted assets do not look behind the mark. *)
Definition marked_word (n : nat) (s : text) : bool := (n <=? length s)%nat && forallb name_char s && no_double s && negb (ends s).

Lemma marked_checks (m : Z) n s c :
  punctuation m = false → dot m = true → (1 ≤ n)%nat →
  (c =? m) && ((n <=? length s)%nat && forallb name_char s) && negb (regex_match (c :: s) DOUBLE_PUNCTUATION) &&
  negb (regex_match (c :: s) LEADING_PUNCTUATION) && negb (regex_match (c :: s) TRAILING_PUNCTUATION) = (c =? m) && marked_word n s.
Proof.
  intros Hm Hd Hn1. unfold marked_word. rewrite <- !andb_assoc. apply andb_ext; intros ->%Z.eqb_eq.
  apply andb_ext; intros Hn%Nat.leb_le. apply andb_ext; intros H%(forallb_impl _ _ _ name_char_dot).
  assert (Hs : forallb dot (m :: s) = true) by (cbn [forallb]; by rewrite Hd). rewrite !andb_assoc, punctuation_tests by done.
  destruct (marked_tests m s Hm) as (-> & -> & E). rewrite E by (intros ->; cbn in Hn; lia). cbn [negb]. by rewrite andb_true_r.
Qed.

Lemma IsSubQualifierNameValid_word c s : IsSubQualifierNameValid (c :: s) = (c =? chr "#") && marked_word 1 s.
Proof.
  unfold IsSubQualifierNameValid, SUB_QUALIFIER_NAME_CHARACTERS, char_of. rewrite regex_class_cat, regex_plus.
  replace (one_of_chars (str "#") c) with (c =? chr "#") by class. by apply marked_checks.
Qed.

Lemma IsRestrictedNameValid_word c s : IsRestrictedNameValid (c :: s) = (c =? chr "$") && marked_word 3 s && negb (reserved (c :: s)).
Proof.
  unfold IsRestrictedNameValid, RESTRICTED_NAME_CHARACTERS, char_of. rewrite cmusicai_names, regex_class_cat, regex_atleast. f_equal.
  replace (one_of_chars (str "$") c) with (c =? chr "$") by class. apply marked_checks; [done|done|lia].
Qed.

(** * Paths *)

Definition path_char (c : Z) : bool := name_char c || (c =? chr "/").

Lemma word_chars n s : word n s = true → (n ≤ length s)%nat ∧ forallb name_char s = true.
Proof. unfold word. rewrite !andb_true_iff, Nat.leb_le. tauto. Qed.

Lemma path_chars p : path p → forallb path_char p = true ∧ p ≠ [].
Proof.
  assert (Hi : ∀ s, forallb name_char s = true → forallb path_char s = true)
    by (intros s; apply forallb_impl; intros c H; unfold path_char; by rewrite H).
  induction 1 as [s [Hl Hc]%word_chars _|p s Hp [IH Hne] [Hl Hc]%word_chars].
  - split; [by apply Hi|]. intros ->. cbn in Hl. lia.
  - rewrite !forallb_app, IH, (Hi _ Hc). split; [done|]. by destruct p.
Qed.

Lemma name_split s : forallb name_char s = true → split (chr "/") s = [s].
Proof. intros H. apply split_none. by apply (forallb_ne name_char). Qed.

Lemma split_sub p s : forallb name_char s = true → split (chr "/") (p ++ str "/" ++ s) = split (chr "/") p ++ [s].
Proof. intros H. change (str "/" ++ s) with (chr "/" :: s). by rewrite split_middle, (name_split s). Qed.

(** The check in front of a tag accepts the paths. *)
Lemma IsNameValidBeforeTag_path p : IsNameValidBeforeTag p = true ↔ path p.
Proof.
  unfold IsNameValidBeforeTag. split.
  - pose proof (split_nonempty (chr "/") p) as Hne. rewrite <- (join_split (chr "/") p) at 3.
    destruct (split (chr "/") p) as [|r ps]; [done|]. cbn [front hd tail]. rewrite IsRootNameValid_word.
    intros [[Hr Hn%negb_true_iff]%andb_true_iff Hps]%andb_true_iff. induction ps as [|s ps IH] using rev_ind; [by apply path_root|].
    rewrite forallb_app in Hps. apply andb_true_iff in Hps as [Hps Hs]. cbn in Hs. rewrite andb_true_r, IsSubNameValid_word in Hs.
    change (r :: ps ++ [s]) with ((r :: ps) ++ [s]). rewrite join_snoc by done. apply (path_sub _ s); [by apply IH|done].
  - induction 1 as [s Hs Hn|p s Hp IH Hs]; cbv zeta.
    + destruct (word_chars _ _ Hs) as [_ Hc]. rewrite name_split by done. cbn [front hd tail forallb].
      by rewrite IsRootNameValid_word, Hs, Hn.
    + destruct (word_chars _ _ Hs) as [_ Hc]. rewrite split_sub by done. pose proof (split_nonempty (chr "/") p).
      destruct (split (chr "/") p) as [|r ps]; [done|]. cbn [front hd tail app] in *. rewrite forallb_app. apply andb_true_iff in IH as [-> ->].
      cbn [forallb]. by rewrite IsSubNameValid_word, Hs.
Qed.

(** A sub asset is a path with more than one part. *)
Lemma subasset_path p : path p → if IsAssetNameASubasset p then ∃ q s, p = q ++ str "/" ++ s ∧ path q ∧ word 1 s = true
                                 else word 3 p = true ∧ reserved p = false.
Proof.
  intros Hp. pose proof Hp as Hv. apply IsNameValidBeforeTag_path in Hv. unfold IsNameValidBeforeTag, IsAssetNameASubasset in *.
  apply andb_true_iff in Hv as [-> _]. destruct Hp as [s Hs Hn|q s Hq Hs].
  - destruct (word_chars _ _ Hs) as [_ Hc]. by rewrite name_split.
  - destruct (word_chars _ _ Hs) as [_ Hc]. rewrite split_sub, length_app by done. pose proof (split_nonempty (chr "/") q).
    destruct (split (chr "/") q) as [|r ps]; [done|]. cbn [length andb]. rewrite (proj2 (Nat.ltb_lt _ _)) by lia. eauto.
Qed.

Lemma subasset_sub q s : path q → word 1 s = true → IsAssetNameASubasset (q ++ str "/" ++ s) = true.
Proof.
  intros Hq Hs. pose proof (proj2 (IsNameValidBeforeTag_path _) (path_sub _ _ Hq Hs)) as Hv. unfold IsNameValidBeforeTag, IsAssetNameASubasset in *.
  apply andb_true_iff in Hv as [-> _]. destruct (word_chars _ _ Hs) as [_ Hc]. rewrite split_sub, length_app by done.
  pose proof (split_nonempty (chr "/") q). destruct (split (chr "/") q); [done|]. apply Nat.ltb_lt. cbn. lia.
Qed.

(** * Indicators *)

Definition lacks (d : Z) (s : text) : bool := forallb (λ c, negb (c =? d)) s.

Lemma lacks_of (p : Z → bool) d s : forallb p s = true → p d = false → lacks d s = true.
Proof. intros Hs Hd. apply (forallb_impl p); [|done]. intros c Hc. apply negb_true_iff, Z.eqb_neq. intros ->. congruence. Qed.

Lemma lacks_app d s t : lacks d (s ++ t) = lacks d s && lacks d t.
Proof. apply forallb_app. Qed.

Lemma lacks_Forall d s : lacks d s = true → Forall (λ c, c ≠ d) s.
Proof. apply forallb_ne. by rewrite Z.eqb_refl. Qed.

(** A string built of parts that lack a character. *)
Ltac lacked := match goal with H : forallb _ ?s = true |- lacks _ ?s = true => apply (lacks_of _ _ _ H); reflexivity end.
Ltac lacking := lacked || (rewrite ?lacks_app, ?andb_true_iff; split_and?; (reflexivity || lacked)).

Definition tag_indicator (l : text) : regex :=
  Cat (Plus (Class (none_of (str "^~#!")))) (Cat (char_of l) (Plus (Class (none_of (str "~#!/"))))).

Lemma one_of_single d c : one_of_chars [d] c = (c =? d).
Proof. apply orb_false_r. Qed.

Lemma tag_indicator_spec d s :
  regex_match s (tag_indicator [d]) = true ↔
  ∃ a b, s = a ++ d :: b ∧ a ≠ [] ∧ forallb (none_of (str "^~#!")) a = true ∧ b ≠ [] ∧ forallb (none_of (str "~#!/")) b = true.
Proof.
  unfold tag_indicator, char_of. rewrite regex_two_runs. split.
  - intros (a & c & b & -> & ? & ? & Hc & ? & ?). rewrite one_of_single in Hc. apply Z.eqb_eq in Hc as ->. exists a, b. done.
  - intros (a & b & -> & ? & ? & ? & ?). exists a, d, b. rewrite one_of_single, Z.eqb_refl. done.
Qed.

Lemma owner_indicator_spec s :
  regex_match s OWNER_INDICATOR = true ↔ ∃ a, s = a ++ str "!" ∧ a ≠ [] ∧ forallb (none_of (str "^~#!")) a = true.
Proof.
  unfold OWNER_INDICATOR, char_of. rewrite regex_run_char. split.
  - intros (a & c & -> & ? & ? & Hc). change (str "!") with [chr "!"] in Hc. rewrite one_of_single in Hc. apply Z.eqb_eq in Hc as ->. exists a. done.
  - intros (a & -> & ? & ?). exists a, (chr "!"). done.
Qed.

Lemma tag_indicator_lacks d s : lacks d s = true → regex_match s (tag_indicator [d]) = false.
Proof.
  intros H. apply not_true_iff_false. intros (a & b & -> & _)%tag_indicator_spec. rewrite lacks_app in H. cbn [lacks forallb] in H.
  rewrite Z.eqb_refl in H. cbn [negb andb] in H. by rewrite andb_false_r in H.
Qed.

Lemma owner_indicator_lacks s : lacks (chr "!") s = true → regex_match s OWNER_INDICATOR = false.
Proof.
  intros H. apply not_true_iff_false. intros (a & -> & _)%owner_indicator_spec. rewrite lacks_app in H. by rewrite andb_false_r in H.
Qed.

Lemma tag_indicator_head d c s : none_of (str "^~#!") c = false → regex_match (c :: s) (tag_indicator [d]) = false.
Proof.
  intros H. apply not_true_iff_false. intros (a & b & E & Ha & Hc & _)%tag_indicator_spec. destruct a; [done|].
  injection E as <- _. cbn [forallb] in Hc. by rewrite H in Hc.
Qed.

Lemma owner_indicator_head c s : none_of (str "^~#!") c = false → regex_match (c :: s) OWNER_INDICATOR = false.
Proof.
  intros H. apply not_true_iff_false. intros (a & E & Ha & Hc)%owner_indicator_spec. destruct a; [done|].
  injection E as <- _. cbn [forallb] in Hc. by rewrite H in Hc.
Qed.

Lemma mark_indicator m c n s : regex_match (c :: s) (Cat (char_of [m]) (AtLeast n (Class name_char))) = (c =? m) && ((n <=? length s)%nat && forallb name_char s).
Proof. unfold char_of. by rewrite regex_class_cat, regex_atleast, one_of_single. Qed.

Lemma sub_qualifier_indicator_spec s :
  regex_match s SUB_QUALIFIER_INDICATOR = true ↔
  ∃ a b, s = str "#" ++ a ++ str "/#" ++ b ∧ a ≠ [] ∧ forallb name_char a = true ∧ b ≠ [] ∧ forallb name_char b = true.
Proof.
  unfold SUB_QUALIFIER_INDICATOR, char_of. destruct s as [|c s]; [split; [done|by intros (? & ? & ? & _)]|].
  rewrite regex_class_cat, andb_true_iff. change (str "#") with [chr "#"]. rewrite one_of_single, Z.eqb_eq. split.
  - intros [-> (u & v & -> & Hu & (w & t & -> & (x & -> & Hx)%lang_class_inv & (w' & t' & -> & (y & -> & Hy)%lang_class_inv & Ht)%lang_cat_inv)
      %lang_cat_inv)%regex_match_spec%lang_cat_inv].
    rewrite <- regex_match_spec, regex_plus, andb_true_iff, Nat.leb_le in Hu, Ht. change (str "/") with [chr "/"] in Hx.
    rewrite one_of_single in Hx, Hy. apply Z.eqb_eq in Hx as ->. apply Z.eqb_eq in Hy as ->. exists u, t'.
    split_and!; try tauto; [intros ->|intros ->]; cbn in *; lia.
  - intros (a & b & E & Ha & Hca & Hb & Hcb). injection E as -> ->. split; [done|]. apply regex_match_spec.
    assert (Hr : ∀ x, x ≠ [] → forallb name_char x = true → lang (Plus (Class name_char)) x).
    { intros x Hx Hcx. apply regex_match_spec. rewrite regex_plus, Hcx. by destruct x. }
    apply lang_cat; [by apply Hr|]. apply (lang_cat _ _ [chr "/"] (chr "#" :: b)); [by constructor|].
    apply (lang_cat _ _ [chr "#"] b); [by constructor|by apply Hr].
Qed.

(** * The checks by type *)

Definition type_ok (type : AssetType) (s : text) : bool := is_none (IsTypeCheckNameValid type s).

Lemma ltb_leb n m : (n <? m)%nat = negb (m <=? n)%nat.
Proof. destruct (Nat.ltb_spec n m), (Nat.leb_spec m n); done || lia. Qed.

Lemma type_ok_tag a d t :
  lacks d a = true → lacks d t = true → front (split d (a ++ d :: t)) = a ∧ back (split d (a ++ d :: t)) = t.
Proof. intros Ha%lacks_Forall Ht%lacks_Forall. rewrite split_app, (split_none d t) by done. done. Qed.

Lemma type_ok_unique a t :
  lacks (chr "#") a = true → lacks (chr "#") t = true →
  type_ok UNIQUE (a ++ str "#" ++ t) = true ↔ path a ∧ t ≠ [] ∧ forallb unique_char t = true ∧ (length (a ++ str "#" ++ t) ≤ 31)%nat.
Proof.
  intros Ha Ht. unfold type_ok, IsTypeCheckNameValid. cbv zeta. destruct (type_ok_tag _ _ _ Ha Ht) as [E1 E2].
  change (chr "#" :: t) with (str "#" ++ t) in E1, E2. rewrite E1, E2, <- IsNameValidBeforeTag_path. unfold IsUniqueTagValid, UNIQUE_TAG_CHARACTERS.
  rewrite regex_plus. fold unique_char. destruct (Nat.ltb_spec 31 (length (a ++ str "#" ++ t))); [split; [done|lia]|].
  destruct (IsNameValidBeforeTag a), t as [|c t], (forallb unique_char _) eqn:E; cbn; intuition (done || congruence).
Qed.

Lemma type_ok_channel a t :
  lacks (chr "~") a = true → lacks (chr "~") t = true →
  type_ok MSGCHANNEL (a ++ str "~" ++ t) = true ↔
  path a ∧ t ≠ [] ∧ forallb channel_char t = true ∧ no_double t = true ∧ begins t = false ∧ ends t = false ∧ (length t ≤ 12)%nat ∧
  (length (a ++ str "~" ++ t) ≤ 31)%nat.
Proof.
  intros Ha Ht. unfold type_ok, IsTypeCheckNameValid. cbv zeta. destruct (type_ok_tag _ _ _ Ha Ht) as [E1 E2].
  change (chr "~" :: t) with (str "~" ++ t) in E1, E2. rewrite E1, E2, <- IsNameValidBeforeTag_path, IsMsgChannelTagValid_tag.
  destruct (Nat.ltb_spec 31 (length (a ++ str "~" ++ t))); [split; [done|lia]|].
  destruct (Nat.ltb_spec 12 (length t)); [split; [done|lia]|].
  destruct (IsNameValidBeforeTag a), (no_double t), (begins t), (ends t), t as [|c t], (forallb channel_char _); cbn; intuition (done || congruence).
Qed.

Lemma type_ok_owner a : type_ok OWNER (a ++ str "!") = true ↔ path a ∧ (length a ≤ 30)%nat.
Proof.
  unfold type_ok, IsTypeCheckNameValid. cbv zeta. rewrite length_app. change (length (str "!")) with 1%nat.
  rewrite Nat.add_sub, take_app_length, <- IsNameValidBeforeTag_path.
  destruct (Nat.ltb_spec 31 (length a + 1)); [split; [done|lia]|]. destruct (IsNameValidBeforeTag a); cbn; intuition (done || lia).
Qed.

Lemma type_ok_restricted s :
  type_ok RESTRICTED (str "$" ++ s) = true ↔
  (3 ≤ length s)%nat ∧ forallb name_char s = true ∧ no_double s = true ∧ ends s = false ∧ (length s ≤ 30)%nat.
Proof.
  unfold type_ok, IsTypeCheckNameValid. cbv zeta. change (str "$" ++ s) with (chr "$" :: s). rewrite IsRestrictedNameValid_word, Z.eqb_refl.
  assert (Hr : reserved (chr "$" :: s) = false) by (apply not_true_iff_false; unfold reserved; cbn [existsb]; rewrite !orb_true_iff, !text_eqb_spec;
    intros Hr; naive_solver). rewrite Hr.
  destruct (Nat.ltb_spec 31 (length (chr "$" :: s))); cbn [length] in *; [split; [done|lia]|]. unfold marked_word.
  destruct (Nat.leb_spec 3 (length s)), (forallb name_char s), (no_double s), (ends s); cbn; intuition (done || lia).
Qed.

(** The parts of a vote name: the first, and the last of the tag. *)
Lemma split_last d t : ∃ m u, t = m ++ u ∧ List.last (split d t) [] = u ∧ lacks d u = true ∧ (m = [] ∨ ∃ m', m = m' ++ [d]).
Proof.
  induction t as [|c t IH]; [exists [], []; naive_solver|]. destruct IH as (m & u & -> & Hl & Hu & Hm). cbn [split].
  pose proof (split_nonempty d (m ++ u)) as Hne. destruct (Z.eqb_spec c d) as [->|Hc].
  - exists (d :: m), u. split_and!; [done| |done|].
    + destruct (split d (m ++ u)); [done|exact Hl].
    + right. destruct Hm as [->|[m' ->]]; [by exists []|by exists (d :: m')].
  - destruct Hm as [->|[m' ->]].
    + cbn [app] in *. rewrite (split_none d u) by (by apply lacks_Forall). exists [], (c :: u). split_and!; [done|done| |by left].
      cbn [lacks forallb]. rewrite (proj2 (Z.eqb_neq _ _) Hc). done.
    + exists (c :: m' ++ [d]), u. split_and!; [done| |done|right; by exists (c :: m')]. etransitivity; [|exact Hl].
      destruct (split d ((m' ++ [d]) ++ u)) as [|p [|q ps]] eqn:E; [done| |done].
      rewrite <- app_assoc in E. cbn [app] in E. rewrite split_middle in E. pose proof (split_nonempty d m'). pose proof (split_nonempty d u).
      destruct (split d m') as [|x [|y xs]]; [done| |done]. by destruct (split d u).
Qed.

Lemma split_back d m u : lacks d u = true → (m = [] ∨ ∃ m', m = m' ++ [d]) → List.last (split d (m ++ u)) [] = u.
Proof.
  intros Hu [->|[m' ->]]; [by rewrite split_none by (by apply lacks_Forall)|].
  rewrite <- app_assoc. cbn [app]. rewrite split_middle, (split_none d u), last_last by (by apply lacks_Forall). done.
Qed.

Lemma type_ok_vote a m u :
  lacks (chr "^") a = true → lacks (chr "^") u = true → (m = [] ∨ ∃ m', m = m' ++ str "^") →
  type_ok VOTE (a ++ str "^" ++ m ++ u) = true ↔ path a ∧ u ≠ [] ∧ forallb name_char u = true ∧ (length (a ++ str "^" ++ m ++ u) ≤ 31)%nat.
Proof.
  intros Ha Hu Hm. unfold type_ok, IsTypeCheckNameValid. cbv zeta. change (str "^" ++ m ++ u) with (chr "^" :: m ++ u).
  rewrite split_app by (by apply lacks_Forall). cbn [front hd]. unfold back. pose proof (split_back _ _ _ Hu Hm) as Hb.
  pose proof (split_nonempty (chr "^") (m ++ u)). destruct (split (chr "^") (m ++ u)) as [|p ps] eqn:E; [done|].
  change (List.last (a :: p :: ps) []) with (List.last (p :: ps) []). rewrite Hb, <- IsNameValidBeforeTag_path.
  unfold IsVoteTagValid, VOTE_TAG_CHARACTERS. rewrite regex_plus.
  destruct (Nat.ltb_spec 31 (length (a ++ chr "^" :: m ++ u))); [split; [done|lia]|].
  destruct (IsNameValidBeforeTag a), u as [|c u], (forallb name_char _) eqn:E'; cbn; intuition (done || congruence).
Qed.

Lemma type_ok_qualifier s :
  forallb name_char s = true →
  (type_ok QUALIFIER (str "#" ++ s) = true ↔ word 3 s = true ∧ reserved (str "#" ++ s) = false ∧ (length s ≤ 30)%nat) ∧
  IsAssetNameASubQualifier (str "#" ++ s) = false.
Proof.
  intros Hs. unfold type_ok, IsTypeCheckNameValid, IsQualifierNameValidBeforeTag, IsAssetNameASubQualifier. cbv zeta.
  rewrite (split_none (chr "/") (str "#" ++ s)) by (apply lacks_Forall; lacking). cbn [front hd tail length forallb].
  change (str "#" ++ s) with (chr "#" :: s). rewrite IsQualifierNameValid_word, Z.eqb_refl. split; [|apply andb_false_r].
  destruct (Nat.ltb_spec 31 (length (chr "#" :: s))); cbn [length] in *; [split; [done|lia]|].
  destruct (word 3 s), (reserved (chr "#" :: s)); cbn; intuition (done || lia).
Qed.

Lemma type_ok_sub_qualifier s t :
  forallb name_char s = true → forallb name_char t = true →
  type_ok SUB_QUALIFIER (str "#" ++ s ++ str "/#" ++ t) = true ↔
  word 3 s = true ∧ reserved (str "#" ++ s) = false ∧ t ≠ [] ∧ no_double t = true ∧ ends t = false ∧ (length (str "#" ++ s ++ str "/#" ++ t) ≤ 31)%nat.
Proof.
  intros Hs Ht. unfold type_ok, IsTypeCheckNameValid, IsQualifierNameValidBeforeTag. cbv zeta.
  change (str "#" ++ s ++ str "/#" ++ t) with ((chr "#" :: s) ++ chr "/" :: chr "#" :: t).
  rewrite split_app, (split_none _ (chr "#" :: t)) by (apply lacks_Forall; change (chr "#" :: t) with (str "#" ++ t); change (chr "#" :: s) with (str "#" ++ s); lacking).
  cbn [front hd tail length forallb]. change (str "#" ++ s) with (chr "#" :: s).
  rewrite IsQualifierNameValid_word, IsSubQualifierNameValid_word, !Z.eqb_refl. unfold marked_word. rewrite Ht.
  destruct (Nat.ltb_spec 31 (length ((chr "#" :: s) ++ chr "/" :: chr "#" :: t))); [split; [done|lia]|].
  destruct (word 3 s), (reserved (chr "#" :: s)), (no_double t), (ends t), t; cbn; intuition (done || congruence).
Qed.

Lemma sub_qualifier_split s t :
  forallb name_char s = true → forallb name_char t = true → word 3 s = true → reserved (str "#" ++ s) = false →
  IsAssetNameASubQualifier (str "#" ++ s ++ str "/#" ++ t) = true.
Proof.
  intros Hs Ht Hw Hr. unfold IsAssetNameASubQualifier. cbv zeta. change (str "#" ++ s ++ str "/#" ++ t) with ((chr "#" :: s) ++ chr "/" :: chr "#" :: t).
  rewrite split_app, (split_none _ (chr "#" :: t)) by (apply lacks_Forall; change (chr "#" :: t) with (str "#" ++ t); change (chr "#" :: s) with (str "#" ++ s); lacking).
  cbn [front hd length]. change (str "#" ++ s) with (chr "#" :: s) in Hr. by rewrite IsQualifierNameValid_word, Hw, Hr.
Qed.

(** The last branch, for roots and sub assets. *)
Lemma type_ok_path type s : (type = ROOT ∨ type = SUB) → type_ok type s = true ↔ path s ∧ (length s ≤ 30)%nat.
Proof.
  intros Ht. assert (E : type_ok type s = negb (30 <? length s)%nat && IsNameValidBeforeTag s).
  { unfold type_ok. transitivity (is_none (IsTypeCheckNameValid ROOT s)); [by destruct Ht as [-> | ->]|]. unfold IsTypeCheckNameValid. cbv zeta.
    change (31 - 1)%nat with 30%nat. destruct (30 <? length s)%nat; [done|]. destruct (IsNameValidBeforeTag s) eqn:Ev; cbn [negb andb].
    - apply IsNameValidBeforeTag_path in Ev. pose proof (subasset_path _ Ev) as Hp. destruct (IsAssetNameASubasset s); [done|].
      destruct Hp as [[Hl _]%word_chars _]. destruct (Nat.ltb_spec (length s) 3); [lia|done].
    - destruct (IsAssetNameASubasset s), (length s <? 3)%nat; done. }
  rewrite E, andb_true_iff, negb_true_iff, Nat.ltb_ge, IsNameValidBeforeTag_path. tauto.
Qed.

(** * Classification *)

Definition verdict (type : AssetType) (s : text) : bool * option AssetType :=
  (type_ok type s, Some (if type_ok type s then type else INVALID)).

Lemma verdict_true type s T : verdict type s = (true, Some T) ↔ type_ok type s = true ∧ T = type.
Proof. unfold verdict. destruct (type_ok type s); naive_solver. Qed.

Lemma IsAssetNameValid_cases s :
  IsAssetNameValid s =
  if (40 <? length s)%nat then (false, None)
  else if regex_match s (tag_indicator [chr "#"]) then verdict UNIQUE s
  else if regex_match s (tag_indicator [chr "~"]) then verdict MSGCHANNEL s
  else if regex_match s OWNER_INDICATOR then verdict OWNER s
  else if regex_match s (tag_indicator [chr "^"]) then verdict VOTE s
  else if regex_match s (Cat (char_of [chr "#"]) (AtLeast 3 (Class name_char))) then
    (type_ok QUALIFIER s, Some (if type_ok QUALIFIER s then if IsAssetNameASubQualifier s then SUB_QUALIFIER else QUALIFIER else INVALID))
  else if regex_match s SUB_QUALIFIER_INDICATOR then
    (type_ok SUB_QUALIFIER s, Some (if type_ok SUB_QUALIFIER s then if IsAssetNameASubQualifier s then SUB_QUALIFIER else INVALID else INVALID))
  else if regex_match s (Cat (char_of [chr "$"]) (AtLeast 3 (Class name_char))) then verdict RESTRICTED s
  else verdict (if IsAssetNameASubasset s then SUB else ROOT) s.
Proof. reflexivity. Qed.

Lemma tag_parts (x : text) d s :
  x = [d] → regex_match s (tag_indicator [d]) = true →
  ∃ a t, s = a ++ x ++ t ∧ forallb (none_of (str "^~#!")) a = true ∧ forallb (none_of (str "~#!/")) t = true.
Proof. intros -> (a & b & -> & _ & ? & _ & ?)%tag_indicator_spec. by exists a, b. Qed.

Lemma mark_parts (x : text) m s :
  x = [m] → regex_match s (Cat (char_of [m]) (AtLeast 3 (Class name_char))) = true → ∃ t, s = x ++ t ∧ forallb name_char t = true.
Proof.
  intros ->. destruct s as [|c s]; [done|]. rewrite mark_indicator, !andb_true_iff. intros [->%Z.eqb_eq [_ ?]]. by exists s.
Qed.

(** Names the classification accepts follow the grammar of their type. *)
Lemma IsAssetNameValid_sound s T : IsAssetNameValid s = (true, Some T) → asset_name T s.
Proof.
  rewrite IsAssetNameValid_cases. destruct (40 <? length s)%nat; [done|].
  destruct (regex_match s (tag_indicator [chr "#"])) eqn:E1.
  { intros [Hok ->]%verdict_true. apply (tag_parts (str "#")) in E1 as (a & t & -> & Ha & Ht); [|done].
    apply type_ok_unique in Hok as (? & ? & ? & ?); [by constructor|lacking..]. }
  destruct (regex_match s (tag_indicator [chr "~"])) eqn:E2.
  { intros [Hok ->]%verdict_true. apply (tag_parts (str "~")) in E2 as (a & t & -> & Ha & Ht); [|done].
    apply type_ok_channel in Hok as (? & ? & ? & ? & ? & ? & ? & ?); [by constructor|lacking..]. }
  destruct (regex_match s OWNER_INDICATOR) eqn:E3.
  { intros [Hok ->]%verdict_true. apply owner_indicator_spec in E3 as (a & -> & _). apply type_ok_owner in Hok as [? ?]. by constructor. }
  destruct (regex_match s (tag_indicator [chr "^"])) eqn:E4.
  { intros [Hok ->]%verdict_true. apply (tag_parts (str "^")) in E4 as (a & t & -> & Ha & Ht); [|done].
    destruct (split_last (chr "^") t) as (m & u & -> & _ & Hu & Hm). apply type_ok_vote in Hok as (? & ? & ? & ?); [|lacking|done|done].
    constructor; [done| |done..]. destruct Hm as [->|[m' ->]]; [by left|]. right. exists m'. split; [done|].
    rewrite !forallb_app in Ht. by apply andb_true_iff in Ht as [[? _]%andb_true_iff _]. }
  destruct (regex_match s (Cat (char_of [chr "#"]) (AtLeast 3 (Class name_char)))) eqn:E5.
  { apply (mark_parts (str "#")) in E5 as (t & -> & Ht); [|done]. destruct (type_ok_qualifier t Ht) as [Hq ->]. intros Hv.
    destruct (type_ok QUALIFIER (str "#" ++ t)) eqn:Hok; [|done]. injection Hv as <-. destruct (proj1 Hq eq_refl) as (? & ? & ?). by constructor. }
  destruct (regex_match s SUB_QUALIFIER_INDICATOR) eqn:E6.
  { apply sub_qualifier_indicator_spec in E6 as (a & t & -> & _ & Ha & _ & Ht). intros Hv.
    destruct (type_ok SUB_QUALIFIER _) eqn:Hok; [|done]. apply type_ok_sub_qualifier in Hok as (? & ? & ? & ? & ? & ?); [|done..].
    rewrite sub_qualifier_split in Hv by done. injection Hv as <-. by constructor. }
  destruct (regex_match s (Cat (char_of [chr "$"]) (AtLeast 3 (Class name_char)))) eqn:E7.
  { apply (mark_parts (str "$")) in E7 as (t & -> & Ht); [|done]. intros [Hok ->]%verdict_true.
    apply type_ok_restricted in Hok as (? & ? & ? & ? & ?). by constructor. }
  intros [Hok ->]%verdict_true. apply type_ok_path in Hok as [Hp Hl]; [|destruct (IsAssetNameASubasset s); auto].
  pose proof (subasset_path _ Hp) as Hs. destruct (IsAssetNameASubasset s); [destruct Hs as (q & u & -> & ? & ?)|destruct Hs]; by constructor.
Qed.

(** Names without a mark for a tag reach the later tests. *)
Lemma untagged_cases s :
  (length s ≤ 31)%nat → lacks (chr "#") s = true → lacks (chr "~") s = true → lacks (chr "!") s = true → lacks (chr "^") s = true →
  IsAssetNameValid s =
  if regex_match s (Cat (char_of [chr "$"]) (AtLeast 3 (Class name_char))) then verdict RESTRICTED s
  else verdict (if IsAssetNameASubasset s then SUB else ROOT) s.
Proof.
  intros Hl H1 H2 H3 H4. rewrite IsAssetNameValid_cases, (proj2 (Nat.ltb_ge _ _)) by lia.
  rewrite !tag_indicator_lacks, owner_indicator_lacks by done.
  assert (E : ∀ t, s ≠ chr "#" :: t) by (intros t ->; done). destruct s as [|c s]; [done|].
  rewrite mark_indicator. destruct (Z.eqb_spec c (chr "#")) as [->|Hc]; [by destruct (E s)|]. cbn [andb].
  destruct (regex_match (c :: s) SUB_QUALIFIER_INDICATOR) eqn:E6; [|done].
  apply sub_qualifier_indicator_spec in E6 as (a & b & Ea & _). by injection Ea as -> _.
Qed.

(** Names with a sharp at the front. *)
Lemma sharp_cases s :
  (length (str "#" ++ s) ≤ 31)%nat →
  IsAssetNameValid (str "#" ++ s) =
  if (3 <=? length s)%nat && forallb name_char s then
    (type_ok QUALIFIER (str "#" ++ s),
     Some (if type_ok QUALIFIER (str "#" ++ s) then if IsAssetNameASubQualifier (str "#" ++ s) then SUB_QUALIFIER else QUALIFIER else INVALID))
  else if regex_match (str "#" ++ s) SUB_QUALIFIER_INDICATOR then
    (type_ok SUB_QUALIFIER (str "#" ++ s),
     Some (if type_ok SUB_QUALIFIER (str "#" ++ s) then if IsAssetNameASubQualifier (str "#" ++ s) then SUB_QUALIFIER else INVALID else INVALID))
  else verdict (if IsAssetNameASubasset (str "#" ++ s) then SUB else ROOT) (str "#" ++ s).
Proof.
  intros Hl. rewrite IsAssetNameValid_cases, (proj2 (Nat.ltb_ge _ _)) by lia. change (str "#" ++ s) with (chr "#" :: s).
  rewrite !tag_indicator_head, owner_indicator_head, !mark_indicator by done. done.
Qed.

Lemma path_untagged p : path p → forallb path_char p = true ∧ forallb (none_of (str "^~#!")) p = true ∧ p ≠ [].
Proof.
  intros [Hc Hn]%path_chars. split_and!; [done| |done]. apply (forallb_impl path_char); [|done]. intros c H. unfold path_char in H. class.
Qed.

Lemma tagged d s a b :
  s = a ++ d :: b → a ≠ [] → forallb (none_of (str "^~#!")) a = true → b ≠ [] → forallb (none_of (str "~#!/")) b = true →
  regex_match s (tag_indicator [d]) = true.
Proof. intros -> ? ? ? ?. apply tag_indicator_spec. by exists a, b. Qed.

Definition has_tag (T : AssetType) : bool := match T with UNIQUE | MSGCHANNEL | OWNER | VOTE => true | _ => false end.

(** Names that follow the grammar are accepted with their type. *)
Lemma asset_name_tagged T s :
  asset_name T s → has_tag T = true → IsAssetNameValid s = (true, Some T).
Proof.
  intros H Hin. rewrite IsAssetNameValid_cases. destruct H; try discriminate Hin;
    match goal with H : path _ |- _ => destruct (path_untagged _ H) as (Hpc & Hp & Hpn) end.
  - rewrite length_app in *. rewrite (proj2 (Nat.ltb_ge _ _)) by (cbn in *; lia). rewrite !tag_indicator_lacks by lacking.
    rewrite (proj2 (owner_indicator_spec _)) by (by exists p). apply verdict_true. by rewrite type_ok_owner.
  - rewrite (proj2 (Nat.ltb_ge _ _)) by lia.
    assert (Ht : forallb (none_of (str "~#!/")) t = true) by (apply (forallb_impl unique_char); [intros c Hc; class|done]).
    rewrite (tagged _ _ p t) by done. apply verdict_true. split; [|done]. apply type_ok_unique; [lacking..|done].
  - rewrite (proj2 (Nat.ltb_ge _ _)) by lia. rewrite (tag_indicator_lacks (chr "#")) by lacking.
    assert (Ht : forallb (none_of (str "~#!/")) t = true) by (apply (forallb_impl channel_char); [intros c Hc; class|done]).
    rewrite (tagged _ _ p t) by done. apply verdict_true. split; [|done]. apply type_ok_channel; [lacking..|done].
  - rewrite (proj2 (Nat.ltb_ge _ _)) by lia.
    assert (Ht : forallb (none_of (str "~#!/")) t = true) by (apply (forallb_impl name_char); [intros c Hc; class|done]).
    assert (Hm : forallb (none_of (str "~#!/")) m = true).
    { match goal with H : _ ∨ _ |- _ => destruct H as [->|(m' & -> & Hm')] end; [done|]. by rewrite forallb_app, Hm'. }
    assert (Hmt : forallb (none_of (str "~#!/")) (m ++ t) = true) by (by rewrite forallb_app, Hm).
    rewrite (tag_indicator_lacks (chr "#")), (tag_indicator_lacks (chr "~")), owner_indicator_lacks by lacking.
    rewrite (tagged _ _ p (m ++ t)) by (done || by destruct m, t). apply verdict_true. split; [|done].
    apply type_ok_vote; [lacking..| |done].
    match goal with H : _ ∨ _ |- _ => destruct H as [->|(m' & -> & _)] end; eauto.
Qed.

Lemma asset_name_untagged T s :
  asset_name T s → has_tag T = false → IsAssetNameValid s = (true, Some T).
Proof.
  assert (Hdollar : ∀ s, forallb path_char s = true → regex_match s (Cat (char_of [chr "$"]) (AtLeast 3 (Class name_char))) = false).
  { intros [|c u] Hu; [done|]. rewrite mark_indicator. destruct (Z.eqb_spec c (chr "$")) as [->|?]; [done|done]. }
  intros H Hin. destruct H as [s Hw Hr Hl|p s Hp Hw Hl| | | | |s Hw Hr Hl|s t Hw Hr Ht Htc Hd He Hl|s H3 Hc Hd He Hl];
    try discriminate Hin.
  - pose proof (path_root _ Hw Hr) as Hp. destruct (path_untagged _ Hp) as (Hpc & _). rewrite untagged_cases by (lia || lacking).
    rewrite Hdollar by done. pose proof (subasset_path _ Hp) as Hs. destruct (IsAssetNameASubasset s) eqn:E.
    + destruct (word_chars _ _ Hw) as [_ Hc]. unfold IsAssetNameASubasset in E. rewrite name_split in E by done. by rewrite andb_false_r in E.
    + apply verdict_true. split; [|done]. apply type_ok_path; auto.
  - pose proof (path_sub _ _ Hp Hw) as Hps. destruct (path_untagged _ Hps) as (Hpc & _). rewrite untagged_cases by (lia || lacking).
    rewrite Hdollar, subasset_sub by done. apply verdict_true. split; [|done]. apply type_ok_path; auto.
  - destruct (word_chars _ _ Hw) as [H3 Hc]. rewrite sharp_cases by (cbn; lia). rewrite Hc, (proj2 (Nat.leb_le _ _)) by done. cbn [andb].
    destruct (type_ok_qualifier s Hc) as [Hq ->]. by rewrite (proj2 Hq).
  - destruct (word_chars _ _ Hw) as [_ Hc]. rewrite sharp_cases by done.
    assert (E : forallb name_char (s ++ str "/#" ++ t) = false) by (rewrite !forallb_app; apply andb_false_r).
    rewrite E, andb_false_r. rewrite (proj2 (sub_qualifier_indicator_spec _)).
    + rewrite (proj2 (type_ok_sub_qualifier _ _ Hc Htc)), sub_qualifier_split by done. done.
    + exists s, t. split_and!; try done. by intros ->.
  - rewrite untagged_cases by (lacking || (cbn; lia)). change (str "$" ++ s) with (chr "$" :: s). rewrite mark_indicator, Hc.
    rewrite (proj2 (Nat.leb_le _ _)) by done. apply verdict_true. split; [|done]. by apply type_ok_restricted.
Qed.

Lemma IsAssetNameValid_spec s T : IsAssetNameValid s = (true, Some T) ↔ asset_name T s.
Proof.
  split; [apply IsAssetNameValid_sound|]. intros H. destruct (has_tag T) eqn:E; [by apply asset_name_tagged|by apply asset_name_untagged].
Qed.

Lemma IsAssetNameValid_typed s : (IsAssetNameValid s).1 = true → ∃ T, IsAssetNameValid s = (true, Some T).
Proof. rewrite IsAssetNameValid_cases. unfold verdict. repeat case_match; cbn; intros Hv; first [done|rewrite ?Hv; eauto]. Qed.

Lemma asset_name_unique T T' s : asset_name T s → asset_name T' s → T = T'.
Proof. rewrite <- !IsAssetNameValid_spec. congruence. Qed.

Lemma asset_type_is_spec T s : asset_type_is T s = true ↔ asset_name T s.
Proof. unfold asset_type_is. by rewrite bool_decide_eq_true, IsAssetNameValid_spec. Qed.

(** A test that is the indicator of one type, among the valid names. *)
Lemma valid_indicator T s (b : bool) :
  (∀ T', asset_name T' s → (b = true ↔ T' = T)) → asset_name_valid s && b = true ↔ asset_name T s.
Proof.
  intros H. unfold asset_name_valid. rewrite andb_true_iff. split.
  - intros [[T' HT']%IsAssetNameValid_typed Hb]. apply IsAssetNameValid_spec in HT'. apply (H _ HT') in Hb as ->. done.
  - intros HT. split; [by rewrite (proj2 (IsAssetNameValid_spec _ _) HT)|]. by apply (H _ HT).
Qed.

(** The shape of a name decides whether it has a given mark. *)
Lemma path_lacks p : path p → lacks (chr "#") p = true ∧ lacks (chr "~") p = true ∧ lacks (chr "!") p = true ∧ lacks (chr "^") p = true ∧
  lacks (chr "$") p = true.
Proof. intros (Hpc & _)%path_untagged. split_and!; lacking. Qed.

Lemma owner_names s : IsAssetNameAnOwner s = true ↔ asset_name OWNER s.
Proof.
  apply valid_indicator. intros T HT. split.
  - intros Ho. apply IsAssetNameValid_spec in HT. rewrite IsAssetNameValid_cases, Ho in HT. destruct (40 <? length s)%nat; [done|].
    rewrite (tag_indicator_lacks (chr "#")), (tag_indicator_lacks (chr "~")) in HT by
      (apply owner_indicator_spec in Ho as (a & -> & _ & Ha); lacking). by apply verdict_true in HT as [_ ->].
  - intros ->. inversion HT as [| |p Hp Hl| | | | | |]; subst. apply owner_indicator_spec. exists p.
    destruct (path_untagged _ Hp) as (_ & ? & ?). done.
Qed.

Lemma restricted_names s : IsAssetNameAnRestricted s = true ↔ asset_name RESTRICTED s.
Proof.
  apply valid_indicator. intros T HT. change RESTRICTED_INDICATOR with (Cat (char_of [chr "$"]) (AtLeast 3 (Class name_char))). split.
  - intros Ho. pose proof HT as Hv. apply IsAssetNameValid_spec in Hv.
    assert ((length s ≤ 31)%nat) by (inversion HT; subst; rewrite ?length_app in *; cbn in *; lia).
    pose proof Ho as Hm. apply (mark_parts (str "$")) in Hm as (t & Es & Ht); [|done].
    rewrite untagged_cases in Hv by (done || (rewrite Es; lacking)). rewrite Ho in Hv. by apply verdict_true in Hv as [_ ->].
  - intros ->. inversion HT as [| | | | | | | |t H3 Hc]; subst. change (str "$" ++ t) with (chr "$" :: t). rewrite mark_indicator, Hc.
    by rewrite (proj2 (Nat.leb_le _ _)).
Qed.

Lemma owner_of_name p : asset_name OWNER (p ++ OWNER_TAG) ↔ asset_name ROOT p ∨ asset_name SUB p.
Proof.
  split.
  - intros H. inversion H as [| |q Hq Hl ET E| | | | | |]. apply app_inj_tail in E as [-> _]. clear H. destruct Hq as [s ? ?|q s ? ?]; [left|right]; by constructor.
  - intros [H|H]; inversion H; subst; constructor; try done; [by apply path_root|by apply path_sub].
Qed.

Lemma path_name p : path p → (length p ≤ 30)%nat → asset_name ROOT p ∨ asset_name SUB p.
Proof. intros [s ? ?|q s ? ?] ?; [left|right]; by constructor. Qed.

(** Cutting at the last delimiter. *)
Lemma cut_last (x : text) d a b :
  x = [d] → lacks d b = true → match find_last d (a ++ x ++ b) with Some i => take i (a ++ x ++ b) | None => a ++ x ++ b end = a.
Proof. intros -> Hb. cbn [app]. rewrite find_last_app by (by apply lacks_Forall). by rewrite take_app_length. Qed.

Lemma cut_unique d q u p t : lacks d q = true → lacks d u = true → q ++ [d] ++ u = p ++ [d] ++ t → p = q ∧ t = u.
Proof.
  intros Hq%lacks_Forall Hu%lacks_Forall E. apply (f_equal (split d)) in E. cbn [app] in E.
  rewrite split_app, (split_none d u), split_middle in E by done.
  pose proof (join_split d p) as Hp. pose proof (join_split d t) as Ht. pose proof (split_nonempty d p). pose proof (split_nonempty d t).
  destruct (split d p) as [|x [|x' xs]], (split d t) as [|y [|y' ys]]; try done;
    try (apply (f_equal length) in E; cbn in E; rewrite ?length_app in E; cbn in E; lia).
  injection E as -> ->. cbn [join] in Hp, Ht. done.
Qed.

Lemma GetParentName_valid s T d :
  (T = SUB ∧ d = str "/") ∨ (T = UNIQUE ∧ d = str "#") ∨ (T = MSGCHANNEL ∧ d = str "~") → asset_name T s →
  (asset_name ROOT (GetParentName s) ∨ asset_name SUB (GetParentName s)) ∧ ∃ t, s = GetParentName s ++ d ++ t ∧ t ≠ [].
Proof.
  intros HT H. unfold GetParentName. rewrite (proj2 (IsAssetNameValid_spec _ _) H).
  destruct HT as [[-> ->]|[[-> ->]|[-> ->]]].
  - inversion H as [|p t Hp Hw Hl| | | | | | |]; subst. destruct (word_chars _ _ Hw) as [Hn Hc]. rewrite cut_last by (done || lacking).
    split; [apply path_name; [done|rewrite length_app in Hl; lia]|]. exists t. split; [done|]. intros ->. cbn in Hn. lia.
  - inversion H as [| | |p t Hp Hn Hc Hl| | | | |]; subst. rewrite cut_last by (done || lacking).
    split; [apply path_name; [done|rewrite !length_app in Hl; destruct t; cbn in *; (done || lia)]|]. by exists t.
  - inversion H as [| | | |p t Hp Hn Hc Hd Hb He Ht Hl| | | |]; subst. rewrite cut_last by (done || lacking).
    split; [apply path_name; [done|rewrite !length_app in Hl; destruct t; cbn in *; (done || lia)]|]. by exists t.
Qed.

(** * Properties *)

(** C27: every name has at most one type, and the regular expressions, the splitting at delimiters and the length
    limits of the classification accept exactly a grammar: a name is accepted with type [T] iff the grammar derives it
    at [T], an accepted name always has a type, and the test for owner tokens and for restricted assets agree with it. *)
Theorem asset_names_typed name :
  (∀ T, IsAssetNameValid name = (true, Some T) ↔ asset_name T name) ∧
  (asset_name_valid name = true ↔ ∃ T, asset_name T name) ∧
  (∀ T T', asset_name T name → asset_name T' name → T = T') ∧
  (IsAssetNameAnOwner name = true ↔ asset_name OWNER name) ∧
  (IsAssetNameAnRestricted name = true ↔ asset_name RESTRICTED name).
Proof.
  split_and!; [intros T; apply IsAssetNameValid_spec| | |apply owner_names|apply restricted_names].
  - split.
    + intros [T HT]%IsAssetNameValid_typed. exists T. by apply IsAssetNameValid_spec.
    + intros [T HT]. unfold asset_name_valid. by rewrite (proj2 (IsAssetNameValid_spec _ _) HT).
  - intros T T'. apply asset_name_unique.
Qed.

(** the hierarchy of names is closed: the parent of a sub asset, of a unique asset or of a message channel is a
    valid root or sub asset name, of which the name is an extension; a name with the owner tag is an owner token iff it
    is a root or a sub asset; the owner of a restricted asset is the name behind the dollar; a unique asset
    made of a parent and a tag has this parent. *)
Theorem asset_name_hierarchy :
  (∀ s T d, (T, d) ∈ [(SUB, str "/"); (UNIQUE, str "#"); (MSGCHANNEL, str "~")] → asset_name T s →
     (asset_name ROOT (GetParentName s) ∨ asset_name SUB (GetParentName s)) ∧ ∃ t, s = GetParentName s ++ d ++ t ∧ t ≠ []) ∧
  (∀ p, asset_type_is OWNER (p ++ OWNER_TAG) = asset_type_is ROOT p || asset_type_is SUB p) ∧
  (∀ s, asset_name RESTRICTED (str "$" ++ s) → RestrictedNameToOwnerName (str "$" ++ s) = s ++ OWNER_TAG) ∧
  (∀ p t, GetUniqueAssetName p t ≠ [] → GetUniqueAssetName p t = p ++ str "#" ++ t ∧ GetParentName (GetUniqueAssetName p t) = p).
Proof.
  split_and!.
  - intros s T d Hin. apply GetParentName_valid. rewrite !elem_of_cons, elem_of_nil in Hin. naive_solver.
  - intros p. apply eq_true_iff_eq. by rewrite orb_true_iff, !asset_type_is_spec, owner_of_name.
  - intros s Hs%restricted_names. unfold RestrictedNameToOwnerName. by rewrite Hs.
  - intros p t. unfold GetUniqueAssetName. destruct (asset_type_is UNIQUE _) eqn:E; [intros _|done]. split; [done|].
    apply asset_type_is_spec in E. pose proof E as Hi. unfold GetParentName. rewrite (proj2 (IsAssetNameValid_spec _ _) E).
    inversion Hi as [| | |q u Hq Hn Hc Hl ET Eq| | | | |]; subst. destruct (path_lacks _ Hq) as (Hq' & _).
    destruct (cut_unique (chr "#") q u p t) as [-> ->]; [done|lacking|done|]. apply cut_last; [done|lacking].
Qed.

Lemma asset_names_typed_witness :
  asset_name UNIQUE (str "MUSIC/ART#One") ∧ asset_name SUB_QUALIFIER (str "#KYC/#EU") ∧ ¬ (∃ T, asset_name T (str "CMS")) ∧
  asset_name RESTRICTED (str "$.ABC") ∧ asset_name VOTE (str "ABC^ any ^DEF") ∧ asset_name ROOT (str "CMUSICAI").
Proof.
  split_and!.
  - apply (proj1 (asset_names_typed (str "MUSIC/ART#One"))). vm_compute. reflexivity.
  - apply (proj1 (asset_names_typed (str "#KYC/#EU"))). vm_compute. reflexivity.
  - rewrite <- (proj1 (proj2 (asset_names_typed (str "CMS")))). vm_compute. discriminate.
  - apply (proj1 (asset_names_typed (str "$.ABC"))). vm_compute. reflexivity.
  - apply (proj1 (asset_names_typed (str "ABC^ any ^DEF"))). vm_compute. reflexivity.
  - apply (proj1 (asset_names_typed (str "CMUSICAI"))). vm_compute. reflexivity.
Defined.

Lemma asset_name_hierarchy_witness :
  GetUniqueAssetName (str "MUSIC/ART") (str "One") = str "MUSIC/ART#One" ∧ GetParentName (str "MUSIC/ART#One") = str "MUSIC/ART" ∧
  RestrictedNameToOwnerName (str "$MUSIC") = str "MUSIC!".
Proof.
  destruct asset_name_hierarchy as (_ & _ & Hr & Hu). assert (E : GetUniqueAssetName (str "MUSIC/ART") (str "One") = str "MUSIC/ART#One") by (vm_compute; reflexivity).
  destruct (Hu (str "MUSIC/ART") (str "One")) as [_ Hp]; [rewrite E; discriminate|]. rewrite E in Hp. split_and!; [done|done|].
  apply (Hr (str "MUSIC")). apply IsAssetNameValid_spec. vm_compute. reflexivity.
Defined.
