(* ===== verification/HashStream.v ===== *)
(** The streaming part that the hash classes of crypto/ share ([CSHA1],
    [CSHA256], [CSHA512], [CRIPEMD160]): a chaining state, a partial block and a
    byte counter, fed by [Write] and closed by [Finalize]. The block function,
    the block size and the length field are parameters of the section. *)
From stdpp Require Import base list option.
From Stdlib Require Import ZArith Lia.
From S2P Require Import Prelude ArithUint256 Serialize.
Open Scope Z_scope.

(** [memcpy(dst + off, src, length src)] *)
Definition memcpy (dst : bytes) (off : nat) (src : bytes) : bytes :=
  take off dst ++ src ++ drop (off + length src) dst.

(** Big-endian words of crypto/common.h. *)
Definition WriteBE (n : nat) (x : Z) : bytes := rev (le_bytes n x).
Definition ReadBE (b : bytes) : Z := le_val (rev b).
Definition WriteBE32 (x : Z) : bytes := WriteBE 4 (u32 x).
Definition WriteBE64 (x : Z) : bytes := WriteBE 8 (u64 x).
Definition WriteLE64 (x : Z) : bytes := le_bytes 8 (u64 x).
Definition ReadBE32 (chunk : bytes) (off : nat) : Z := ReadBE (take 4 (drop off chunk)).
Definition ReadBE64 (chunk : bytes) (off : nat) : Z := ReadBE (take 8 (drop off chunk)).

Lemma length_memcpy d off x : (off + length x ≤ length d)%nat → length (memcpy d off x) = length d.
Proof. intros. unfold memcpy. rewrite !length_app, length_take, length_drop. lia. Qed.

Lemma take_memcpy d off x : (off + length x ≤ length d)%nat →
  take (off + length x) (memcpy d off x) = take off d ++ x.
Proof.
  intros. unfold memcpy. rewrite app_assoc. apply take_app_length'.
  rewrite length_app, length_take. lia.
Qed.

(** A sequence of writes appends all its pieces. *)
Lemma fold_writes {C} (holds : C → bytes → Prop) (wr : C → bytes → C) :
  (∀ c m d, holds c m → holds (wr c d) (m ++ d)) →
  ∀ ws c m, holds c m → holds (fold_left wr ws c) (m ++ concat ws).
Proof.
  intros H ws. induction ws as [|d ws IH]; intros c m Hc; cbn [fold_left concat]; [by rewrite app_nil_r|].
  rewrite app_assoc. by apply IH, H.
Qed.

Section Stream.
Context {St : Type} (BLK : nat) (Transform : St → bytes → St).

Record hasher := mkHasher { hs : St; hbuf : bytes; hbytes : Z }.

(** [while (end >= data + BLK) { Transform(s, data); bytes += BLK; data += BLK; }] *)
Fixpoint full_chunks (fuel : nat) (s : St) (nbytes : Z) (data : bytes) : St * Z * bytes :=
  match fuel with
  | O => (s, nbytes, data)
  | S fuel' =>
      if (length data <? BLK)%nat then (s, nbytes, data)
      else full_chunks fuel' (Transform s (take BLK data)) (u64 (nbytes + Z.of_nat BLK)) (drop BLK data)
  end.

(** Full chunks straight from the source, then the buffer takes what remains. *)
Definition write_rest (c : hasher) (bufsize : nat) (data : bytes) : hasher :=
  let '(s, nbytes, data) := full_chunks (length data) (hs c) (hbytes c) data in
  if (0 <? length data)%nat
  then mkHasher s (memcpy (hbuf c) bufsize data) (u64 (nbytes + Z.of_nat (length data)))
  else mkHasher s (hbuf c) nbytes.

Definition Write (c : hasher) (data : bytes) : hasher :=
  let bufsize := Z.to_nat (hbytes c mod Z.of_nat BLK) in
  if negb (bufsize =? 0)%nat && (BLK <=? bufsize + length data)%nat then
    (* fill the buffer, and process it *)
    let buf := memcpy (hbuf c) bufsize (take (BLK - bufsize) data) in
    let c := mkHasher (Transform (hs c) buf) buf (u64 (hbytes c + Z.of_nat (BLK - bufsize))) in
    write_rest c 0 (drop (BLK - bufsize) data)
  else write_rest c bufsize data.

(** The variant of [CSHA256]: the block function takes a number of blocks, and
    all full ones are handed to a single call. *)
Fixpoint transform_blocks (s : St) (chunk : bytes) (blocks : nat) {struct blocks} : St :=
  match blocks with
  | O => s
  | S blocks' => transform_blocks (Transform s (take BLK chunk)) (drop BLK chunk) blocks'
  end.

Definition write_blocks (c : hasher) (data : bytes) : hasher :=
  let bufsize := Z.to_nat (hbytes c mod Z.of_nat BLK) in
  let '(c, data, bufsize) :=
    if negb (bufsize =? 0)%nat && (BLK <=? bufsize + length data)%nat then
      let buf := memcpy (hbuf c) bufsize (take (BLK - bufsize) data) in
      (mkHasher (transform_blocks (hs c) buf 1) buf (u64 (hbytes c + Z.of_nat (BLK - bufsize))),
       drop (BLK - bufsize) data, 0%nat)
    else (c, data, bufsize) in
  let '(c, data) :=
    if (BLK <=? length data)%nat then
      let blocks := (length data / BLK)%nat in
      (mkHasher (transform_blocks (hs c) data blocks) (hbuf c) (u64 (hbytes c + Z.of_nat (BLK * blocks))),
       drop (BLK * blocks) data)
    else (c, data) in
  if (0 <? length data)%nat
  then mkHasher (hs c) (memcpy (hbuf c) bufsize data) (u64 (hbytes c + Z.of_nat (length data)))
  else c.

(** ** What has been written *)

(** The block function over the first [n] blocks. *)
Fixpoint absorb (n : nat) (s : St) (m : bytes) : St :=
  match n with
  | O => s
  | S n' => absorb n' (Transform s (take BLK m)) (drop BLK m)
  end.

Definition absorbed (init : St) (m : bytes) : St := absorb (length m / BLK) init m.

(** The hasher has consumed exactly the message [m]. *)
Record consumed (init : St) (c : hasher) (m : bytes) : Prop := {
  consumed_state : hs c = absorbed init m;
  consumed_count : hbytes c = u64 (Z.of_nat (length m));
  consumed_len : length (hbuf c) = BLK;
  consumed_tail : take (length m mod BLK) (hbuf c) = drop (BLK * (length m / BLK)) m }.

Context (HBLK : (1 ≤ BLK)%nat) (Hdiv : (Z.of_nat BLK | 2 ^ 64)).

Lemma absorb_app k : ∀ j s a b, length a = (BLK * k)%nat →
  absorb (k + j) s (a ++ b) = absorb j (absorb k s a) b.
Proof.
  induction k as [|k IH]; intros j s a b Ha.
  - rewrite Nat.mul_0_r in Ha. apply nil_length_inv in Ha as ->. done.
  - cbn [plus absorb]. rewrite take_app_le, drop_app_le by lia. apply IH. rewrite length_drop. lia.
Qed.

Lemma absorb_prefix k : ∀ s a b, length a = (BLK * k)%nat → absorb k s (a ++ b) = absorb k s a.
Proof. intros s a b Ha. rewrite <- (Nat.add_0_r k) at 1. by rewrite absorb_app. Qed.

Lemma full_chunks_spec fuel : ∀ s nb d, (length d ≤ fuel)%nat →
  full_chunks fuel s nb d =
    (absorb (length d / BLK) s d,
     if (length d <? BLK)%nat then nb else u64 (nb + Z.of_nat (BLK * (length d / BLK))),
     drop (BLK * (length d / BLK)) d).
Proof.
  induction fuel as [|fuel IH]; intros s nb d Hd; cbn [full_chunks].
  - destruct d; [|cbn in Hd; lia]. cbn [length]. rewrite Nat.Div0.div_0_l, Nat.mul_0_r.
    destruct (Nat.ltb_spec 0 BLK); [done|lia].
  - destruct (Nat.ltb_spec (length d) BLK) as [L|L].
    { by rewrite Nat.div_small, Nat.mul_0_r by done. }
    rewrite IH by (rewrite length_drop; lia). rewrite length_drop.
    assert (E : (length d / BLK = S ((length d - BLK) / BLK))%nat).
    { rewrite <- (Nat.sub_add BLK (length d)) at 1 by done.
      replace (length d - BLK + BLK)%nat with (length d - BLK + 1 * BLK)%nat by lia.
      rewrite Nat.div_add by lia. lia. }
    rewrite E. cbn [absorb]. f_equal; [f_equal|].
    + destruct (Nat.ltb_spec (length d - BLK) BLK).
      * rewrite Nat.div_small by done. f_equal. lia.
      * unfold u64. rewrite Zplus_mod_idemp_l. f_equal. lia.
    + rewrite drop_drop. f_equal. lia.
Qed.

Lemma transform_blocks_absorb n : ∀ s d, transform_blocks s d n = absorb n s d.
Proof. induction n as [|n IH]; intros s d; [done|]. apply IH. Qed.

(** Handing all full blocks to one call is the loop over them. *)
Lemma write_blocks_eq c d : length (hbuf c) = BLK → write_blocks c d = Write c d.
Proof.
  intros Hl. unfold write_blocks, Write, write_rest. set (b := Z.to_nat (hbytes c mod Z.of_nat BLK)).
  assert (Hrest : ∀ (c : hasher) b e,
    (let '(c, data) :=
       if (BLK <=? length e)%nat then
         (mkHasher (transform_blocks (hs c) e (length e / BLK)) (hbuf c)
            (u64 (hbytes c + Z.of_nat (BLK * (length e / BLK)))), drop (BLK * (length e / BLK)) e)
       else (c, e) in
     if (0 <? length data)%nat
     then mkHasher (hs c) (memcpy (hbuf c) b data) (u64 (hbytes c + Z.of_nat (length data))) else c) =
    (let '(s, nbytes, data) := full_chunks (length e) (hs c) (hbytes c) e in
     if (0 <? length data)%nat
     then mkHasher s (memcpy (hbuf c) b data) (u64 (nbytes + Z.of_nat (length data)))
     else mkHasher s (hbuf c) nbytes)).
  { intros c' b' e. rewrite full_chunks_spec by lia. destruct (Nat.leb_spec BLK (length e)).
    - rewrite (proj2 (Nat.ltb_ge (length e) BLK)), transform_blocks_absorb by lia. done.
    - rewrite (proj2 (Nat.ltb_lt (length e) BLK)), Nat.div_small, Nat.mul_0_r by lia. by destruct c'. }
  destruct (negb (b =? 0)%nat && (BLK <=? b + length d)%nat) eqn:Eb; [|apply Hrest].
  rewrite Hrest. cbn [hs hbuf hbytes transform_blocks].
  rewrite (take_ge (memcpy _ _ _)); [done|].
  apply andb_true_iff in Eb as [_ Eb]. apply Nat.leb_le in Eb.
  pose proof (Z.mod_pos_bound (hbytes c) (Z.of_nat BLK) ltac:(lia)).
  rewrite length_memcpy, Hl; [done|]. rewrite length_take. lia.
Qed.

Lemma count_mod (m : bytes) : Z.to_nat (u64 (Z.of_nat (length m)) mod Z.of_nat BLK) = (length m mod BLK)%nat.
Proof.
  unfold u64. rewrite Z.mod_mod_divide by done.
  rewrite <- Nat2Z.inj_mod. apply Nat2Z.id.
Qed.

Lemma div_mod_eq k : (k = BLK * (k / BLK) + k mod BLK ∧ k mod BLK < BLK)%nat.
Proof. split; [apply Nat.div_mod_eq|apply Nat.mod_upper_bound; lia]. Qed.

Lemma div_mod_unique' k q r : (k = BLK * q + r → r < BLK → k / BLK = q ∧ k mod BLK = r)%nat.
Proof.
  intros E Hr. split; [symmetry; by apply (Nat.div_unique k BLK q r)|symmetry; by apply (Nat.mod_unique k BLK q r)].
Qed.

(** Appending to a message at a block boundary. *)
Lemma absorbed_app init (m d : bytes) : (length m mod BLK = 0)%nat →
  absorbed init (m ++ d) = absorb (length d / BLK) (absorbed init m) d.
Proof.
  intros H0. unfold absorbed. destruct (div_mod_eq (length m)) as [E _]. rewrite H0, Nat.add_0_r in E.
  rewrite <- absorb_app by done. f_equal. rewrite length_app, E at 1.
  rewrite (Nat.mul_comm BLK), Nat.add_comm, Nat.div_add by lia. lia.
Qed.

Lemma write_rest_spec init c m d : consumed init c m →
  (length m mod BLK = 0 ∨ length m mod BLK + length d < BLK)%nat →
  consumed init (write_rest c (length m mod BLK) d) (m ++ d).
Proof.
  intros [C1 C2 C3 C4] Hb. unfold write_rest. rewrite full_chunks_spec by done.
  destruct (div_mod_eq (length m)) as [Em Lm]. destruct (div_mod_eq (length d)) as [Ed Ld].
  set (b := (length m mod BLK)%nat) in *. set (q := (length m / BLK)%nat) in *.
  set (e := (length d mod BLK)%nat) in *. set (p := (length d / BLK)%nat) in *.
  assert (Hlen : length (drop (BLK * p) d) = e) by (rewrite length_drop; lia).
  assert (Hq : (length (m ++ d) / BLK = q + p ∧ length (m ++ d) mod BLK = b + e)%nat).
  { apply div_mod_unique'; [rewrite length_app|]; [lia|]. destruct Hb as [-> |]; [lia|]. nia. }
  assert (Hs : absorb p (hs c) d = absorbed init (m ++ d)).
  { destruct Hb as [Hb|Hb]; [by rewrite C1, absorbed_app|].
    assert (p = 0)%nat as -> by nia. cbn [absorb]. rewrite C1. unfold absorbed. rewrite (proj1 Hq).
    rewrite Nat.add_0_r. fold q. rewrite <- (take_drop (BLK * q) m) at 1 2. rewrite <- app_assoc.
    rewrite !absorb_prefix by (rewrite length_take; lia). done. }
  assert (Hc : u64 ((if (length d <? BLK)%nat then hbytes c else u64 (hbytes c + Z.of_nat (BLK * p))) +
                 Z.of_nat e) = u64 (Z.of_nat (length (m ++ d)))).
  { rewrite length_app, C2. unfold u64. destruct (Nat.ltb_spec (length d) BLK).
    - assert (p = 0)%nat by nia. rewrite Zplus_mod_idemp_l. f_equal. lia.
    - rewrite Zplus_mod_idemp_l, <- Z.add_assoc, Zplus_mod_idemp_l. f_equal. lia. }
  assert (Ht : drop (BLK * q) m ++ drop (BLK * p) d = drop (BLK * (q + p)) (m ++ d)).
  { rewrite drop_app, Nat.mul_add_distr_l. destruct Hb as [Hb|Hb].
    - rewrite !(drop_ge m) by lia. f_equal. f_equal. lia.
    - assert (p = 0)%nat as -> by nia. rewrite Nat.mul_0_r, Nat.add_0_r.
      replace (BLK * q - length m)%nat with 0%nat by lia. done. }
  destruct (Nat.ltb_spec 0 (length (drop (BLK * p) d))) as [L|L]; rewrite Hlen in *.
  - split; cbn [hs hbuf hbytes]; [done..| |].
    + rewrite length_memcpy; [done|]. rewrite C3, Hlen. lia.
    + rewrite (proj2 Hq), (proj1 Hq). rewrite <- Hlen at 1.
      by rewrite take_memcpy, C4 by (rewrite C3, Hlen; lia).
  - assert (e = 0)%nat by lia. assert (drop (BLK * p) d = []) as Hd by (by apply nil_length_inv; lia).
    split; cbn [hs hbuf hbytes]; [done| |done|].
    + rewrite <- Hc. replace (Z.of_nat e) with 0 by lia. rewrite Z.add_0_r.
      destruct (length d <? BLK)%nat; unfold u64; [by rewrite C2; unfold u64; rewrite Z.mod_mod|by rewrite Z.mod_mod].
    + rewrite (proj2 Hq), (proj1 Hq), <- Ht, Hd, app_nil_r. replace (b + e)%nat with b by lia. done.
Qed.

(** Writing appends to the message, wherever the calls split it. *)
Lemma Write_spec init c m d : consumed init c m → consumed init (Write c d) (m ++ d).
Proof.
  intros C. pose proof C as [C1 C2 C3 C4]. unfold Write. rewrite C2, count_mod.
  destruct (div_mod_eq (length m)) as [Em Lm].
  destruct (Nat.eqb_spec (length m mod BLK) 0) as [E0|E0]; cbn [negb andb].
  { apply write_rest_spec; auto. }
  destruct (Nat.leb_spec BLK (length m mod BLK + length d)) as [L|L]; [|apply write_rest_spec; auto].
  set (b := (length m mod BLK)%nat) in *. set (q := (length m / BLK)%nat) in *.
  replace (m ++ d) with ((m ++ take (BLK - b) d) ++ drop (BLK - b) d) by (by rewrite <- app_assoc, take_drop).
  assert (Hl : length (m ++ take (BLK - b) d) = (BLK * S q)%nat) by (rewrite length_app, length_take; lia).
  destruct (div_mod_unique' (length (m ++ take (BLK - b) d)) (S q) 0 ltac:(lia) ltac:(lia)) as [Hq H0].
  assert (Hbuf : memcpy (hbuf c) b (take (BLK - b) d) = drop (BLK * q) m ++ take (BLK - b) d).
  { unfold memcpy. rewrite C4, (drop_ge (hbuf c)), app_nil_r; [done|].
    rewrite C3, length_take. lia. }
  rewrite <- H0. apply write_rest_spec; [|by left]. split; cbn [hs hbuf hbytes].
  - rewrite C1, Hbuf. unfold absorbed. rewrite Hq. fold q.
    rewrite <- (take_drop (BLK * q) m) at 1 3. rewrite <- app_assoc.
    replace (S q) with (q + 1)%nat by lia.
    rewrite absorb_app, absorb_prefix by (rewrite length_take; lia). cbn [absorb].
    rewrite (take_ge (drop (BLK * q) m ++ _)) by (rewrite length_app, length_drop, length_take; lia). done.
  - unfold u64. rewrite Zplus_mod_idemp_l. f_equal. rewrite Hl. lia.
  - rewrite Hbuf, length_app, length_drop, length_take. lia.
  - rewrite H0, Hq, take_0, drop_ge; [done|]. rewrite Hl. done.
Qed.

(** A fresh hasher has consumed nothing. *)
Lemma consumed_nil init b : length b = BLK → consumed init (mkHasher init b 0) [].
Proof.
  intros Hb. assert (E : (length ([] : bytes) / BLK = 0 ∧ length ([] : bytes) mod BLK = 0)%nat)
    by (apply div_mod_unique'; cbn; lia). destruct E as [E1 E2].
  split; cbn [hs hbuf hbytes]; unfold absorbed; rewrite ?E1, ?E2; [done..| |].
  - done.
  - rewrite drop_nil. done.
Qed.
(** ** Closing the stream

    [padk] is the constant of the source, two blocks less the length field
    less one; [desc] writes the length field from the number of bits. *)
Context (padk : nat) (lenf : nat) (desc : Z → bytes).
Context (Hpadk : (padk + 1 + lenf = 2 * BLK)%nat) (Hlenf : (lenf ≤ BLK)%nat)
  (Hdesc : ∀ x, length (desc x) = lenf).

Definition padlen (nbytes : Z) : nat := S ((padk - Z.to_nat (nbytes mod Z.of_nat BLK)) mod BLK).
Definition pad_bytes (k : nat) : bytes := take k (128 :: replicate (BLK - 1) 0).

Definition Finalize_state (c : hasher) : hasher :=
  let sizedesc := desc (u64 (Z.shiftl (hbytes c) 3)) in
  Write (Write c (pad_bytes (padlen (hbytes c)))) sizedesc.

(** The length of the padding as the source computes it. *)
Lemma padlen_Z h : Z.to_nat (1 + (Z.of_nat padk - h mod Z.of_nat BLK) mod Z.of_nat BLK) = padlen h.
Proof.
  unfold padlen. pose proof (Z.mod_pos_bound h (Z.of_nat BLK) ltac:(lia)).
  replace (Z.of_nat padk - h mod Z.of_nat BLK) with (Z.of_nat (padk - Z.to_nat (h mod Z.of_nat BLK))) by lia.
  rewrite <- Nat2Z.inj_mod. lia.
Qed.

(** The padded message of the standard: a one bit, zeros up to the length
    field, the length in bits. *)
Definition padded (m : bytes) : bytes :=
  m ++ 128 :: replicate ((padk - length m mod BLK) mod BLK) 0 ++ desc (u64 (8 * Z.of_nat (length m))).

Lemma padded_blocks m : (length (padded m) mod BLK = 0)%nat.
Proof.
  unfold padded. rewrite length_app. cbn [length]. rewrite length_app, length_replicate, Hdesc.
  destruct (div_mod_eq (length m)) as [E L]. set (b := (length m mod BLK)%nat) in *.
  destruct (div_mod_eq (padk - b)) as [E' L'].
  apply (div_mod_unique' _ (length m / BLK + 2 - (padk - b) / BLK)); [|lia].
  assert ((padk - b) / BLK < 2)%nat; [|nia]. apply Nat.Div0.div_lt_upper_bound. lia.
Qed.

Lemma Finalize_spec init c m : consumed init c m → hs (Finalize_state c) = absorbed init (padded m).
Proof.
  intros C. unfold Finalize_state.
  pose proof (Write_spec init _ _ (desc (u64 (Z.shiftl (hbytes c) 3)))
    (Write_spec init c m (pad_bytes (padlen (hbytes c))) C)) as [H _ _ _].
  rewrite H. f_equal. unfold padded. rewrite <- app_assoc. f_equal.
  destruct C as [_ C2 _ _]. unfold padlen. rewrite C2, count_mod. unfold pad_bytes. cbn [take].
  rewrite take_replicate. cbn [app]. f_equal. f_equal.
  - f_equal. pose proof (Nat.mod_upper_bound (padk - length m mod BLK) BLK ltac:(lia)). lia.
  - f_equal. rewrite Z.shiftl_mul_pow2 by lia. unfold u64. rewrite Zmult_mod_idemp_l. f_equal. lia.
Qed.
End Stream.
Arguments hasher : clear implicits.
