(* ===== verification/Sha2.v ===== *)
(** SHA-256 and SHA-512 (crypto/sha256.cpp, crypto/sha512.cpp).

    The unrolled rounds of the two [Transform] functions are lists of [Round]
    calls, one per source line, with the register order, the constant and the
    message word of the call. They are proved to compute the block function
    of FIPS 180-4, whose constants are here derived from the roots of the
    primes as the standard defines them. *)
From stdpp Require Import base list option.
From Stdlib Require Import ZArith Lia.
From S2P Require Import Prelude ArithUint256 Serialize HashStream.
Open Scope Z_scope.

(** * The functions the two hashes share, up to their width *)

Definition Ch (x y z : Z) : Z := Z.lxor z (Z.land x (Z.lxor y z)).
Definition Maj (x y z : Z) : Z := Z.lor (Z.land x y) (Z.land z (Z.lor x y)).

(** [x >> n | x << (w - n)] on a [w]-bit word *)
Definition rotr (w n x : Z) : Z := Z.lor (Z.shiftr x n) (Z.shiftl x (w - n) mod 2 ^ w).

(** The message word of a round: [wI = ReadBE(chunk + off)],
    [wI += sigma1(wJ) + wK + sigma0(wL)], or the same sum not stored. *)
Inductive wexpr :=
  | w_load (i off : nat)
  | w_add (i j k l : nat)
  | w_tmp (i j k l : nat).

(** [Round(a, b, c, d, e, f, g, h, k, w)]: the registers in order, the constant
    and the word. *)
Record round_call := mkRound { call_regs : list nat; call_k : Z; call_w : wexpr }.

(** ** Growing a list of words by a recurrence *)

Fixpoint grow (next : list Z → Z) (n : nat) (ws : list Z) : list Z :=
  match n with
  | O => ws
  | S n' => grow next n' (ws ++ [next ws])
  end.

Lemma length_grow next n : ∀ ws, length (grow next n ws) = (length ws + n)%nat.
Proof. induction n as [|n IH]; intros ws; cbn; [lia|]. rewrite IH, length_app. cbn. lia. Qed.

Lemma take_grow next n : ∀ ws t, (t ≤ length ws)%nat → take t (grow next n ws) = take t ws.
Proof.
  induction n as [|n IH]; intros ws t Ht; [done|]. cbn [grow].
  rewrite IH by (rewrite length_app; lia). by apply take_app_le.
Qed.

Lemma grow_prefix next n ws t : (t < length ws)%nat → nth t (grow next n ws) 0 = nth t ws 0.
Proof.
  revert ws. induction n as [|n IH]; intros ws Ht; [done|]. cbn [grow].
  rewrite IH by (rewrite length_app; lia). by apply app_nth1.
Qed.

Lemma grow_rec next n : ∀ ws t, (length ws ≤ t)%nat → (t < length ws + n)%nat →
  nth t (grow next n ws) 0 = next (take t (grow next n ws)).
Proof.
  induction n as [|n IH]; intros ws t Hl Ht; [lia|]. cbn [grow].
  destruct (Nat.eq_dec t (length ws)) as [->|Hn].
  - rewrite take_grow, grow_prefix by (rewrite length_app; cbn; lia).
    rewrite take_app_length, app_nth2, Nat.sub_diag by lia. done.
  - apply IH; rewrite length_app; cbn; lia.
Qed.

Lemma nth_take_lt (l : list Z) i t : (i < t)%nat → nth i (take t l) 0 = nth i l 0.
Proof.
  revert i l. induction t as [|t IH]; intros i l Hi; [lia|]. destruct l, i; cbn; [done..|]. apply IH. lia.
Qed.

Lemma mod16_neq i t : (i < t < i + 16)%nat → (i mod 16 ≠ t mod 16)%nat.
Proof. intros H E. pose proof (Nat.div_mod_eq i 16). pose proof (Nat.div_mod_eq t 16). nia. Qed.

Lemma mod16_sub t : (16 ≤ t)%nat → ((t - 16) mod 16 = t mod 16)%nat.
Proof.
  intros H. rewrite <- (Nat.sub_add 16 t) at 2 by lia.
  replace (t - 16 + 16)%nat with (t - 16 + 1 * 16)%nat by lia. by rewrite Nat.Div0.mod_add.
Qed.

(** A window of sixteen words, overwritten cyclically. *)
Lemma window_upd (W ws : list Z) (t M : nat) : (length ws = 16)%nat →
  (∀ i, (i < t)%nat → (t ≤ i + 16)%nat → (i < M)%nat → nth (i mod 16) ws 0 = nth i W 0) →
  ∀ i, (i < S t)%nat → (S t ≤ i + 16)%nat → (i < M)%nat →
  nth (i mod 16) (upd (t mod 16) (nth t W 0) ws) 0 = nth i W 0.
Proof.
  intros Hl Hws i H1 H2 H3. rewrite nth_upd. destruct (Nat.eq_dec i t) as [->|Hn].
  - pose proof (Nat.mod_upper_bound t 16 ltac:(lia)).
    rewrite Nat.eqb_refl, (proj2 (Nat.ltb_lt _ _)) by lia. done.
  - rewrite (proj2 (Nat.eqb_neq _ _)) by (pose proof (mod16_neq i t); lia). cbn [andb]. apply Hws; lia.
Qed.

Section Rounds.
Context (w : Z) (Sigma0 Sigma1 sigma0 sigma1 : Z → Z) (load : bytes → nat → Z).

Definition Round (a b c d e f g h k x : Z) : Z * Z :=
  let t1 := (h + Sigma1 e + Ch e f g + k + x) mod 2 ^ w in
  let t2 := (Sigma0 a + Maj a b c) mod 2 ^ w in
  ((d + t1) mod 2 ^ w, (t1 + t2) mod 2 ^ w).

Definition wsum (ws : list Z) (i j k l : nat) : Z :=
  (nth i ws 0 + (sigma1 (nth j ws 0) + nth k ws 0 + sigma0 (nth l ws 0))) mod 2 ^ w.

Definition eval_w (chunk : bytes) (ws : list Z) (x : wexpr) : Z * list Z :=
  match x with
  | w_load i off => let v := load chunk off in (v, upd i v ws)
  | w_add i j k l => let v := wsum ws i j k l in (v, upd i v ws)
  | w_tmp i j k l => (wsum ws i j k l, ws)
  end.

(** The registers are passed in the order of the call; [d] and [h] are
    references. *)
Definition run_round (chunk : bytes) (st : list Z * list Z) (c : round_call) : list Z * list Z :=
  let '(r, ws) := st in
  let '(x, ws) := eval_w chunk ws (call_w c) in
  let reg n := nth (nth n (call_regs c) O) r 0 in
  let '(d, h) := Round (reg 0%nat) (reg 1%nat) (reg 2%nat) (reg 3%nat) (reg 4%nat) (reg 5%nat)
                       (reg 6%nat) (reg 7%nat) (call_k c) x in
  (upd (nth 7 (call_regs c) O) h (upd (nth 3 (call_regs c) O) d r), ws).

Definition run_rounds (calls : list round_call) (s : list Z) (chunk : bytes) : list Z :=
  let '(r, _) := fold_left (run_round chunk) calls (s, repeat 0 16) in
  zip_with (λ x y, (x + y) mod 2 ^ w) s r.

(** ** The block function of the standard *)

Definition Ch_std (x y z : Z) : Z := Z.lxor (Z.land x y) (Z.land (Z.lnot x) z).
Definition Maj_std (x y z : Z) : Z := Z.lxor (Z.lxor (Z.land x y) (Z.land x z)) (Z.land y z).

Definition next_word (ws : list Z) : Z :=
  let t := length ws in
  (sigma1 (nth (t - 2) ws 0) + nth (t - 7) ws 0 + sigma0 (nth (t - 15) ws 0) + nth (t - 16) ws 0) mod 2 ^ w.

Definition schedule : nat → list Z → list Z := grow next_word.

Definition std_step (st : list Z) (kw : Z * Z) : list Z :=
  match st with
  | [a; b; c; d; e; f; g; h] =>
      let t1 := (h + Sigma1 e + Ch_std e f g + kw.1 + kw.2) mod 2 ^ w in
      let t2 := (Sigma0 a + Maj_std a b c) mod 2 ^ w in
      [(t1 + t2) mod 2 ^ w; a; b; c; (d + t1) mod 2 ^ w; e; f; g]
  | _ => st
  end.

(** [N] rounds with the constants [K]; the words of the block are big-endian
    and [bytes_per] bytes long. *)
Definition std_block (bytes_per : nat) (K : list Z) (s : list Z) (chunk : bytes) : list Z :=
  let ws := schedule (length K - 16) (map (λ t, load chunk (bytes_per * t)) (seq 0 16)) in
  zip_with (λ x y, (x + y) mod 2 ^ w) s (fold_left std_step (combine K ws) s).

(** The call of round [t]: the registers rotate by one place each time. *)
Definition std_call (bytes_per N : nat) (K : list Z) (t : nat) : round_call :=
  mkRound (map (λ j, (j + (8 - t mod 8)) mod 8)%nat (seq 0 8)) (nth t K 0)
    (if (t <? 16)%nat then w_load t (bytes_per * t)
     else (if (t <? N - 2)%nat then w_add else w_tmp)
            (t mod 16)%nat ((t - 2) mod 16)%nat ((t - 7) mod 16)%nat ((t - 15) mod 16)%nat).

(** ** The unrolled rounds compute the standard *)

Lemma Ch_eq x y z : Ch x y z = Ch_std x y z.
Proof.
  apply Z.bits_inj'. intros n Hn. unfold Ch, Ch_std. rewrite !Z.lxor_spec, !Z.land_spec, Z.lxor_spec, Z.lnot_spec by done.
  by destruct (Z.testbit x n), (Z.testbit y n), (Z.testbit z n).
Qed.

Lemma Maj_eq x y z : Maj x y z = Maj_std x y z.
Proof.
  apply Z.bits_inj'. intros n Hn. unfold Maj, Maj_std. rewrite Z.lor_spec, !Z.lxor_spec, !Z.land_spec, Z.lor_spec.
  by destruct (Z.testbit x n), (Z.testbit y n), (Z.testbit z n).
Qed.

Lemma schedule_rec n ws t : (16 ≤ length ws ≤ t)%nat → (t < length ws + n)%nat →
  let S := schedule n ws in
  nth t S 0 = (nth (t - 16) S 0 + (sigma1 (nth (t - 2) S 0) + nth (t - 7) S 0 + sigma0 (nth (t - 15) S 0))) mod 2 ^ w.
Proof.
  intros Hl Ht. unfold schedule. cbv zeta. rewrite (grow_rec next_word n ws t) at 1 by lia. unfold next_word at 1.
  rewrite length_take, length_grow. replace (t `min` (length ws + n))%nat with t by lia.
  rewrite !nth_take_lt by lia. f_equal. lia.
Qed.

(** The registers in the order of round [c]. *)
Definition rot (c : nat) (r : list Z) : list Z :=
  map (λ j, nth ((j + (8 - c)) mod 8)%nat r 0) (seq 0 8).

Lemma rot_0 r : length r = 8%nat → rot 0 r = r.
Proof. intros Hr. do 8 (destruct r as [|? r]; [done|]). by destruct r. Qed.

Lemma rot_step c r k x : (c < 8)%nat → length r = 8%nat →
  let regs := map (λ j, (j + (8 - c)) mod 8)%nat (seq 0 8) in
  let reg n := nth (nth n regs O) r 0 in
  let dh := Round (reg 0%nat) (reg 1%nat) (reg 2%nat) (reg 3%nat) (reg 4%nat) (reg 5%nat)
                  (reg 6%nat) (reg 7%nat) k x in
  rot (S c) (upd (nth 7 regs O) dh.2 (upd (nth 3 regs O) dh.1 r)) = std_step (rot c r) (k, x).
Proof.
  intros Hc Hr. do 8 (destruct r as [|? r]; [done|]). destruct r; [|done].
  do 8 (destruct c as [|c]; [cbn; by rewrite Ch_eq, Maj_eq|]). lia.
Qed.

Section Equivalence.
Context (bytes_per : nat) (K : list Z) (s : list Z) (chunk : bytes).
Context (Hs : length s = 8%nat) (HK : (18 ≤ length K)%nat).

Let N := length K.
Let W := schedule (length K - 16) (map (λ t, load chunk (bytes_per * t)) (seq 0 16)).
Let after (t : nat) := fold_left (run_round chunk) (map (std_call bytes_per N K) (seq 0 t)) (s, repeat 0 16).

Lemma length_W : length W = N.
Proof. unfold W, schedule. rewrite length_grow, length_map, length_seq. unfold N. lia. Qed.

(** The word used in round [t], and what it leaves in the window. *)
Lemma eval_w_std t ws : (t < N)%nat → length ws = 16%nat →
  (∀ i, (i < t)%nat → (t ≤ i + 16)%nat → (i < N - 2)%nat → nth (i mod 16) ws 0 = nth i W 0) →
  ∃ ws', eval_w chunk ws (call_w (std_call bytes_per N K t)) = (nth t W 0, ws') ∧ length ws' = 16%nat ∧
  (∀ i, (i < S t)%nat → (S t ≤ i + 16)%nat → (i < N - 2)%nat → nth (i mod 16) ws' 0 = nth i W 0).
Proof.
  intros Ht Hl Hws. unfold std_call. cbn [call_w].
  pose proof (window_upd W ws t (N - 2) Hl Hws) as Hupd.
  destruct (Nat.ltb_spec t 16) as [L|L].
  - assert (E : nth t W 0 = load chunk (bytes_per * t)).
    { unfold W, schedule. rewrite grow_prefix by (rewrite length_map, length_seq; lia).
      rewrite (nth_indep _ 0 (load chunk (bytes_per * 0))) by (rewrite length_map, length_seq; lia).
      rewrite (map_nth (λ t, load chunk (bytes_per * t))). by rewrite seq_nth by lia. }
    cbn [eval_w]. rewrite <- E. exists (upd (t mod 16) (nth t W 0) ws).
    rewrite length_upd. split; [by rewrite (Nat.mod_small t 16) by lia|done].
  - assert (E : wsum ws (t mod 16) ((t - 2) mod 16) ((t - 7) mod 16) ((t - 15) mod 16) = nth t W 0).
    { unfold W at 1. rewrite schedule_rec by (rewrite length_map, length_seq; unfold N in *; lia). fold W.
      unfold wsum. rewrite <- (mod16_sub t), !Hws by lia. done. }
    destruct (Nat.ltb_spec t (N - 2)); cbn [eval_w]; rewrite E; eexists; (split; [done|]).
    + rewrite length_upd. done.
    + split; [done|]. intros i H1 H2 H3. apply Hws; lia.
Qed.

Lemma rounds_inv t : (t ≤ N)%nat →
  ∃ r ws, after t = (r, ws) ∧ length r = 8%nat ∧ length ws = 16%nat ∧
    rot (t mod 8) r = fold_left std_step (take t (combine K W)) s ∧
    (∀ i, (i < t)%nat → (t ≤ i + 16)%nat → (i < N - 2)%nat → nth (i mod 16) ws 0 = nth i W 0).
Proof.
  induction t as [|t IH]; intros Ht.
  - exists s, (repeat 0 16). split_and!; [done..| |lia].
    by rewrite rot_0.
  - destruct IH as (r & ws & E & Hr & Hw & Hrot & Hws); [lia|].
    destruct (eval_w_std t ws ltac:(lia) Hw Hws) as (ws' & Ew & Hw' & Hws').
    assert (Ec : take (S t) (combine K W) = take t (combine K W) ++ [(nth t K 0, nth t W 0)]).
    { rewrite (take_S_nth _ (0, 0)) by (rewrite length_combine, length_W; unfold N in *; lia).
      by rewrite combine_nth by (by rewrite length_W). }
    set (c := std_call bytes_per N K t) in *.
    set (dh := Round (nth (nth 0 (call_regs c) O) r 0) (nth (nth 1 (call_regs c) O) r 0)
      (nth (nth 2 (call_regs c) O) r 0) (nth (nth 3 (call_regs c) O) r 0) (nth (nth 4 (call_regs c) O) r 0)
      (nth (nth 5 (call_regs c) O) r 0) (nth (nth 6 (call_regs c) O) r 0) (nth (nth 7 (call_regs c) O) r 0)
      (call_k c) (nth t W 0)).
    exists (upd (nth 7 (call_regs c) O) dh.2 (upd (nth 3 (call_regs c) O) dh.1 r)), ws'.
    split_and!; [|by rewrite !length_upd|done| |done].
    + unfold after. rewrite seq_S, map_app, fold_left_app. cbn [plus map fold_left]. fold (after t).
      rewrite E. unfold run_round. fold c. rewrite Ew. fold dh. by destruct dh.
    + rewrite Ec, fold_left_app, <- Hrot. cbn [fold_left].
      pose proof (Nat.mod_upper_bound t 8 ltac:(lia)) as Hc.
      replace (rot (S t mod 8)) with (rot (S (t mod 8))).
      * by apply (rot_step (t mod 8) r).
      * destruct (Nat.eq_dec (t mod 8) 7) as [E7|E7].
        -- replace (S t mod 8)%nat with 0%nat; [by rewrite E7|].
           pose proof (Nat.div_mod_eq t 8). apply (Nat.mod_unique (S t) 8 (S (t / 8)) 0); lia.
        -- f_equal. pose proof (Nat.div_mod_eq t 8). apply (Nat.mod_unique (S t) 8 (t / 8)); lia.
Qed.

Lemma run_rounds_std : (N mod 8 = 0)%nat →
  run_rounds (map (std_call bytes_per N K) (seq 0 N)) s chunk = std_block bytes_per K s chunk.
Proof.
  intros H8. destruct (rounds_inv N ltac:(done)) as (r & ws & E & Hr & _ & Hrot & _).
  unfold run_rounds, std_block. fold (after N). rewrite E. fold W.
  rewrite take_ge in Hrot by (rewrite length_combine, length_W; unfold N; lia).
  by rewrite <- Hrot, H8, rot_0.
Qed.
End Equivalence.
End Rounds.

(** * Constants of the standard *)

(** Integer cube root, bit by bit from [2 ^ n] down. *)
Fixpoint icbrt_loop (n : nat) (r x : Z) : Z :=
  match n with
  | O => r
  | S n' => let r' := r + 2 ^ Z.of_nat n' in icbrt_loop n' (if r' ^ 3 <=? x then r' else r) x
  end.

Definition is_prime (n : Z) : bool := forallb (λ k, negb (n mod Z.of_nat k =? 0)) (seq 2 (Z.to_nat (Z.sqrt n - 1))).
Definition primes (n : nat) : list Z :=
  take n (List.filter is_prime (map Z.of_nat (seq 2 500))).

(** The first [w] bits of the fractional parts of the cube roots and of the
    square roots of the primes. *)
Definition K_std (w : Z) (n : nat) : list Z :=
  map (λ p, icbrt_loop (Z.to_nat (w + 4)) 0 (p * 2 ^ (3 * w)) mod 2 ^ w) (primes n).
Definition H_std (w : Z) : list Z := map (λ p, Z.sqrt (p * 2 ^ (2 * w)) mod 2 ^ w) (primes 8).

(** A call by its arguments, as the source writes it. *)
Definition call (a b c d e f g h : nat) (k : Z) (x : wexpr) : round_call :=
  mkRound [a; b; c; d; e; f; g; h] k x.

(** Block functions that agree on states of [k] words absorb alike. *)
Lemma absorb_ext k blk (f g : list Z → bytes → list Z) n : ∀ s m,
  (∀ s x, length s = k → length (f s x) = k) → (∀ s x, length s = k → f s x = g s x) →
  length s = k → absorb blk f n s m = absorb blk g n s m ∧ length (absorb blk f n s m) = k.
Proof.
  induction n as [|n IH]; intros s m H1 H2 Hs; cbn [absorb]; [done|].
  destruct (IH (f s (take blk m)) (drop blk m) H1 H2 (H1 _ _ Hs)) as [E L].
  split; [by rewrite E, H2|done].
Qed.

Lemma length_std_step w S0 S1 st kw : length (std_step w S0 S1 st kw) = length st.
Proof. unfold std_step. by repeat case_match. Qed.

Lemma WriteBE32_bytes x : is_bytes (WriteBE32 x) ∧ length (WriteBE32 x) = 4%nat.
Proof.
  unfold WriteBE32, WriteBE. rewrite length_rev, length_le_bytes. split; [|done]. apply Forall_rev, le_bytes_u8.
Qed.

Lemma digest_bytes blk width k (f : list Z → bytes → list Z) (w : Z → bytes) :
  (∀ x, is_bytes (w x) ∧ length (w x) = width) → (∀ s x, length s = k → length (f s x) = k) →
  ∀ init m, length init = k →
  is_bytes (concat (map w (absorbed blk f init m))) ∧ length (concat (map w (absorbed blk f init m))) = (width * k)%nat.
Proof.
  intros Hw Hf init m Hi. unfold absorbed.
  destruct (absorb_ext k blk f f (length m / blk) init m Hf (λ _ _ _, eq_refl) Hi) as [_ E].
  rewrite <- E. generalize (absorb blk f (length m / blk) init m). intros l. clear -Hw.
  induction l as [|x l [IH1 IH2]]; cbn [map concat length]; [split; [constructor|done]|].
  destruct (Hw x) as [H1 H2]. rewrite is_bytes_app, length_app. split; [done|lia].
Qed.

Lemma length_std_block w S0 S1 s0 s1 load per K s x : length s = 8%nat →
  length (std_block w S0 S1 s0 s1 load per K s x) = 8%nat.
Proof.
  intros Hs. unfold std_block. generalize (combine K
    (schedule w s0 s1 (length K - 16) (map (λ t, load x (per * t)%nat) (seq 0 16)))).
  intros l. rewrite length_zip_with, Hs.
  assert (length (fold_left (std_step w S0 S1) l s) = 8%nat) as ->; [|done].
  revert s Hs. induction l as [|kw l IH]; intros s Hs; cbn [fold_left]; [done|].
  apply IH. by rewrite length_std_step.
Qed.
