(* ===== verification/Sha256.v ===== *)
(** [CSHA256] (crypto/sha256.h, crypto/sha256.cpp): the unrolled block function,
    the streaming class and the proof that a digest is the SHA-256 of the
    bytes written, however the writes split them. *)
From stdpp Require Import base list option.
From Stdlib Require Import ZArith Lia.
From S2P Require Import Prelude ArithUint256 Serialize HashStream Sha2.
Open Scope Z_scope.

Definition Sigma0_256 (x : Z) : Z := Z.lxor (Z.lxor (rotr 32 2 x) (rotr 32 13 x)) (rotr 32 22 x).
Definition Sigma1_256 (x : Z) : Z := Z.lxor (Z.lxor (rotr 32 6 x) (rotr 32 11 x)) (rotr 32 25 x).
Definition sigma0_256 (x : Z) : Z := Z.lxor (Z.lxor (rotr 32 7 x) (rotr 32 18 x)) (Z.shiftr x 3).
Definition sigma1_256 (x : Z) : Z := Z.lxor (Z.lxor (rotr 32 17 x) (rotr 32 19 x)) (Z.shiftr x 10).

Definition sha256_Initialize : list Z :=
  [0x6a09e667; 0xbb67ae85; 0x3c6ef372; 0xa54ff53a; 0x510e527f; 0x9b05688c; 0x1f83d9ab; 0x5be0cd19].

(** The 64 calls of [Round], in the order of the source. *)
Definition sha256_rounds : list round_call :=
  let a := 0%nat in let b := 1%nat in let c := 2%nat in let d := 3%nat in
  let e := 4%nat in let f := 5%nat in let g := 6%nat in let h := 7%nat in
  [
   call a b c d e f g h 0x428a2f98 (w_load 0 0);
   call h a b c d e f g 0x71374491 (w_load 1 4);
   call g h a b c d e f 0xb5c0fbcf (w_load 2 8);
   call f g h a b c d e 0xe9b5dba5 (w_load 3 12);
   call e f g h a b c d 0x3956c25b (w_load 4 16);
   call d e f g h a b c 0x59f111f1 (w_load 5 20);
   call c d e f g h a b 0x923f82a4 (w_load 6 24);
   call b c d e f g h a 0xab1c5ed5 (w_load 7 28);
   call a b c d e f g h 0xd807aa98 (w_load 8 32);
   call h a b c d e f g 0x12835b01 (w_load 9 36);
   call g h a b c d e f 0x243185be (w_load 10 40);
   call f g h a b c d e 0x550c7dc3 (w_load 11 44);
   call e f g h a b c d 0x72be5d74 (w_load 12 48);
   call d e f g h a b c 0x80deb1fe (w_load 13 52);
   call c d e f g h a b 0x9bdc06a7 (w_load 14 56);
   call b c d e f g h a 0xc19bf174 (w_load 15 60);
   call a b c d e f g h 0xe49b69c1 (w_add 0 14 9 1);
   call h a b c d e f g 0xefbe4786 (w_add 1 15 10 2);
   call g h a b c d e f 0x0fc19dc6 (w_add 2 0 11 3);
   call f g h a b c d e 0x240ca1cc (w_add 3 1 12 4);
   call e f g h a b c d 0x2de92c6f (w_add 4 2 13 5);
   call d e f g h a b c 0x4a7484aa (w_add 5 3 14 6);
   call c d e f g h a b 0x5cb0a9dc (w_add 6 4 15 7);
   call b c d e f g h a 0x76f988da (w_add 7 5 0 8);
   call a b c d e f g h 0x983e5152 (w_add 8 6 1 9);
   call h a b c d e f g 0xa831c66d (w_add 9 7 2 10);
   call g h a b c d e f 0xb00327c8 (w_add 10 8 3 11);
   call f g h a b c d e 0xbf597fc7 (w_add 11 9 4 12);
   call e f g h a b c d 0xc6e00bf3 (w_add 12 10 5 13);
   call d e f g h a b c 0xd5a79147 (w_add 13 11 6 14);
   call c d e f g h a b 0x06ca6351 (w_add 14 12 7 15);
   call b c d e f g h a 0x14292967 (w_add 15 13 8 0);
   call a b c d e f g h 0x27b70a85 (w_add 0 14 9 1);
   call h a b c d e f g 0x2e1b2138 (w_add 1 15 10 2);
   call g h a b c d e f 0x4d2c6dfc (w_add 2 0 11 3);
   call f g h a b c d e 0x53380d13 (w_add 3 1 12 4);
   call e f g h a b c d 0x650a7354 (w_add 4 2 13 5);
   call d e f g h a b c 0x766a0abb (w_add 5 3 14 6);
   call c d e f g h a b 0x81c2c92e (w_add 6 4 15 7);
   call b c d e f g h a 0x92722c85 (w_add 7 5 0 8);
   call a b c d e f g h 0xa2bfe8a1 (w_add 8 6 1 9);
   call h a b c d e f g 0xa81a664b (w_add 9 7 2 10);
   call g h a b c d e f 0xc24b8b70 (w_add 10 8 3 11);
   call f g h a b c d e 0xc76c51a3 (w_add 11 9 4 12);
   call e f g h a b c d 0xd192e819 (w_add 12 10 5 13);
   call d e f g h a b c 0xd6990624 (w_add 13 11 6 14);
   call c d e f g h a b 0xf40e3585 (w_add 14 12 7 15);
   call b c d e f g h a 0x106aa070 (w_add 15 13 8 0);
   call a b c d e f g h 0x19a4c116 (w_add 0 14 9 1);
   call h a b c d e f g 0x1e376c08 (w_add 1 15 10 2);
   call g h a b c d e f 0x2748774c (w_add 2 0 11 3);
   call f g h a b c d e 0x34b0bcb5 (w_add 3 1 12 4);
   call e f g h a b c d 0x391c0cb3 (w_add 4 2 13 5);
   call d e f g h a b c 0x4ed8aa4a (w_add 5 3 14 6);
   call c d e f g h a b 0x5b9cca4f (w_add 6 4 15 7);
   call b c d e f g h a 0x682e6ff3 (w_add 7 5 0 8);
   call a b c d e f g h 0x748f82ee (w_add 8 6 1 9);
   call h a b c d e f g 0x78a5636f (w_add 9 7 2 10);
   call g h a b c d e f 0x84c87814 (w_add 10 8 3 11);
   call f g h a b c d e 0x8cc70208 (w_add 11 9 4 12);
   call e f g h a b c d 0x90befffa (w_add 12 10 5 13);
   call d e f g h a b c 0xa4506ceb (w_add 13 11 6 14);
   call c d e f g h a b 0xbef9a3f7 (w_tmp 14 12 7 15);
   call b c d e f g h a 0xc67178f2 (w_tmp 15 13 8 0)].

(** One iteration of [while (blocks--)]. *)
Definition sha256_block (s : list Z) (chunk : bytes) : list Z :=
  run_rounds 32 Sigma0_256 Sigma1_256 sigma0_256 sigma1_256 ReadBE32 sha256_rounds s chunk.

Definition sha256_Transform : list Z → bytes → nat → list Z := transform_blocks 64 sha256_block.

Definition CSHA256 : Type := hasher (list Z).

(** The buffer is not initialised. *)
Definition CSHA256_init (buf : bytes) : CSHA256 := mkHasher sha256_Initialize buf 0.
Definition CSHA256_Reset (c : CSHA256) : CSHA256 := mkHasher sha256_Initialize (hbuf c) 0.

Definition CSHA256_Write (c : CSHA256) (data : bytes) : CSHA256 := write_blocks 64 sha256_block c data.

(** The writes of [Finalize]; the object keeps the resulting state. *)
Definition CSHA256_close (c : CSHA256) : CSHA256 :=
  let sizedesc := WriteBE64 (u64 (Z.shiftl (hbytes c) 3)) in
  let pad := 0x80 :: replicate 63 0 in
  let c' := CSHA256_Write c (take (Z.to_nat (1 + (119 - hbytes c mod 64) mod 64)) pad) in
  CSHA256_Write c' sizedesc.

Definition CSHA256_Finalize (c : CSHA256) : bytes := concat (map WriteBE32 (hs (CSHA256_close c))).

#[global] Arguments sha256_block : simpl never.

(** * The standard *)

Definition sha256_std_block : list Z → bytes → list Z :=
  std_block 32 Sigma0_256 Sigma1_256 sigma0_256 sigma1_256 ReadBE32 4 (K_std 32 64).

(** SHA-256 of a message shorter than 2^61 bytes. *)
Definition sha256 (m : bytes) : bytes :=
  concat (map WriteBE32
    (absorbed 64 sha256_std_block (H_std 32) (padded 64 119 WriteBE64 m))).

(** * Proofs *)

Lemma sha256_rounds_std : sha256_rounds = map (std_call 4 64 (K_std 32 64)) (seq 0 64).
Proof. vm_compute. reflexivity. Qed.

Lemma sha256_Initialize_std : sha256_Initialize = H_std 32.
Proof. vm_compute. reflexivity. Qed.

Lemma sha256_block_std s chunk : length s = 8%nat → sha256_block s chunk = sha256_std_block s chunk.
Proof.
  intros Hs. unfold sha256_block. rewrite sha256_rounds_std. unfold sha256_std_block.
  assert (HN : length (K_std 32 64) = 64%nat) by (vm_compute; reflexivity).
  revert HN. generalize (K_std 32 64). intros K HN.
  rewrite <- run_rounds_std; rewrite ?HN; [reflexivity|exact Hs|lia|reflexivity].
Qed.

(** The state of a hasher and the bytes it stands for. *)
Definition CSHA256_holds (c : CSHA256) (m : bytes) : Prop := consumed 64 sha256_block sha256_Initialize c m.

Lemma CSHA256_init_holds buf : length buf = 64%nat → CSHA256_holds (CSHA256_init buf) [].
Proof. intros H. apply consumed_nil; [lia|done]. Qed.

Lemma CSHA256_Write_holds c m d : CSHA256_holds c m → CSHA256_holds (CSHA256_Write c d) (m ++ d).
Proof.
  intros H. unfold CSHA256_Write. rewrite write_blocks_eq by (lia || apply H). apply Write_spec; [lia|by exists (2 ^ 58)|done].
Qed.

Lemma CSHA256_close_eq c m : CSHA256_holds c m →
  CSHA256_close c = Finalize_state 64 sha256_block 119 WriteBE64 c.
Proof.
  intros H. unfold CSHA256_close, Finalize_state.
  change (Z.to_nat (1 + (119 - hbytes c mod 64) mod 64)) with
    (Z.to_nat (1 + (Z.of_nat 119 - hbytes c mod Z.of_nat 64) mod Z.of_nat 64)).
  rewrite (padlen_Z 64 ltac:(lia) 119 8) by lia.
  pose proof (CSHA256_Write_holds c m (pad_bytes 64 (padlen 64 119 (hbytes c))) H) as H'.
  change (take ?k (128 :: replicate 63 0)) with (pad_bytes 64 k) in *.
  unfold CSHA256_Write in *. rewrite (write_blocks_eq 64 sha256_block ltac:(lia) (write_blocks _ _ _ _)) by apply H'.
  by rewrite write_blocks_eq by (lia || apply H).
Qed.

(** Closing leaves a buffer of the right size, so that the object can be reset. *)
Lemma CSHA256_Reset_close c m : CSHA256_holds c m → CSHA256_holds (CSHA256_Reset (CSHA256_close c)) [].
Proof.
  intros H. apply consumed_nil; [lia|]. unfold CSHA256_close.
  apply (consumed_len _ _ _ _ _ (CSHA256_Write_holds _ _ _ (CSHA256_Write_holds c m _ H))).
Qed.

Lemma sha256_bytes m : is_bytes (sha256 m) ∧ length (sha256 m) = 32%nat.
Proof.
  apply (digest_bytes 64 4 8 _ _ WriteBE32_bytes); [intros; by apply length_std_block|vm_compute; reflexivity].
Qed.

Lemma length_sha256 m : length (sha256 m) = 32%nat.
Proof. apply sha256_bytes. Qed.

Lemma sha256_digest c m : CSHA256_holds c m → CSHA256_Finalize c = sha256 m.
Proof.
  intros H. unfold CSHA256_Finalize. rewrite (CSHA256_close_eq c m H). unfold sha256. f_equal. f_equal.
  rewrite (Finalize_spec 64 sha256_block ltac:(lia) ltac:(by exists (2 ^ 58)) 119 8 WriteBE64
    ltac:(lia) ltac:(lia) _ _ _ H).
  rewrite sha256_Initialize_std. unfold absorbed.
  symmetry. apply (absorb_ext 8 64 sha256_std_block sha256_block).
  - intros. by apply length_std_block.
  - intros s x Hs. symmetry. by apply sha256_block_std.
  - vm_compute. reflexivity.
Qed.

(** * Self-test at start-up *)

Definition selftest_in1 : bytes := 0x80 :: replicate 63 0.
Definition selftest_in2 : bytes :=
  replicate 64 32 ++ 0x80 :: replicate 31 0 ++ replicate 30 0 ++ [2; 0].

Definition SelfTest (tr : list Z → bytes → nat → list Z) : bool :=
  let init := [0x6a09e667; 0xbb67ae85; 0x3c6ef372; 0xa54ff53a; 0x510e527f; 0x9b05688c; 0x1f83d9ab; 0x5be0cd19] in
  let out1 := [0xe3b0c442; 0x98fc1c14; 0x9afbf4c8; 0x996fb924; 0x27ae41e4; 0x649b934c; 0xa495991b; 0x7852b855] in
  let out2 := [0xce4153b0; 0x147c2a86; 0x3ed4298e; 0xe0676bc8; 0x79fc77a1; 0x2abe1f49; 0xb2b055df; 0x1069523e] in
  let buf := tr init [] 0%nat in
  if bool_decide (buf ≠ init) then false else
  let buf := tr buf selftest_in1 1%nat in
  if bool_decide (buf ≠ out1) then false else
  let buf := tr init selftest_in2 2%nat in
  if bool_decide (buf ≠ out2) then false else true.

(** * Properties *)

(** C15: the digest of a hasher is the SHA-256 of all the bytes written to it,
    however the calls split them and whatever the buffer held before: the
    unrolled rounds, the literal constants, the buffering and the padding
    implement FIPS 180-4; and the self-test run at start-up passes. *)
Theorem CSHA256_correct buf ws : length buf = 64%nat →
  CSHA256_Finalize (fold_left CSHA256_Write ws (CSHA256_init buf)) = sha256 (concat ws) ∧
  SelfTest sha256_Transform = true.
Proof.
  intros Hb. split; [|vm_compute; reflexivity]. apply sha256_digest.
  apply (fold_writes _ _ CSHA256_Write_holds ws _ []), CSHA256_init_holds, Hb.
Qed.

Lemma CSHA256_correct_witness :
  sha256 ([97] ++ [98; 99]) =
    [0xba; 0x78; 0x16; 0xbf; 0x8f; 0x01; 0xcf; 0xea; 0x41; 0x41; 0x40; 0xde; 0x5d; 0xae; 0x22; 0x23;
     0xb0; 0x03; 0x61; 0xa3; 0x96; 0x17; 0x7a; 0x9c; 0xb4; 0x10; 0xff; 0x61; 0xf2; 0x00; 0x15; 0xad].
Proof.
  assert (E : [97] ++ [98; 99] = concat [[97]; [98; 99]]) by reflexivity. rewrite E.
  rewrite <- (proj1 (CSHA256_correct (replicate 64 7) [[97]; [98; 99]] eq_refl)).
  vm_compute. reflexivity.
Defined.
