(* ===== verification/Sha512.v ===== *)
(** [CSHA512] (crypto/sha512.h, crypto/sha512.cpp): the unrolled block function,
    the streaming class and the proof that a digest is the SHA-512 of the
    bytes written, however the writes split them. *)
From stdpp Require Import base list option.
From Stdlib Require Import ZArith Lia.
From S2P Require Import Prelude ArithUint256 Serialize HashStream Sha2.
Open Scope Z_scope.

Definition Sigma0_512 (x : Z) : Z := Z.lxor (Z.lxor (rotr 64 28 x) (rotr 64 34 x)) (rotr 64 39 x).
Definition Sigma1_512 (x : Z) : Z := Z.lxor (Z.lxor (rotr 64 14 x) (rotr 64 18 x)) (rotr 64 41 x).
Definition sigma0_512 (x : Z) : Z := Z.lxor (Z.lxor (rotr 64 1 x) (rotr 64 8 x)) (Z.shiftr x 7).
Definition sigma1_512 (x : Z) : Z := Z.lxor (Z.lxor (rotr 64 19 x) (rotr 64 61 x)) (Z.shiftr x 6).

Definition sha512_Initialize : list Z :=
  [0x6a09e667f3bcc908; 0xbb67ae8584caa73b; 0x3c6ef372fe94f82b; 0xa54ff53a5f1d36f1;
   0x510e527fade682d1; 0x9b05688c2b3e6c1f; 0x1f83d9abfb41bd6b; 0x5be0cd19137e2179].

(** The 80 calls of [Round], in the order of the source. *)
Definition sha512_rounds : list round_call :=
  let a := 0%nat in let b := 1%nat in let c := 2%nat in let d := 3%nat in
  let e := 4%nat in let f := 5%nat in let g := 6%nat in let h := 7%nat in
  [
   call a b c d e f g h 0x428a2f98d728ae22 (w_load 0 0);
   call h a b c d e f g 0x7137449123ef65cd (w_load 1 8);
   call g h a b c d e f 0xb5c0fbcfec4d3b2f (w_load 2 16);
   call f g h a b c d e 0xe9b5dba58189dbbc (w_load 3 24);
   call e f g h a b c d 0x3956c25bf348b538 (w_load 4 32);
   call d e f g h a b c 0x59f111f1b605d019 (w_load 5 40);
   call c d e f g h a b 0x923f82a4af194f9b (w_load 6 48);
   call b c d e f g h a 0xab1c5ed5da6d8118 (w_load 7 56);
   call a b c d e f g h 0xd807aa98a3030242 (w_load 8 64);
   call h a b c d e f g 0x12835b0145706fbe (w_load 9 72);
   call g h a b c d e f 0x243185be4ee4b28c (w_load 10 80);
   call f g h a b c d e 0x550c7dc3d5ffb4e2 (w_load 11 88);
   call e f g h a b c d 0x72be5d74f27b896f (w_load 12 96);
   call d e f g h a b c 0x80deb1fe3b1696b1 (w_load 13 104);
   call c d e f g h a b 0x9bdc06a725c71235 (w_load 14 112);
   call b c d e f g h a 0xc19bf174cf692694 (w_load 15 120);
   call a b c d e f g h 0xe49b69c19ef14ad2 (w_add 0 14 9 1);
   call h a b c d e f g 0xefbe4786384f25e3 (w_add 1 15 10 2);
   call g h a b c d e f 0x0fc19dc68b8cd5b5 (w_add 2 0 11 3);
   call f g h a b c d e 0x240ca1cc77ac9c65 (w_add 3 1 12 4);
   call e f g h a b c d 0x2de92c6f592b0275 (w_add 4 2 13 5);
   call d e f g h a b c 0x4a7484aa6ea6e483 (w_add 5 3 14 6);
   call c d e f g h a b 0x5cb0a9dcbd41fbd4 (w_add 6 4 15 7);
   call b c d e f g h a 0x76f988da831153b5 (w_add 7 5 0 8);
   call a b c d e f g h 0x983e5152ee66dfab (w_add 8 6 1 9);
   call h a b c d e f g 0xa831c66d2db43210 (w_add 9 7 2 10);
   call g h a b c d e f 0xb00327c898fb213f (w_add 10 8 3 11);
   call f g h a b c d e 0xbf597fc7beef0ee4 (w_add 11 9 4 12);
   call e f g h a b c d 0xc6e00bf33da88fc2 (w_add 12 10 5 13);
   call d e f g h a b c 0xd5a79147930aa725 (w_add 13 11 6 14);
   call c d e f g h a b 0x06ca6351e003826f (w_add 14 12 7 15);
   call b c d e f g h a 0x142929670a0e6e70 (w_add 15 13 8 0);
   call a b c d e f g h 0x27b70a8546d22ffc (w_add 0 14 9 1);
   call h a b c d e f g 0x2e1b21385c26c926 (w_add 1 15 10 2);
   call g h a b c d e f 0x4d2c6dfc5ac42aed (w_add 2 0 11 3);
   call f g h a b c d e 0x53380d139d95b3df (w_add 3 1 12 4);
   call e f g h a b c d 0x650a73548baf63de (w_add 4 2 13 5);
   call d e f g h a b c 0x766a0abb3c77b2a8 (w_add 5 3 14 6);
   call c d e f g h a b 0x81c2c92e47edaee6 (w_add 6 4 15 7);
   call b c d e f g h a 0x92722c851482353b (w_add 7 5 0 8);
   call a b c d e f g h 0xa2bfe8a14cf10364 (w_add 8 6 1 9);
   call h a b c d e f g 0xa81a664bbc423001 (w_add 9 7 2 10);
   call g h a b c d e f 0xc24b8b70d0f89791 (w_add 10 8 3 11);
   call f g h a b c d e 0xc76c51a30654be30 (w_add 11 9 4 12);
   call e f g h a b c d 0xd192e819d6ef5218 (w_add 12 10 5 13);
   call d e f g h a b c 0xd69906245565a910 (w_add 13 11 6 14);
   call c d e f g h a b 0xf40e35855771202a (w_add 14 12 7 15);
   call b c d e f g h a 0x106aa07032bbd1b8 (w_add 15 13 8 0);
   call a b c d e f g h 0x19a4c116b8d2d0c8 (w_add 0 14 9 1);
   call h a b c d e f g 0x1e376c085141ab53 (w_add 1 15 10 2);
   call g h a b c d e f 0x2748774cdf8eeb99 (w_add 2 0 11 3);
   call f g h a b c d e 0x34b0bcb5e19b48a8 (w_add 3 1 12 4);
   call e f g h a b c d 0x391c0cb3c5c95a63 (w_add 4 2 13 5);
   call d e f g h a b c 0x4ed8aa4ae3418acb (w_add 5 3 14 6);
   call c d e f g h a b 0x5b9cca4f7763e373 (w_add 6 4 15 7);
   call b c d e f g h a 0x682e6ff3d6b2b8a3 (w_add 7 5 0 8);
   call a b c d e f g h 0x748f82ee5defb2fc (w_add 8 6 1 9);
   call h a b c d e f g 0x78a5636f43172f60 (w_add 9 7 2 10);
   call g h a b c d e f 0x84c87814a1f0ab72 (w_add 10 8 3 11);
   call f g h a b c d e 0x8cc702081a6439ec (w_add 11 9 4 12);
   call e f g h a b c d 0x90befffa23631e28 (w_add 12 10 5 13);
   call d e f g h a b c 0xa4506cebde82bde9 (w_add 13 11 6 14);
   call c d e f g h a b 0xbef9a3f7b2c67915 (w_add 14 12 7 15);
   call b c d e f g h a 0xc67178f2e372532b (w_add 15 13 8 0);
   call a b c d e f g h 0xca273eceea26619c (w_add 0 14 9 1);
   call h a b c d e f g 0xd186b8c721c0c207 (w_add 1 15 10 2);
   call g h a b c d e f 0xeada7dd6cde0eb1e (w_add 2 0 11 3);
   call f g h a b c d e 0xf57d4f7fee6ed178 (w_add 3 1 12 4);
   call e f g h a b c d 0x06f067aa72176fba (w_add 4 2 13 5);
   call d e f g h a b c 0x0a637dc5a2c898a6 (w_add 5 3 14 6);
   call c d e f g h a b 0x113f9804bef90dae (w_add 6 4 15 7);
   call b c d e f g h a 0x1b710b35131c471b (w_add 7 5 0 8);
   call a b c d e f g h 0x28db77f523047d84 (w_add 8 6 1 9);
   call h a b c d e f g 0x32caab7b40c72493 (w_add 9 7 2 10);
   call g h a b c d e f 0x3c9ebe0a15c9bebc (w_add 10 8 3 11);
   call f g h a b c d e 0x431d67c49c100d4c (w_add 11 9 4 12);
   call e f g h a b c d 0x4cc5d4becb3e42b6 (w_add 12 10 5 13);
   call d e f g h a b c 0x597f299cfc657e2a (w_add 13 11 6 14);
   call c d e f g h a b 0x5fcb6fab3ad6faec (w_tmp 14 12 7 15);
   call b c d e f g h a 0x6c44198c4a475817 (w_tmp 15 13 8 0)].

Definition sha512_Transform (s : list Z) (chunk : bytes) : list Z :=
  run_rounds 64 Sigma0_512 Sigma1_512 sigma0_512 sigma1_512 ReadBE64 sha512_rounds s chunk.

Definition CSHA512 : Type := hasher (list Z).

(** The buffer is not initialised. *)
Definition CSHA512_init (buf : bytes) : CSHA512 := mkHasher sha512_Initialize buf 0.
Definition CSHA512_Reset (c : CSHA512) : CSHA512 := mkHasher sha512_Initialize (hbuf c) 0.
Definition CSHA512_Write (c : CSHA512) (data : bytes) : CSHA512 := Write 128 sha512_Transform c data.

(** Sixteen bytes, of which the low eight hold the length. *)
Definition sizedesc_512 (x : Z) : bytes := replicate 8 0 ++ WriteBE64 x.

Definition CSHA512_Finalize (c : CSHA512) : bytes :=
  let sizedesc := sizedesc_512 (u64 (Z.shiftl (hbytes c) 3)) in
  let pad := 0x80 :: replicate 127 0 in
  let c' := CSHA512_Write c (take (Z.to_nat (1 + (239 - hbytes c mod 128) mod 128)) pad) in
  let c'' := CSHA512_Write c' sizedesc in
  concat (map WriteBE64 (hs c'')).

#[global] Arguments sha512_Transform : simpl never.

(** * The standard *)

Definition sha512_std_block : list Z → bytes → list Z :=
  std_block 64 Sigma0_512 Sigma1_512 sigma0_512 sigma1_512 ReadBE64 8 (K_std 64 80).

(** SHA-512 of a message shorter than 2^61 bytes. *)
Definition sha512 (m : bytes) : bytes :=
  concat (map WriteBE64
    (absorbed 128 sha512_std_block (H_std 64) (padded 128 239 sizedesc_512 m))).

(** * Proofs *)

Lemma sha512_rounds_std : sha512_rounds = map (std_call 8 80 (K_std 64 80)) (seq 0 80).
Proof. vm_compute. reflexivity. Qed.

Lemma sha512_Initialize_std : sha512_Initialize = H_std 64.
Proof. vm_compute. reflexivity. Qed.

Lemma sha512_Transform_std s chunk : length s = 8%nat → sha512_Transform s chunk = sha512_std_block s chunk.
Proof.
  intros Hs. unfold sha512_Transform. rewrite sha512_rounds_std. unfold sha512_std_block.
  assert (HN : length (K_std 64 80) = 80%nat) by (vm_compute; reflexivity).
  revert HN. generalize (K_std 64 80). intros K HN.
  rewrite <- run_rounds_std; rewrite ?HN; [reflexivity|exact Hs|lia|reflexivity].
Qed.

(** The state of a hasher and the bytes it stands for. *)
Definition CSHA512_holds (c : CSHA512) (m : bytes) : Prop := consumed 128 sha512_Transform sha512_Initialize c m.

Lemma CSHA512_init_holds buf : length buf = 128%nat → CSHA512_holds (CSHA512_init buf) [].
Proof. intros H. apply consumed_nil; [lia|done]. Qed.

Lemma CSHA512_Write_holds c m d : CSHA512_holds c m → CSHA512_holds (CSHA512_Write c d) (m ++ d).
Proof. intros H. apply Write_spec; [lia|by exists (2 ^ 57)|done]. Qed.

Lemma CSHA512_Finalize_eq c :
  CSHA512_Finalize c = concat (map WriteBE64 (hs (Finalize_state 128 sha512_Transform 239 sizedesc_512 c))).
Proof.
  unfold CSHA512_Finalize, Finalize_state.
  change (Z.to_nat (1 + (239 - hbytes c mod 128) mod 128)) with
    (Z.to_nat (1 + (Z.of_nat 239 - hbytes c mod Z.of_nat 128) mod Z.of_nat 128)).
  by rewrite (padlen_Z 128 ltac:(lia) 239 16) by lia.
Qed.

Lemma length_sha512 m : length (sha512 m) = 64%nat.
Proof.
  apply (digest_bytes 128 8 8); [|intros; by apply length_std_block|vm_compute; reflexivity].
  intros x. unfold WriteBE64, WriteBE. rewrite length_rev, length_le_bytes. split; [|done]. apply Forall_rev, le_bytes_u8.
Qed.

Lemma sha512_digest c m : CSHA512_holds c m → CSHA512_Finalize c = sha512 m.
Proof.
  intros H. rewrite CSHA512_Finalize_eq. unfold sha512. f_equal. f_equal.
  rewrite (Finalize_spec 128 sha512_Transform ltac:(lia) ltac:(by exists (2 ^ 57)) 239 16 sizedesc_512
    ltac:(lia) ltac:(lia) _ _ _ H).
  rewrite sha512_Initialize_std. unfold absorbed.
  symmetry. apply (absorb_ext 8 128 sha512_std_block sha512_Transform).
  - intros. by apply length_std_block.
  - intros s x Hs. symmetry. by apply sha512_Transform_std.
  - vm_compute. reflexivity.
Qed.

(** * Properties *)

(** the digest of a [CSHA512] is the SHA-512 of all the bytes written to it,
    however the calls split them: the 80 unrolled rounds, the literal
    constants, the buffering and the padding implement FIPS 180-4. *)
Theorem CSHA512_correct buf ws : length buf = 128%nat →
  CSHA512_Finalize (fold_left CSHA512_Write ws (CSHA512_init buf)) = sha512 (concat ws).
Proof.
  intros Hb. apply sha512_digest.
  apply (fold_writes _ _ CSHA512_Write_holds ws _ []), CSHA512_init_holds, Hb.
Qed.

Lemma CSHA512_correct_witness : take 8 (sha512 ([97] ++ [98; 99])) = [0xdd; 0xaf; 0x35; 0xa1; 0x93; 0x61; 0x7a; 0xba].
Proof.
  assert (E : [97] ++ [98; 99] = concat [[97]; [98; 99]]) by reflexivity. rewrite E.
  rewrite <- (CSHA512_correct (replicate 128 7) [[97]; [98; 99]] eq_refl).
  vm_compute. reflexivity.
Defined.
