(* ===== verification/Sha1.v ===== *)
(** [CSHA1] (crypto/sha1.h, crypto/sha1.cpp): the unrolled block function, the
    streaming class and the proof that a digest is the SHA-1 of the bytes
    written. *)
From stdpp Require Import base list option.
From Stdlib Require Import ZArith Lia.
From S2P Require Import Prelude ArithUint256 Serialize HashStream Sha2.
Open Scope Z_scope.

(** [(x << n) | (x >> (32 - n))] *)
Definition rotl32 (n x : Z) : Z := Z.lor (u32 (Z.shiftl x n)) (Z.shiftr x (32 - n)).

Definition sha1_f1 (b c d : Z) : Z := Z.lxor d (Z.land b (Z.lxor c d)).
Definition sha1_f2 (b c d : Z) : Z := Z.lxor (Z.lxor b c) d.
Definition sha1_f3 (b c d : Z) : Z := Z.lor (Z.land b c) (Z.land d (Z.lor b c)).
Definition sha1_left (x : Z) : Z := rotl32 1 x.

Inductive sha1_fun := F1 | F2 | F3.
Definition sha1_apply (f : sha1_fun) : Z → Z → Z → Z :=
  match f with F1 => sha1_f1 | F2 => sha1_f2 | F3 => sha1_f3 end.

(** [wI = ReadBE32(chunk + off)], [wI = left(wI ^ wJ ^ wK ^ wL)], or the same
    value not stored. *)
Inductive xexpr :=
  | x_load (i off : nat)
  | x_set (i j k l : nat)
  | x_tmp (i j k l : nat).

(** [Round(a, b, c, d, e, f(b, c, d), k, w)] *)
Record call_sha1 := mkCall1 { regs1 : list nat; fun1 : sha1_fun; k1_ : Z; word1 : xexpr }.
Definition call1 (a b c d e : nat) (f : sha1_fun) (k : Z) (x : xexpr) : call_sha1 :=
  mkCall1 [a; b; c; d; e] f k x.

(** The values of the references [b] and [e] after the round. *)
Definition sha1_Round (a b c d e f k w : Z) : Z * Z :=
  (rotl32 30 b, u32 (e + (rotl32 5 a + f + k + w))).

Definition xsum (ws : list Z) (i j k l : nat) : Z :=
  sha1_left (Z.lxor (Z.lxor (Z.lxor (nth i ws 0) (nth j ws 0)) (nth k ws 0)) (nth l ws 0)).

Definition eval_x (chunk : bytes) (ws : list Z) (x : xexpr) : Z * list Z :=
  match x with
  | x_load i off => let v := ReadBE32 chunk off in (v, upd i v ws)
  | x_set i j k l => let v := xsum ws i j k l in (v, upd i v ws)
  | x_tmp i j k l => (xsum ws i j k l, ws)
  end.

Definition run_call1 (chunk : bytes) (st : list Z * list Z) (c : call_sha1) : list Z * list Z :=
  let '(r, ws) := st in
  let reg n := nth (nth n (regs1 c) O) r 0 in
  let f := sha1_apply (fun1 c) (reg 1%nat) (reg 2%nat) (reg 3%nat) in
  let '(w, ws) := eval_x chunk ws (word1 c) in
  let '(b, e) := sha1_Round (reg 0%nat) (reg 1%nat) (reg 2%nat) (reg 3%nat) (reg 4%nat) f (k1_ c) w in
  (upd (nth 4 (regs1 c) O) e (upd (nth 1 (regs1 c) O) b r), ws).

Definition sha1_Initialize : list Z := [0x67452301; 0xEFCDAB89; 0x98BADCFE; 0x10325476; 0xC3D2E1F0].

Definition sha1_k1 : Z := 0x5A827999.
Definition sha1_k2 : Z := 0x6ED9EBA1.
Definition sha1_k3 : Z := 0x8F1BBCDC.
Definition sha1_k4 : Z := 0xCA62C1D6.

(** The 80 calls of [Round], in the order of the source. *)
Definition sha1_rounds : list call_sha1 :=
  let a := 0%nat in let b := 1%nat in let c := 2%nat in let d := 3%nat in let e := 4%nat in
  let k1 := sha1_k1 in let k2 := sha1_k2 in let k3 := sha1_k3 in let k4 := sha1_k4 in
  [
   call1 a b c d e F1 k1 (x_load 0 0);
   call1 e a b c d F1 k1 (x_load 1 4);
   call1 d e a b c F1 k1 (x_load 2 8);
   call1 c d e a b F1 k1 (x_load 3 12);
   call1 b c d e a F1 k1 (x_load 4 16);
   call1 a b c d e F1 k1 (x_load 5 20);
   call1 e a b c d F1 k1 (x_load 6 24);
   call1 d e a b c F1 k1 (x_load 7 28);
   call1 c d e a b F1 k1 (x_load 8 32);
   call1 b c d e a F1 k1 (x_load 9 36);
   call1 a b c d e F1 k1 (x_load 10 40);
   call1 e a b c d F1 k1 (x_load 11 44);
   call1 d e a b c F1 k1 (x_load 12 48);
   call1 c d e a b F1 k1 (x_load 13 52);
   call1 b c d e a F1 k1 (x_load 14 56);
   call1 a b c d e F1 k1 (x_load 15 60);
   call1 e a b c d F1 k1 (x_set 0 13 8 2);
   call1 d e a b c F1 k1 (x_set 1 14 9 3);
   call1 c d e a b F1 k1 (x_set 2 15 10 4);
   call1 b c d e a F1 k1 (x_set 3 0 11 5);
   call1 a b c d e F2 k2 (x_set 4 1 12 6);
   call1 e a b c d F2 k2 (x_set 5 2 13 7);
   call1 d e a b c F2 k2 (x_set 6 3 14 8);
   call1 c d e a b F2 k2 (x_set 7 4 15 9);
   call1 b c d e a F2 k2 (x_set 8 5 0 10);
   call1 a b c d e F2 k2 (x_set 9 6 1 11);
   call1 e a b c d F2 k2 (x_set 10 7 2 12);
   call1 d e a b c F2 k2 (x_set 11 8 3 13);
   call1 c d e a b F2 k2 (x_set 12 9 4 14);
   call1 b c d e a F2 k2 (x_set 13 10 5 15);
   call1 a b c d e F2 k2 (x_set 14 11 6 0);
   call1 e a b c d F2 k2 (x_set 15 12 7 1);
   call1 d e a b c F2 k2 (x_set 0 13 8 2);
   call1 c d e a b F2 k2 (x_set 1 14 9 3);
   call1 b c d e a F2 k2 (x_set 2 15 10 4);
   call1 a b c d e F2 k2 (x_set 3 0 11 5);
   call1 e a b c d F2 k2 (x_set 4 1 12 6);
   call1 d e a b c F2 k2 (x_set 5 2 13 7);
   call1 c d e a b F2 k2 (x_set 6 3 14 8);
   call1 b c d e a F2 k2 (x_set 7 4 15 9);
   call1 a b c d e F3 k3 (x_set 8 5 0 10);
   call1 e a b c d F3 k3 (x_set 9 6 1 11);
   call1 d e a b c F3 k3 (x_set 10 7 2 12);
   call1 c d e a b F3 k3 (x_set 11 8 3 13);
   call1 b c d e a F3 k3 (x_set 12 9 4 14);
   call1 a b c d e F3 k3 (x_set 13 10 5 15);
   call1 e a b c d F3 k3 (x_set 14 11 6 0);
   call1 d e a b c F3 k3 (x_set 15 12 7 1);
   call1 c d e a b F3 k3 (x_set 0 13 8 2);
   call1 b c d e a F3 k3 (x_set 1 14 9 3);
   call1 a b c d e F3 k3 (x_set 2 15 10 4);
   call1 e a b c d F3 k3 (x_set 3 0 11 5);
   call1 d e a b c F3 k3 (x_set 4 1 12 6);
   call1 c d e a b F3 k3 (x_set 5 2 13 7);
   call1 b c d e a F3 k3 (x_set 6 3 14 8);
   call1 a b c d e F3 k3 (x_set 7 4 15 9);
   call1 e a b c d F3 k3 (x_set 8 5 0 10);
   call1 d e a b c F3 k3 (x_set 9 6 1 11);
   call1 c d e a b F3 k3 (x_set 10 7 2 12);
   call1 b c d e a F3 k3 (x_set 11 8 3 13);
   call1 a b c d e F2 k4 (x_set 12 9 4 14);
   call1 e a b c d F2 k4 (x_set 13 10 5 15);
   call1 d e a b c F2 k4 (x_set 14 11 6 0);
   call1 c d e a b F2 k4 (x_set 15 12 7 1);
   call1 b c d e a F2 k4 (x_set 0 13 8 2);
   call1 a b c d e F2 k4 (x_set 1 14 9 3);
   call1 e a b c d F2 k4 (x_set 2 15 10 4);
   call1 d e a b c F2 k4 (x_set 3 0 11 5);
   call1 c d e a b F2 k4 (x_set 4 1 12 6);
   call1 b c d e a F2 k4 (x_set 5 2 13 7);
   call1 a b c d e F2 k4 (x_set 6 3 14 8);
   call1 e a b c d F2 k4 (x_set 7 4 15 9);
   call1 d e a b c F2 k4 (x_set 8 5 0 10);
   call1 c d e a b F2 k4 (x_set 9 6 1 11);
   call1 b c d e a F2 k4 (x_set 10 7 2 12);
   call1 a b c d e F2 k4 (x_set 11 8 3 13);
   call1 e a b c d F2 k4 (x_set 12 9 4 14);
   call1 d e a b c F2 k4 (x_tmp 13 10 5 15);
   call1 c d e a b F2 k4 (x_tmp 14 11 6 0);
   call1 b c d e a F2 k4 (x_tmp 15 12 7 1)].

Definition sha1_run (calls : list call_sha1) (s : list Z) (chunk : bytes) : list Z :=
  let '(r, _) := fold_left (run_call1 chunk) calls (s, repeat 0 16) in
  zip_with (λ x y, u32 (x + y)) s r.

Definition sha1_Transform (s : list Z) (chunk : bytes) : list Z := sha1_run sha1_rounds s chunk.

Definition CSHA1 : Type := hasher (list Z).
Definition CSHA1_init (buf : bytes) : CSHA1 := mkHasher sha1_Initialize buf 0.
Definition CSHA1_Reset (c : CSHA1) : CSHA1 := mkHasher sha1_Initialize (hbuf c) 0.
Definition CSHA1_Write (c : CSHA1) (data : bytes) : CSHA1 := Write 64 sha1_Transform c data.

Definition CSHA1_Finalize (c : CSHA1) : bytes :=
  let sizedesc := WriteBE64 (u64 (Z.shiftl (hbytes c) 3)) in
  let pad := 0x80 :: replicate 63 0 in
  let c' := CSHA1_Write c (take (Z.to_nat (1 + (119 - hbytes c mod 64) mod 64)) pad) in
  let c'' := CSHA1_Write c' sizedesc in
  concat (map WriteBE32 (hs c'')).

#[global] Arguments sha1_Transform : simpl never.

(** * The standard *)

Definition sha1_next (ws : list Z) : Z :=
  let t := length ws in
  rotl32 1 (Z.lxor (Z.lxor (Z.lxor (nth (t - 3) ws 0) (nth (t - 8) ws 0)) (nth (t - 14) ws 0)) (nth (t - 16) ws 0)).

Definition sha1_f_std (t : nat) : Z → Z → Z → Z :=
  if (t <? 20)%nat then Ch_std
  else if (t <? 40)%nat then λ x y z, Z.lxor (Z.lxor x y) z
  else if (t <? 60)%nat then Maj_std
  else λ x y z, Z.lxor (Z.lxor x y) z.

(** 2^30 times the square roots of 2, 3, 5 and 10. *)
Definition sha1_K_std (t : nat) : Z := Z.sqrt (2 ^ 60 * nth (t / 20) [2; 3; 5; 10] 0).

Definition sha1_step (st : list Z) (tw : nat * Z) : list Z :=
  match st with
  | [a; b; c; d; e] =>
      [u32 (rotl32 5 a + sha1_f_std tw.1 b c d + e + sha1_K_std tw.1 + tw.2); a; rotl32 30 b; c; d]
  | _ => st
  end.

Definition sha1_words (chunk : bytes) : list Z :=
  grow sha1_next 64 (map (λ t, ReadBE32 chunk (4 * t)) (seq 0 16)).

Definition sha1_std_block (s : list Z) (chunk : bytes) : list Z :=
  zip_with (λ x y, u32 (x + y)) s (fold_left sha1_step (combine (seq 0 80) (sha1_words chunk)) s).

Definition sha1 (m : bytes) : bytes :=
  concat (map WriteBE32 (absorbed 64 sha1_std_block sha1_Initialize (padded 64 119 WriteBE64 m))).

(** * Proofs *)

(** The call of round [t]. *)
Definition sha1_call_std (t : nat) : call_sha1 :=
  mkCall1 (map (λ j, (j + (5 - t mod 5)) mod 5)%nat (seq 0 5))
    (if (t <? 20)%nat then F1 else if (t <? 40)%nat then F2 else if (t <? 60)%nat then F3 else F2)
    (sha1_K_std t)
    (if (t <? 16)%nat then x_load t (4 * t)
     else (if (t <? 77)%nat then x_set else x_tmp)
            (t mod 16)%nat ((t - 3) mod 16)%nat ((t - 8) mod 16)%nat ((t - 14) mod 16)%nat).

Lemma sha1_rounds_std : sha1_rounds = map sha1_call_std (seq 0 80).
Proof. vm_compute. reflexivity. Qed.

Lemma sha1_apply_std t x y z :
  sha1_apply (fun1 (sha1_call_std t)) x y z = sha1_f_std t x y z.
Proof.
  unfold sha1_call_std, sha1_f_std. cbn [fun1].
  destruct (t <? 20)%nat; [apply Ch_eq|]. destruct (t <? 40)%nat; [done|].
  destruct (t <? 60)%nat; [apply Maj_eq|done].
Qed.

Definition rot5 (c : nat) (r : list Z) : list Z := map (λ j, nth ((j + (5 - c)) mod 5)%nat r 0) (seq 0 5).

Lemma rot5_0 r : length r = 5%nat → rot5 0 r = r.
Proof. intros Hr. do 5 (destruct r as [|? r]; [done|]). by destruct r. Qed.

Lemma rot5_step t c r x : (c < 5)%nat → length r = 5%nat →
  let regs := map (λ j, (j + (5 - c)) mod 5)%nat (seq 0 5) in
  let reg n := nth (nth n regs O) r 0 in
  let be := sha1_Round (reg 0%nat) (reg 1%nat) (reg 2%nat) (reg 3%nat) (reg 4%nat)
              (sha1_f_std t (reg 1%nat) (reg 2%nat) (reg 3%nat)) (sha1_K_std t) x in
  rot5 (S c) (upd (nth 4 regs O) be.2 (upd (nth 1 regs O) be.1 r)) = sha1_step (rot5 c r) (t, x).
Proof.
  intros Hc Hr. do 5 (destruct r as [|? r]; [done|]). destruct r; [|done].
  do 5 (destruct c as [|c]; [cbn -[Z.add u32 rotl32 sha1_f_std sha1_K_std]; f_equal; f_equal; lia|]). lia.
Qed.

Section Block.
Context (s : list Z) (chunk : bytes) (Hs : length s = 5%nat).
Context (W : list Z) (HW : length W = 80%nat).
Context (Hload : ∀ t, (t < 16)%nat → nth t W 0 = ReadBE32 chunk (4 * t)).
Context (Hrec : ∀ t, (16 ≤ t < 80)%nat → nth t W 0 =
  rotl32 1 (Z.lxor (Z.lxor (Z.lxor (nth (t - 3) W 0) (nth (t - 8) W 0)) (nth (t - 14) W 0)) (nth (t - 16) W 0))).
Let after (t : nat) := fold_left (run_call1 chunk) (map sha1_call_std (seq 0 t)) (s, repeat 0 16).

Lemma eval_x_std t ws : (t < 80)%nat → length ws = 16%nat →
  (∀ i, (i < t)%nat → (t ≤ i + 16)%nat → (i < 77)%nat → nth (i mod 16) ws 0 = nth i W 0) →
  ∃ ws', eval_x chunk ws (word1 (sha1_call_std t)) = (nth t W 0, ws') ∧ length ws' = 16%nat ∧
  (∀ i, (i < S t)%nat → (S t ≤ i + 16)%nat → (i < 77)%nat → nth (i mod 16) ws' 0 = nth i W 0).
Proof.
  intros Ht Hl Hws. unfold sha1_call_std. cbn [word1].
  pose proof (window_upd W ws t 77 Hl Hws) as Hupd. destruct (Nat.ltb_spec t 16) as [L|L].
  - pose proof (Hload t L) as E.
    cbn [eval_x]. rewrite <- E. exists (upd (t mod 16) (nth t W 0) ws).
    rewrite length_upd. split; [by rewrite (Nat.mod_small t 16) by lia|done].
  - assert (E : xsum ws (t mod 16) ((t - 3) mod 16) ((t - 8) mod 16) ((t - 14) mod 16) = nth t W 0).
    { rewrite Hrec by lia. unfold xsum, sha1_left. rewrite <- (mod16_sub t), !Hws by lia. f_equal.
      rewrite (Z.lxor_comm (nth (t - 16) W 0)), !Z.lxor_assoc. f_equal.
      rewrite (Z.lxor_comm (nth (t - 16) W 0)), !Z.lxor_assoc. f_equal. }
    destruct (Nat.ltb_spec t 77); cbn [eval_x]; rewrite E; eexists; (split; [done|]).
    + rewrite length_upd. done.
    + split; [done|]. intros i H1 H2 H3. apply Hws; lia.
Qed.

Lemma sha1_rounds_inv t : (t ≤ 80)%nat →
  ∃ r ws, after t = (r, ws) ∧ length r = 5%nat ∧ length ws = 16%nat ∧
    rot5 (t mod 5) r = fold_left sha1_step (take t (combine (seq 0 80) W)) s ∧
    (∀ i, (i < t)%nat → (t ≤ i + 16)%nat → (i < 77)%nat → nth (i mod 16) ws 0 = nth i W 0).
Proof.
  induction t as [|t IH]; intros Ht.
  - exists s, (repeat 0 16). split_and!; [done..| |lia]. by rewrite rot5_0.
  - destruct IH as (r & ws & E & Hr & Hw & Hrot & Hws); [lia|].
    destruct (eval_x_std t ws ltac:(lia) Hw Hws) as (ws' & Ew & Hw' & Hws').
    assert (Ec : take (S t) (combine (seq 0 80) W) = take t (combine (seq 0 80) W) ++ [(t, nth t W 0)]).
    { rewrite (take_S_nth _ (0%nat, 0)) by (rewrite length_combine, HW, length_seq; lia).
      rewrite combine_nth by (by rewrite HW). by rewrite seq_nth by lia. }
    set (c := sha1_call_std t) in *.
    set (be := sha1_Round (nth (nth 0 (regs1 c) O) r 0) (nth (nth 1 (regs1 c) O) r 0)
      (nth (nth 2 (regs1 c) O) r 0) (nth (nth 3 (regs1 c) O) r 0) (nth (nth 4 (regs1 c) O) r 0)
      (sha1_apply (fun1 c) (nth (nth 1 (regs1 c) O) r 0) (nth (nth 2 (regs1 c) O) r 0) (nth (nth 3 (regs1 c) O) r 0))
      (k1_ c) (nth t W 0)).
    exists (upd (nth 4 (regs1 c) O) be.2 (upd (nth 1 (regs1 c) O) be.1 r)), ws'.
    split_and!; [|by rewrite !length_upd|done| |done].
    + unfold after. rewrite seq_S, map_app, fold_left_app. cbn [plus map fold_left]. fold (after t).
      rewrite E. unfold run_call1. fold c. rewrite Ew. fold be. by destruct be.
    + rewrite Ec, fold_left_app, <- Hrot. cbn [fold_left].
      pose proof (Nat.mod_upper_bound t 5 ltac:(lia)) as Hc.
      replace (rot5 (S t mod 5)) with (rot5 (S (t mod 5))).
      * unfold be. unfold c at 1 2 3 4 5 6 7 8 9. rewrite sha1_apply_std. by apply (rot5_step t (t mod 5) r).
      * destruct (Nat.eq_dec (t mod 5) 4) as [E4|E4]; pose proof (Nat.div_mod_eq t 5).
        -- replace (S t mod 5)%nat with 0%nat; [by rewrite E4|].
           apply (Nat.mod_unique (S t) 5 (S (t / 5)) 0); lia.
        -- f_equal. apply (Nat.mod_unique (S t) 5 (t / 5)); lia.
Qed.

Lemma sha1_run_std : sha1_run (map sha1_call_std (seq 0 80)) s chunk =
  zip_with (λ x y, u32 (x + y)) s (fold_left sha1_step (combine (seq 0 80) W) s).
Proof.
  destruct (sha1_rounds_inv 80 ltac:(lia)) as (r & ws & E & Hr & _ & Hrot & _).
  unfold sha1_run. fold (after 80). rewrite E.
  rewrite take_ge in Hrot by (rewrite length_combine, HW, length_seq; lia).
  by rewrite <- Hrot, rot5_0.
Qed.
End Block.

Lemma sha1_Transform_std s chunk : length s = 5%nat → sha1_Transform s chunk = sha1_std_block s chunk.
Proof.
  intros Hs. unfold sha1_Transform, sha1_std_block. rewrite sha1_rounds_std.
  unfold sha1_words. set (ws := map (λ t, ReadBE32 chunk (4 * t)) (seq 0 16)).
  assert (Hl : length ws = 16%nat) by (unfold ws; by rewrite length_map, length_seq).
  apply sha1_run_std; [exact Hs| | |].
  - rewrite length_grow. lia.
  - intros t Ht. rewrite grow_prefix by lia. unfold ws.
    rewrite (nth_indep _ 0 (ReadBE32 chunk (4 * 0))) by (rewrite length_map, length_seq; lia).
    rewrite (map_nth (λ t, ReadBE32 chunk (4 * t))). by rewrite seq_nth by lia.
  - intros t Ht. rewrite grow_rec at 1 by lia. unfold sha1_next at 1.
    rewrite length_take, length_grow, Hl. replace (t `min` (16 + 64))%nat with t by lia.
    by rewrite !nth_take_lt by lia.
Qed.

Lemma length_sha1_std_block s x : length s = 5%nat → length (sha1_std_block s x) = 5%nat.
Proof.
  intros Hs. unfold sha1_std_block. generalize (combine (seq 0 80) (sha1_words x)). intros l.
  rewrite length_zip_with, Hs. assert (length (fold_left sha1_step l s) = 5%nat) as ->; [|done].
  revert s Hs. induction l as [|tw l IH]; intros s Hs; cbn [fold_left]; [done|].
  apply IH. unfold sha1_step. by repeat case_match.
Qed.

Definition CSHA1_holds (c : CSHA1) (m : bytes) : Prop := consumed 64 sha1_Transform sha1_Initialize c m.

Lemma CSHA1_init_holds buf : length buf = 64%nat → CSHA1_holds (CSHA1_init buf) [].
Proof. intros H. apply consumed_nil; [lia|done]. Qed.

Lemma CSHA1_Write_holds c m d : CSHA1_holds c m → CSHA1_holds (CSHA1_Write c d) (m ++ d).
Proof. intros H. apply Write_spec; [lia|by exists (2 ^ 58)|done]. Qed.

Lemma CSHA1_Finalize_eq c :
  CSHA1_Finalize c = concat (map WriteBE32 (hs (Finalize_state 64 sha1_Transform 119 WriteBE64 c))).
Proof.
  unfold CSHA1_Finalize, Finalize_state.
  change (Z.to_nat (1 + (119 - hbytes c mod 64) mod 64)) with
    (Z.to_nat (1 + (Z.of_nat 119 - hbytes c mod Z.of_nat 64) mod Z.of_nat 64)).
  by rewrite (padlen_Z 64 ltac:(lia) 119 8) by lia.
Qed.

Lemma sha1_digest c m : CSHA1_holds c m → CSHA1_Finalize c = sha1 m.
Proof.
  intros H. rewrite CSHA1_Finalize_eq. unfold sha1. f_equal. f_equal.
  rewrite (Finalize_spec 64 sha1_Transform ltac:(lia) ltac:(by exists (2 ^ 58)) 119 8 WriteBE64
    ltac:(lia) ltac:(lia) _ _ _ H).
  unfold absorbed. symmetry. apply (absorb_ext 5 64 sha1_std_block sha1_Transform).
  - intros. by apply length_sha1_std_block.
  - intros s x Hs. symmetry. by apply sha1_Transform_std.
  - done.
Qed.

Lemma sha1_bytes m : is_bytes (sha1 m) ∧ length (sha1 m) = 20%nat.
Proof. apply (digest_bytes 64 4 5 _ _ WriteBE32_bytes); [apply length_sha1_std_block|done]. Qed.
