(* ===== verification/Ripemd160.v ===== *)
(** [CRIPEMD160] (crypto/ripemd160.h, crypto/ripemd160.cpp): the two interleaved
    lines of unrolled rounds, the streaming class and the proof that a digest
    is the RIPEMD-160 of the bytes written. *)
From stdpp Require Import base list option.
From Stdlib Require Import ZArith Lia.
From S2P Require Import Prelude ArithUint256 Serialize HashStream Sha2 Sha1.
Open Scope Z_scope.

Definition not32 (x : Z) : Z := u32 (Z.lnot x).
Definition rmd_f1 (x y z : Z) : Z := Z.lxor (Z.lxor x y) z.
Definition rmd_f2 (x y z : Z) : Z := Z.lor (Z.land x y) (Z.land (not32 x) z).
Definition rmd_f3 (x y z : Z) : Z := Z.lxor (Z.lor x (not32 y)) z.
Definition rmd_f4 (x y z : Z) : Z := Z.lor (Z.land x z) (Z.land y (not32 z)).
Definition rmd_f5 (x y z : Z) : Z := Z.lxor x (Z.lor y (not32 z)).

Definition ripemd160_Initialize : list Z := [0x67452301; 0xEFCDAB89; 0x98BADCFE; 0x10325476; 0xC3D2E1F0].

Definition rol (x i : Z) : Z := Z.lor (u32 (Z.shiftl x i)) (Z.shiftr x (32 - i)).

(** The values of the references [a] and [c] after the round. *)
Definition rmd_Round (a b c d e f x k r : Z) : Z * Z :=
  (u32 (rol (u32 (a + f + x + k)) r + e), rol c 10).

Inductive rmd_fn := RF1 | RF2 | RF3 | RF4 | RF5.
Definition rmd_apply (f : rmd_fn) : Z → Z → Z → Z :=
  match f with RF1 => rmd_f1 | RF2 => rmd_f2 | RF3 => rmd_f3 | RF4 => rmd_f4 | RF5 => rmd_f5 end.

(** A call [RJ1(...)] or [RJ2(...)]: the line, the function and the constant that
    the wrapper adds, the registers, the word and the rotation. *)
Record rmd_call := mkRmd {
  rmd_line : bool; rmd_fun : rmd_fn; rmd_k : Z; rmd_regs : list nat; rmd_x : nat; rmd_r : Z }.

Definition R11 (a b c d e x : nat) (r : Z) := mkRmd false RF1 0 [a; b; c; d; e] x r.
Definition R21 (a b c d e x : nat) (r : Z) := mkRmd false RF2 0x5A827999 [a; b; c; d; e] x r.
Definition R31 (a b c d e x : nat) (r : Z) := mkRmd false RF3 0x6ED9EBA1 [a; b; c; d; e] x r.
Definition R41 (a b c d e x : nat) (r : Z) := mkRmd false RF4 0x8F1BBCDC [a; b; c; d; e] x r.
Definition R51 (a b c d e x : nat) (r : Z) := mkRmd false RF5 0xA953FD4E [a; b; c; d; e] x r.
Definition R12 (a b c d e x : nat) (r : Z) := mkRmd true RF5 0x50A28BE6 [a; b; c; d; e] x r.
Definition R22 (a b c d e x : nat) (r : Z) := mkRmd true RF4 0x5C4DD124 [a; b; c; d; e] x r.
Definition R32 (a b c d e x : nat) (r : Z) := mkRmd true RF3 0x6D703EF3 [a; b; c; d; e] x r.
Definition R42 (a b c d e x : nat) (r : Z) := mkRmd true RF2 0x7A6D76E9 [a; b; c; d; e] x r.
Definition R52 (a b c d e x : nat) (r : Z) := mkRmd true RF1 0 [a; b; c; d; e] x r.

(** The 160 calls, in the order of the source; [w0] to [w15] are the words of
    the chunk. *)
Definition ripemd160_rounds : list rmd_call :=
  let a := 0%nat in let b := 1%nat in let c := 2%nat in let d := 3%nat in let e := 4%nat in
  [
   R11 a b c d e 0 11;
   R12 a b c d e 5 8;
   R11 e a b c d 1 14;
   R12 e a b c d 14 9;
   R11 d e a b c 2 15;
   R12 d e a b c 7 9;
   R11 c d e a b 3 12;
   R12 c d e a b 0 11;
   R11 b c d e a 4 5;
   R12 b c d e a 9 13;
   R11 a b c d e 5 8;
   R12 a b c d e 2 15;
   R11 e a b c d 6 7;
   R12 e a b c d 11 15;
   R11 d e a b c 7 9;
   R12 d e a b c 4 5;
   R11 c d e a b 8 11;
   R12 c d e a b 13 7;
   R11 b c d e a 9 13;
   R12 b c d e a 6 7;
   R11 a b c d e 10 14;
   R12 a b c d e 15 8;
   R11 e a b c d 11 15;
   R12 e a b c d 8 11;
   R11 d e a b c 12 6;
   R12 d e a b c 1 14;
   R11 c d e a b 13 7;
   R12 c d e a b 10 14;
   R11 b c d e a 14 9;
   R12 b c d e a 3 12;
   R11 a b c d e 15 8;
   R12 a b c d e 12 6;
   R21 e a b c d 7 7;
   R22 e a b c d 6 9;
   R21 d e a b c 4 6;
   R22 d e a b c 11 13;
   R21 c d e a b 13 8;
   R22 c d e a b 3 15;
   R21 b c d e a 1 13;
   R22 b c d e a 7 7;
   R21 a b c d e 10 11;
   R22 a b c d e 0 12;
   R21 e a b c d 6 9;
   R22 e a b c d 13 8;
   R21 d e a b c 15 7;
   R22 d e a b c 5 9;
   R21 c d e a b 3 15;
   R22 c d e a b 10 11;
   R21 b c d e a 12 7;
   R22 b c d e a 14 7;
   R21 a b c d e 0 12;
   R22 a b c d e 15 7;
   R21 e a b c d 9 15;
   R22 e a b c d 8 12;
   R21 d e a b c 5 9;
   R22 d e a b c 12 7;
   R21 c d e a b 2 11;
   R22 c d e a b 4 6;
   R21 b c d e a 14 7;
   R22 b c d e a 9 15;
   R21 a b c d e 11 13;
   R22 a b c d e 1 13;
   R21 e a b c d 8 12;
   R22 e a b c d 2 11;
   R31 d e a b c 3 11;
   R32 d e a b c 15 9;
   R31 c d e a b 10 13;
   R32 c d e a b 5 7;
   R31 b c d e a 14 6;
   R32 b c d e a 1 15;
   R31 a b c d e 4 7;
   R32 a b c d e 3 11;
   R31 e a b c d 9 14;
   R32 e a b c d 7 8;
   R31 d e a b c 15 9;
   R32 d e a b c 14 6;
   R31 c d e a b 8 13;
   R32 c d e a b 6 6;
   R31 b c d e a 1 15;
   R32 b c d e a 9 14;
   R31 a b c d e 2 14;
   R32 a b c d e 11 12;
   R31 e a b c d 7 8;
   R32 e a b c d 8 13;
   R31 d e a b c 0 13;
   R32 d e a b c 12 5;
   R31 c d e a b 6 6;
   R32 c d e a b 2 14;
   R31 b c d e a 13 5;
   R32 b c d e a 10 13;
   R31 a b c d e 11 12;
   R32 a b c d e 0 13;
   R31 e a b c d 5 7;
   R32 e a b c d 4 7;
   R31 d e a b c 12 5;
   R32 d e a b c 13 5;
   R41 c d e a b 1 11;
   R42 c d e a b 8 15;
   R41 b c d e a 9 12;
   R42 b c d e a 6 5;
   R41 a b c d e 11 14;
   R42 a b c d e 4 8;
   R41 e a b c d 10 15;
   R42 e a b c d 1 11;
   R41 d e a b c 0 14;
   R42 d e a b c 3 14;
   R41 c d e a b 8 15;
   R42 c d e a b 11 14;
   R41 b c d e a 12 9;
   R42 b c d e a 15 6;
   R41 a b c d e 4 8;
   R42 a b c d e 0 14;
   R41 e a b c d 13 9;
   R42 e a b c d 5 6;
   R41 d e a b c 3 14;
   R42 d e a b c 12 9;
   R41 c d e a b 7 5;
   R42 c d e a b 2 12;
   R41 b c d e a 15 6;
   R42 b c d e a 13 9;
   R41 a b c d e 14 8;
   R42 a b c d e 9 12;
   R41 e a b c d 5 6;
   R42 e a b c d 7 5;
   R41 d e a b c 6 5;
   R42 d e a b c 10 15;
   R41 c d e a b 2 12;
   R42 c d e a b 14 8;
   R51 b c d e a 4 9;
   R52 b c d e a 12 8;
   R51 a b c d e 0 15;
   R52 a b c d e 15 5;
   R51 e a b c d 5 5;
   R52 e a b c d 10 12;
   R51 d e a b c 9 11;
   R52 d e a b c 4 9;
   R51 c d e a b 7 6;
   R52 c d e a b 1 12;
   R51 b c d e a 12 8;
   R52 b c d e a 5 5;
   R51 a b c d e 2 13;
   R52 a b c d e 8 14;
   R51 e a b c d 10 12;
   R52 e a b c d 7 6;
   R51 d e a b c 14 5;
   R52 d e a b c 6 8;
   R51 c d e a b 1 12;
   R52 c d e a b 2 13;
   R51 b c d e a 3 13;
   R52 b c d e a 13 6;
   R51 a b c d e 8 14;
   R52 a b c d e 14 5;
   R51 e a b c d 11 11;
   R52 e a b c d 0 15;
   R51 d e a b c 6 8;
   R52 d e a b c 3 13;
   R51 c d e a b 15 5;
   R52 c d e a b 9 11;
   R51 b c d e a 13 6;
   R52 b c d e a 11 11].

Definition run_line (ws r : list Z) (c : rmd_call) : list Z :=
  let reg n := nth (nth n (rmd_regs c) O) r 0 in
  let f := rmd_apply (rmd_fun c) (reg 1%nat) (reg 2%nat) (reg 3%nat) in
  let '(x, y) := rmd_Round (reg 0%nat) (reg 1%nat) (reg 2%nat) (reg 3%nat) (reg 4%nat) f
                   (nth (rmd_x c) ws 0) (rmd_k c) (rmd_r c) in
  upd (nth 2 (rmd_regs c) O) y (upd (nth 0 (rmd_regs c) O) x r).

(** The registers of the two lines are distinct variables. *)
Definition run_rmd (ws : list Z) (st : list Z * list Z) (c : rmd_call) : list Z * list Z :=
  if rmd_line c then (st.1, run_line ws st.2 c) else (run_line ws st.1 c, st.2).

Definition rmd_words (chunk : bytes) : list Z :=
  map (λ t, le_val (take 4 (drop (4 * t) chunk))) (seq 0 16).

Definition rmd_combine (s l1 l2 : list Z) : list Z :=
  match s, l1, l2 with
  | [s0; s1; s2; s3; s4], [a1; b1; c1; d1; e1], [a2; b2; c2; d2; e2] =>
      [u32 (s1 + c1 + d2); u32 (s2 + d1 + e2); u32 (s3 + e1 + a2); u32 (s4 + a1 + b2); u32 (s0 + b1 + c2)]
  | _, _, _ => s
  end.

Definition rmd_run (calls : list rmd_call) (s : list Z) (chunk : bytes) : list Z :=
  let '(l1, l2) := fold_left (run_rmd (rmd_words chunk)) calls (s, s) in rmd_combine s l1 l2.

Definition ripemd160_Transform (s : list Z) (chunk : bytes) : list Z := rmd_run ripemd160_rounds s chunk.

Definition CRIPEMD160 : Type := hasher (list Z).
Definition CRIPEMD160_init (buf : bytes) : CRIPEMD160 := mkHasher ripemd160_Initialize buf 0.
Definition CRIPEMD160_Reset (c : CRIPEMD160) : CRIPEMD160 := mkHasher ripemd160_Initialize (hbuf c) 0.
Definition CRIPEMD160_Write (c : CRIPEMD160) (data : bytes) : CRIPEMD160 := Write 64 ripemd160_Transform c data.

Definition CRIPEMD160_Finalize (c : CRIPEMD160) : bytes :=
  let sizedesc := WriteLE64 (u64 (Z.shiftl (hbytes c) 3)) in
  let pad := 0x80 :: replicate 63 0 in
  let c' := CRIPEMD160_Write c (take (Z.to_nat (1 + (119 - hbytes c mod 64) mod 64)) pad) in
  let c'' := CRIPEMD160_Write c' sizedesc in
  concat (map WriteLE32 (hs c'')).

#[global] Arguments ripemd160_Transform : simpl never.

(** * The standard *)

(** Message order: the permutation rho iterated, after 9 i + 5 on the right. *)
Definition rho (i : nat) : nat := nth i [7; 4; 13; 1; 10; 6; 15; 3; 12; 0; 9; 5; 2; 14; 11; 8]%nat O.
Definition rmd_order (right : bool) (j : nat) : nat :=
  Nat.iter (j / 16) rho (if right then ((9 * (j mod 16) + 5) mod 16)%nat else (j mod 16)%nat).

(** Rotations, by round and word. *)
Definition rmd_shifts : list (list Z) :=
  [[11; 14; 15; 12; 5; 8; 7; 9; 11; 13; 14; 15; 6; 7; 9; 8];
   [12; 13; 11; 15; 6; 9; 9; 7; 12; 15; 11; 13; 7; 8; 7; 7];
   [13; 15; 14; 11; 7; 7; 6; 8; 13; 14; 13; 12; 5; 5; 6; 9];
   [14; 11; 12; 14; 8; 6; 5; 5; 15; 12; 15; 14; 9; 9; 8; 6];
   [15; 12; 13; 13; 9; 5; 8; 6; 14; 11; 12; 11; 8; 6; 5; 5]].

(** Constants: 2^30 times square roots on the left, cube roots on the right. *)
Definition rmd_K (right : bool) (round : nat) : Z :=
  if right then nth round (map (λ p, icbrt_loop 34 0 (p * 2 ^ 90)) [2; 3; 5; 7] ++ [0]) 0
  else nth round (0 :: map (λ p, Z.sqrt (p * 2 ^ 60)) [2; 3; 5; 7]) 0.

Definition rmd_F (round : nat) : rmd_fn := nth round [RF1; RF2; RF3; RF4; RF5] RF1.

(** T := rol(A + f(B, C, D) + X + K, s) + E; A := E; E := D; D := rol(C, 10); C := B; B := T *)
Definition rmd_step (ws : list Z) (right : bool) (st : list Z) (j : nat) : list Z :=
  match st with
  | [a; b; c; d; e] =>
      let round := (j / 16)%nat in
      let f := rmd_apply (rmd_F (if right then 4 - round else round)%nat) in
      let x := nth (rmd_order right j) ws 0 in
      let s := nth (rmd_order right j) (nth round rmd_shifts []) 0 in
      [e; u32 (rol (u32 (a + f b c d + x + rmd_K right round)) s + e); b; rol c 10; d]
  | _ => st
  end.

Definition rmd_std_block (s : list Z) (chunk : bytes) : list Z :=
  rmd_combine s (fold_left (rmd_step (rmd_words chunk) false) (seq 0 80) s)
                (fold_left (rmd_step (rmd_words chunk) true) (seq 0 80) s).

Definition ripemd160 (m : bytes) : bytes :=
  concat (map WriteLE32 (absorbed 64 rmd_std_block ripemd160_Initialize (padded 64 119 WriteLE64 m))).

(** * Proofs *)

(** The call of step [j] in a line. *)
Definition rmd_call_std (right : bool) (j : nat) : rmd_call :=
  let round := (j / 16)%nat in
  mkRmd right (rmd_F (if right then 4 - round else round)%nat) (rmd_K right round)
    (map (λ i, (i + (5 - j mod 5)) mod 5)%nat (seq 0 5)) (rmd_order right j)
    (nth (rmd_order right j) (nth round rmd_shifts []) 0).

Lemma ripemd160_rounds_std :
  ripemd160_rounds = concat (map (λ j, [rmd_call_std false j; rmd_call_std true j]) (seq 0 80)).
Proof. vm_compute. reflexivity. Qed.

(** The interleaved lines do not interact. *)
Lemma run_rmd_lines ws js : ∀ l1 l2,
  fold_left (run_rmd ws) (concat (map (λ j, [rmd_call_std false j; rmd_call_std true j]) js)) (l1, l2) =
  (fold_left (run_line ws) (map (rmd_call_std false) js) l1,
   fold_left (run_line ws) (map (rmd_call_std true) js) l2).
Proof. induction js as [|j js IH]; intros l1 l2; [done|]. cbn [map concat app fold_left]. apply IH. Qed.

Lemma rmd_rot_step ws right j c r : (c < 5)%nat → length r = 5%nat → (j mod 5 = c)%nat →
  rot5 (S c) (run_line ws r (rmd_call_std right j)) = rmd_step ws right (rot5 c r) j.
Proof.
  intros Hc Hr Hj. do 5 (destruct r as [|? r]; [done|]). destruct r; [|done].
  unfold rmd_call_std, run_line. rewrite Hj.
  do 5 (destruct c as [|c]; [cbn -[Nat.div rmd_F rmd_K rmd_order rmd_shifts rmd_Round]; reflexivity|]). lia.
Qed.

Lemma length_run_line ws r c : length (run_line ws r c) = length r.
Proof. unfold run_line. destruct (rmd_Round _ _ _ _ _ _ _ _ _). by rewrite !length_upd. Qed.

Lemma rmd_line_std ws right s t : length s = 5%nat →
  length (fold_left (run_line ws) (map (rmd_call_std right) (seq 0 t)) s) = 5%nat ∧
  rot5 (t mod 5) (fold_left (run_line ws) (map (rmd_call_std right) (seq 0 t)) s) =
    fold_left (rmd_step ws right) (seq 0 t) s.
Proof.
  intros Hs. induction t as [|t [IHl IH]]; [split; [done|by apply rot5_0]|].
  rewrite seq_S, map_app, !fold_left_app. cbn [plus map fold_left].
  set (r := fold_left (run_line ws) (map (rmd_call_std right) (seq 0 t)) s) in *.
  split; [by rewrite length_run_line|]. rewrite <- IH.
  pose proof (Nat.mod_upper_bound t 5 ltac:(lia)) as Hc.
  rewrite <- (rmd_rot_step ws right t (t mod 5) r Hc IHl eq_refl).
  destruct (Nat.eq_dec (t mod 5) 4) as [E4|E4]; pose proof (Nat.div_mod_eq t 5).
  - replace (S t mod 5)%nat with 0%nat; [by rewrite E4|].
    apply (Nat.mod_unique (S t) 5 (S (t / 5)) 0); lia.
  - f_equal. symmetry. apply (Nat.mod_unique (S t) 5 (t / 5)); lia.
Qed.

Lemma ripemd160_Transform_std s chunk : length s = 5%nat → ripemd160_Transform s chunk = rmd_std_block s chunk.
Proof.
  intros Hs. unfold ripemd160_Transform, rmd_run, rmd_std_block. rewrite ripemd160_rounds_std.
  generalize (rmd_words chunk). intros ws. rewrite run_rmd_lines.
  destruct (rmd_line_std ws false s 80 Hs) as [L1 <-]. destruct (rmd_line_std ws true s 80 Hs) as [L2 <-].
  change (80 mod 5)%nat with 0%nat. by rewrite !rot5_0.
Qed.

Lemma length_rmd_std_block s x : length s = 5%nat → length (rmd_std_block s x) = 5%nat.
Proof. intros Hs. unfold rmd_std_block, rmd_combine. by repeat case_match. Qed.

Definition CRIPEMD160_holds (c : CRIPEMD160) (m : bytes) : Prop :=
  consumed 64 ripemd160_Transform ripemd160_Initialize c m.

Lemma ripemd160_bytes m : is_bytes (ripemd160 m) ∧ length (ripemd160 m) = 20%nat.
Proof.
  apply (digest_bytes 64 4 5); [|apply length_rmd_std_block|done]. intros x. unfold WriteLE32.
  split; [repeat constructor; apply u8_range|done].
Qed.

Lemma CRIPEMD160_init_holds buf : length buf = 64%nat → CRIPEMD160_holds (CRIPEMD160_init buf) [].
Proof. intros H. apply consumed_nil; [lia|done]. Qed.

Lemma CRIPEMD160_Write_holds c m d : CRIPEMD160_holds c m → CRIPEMD160_holds (CRIPEMD160_Write c d) (m ++ d).
Proof. intros H. apply Write_spec; [lia|by exists (2 ^ 58)|done]. Qed.

Lemma CRIPEMD160_Finalize_eq c :
  CRIPEMD160_Finalize c = concat (map WriteLE32 (hs (Finalize_state 64 ripemd160_Transform 119 WriteLE64 c))).
Proof.
  unfold CRIPEMD160_Finalize, Finalize_state.
  change (Z.to_nat (1 + (119 - hbytes c mod 64) mod 64)) with
    (Z.to_nat (1 + (Z.of_nat 119 - hbytes c mod Z.of_nat 64) mod Z.of_nat 64)).
  by rewrite (padlen_Z 64 ltac:(lia) 119 8) by lia.
Qed.

Lemma ripemd160_digest c m : CRIPEMD160_holds c m → CRIPEMD160_Finalize c = ripemd160 m.
Proof.
  intros H. rewrite CRIPEMD160_Finalize_eq. unfold ripemd160. f_equal. f_equal.
  rewrite (Finalize_spec 64 ripemd160_Transform ltac:(lia) ltac:(by exists (2 ^ 58)) 119 8 WriteLE64
    ltac:(lia) ltac:(lia) _ _ _ H).
  unfold absorbed. symmetry. apply (absorb_ext 5 64 rmd_std_block ripemd160_Transform).
  - intros. by apply length_rmd_std_block.
  - intros s x Hs. symmetry. by apply ripemd160_Transform_std.
  - done.
Qed.

(** * Properties *)

(** the digests of [CSHA1] and [CRIPEMD160] are the SHA-1 and the RIPEMD-160
    of all the bytes written, however the calls split them: the unrolled
    rounds of the two classes, in RIPEMD-160 two interleaved lines, follow
    the published tables, and the constants are the published roots. *)
Theorem CSHA1_CRIPEMD160_correct buf ws : length buf = 64%nat →
  CSHA1_Finalize (fold_left CSHA1_Write ws (CSHA1_init buf)) = sha1 (concat ws) ∧
  CRIPEMD160_Finalize (fold_left CRIPEMD160_Write ws (CRIPEMD160_init buf)) = ripemd160 (concat ws).
Proof.
  intros Hb. split.
  - apply sha1_digest, (fold_writes _ _ CSHA1_Write_holds ws _ []), CSHA1_init_holds, Hb.
  - apply ripemd160_digest, (fold_writes _ _ CRIPEMD160_Write_holds ws _ []), CRIPEMD160_init_holds, Hb.
Qed.

Lemma CSHA1_CRIPEMD160_correct_witness :
  sha1 [97; 98; 99] = [0xa9; 0x99; 0x3e; 0x36; 0x47; 0x06; 0x81; 0x6a; 0xba; 0x3e;
                       0x25; 0x71; 0x78; 0x50; 0xc2; 0x6c; 0x9c; 0xd0; 0xd8; 0x9d] ∧
  ripemd160 [97; 98; 99] = [0x8e; 0xb2; 0x08; 0xf7; 0xe0; 0x5d; 0x98; 0x7a; 0x9b; 0x04;
                            0x4a; 0x8e; 0x98; 0xc6; 0xb0; 0x87; 0xf1; 0x5a; 0x0b; 0xfc].
Proof.
  assert (E : [97; 98; 99] = concat [[97; 98]; [99]]) by reflexivity. rewrite E.
  destruct (CSHA1_CRIPEMD160_correct (replicate 64 7) [[97; 98]; [99]] eq_refl) as [<- <-].
  split; vm_compute; reflexivity.
Defined.
