(* ===== verification/Hash.v ===== *)
(** The hashers built on the hash classes: [CHash256], [CHash160], HMAC, hashing
    of serialized objects, BIP32 derivation hashes and SipHash (hash.h, hash.cpp,
    crypto/hmac_sha256.cpp, crypto/hmac_sha512.cpp). *)
From stdpp Require Import base list option.
From Stdlib Require Import ZArith Lia.
From S2P Require Import Prelude ArithUint256 Serialize Chain Transaction.
From S2P Require Import HashStream Sha2 Sha256 Sha512 Sha1 Ripemd160.
Open Scope Z_scope.

(** * Double hashes (hash.h)

    A constructor leaves the buffer of the hasher uninitialised: [mem] stands
    for its contents. *)

Definition CHash256_init (mem : bytes) : CSHA256 := CSHA256_init mem.
Definition CHash256_Write (sha : CSHA256) (data : bytes) : CSHA256 := CSHA256_Write sha data.
Definition CHash256_Reset (sha : CSHA256) : CSHA256 := CSHA256_Reset sha.

(** [sha.Finalize(buf); sha.Reset().Write(buf, 32).Finalize(hash)]: the same
    object hashes twice. *)
Definition CHash256_Finalize (sha : CSHA256) : bytes :=
  let buf := CSHA256_Finalize sha in
  let sha := CSHA256_close sha in
  CSHA256_Finalize (CSHA256_Write (CSHA256_Reset sha) buf).

Definition CHash160_Finalize (mem : bytes) (sha : CSHA256) : bytes :=
  let buf := CSHA256_Finalize sha in
  CRIPEMD160_Finalize (CRIPEMD160_Write (CRIPEMD160_init mem) buf).

(** [Hash(p1begin, p1end, ...)] writes its arguments one after the other. *)
Definition Hash (mem : bytes) (parts : list bytes) : bytes :=
  CHash256_Finalize (fold_left CHash256_Write parts (CHash256_init mem)).
Definition Hash160 (mem mem' : bytes) (vch : bytes) : bytes :=
  CHash160_Finalize mem' (CSHA256_Write (CHash256_init mem) vch).

(** [CHashWriter] hashes what is serialized into it. *)
Definition SerializeHash {A} `{Serializable A} (mem : bytes) (obj : A) : bytes := Hash mem [Serialize obj].

(** * Transaction identifiers (primitives/transaction.cpp) *)

Definition CTransaction_ComputeHash (mem : bytes) (tx : CTransaction) : bytes :=
  Hash mem [SerializeTransaction SERIALIZE_TRANSACTION_NO_WITNESS tx].
Definition GetWitnessHash (mem : bytes) (tx : CTransaction) : bytes :=
  if negb (HasWitness tx) then CTransaction_ComputeHash mem tx else Hash mem [SerializeTransaction 0 tx].

(** * HMAC *)

(** The key of a block: padded with zeros, or hashed and padded. *)
Definition hmac_rkey (blk : nat) (H : bytes → bytes) (key : bytes) : bytes :=
  if (length key <=? blk)%nat then key ++ replicate (blk - length key) 0
  else H key ++ replicate (blk - length (H key)) 0.

Record CHMAC_SHA256 := mkHMAC256 { outer256 : CSHA256; inner256 : CSHA256 }.
Definition CHMAC_SHA256_init (m1 m2 m3 : bytes) (key : bytes) : CHMAC_SHA256 :=
  let rkey := hmac_rkey 64 (λ k, CSHA256_Finalize (CSHA256_Write (CSHA256_init m1) k)) key in
  let rkey := map (λ x, Z.lxor x 0x5c) rkey in
  let outer := CSHA256_Write (CSHA256_init m2) rkey in
  let rkey := map (λ x, Z.lxor x (Z.lxor 0x5c 0x36)) rkey in
  let inner := CSHA256_Write (CSHA256_init m3) rkey in
  mkHMAC256 outer inner.
Definition CHMAC_SHA256_Write (h : CHMAC_SHA256) (data : bytes) : CHMAC_SHA256 :=
  mkHMAC256 (outer256 h) (CSHA256_Write (inner256 h) data).
Definition CHMAC_SHA256_Finalize (h : CHMAC_SHA256) : bytes :=
  let temp := CSHA256_Finalize (inner256 h) in CSHA256_Finalize (CSHA256_Write (outer256 h) temp).

Record CHMAC_SHA512 := mkHMAC512 { outer512 : CSHA512; inner512 : CSHA512 }.
Definition CHMAC_SHA512_init (m1 m2 m3 : bytes) (key : bytes) : CHMAC_SHA512 :=
  let rkey := hmac_rkey 128 (λ k, CSHA512_Finalize (CSHA512_Write (CSHA512_init m1) k)) key in
  let rkey := map (λ x, Z.lxor x 0x5c) rkey in
  let outer := CSHA512_Write (CSHA512_init m2) rkey in
  let rkey := map (λ x, Z.lxor x (Z.lxor 0x5c 0x36)) rkey in
  let inner := CSHA512_Write (CSHA512_init m3) rkey in
  mkHMAC512 outer inner.
Definition CHMAC_SHA512_Write (h : CHMAC_SHA512) (data : bytes) : CHMAC_SHA512 :=
  mkHMAC512 (outer512 h) (CSHA512_Write (inner512 h) data).
Definition CHMAC_SHA512_Finalize (h : CHMAC_SHA512) : bytes :=
  let temp := CSHA512_Finalize (inner512 h) in CSHA512_Finalize (CSHA512_Write (outer512 h) temp).

Definition BIP32Hash (m1 m2 m3 : bytes) (chainCode : bytes) (nChild : Z) (hdr : Z) (data : bytes) : bytes :=
  let num := [Z.land (Z.shiftr nChild 24) 0xFF; Z.land (Z.shiftr nChild 16) 0xFF;
              Z.land (Z.shiftr nChild 8) 0xFF; Z.land (Z.shiftr nChild 0) 0xFF] in
  CHMAC_SHA512_Finalize (CHMAC_SHA512_Write (CHMAC_SHA512_Write (CHMAC_SHA512_Write
    (CHMAC_SHA512_init m1 m2 m3 chainCode) [hdr]) data) num).

(** * SipHash (hash.cpp) *)

Definition ROTL (x b : Z) : Z := Z.lor (u64 (Z.shiftl x b)) (Z.shiftr x (64 - b)).

Record sipv := mkV { v0 : Z; v1 : Z; v2 : Z; v3 : Z }.

Definition SIPROUND (v : sipv) : sipv :=
  let '(mkV v0 v1 v2 v3) := v in
  let v0 := u64 (v0 + v1) in let v1 := ROTL v1 13 in let v1 := Z.lxor v1 v0 in
  let v0 := ROTL v0 32 in
  let v2 := u64 (v2 + v3) in let v3 := ROTL v3 16 in let v3 := Z.lxor v3 v2 in
  let v0 := u64 (v0 + v3) in let v3 := ROTL v3 21 in let v3 := Z.lxor v3 v0 in
  let v2 := u64 (v2 + v1) in let v1 := ROTL v1 17 in let v1 := Z.lxor v1 v2 in
  let v2 := ROTL v2 32 in
  mkV v0 v1 v2 v3.

Definition xor0 (v : sipv) (d : Z) : sipv := mkV (Z.lxor (v0 v) d) (v1 v) (v2 v) (v3 v).
Definition xor2 (v : sipv) (d : Z) : sipv := mkV (v0 v) (v1 v) (Z.lxor (v2 v) d) (v3 v).
Definition xor3 (v : sipv) (d : Z) : sipv := mkV (v0 v) (v1 v) (v2 v) (Z.lxor (v3 v) d).

(** [v3 ^= d; SIPROUND; SIPROUND; v0 ^= d] *)
Definition compress (v : sipv) (d : Z) : sipv := xor0 (SIPROUND (SIPROUND (xor3 v d))) d.
(** [v2 ^= 0xFF], four rounds, and the sum *)
Definition sip_finish (v : sipv) : Z :=
  let '(mkV v0 v1 v2 v3) := SIPROUND (SIPROUND (SIPROUND (SIPROUND (xor2 v 0xFF)))) in
  Z.lxor (Z.lxor (Z.lxor v0 v1) v2) v3.

Record CSipHasher := mkSip { sip_v : sipv; sip_tmp : Z; sip_count : Z }.

Definition CSipHasher_init (k0 k1 : Z) : CSipHasher :=
  mkSip (mkV (Z.lxor 0x736f6d6570736575 k0) (Z.lxor 0x646f72616e646f6d k1)
             (Z.lxor 0x6c7967656e657261 k0) (Z.lxor 0x7465646279746573 k1)) 0 0.

(** [None] is the failed assertion. *)
Definition CSipHasher_Write64 (h : CSipHasher) (data : Z) : option CSipHasher :=
  if negb (sip_count h %c 8 =? 0) then None
  else Some (mkSip (compress (sip_v h) data) (sip_tmp h) (i32 (sip_count h + 8))).

Fixpoint CSipHasher_Write (h : CSipHasher) (data : bytes) {struct data} : CSipHasher :=
  match data with
  | [] => h
  | b :: data' =>
      let t := Z.lor (sip_tmp h) (u64 (Z.shiftl b (8 * (sip_count h %c 8)))) in
      let c := i32 (sip_count h + 1) in
      CSipHasher_Write
        (if Z.land c 7 =? 0 then mkSip (compress (sip_v h) t) 0 c else mkSip (sip_v h) t c) data'
  end.

Definition CSipHasher_Finalize (h : CSipHasher) : Z :=
  let t := Z.lor (sip_tmp h) (u64 (Z.shiftl (u64 (sip_count h)) 56)) in
  sip_finish (compress (sip_v h) t).

Definition GetUint64 (data : bytes) (pos : nat) : Z :=
  let ptr i := nth (pos * 8 + i) data 0 in
  Z.lor (Z.lor (Z.lor (Z.lor (Z.lor (Z.lor (Z.lor (ptr 0%nat) (Z.shiftl (ptr 1%nat) 8))
    (Z.shiftl (ptr 2%nat) 16)) (Z.shiftl (ptr 3%nat) 24)) (Z.shiftl (ptr 4%nat) 32))
    (Z.shiftl (ptr 5%nat) 40)) (Z.shiftl (ptr 6%nat) 48)) (Z.shiftl (ptr 7%nat) 56).

Definition SipHashUint256 (k0 k1 : Z) (val : uint256) : Z :=
  let d := GetUint64 val 0 in
  let v := mkV (Z.lxor 0x736f6d6570736575 k0) (Z.lxor 0x646f72616e646f6d k1)
               (Z.lxor 0x6c7967656e657261 k0) (Z.lxor (Z.lxor 0x7465646279746573 k1) d) in
  let v := xor0 (SIPROUND (SIPROUND v)) d in
  let v := compress v (GetUint64 val 1) in
  let v := compress v (GetUint64 val 2) in
  let v := compress v (GetUint64 val 3) in
  let v := compress v (u64 (Z.shiftl 4 59)) in
  sip_finish v.

Definition SipHashUint256Extra (k0 k1 : Z) (val : uint256) (extra : Z) : Z :=
  let d := GetUint64 val 0 in
  let v := mkV (Z.lxor 0x736f6d6570736575 k0) (Z.lxor 0x646f72616e646f6d k1)
               (Z.lxor 0x6c7967656e657261 k0) (Z.lxor (Z.lxor 0x7465646279746573 k1) d) in
  let v := xor0 (SIPROUND (SIPROUND v)) d in
  let v := compress v (GetUint64 val 1) in
  let v := compress v (GetUint64 val 2) in
  let v := compress v (GetUint64 val 3) in
  let v := compress v (Z.lor (u64 (Z.shiftl 36 56)) extra) in
  sip_finish v.

(** * Proofs *)

#[local] Opaque sha256 sha512 ripemd160.

Lemma CHash256_Finalize_holds c m : CSHA256_holds c m → CHash256_Finalize c = sha256 (sha256 m).
Proof.
  intros H. unfold CHash256_Finalize. rewrite (sha256_digest c m H). apply sha256_digest.
  apply (CSHA256_Write_holds _ []). by eapply CSHA256_Reset_close.
Qed.

Lemma Hash_spec mem parts : length mem = 64%nat → Hash mem parts = sha256 (sha256 (concat parts)).
Proof.
  intros Hm. apply CHash256_Finalize_holds.
  apply (fold_writes _ _ CSHA256_Write_holds parts _ []), CSHA256_init_holds, Hm.
Qed.

Lemma Hash160_spec mem mem' vch : length mem = 64%nat → length mem' = 64%nat →
  Hash160 mem mem' vch = ripemd160 (sha256 vch).
Proof.
  intros Hm Hm'. unfold Hash160, CHash160_Finalize.
  rewrite (sha256_digest _ vch) by (apply (CSHA256_Write_holds _ []), CSHA256_init_holds, Hm).
  apply ripemd160_digest, (CRIPEMD160_Write_holds _ []), CRIPEMD160_init_holds, Hm'.
Qed.

(** ** HMAC as RFC 2104 defines it *)

(** Keys longer than a block are hashed first; zeros are appended up to a block. *)
Definition hmac_key (blk : nat) (H : bytes → bytes) (key : bytes) : bytes :=
  resize blk 0 (if (blk <? length key)%nat then H key else key).
Lemma hmac_rkey_std blk H H' key : H' key = H key → (length (H key) ≤ blk)%nat → hmac_rkey blk H' key = hmac_key blk H key.
Proof.
  intros E Hl. unfold hmac_rkey, hmac_key. rewrite E, resize_spec.
  destruct (Nat.leb_spec (length key) blk), (Nat.ltb_spec blk (length key)); try lia; by rewrite take_ge by lia.
Qed.
Definition hmac_std (blk : nat) (H : bytes → bytes) (key m : bytes) : bytes :=
  let k := hmac_key blk H key in
  H (map (λ x, Z.lxor x 0x5c) k ++ H (map (λ x, Z.lxor x 0x36) k ++ m)).

(** The key is masked twice in place. *)
Lemma xor_twice l : map (λ x, Z.lxor x (Z.lxor 0x5c 0x36)) (map (λ x, Z.lxor x 0x5c) l) = map (λ x, Z.lxor x 0x36) l.
Proof.
  rewrite map_map. apply map_ext. intros x.
  by rewrite Z.lxor_assoc, <- (Z.lxor_assoc 0x5c), Z.lxor_nilpotent, Z.lxor_0_l.
Qed.

Lemma CHMAC_SHA256_spec m1 m2 m3 key ws :
  length m1 = 64%nat → length m2 = 64%nat → length m3 = 64%nat →
  CHMAC_SHA256_Finalize (fold_left CHMAC_SHA256_Write ws (CHMAC_SHA256_init m1 m2 m3 key)) =
    hmac_std 64 sha256 key (concat ws).
Proof.
  intros H1 H2 H3. unfold CHMAC_SHA256_init.
  rewrite (hmac_rkey_std 64 sha256); [|by apply sha256_digest, (CSHA256_Write_holds _ []), CSHA256_init_holds|rewrite length_sha256; lia].
  rewrite xor_twice. unfold hmac_std. set (k := hmac_key 64 sha256 key). cbv zeta.
  assert (F : ∀ o i, fold_left CHMAC_SHA256_Write ws (mkHMAC256 o i) = mkHMAC256 o (fold_left CSHA256_Write ws i)).
  { induction ws as [|w ws IH]; intros o i; [done|]. cbn [fold_left]. apply IH. }
  rewrite F. unfold CHMAC_SHA256_Finalize. cbn [outer256 inner256].
  rewrite (sha256_digest (fold_left CSHA256_Write ws _) (map (λ x, Z.lxor x 0x36) k ++ concat ws)).
  - apply sha256_digest, CSHA256_Write_holds, (CSHA256_Write_holds _ []), CSHA256_init_holds, H2.
  - apply (fold_writes _ _ CSHA256_Write_holds), (CSHA256_Write_holds _ []), CSHA256_init_holds, H3.
Qed.

Lemma CHMAC_SHA512_spec m1 m2 m3 key ws :
  length m1 = 128%nat → length m2 = 128%nat → length m3 = 128%nat →
  CHMAC_SHA512_Finalize (fold_left CHMAC_SHA512_Write ws (CHMAC_SHA512_init m1 m2 m3 key)) =
    hmac_std 128 sha512 key (concat ws).
Proof.
  intros H1 H2 H3. unfold CHMAC_SHA512_init.
  rewrite (hmac_rkey_std 128 sha512); [|by apply sha512_digest, (CSHA512_Write_holds _ []), CSHA512_init_holds|rewrite length_sha512; lia].
  rewrite xor_twice. unfold hmac_std. set (k := hmac_key 128 sha512 key). cbv zeta.
  assert (F : ∀ o i, fold_left CHMAC_SHA512_Write ws (mkHMAC512 o i) = mkHMAC512 o (fold_left CSHA512_Write ws i)).
  { induction ws as [|w ws IH]; intros o i; [done|]. cbn [fold_left]. apply IH. }
  rewrite F. unfold CHMAC_SHA512_Finalize. cbn [outer512 inner512].
  rewrite (sha512_digest (fold_left CSHA512_Write ws _) (map (λ x, Z.lxor x 0x36) k ++ concat ws)).
  - apply sha512_digest, CSHA512_Write_holds, (CSHA512_Write_holds _ []), CSHA512_init_holds, H2.
  - apply (fold_writes _ _ CSHA512_Write_holds), (CSHA512_Write_holds _ []), CSHA512_init_holds, H3.
Qed.

(** ** SipHash: words and bytes *)

#[local] Opaque SIPROUND compress sip_finish.

(** One byte, [k] bytes after a word boundary [c]. *)
Lemma sip_byte v t c k b rest : 0 ≤ c < 2 ^ 30 → c mod 8 = 0 → 0 ≤ k < 8 → is_u8 b →
  CSipHasher_Write (mkSip v t (c + k)) (b :: rest) =
  CSipHasher_Write (if k =? 7 then mkSip (compress v (Z.lor t (Z.shiftl b (8 * k)))) 0 (c + 8)
                    else mkSip v (Z.lor t (Z.shiftl b (8 * k))) (c + (k + 1))) rest.
Proof.
  intros Hc H8 Hk Hb. cbn [CSipHasher_Write sip_tmp sip_count sip_v].
  replace ((c + k) %c 8) with k; cycle 1.
  { rewrite Z.rem_mod_nonneg by lia. rewrite <- Z.add_mod_idemp_l, H8 by lia. symmetry. apply Z.mod_small. lia. }
  replace (i32 (c + k + 1)) with (c + (k + 1)) by (unfold i32; rewrite Z.mod_small; lia).
  replace (u64 (Z.shiftl b (8 * k))) with (Z.shiftl b (8 * k)); cycle 1.
  { symmetry. apply u64_small. unfold is_u64, is_u8 in *. rewrite Z.shiftl_mul_pow2 by lia.
    assert (2 ^ (8 * k) ≤ 2 ^ 56) by (apply Z.pow_le_mono_r; lia).
    assert (0 < 2 ^ (8 * k)) by (apply Z.pow_pos_nonneg; lia). nia. }
  f_equal. change 7 with (Z.ones 3) at 1. rewrite Z.land_ones by lia. change (2 ^ 3) with 8.
  rewrite <- Z.add_mod_idemp_l, H8 by lia. destruct (Z.eqb_spec k 7) as [->|]; [done|].
  by rewrite Z.mod_small, (proj2 (Z.eqb_neq _ _)) by lia.
Qed.

(** Runs the hasher over the byte [k] places after the boundary [c]. *)
Ltac sip_run c k :=
  rewrite (sip_byte _ _ c k) by (lia || tauto); cbn [Z.eqb Pos.eqb];
  let k' := eval compute in (k + 1) in change (k + 1) with k'.

(** Eight bytes at a word boundary are one word. *)
Lemma sip_word v c b0 b1 b2 b3 b4 b5 b6 b7 rest : 0 ≤ c < 2 ^ 30 → c mod 8 = 0 →
  is_bytes [b0; b1; b2; b3; b4; b5; b6; b7] →
  CSipHasher_Write (mkSip v 0 c) (b0 :: b1 :: b2 :: b3 :: b4 :: b5 :: b6 :: b7 :: rest) =
  CSipHasher_Write (mkSip (compress v (GetUint64 [b0; b1; b2; b3; b4; b5; b6; b7] 0)) 0 (c + 8)) rest.
Proof.
  intros Hc H8 Hb. rewrite !is_bytes_cons in Hb. rewrite <- (Z.add_0_r c) at 1.
  sip_run c 0. sip_run c 1. sip_run c 2. sip_run c 3. sip_run c 4. sip_run c 5. sip_run c 6. sip_run c 7.
  unfold GetUint64. cbn [Nat.mul Nat.add nth].
  by rewrite Z.lor_0_l, Z.shiftl_0_r.
Qed.

(** The four words of a 256-bit value, as one sequence. *)
Definition sip_words (v : sipv) (val : uint256) : sipv :=
  compress (compress (compress (compress v (GetUint64 val 0)) (GetUint64 val 1)) (GetUint64 val 2)) (GetUint64 val 3).

Lemma sip_Write_uint256 v val rest : uint256_ok val →
  CSipHasher_Write (mkSip v 0 0) (val ++ rest) = CSipHasher_Write (mkSip (sip_words v val) 0 32) rest.
Proof.
  intros [Hb Hl]. do 32 (destruct val as [|? val]; [done|]). destruct val; [|done].
  cbn [app]. rewrite !is_bytes_cons in Hb.
  rewrite !sip_word by (lia || done || (rewrite !is_bytes_cons; tauto)). done.
Qed.

Lemma SipHashUint256_words k0 k1 val :
  SipHashUint256 k0 k1 val = sip_finish (compress (sip_words (sip_v (CSipHasher_init k0 k1)) val) (2 ^ 61)).
Proof. done. Qed.

Lemma SipHashUint256_stream k0 k1 val : uint256_ok val →
  SipHashUint256 k0 k1 val = CSipHasher_Finalize (CSipHasher_Write (CSipHasher_init k0 k1) val).
Proof.
  intros Hv. rewrite <- (app_nil_r val) at 2. unfold CSipHasher_init at 1. rewrite sip_Write_uint256 by done. done.
Qed.

(** The bytes of a word joined by shifts give the word back. *)
Lemma le_bytes_join x : is_u32 x →
  Z.lor (Z.lor (Z.lor (x mod 256) (Z.shiftl (x / 256 mod 256) 8)) (Z.shiftl (x / 256 / 256 mod 256) 16))
    (Z.shiftl (x / 256 / 256 / 256 mod 256) 24) = x.
Proof.
  intros Hx. unfold is_u32 in Hx. rewrite !Z.shiftl_mul_pow2 by lia.
  pose proof (Z.mod_pos_bound x 256 ltac:(lia)). pose proof (Z.mod_pos_bound (x / 256) 256 ltac:(lia)).
  pose proof (Z.mod_pos_bound (x / 256 / 256) 256 ltac:(lia)).
  rewrite (lor_disjoint 8 (x mod 256)) by (lia || (apply Z.mod_mul; lia)).
  rewrite (lor_disjoint 16 (_ + _)) by (lia || (apply Z.mod_mul; lia)).
  rewrite (lor_disjoint 24 (_ + _)) by (lia || (apply Z.mod_mul; lia)).
  Z.to_euclidean_division_equations; lia.
Qed.

Lemma SipHashUint256Extra_stream k0 k1 val extra : uint256_ok val → is_u32 extra →
  SipHashUint256Extra k0 k1 val extra =
  CSipHasher_Finalize (CSipHasher_Write (CSipHasher_Write (CSipHasher_init k0 k1) val) (le_bytes 4 extra)).
Proof.
  intros Hv He. rewrite <- (app_nil_r val) at 2. unfold CSipHasher_init at 1. rewrite sip_Write_uint256 by done.
  change (CSipHasher_Write (mkSip ?v ?t ?c) []) with (mkSip v t c).
  pose proof (le_bytes_u8 4 extra) as Hb. pose proof (le_bytes_join extra He) as E.
  cbn [le_bytes] in *. rewrite !is_bytes_cons in Hb.
  rewrite <- (Z.add_0_r 32) at 1. sip_run 32 0. sip_run 32 1. sip_run 32 2. sip_run 32 3.
  cbn [CSipHasher_Write]. unfold CSipHasher_Finalize. cbn [sip_tmp sip_count sip_v].
  change (8 * 0) with 0. change (8 * 1) with 8. change (8 * 2) with 16. change (8 * 3) with 24.
  rewrite Z.lor_0_l, Z.shiftl_0_r, E, Z.lor_comm. done.
Qed.

(** * Properties *)

(** the hashes every object is identified by are what they are meant to be:
    [Hash] is SHA-256 applied twice, although one hasher object with a dirty
    buffer is reset and reused, [Hash160] is RIPEMD-160 of SHA-256, the HMAC
    classes are RFC 2104 although the key is masked twice in place, and
    a transaction's identifier does not depend on its witnesses. *)
Theorem hashers_correct mem mem2 mem3 parts key ws tx tx' :
  length mem = 64%nat → length mem2 = 64%nat → length mem3 = 64%nat →
  map strip (vin tx) = map strip (vin tx') → vout tx = vout tx' →
  tx_nVersion tx = tx_nVersion tx' → nLockTime tx = nLockTime tx' →
  Hash mem parts = sha256 (sha256 (concat parts)) ∧
  Hash160 mem mem2 key = ripemd160 (sha256 key) ∧
  CHMAC_SHA256_Finalize (fold_left CHMAC_SHA256_Write ws (CHMAC_SHA256_init mem mem2 mem3 key)) =
    hmac_std 64 sha256 key (concat ws) ∧
  CHMAC_SHA512_Finalize (fold_left CHMAC_SHA512_Write ws
      (CHMAC_SHA512_init (mem ++ mem) (mem2 ++ mem2) (mem3 ++ mem3) key)) =
    hmac_std 128 sha512 key (concat ws) ∧
  CTransaction_ComputeHash mem tx = CTransaction_ComputeHash mem tx'.
Proof.
  intros H1 H2 H3 Hi Ho Hv Hl. split_and!.
  - by apply Hash_spec.
  - by apply Hash160_spec.
  - by apply CHMAC_SHA256_spec.
  - apply CHMAC_SHA512_spec; rewrite length_app; lia.
  - unfold CTransaction_ComputeHash. rewrite !SerializeTransaction_format. cbn [andb].
    change (fAllowWitness SERIALIZE_TRANSACTION_NO_WITNESS) with false. cbn [andb].
    unfold basic. by rewrite <- (Serialize_strip (vin tx)), Hi, Serialize_strip, Ho, Hv, Hl.
Qed.

Lemma hashers_correct_witness :
  Hash (replicate 64 1) [[1; 2]; [3]] = sha256 (sha256 [1; 2; 3]) ∧
  CTransaction_ComputeHash (replicate 64 1) (example_tx [[7]]) =
    CTransaction_ComputeHash (replicate 64 1) (example_tx []).
Proof.
  destruct (hashers_correct (replicate 64 1) (replicate 64 1) (replicate 64 1) [[1; 2]; [3]] [5] [[6]]
    (example_tx [[7]]) (example_tx []) eq_refl eq_refl eq_refl eq_refl eq_refl eq_refl eq_refl)
    as (H1 & _ & _ & _ & H2).
  exact (conj H1 H2).
Defined.

(** the two unrolled SipHash functions for 256-bit values compute the same as
    the streaming hasher fed word by word or byte by byte. *)
Theorem SipHash_optimised k0 k1 val extra : uint256_ok val → is_u32 extra →
  SipHashUint256 k0 k1 val = CSipHasher_Finalize (CSipHasher_Write (CSipHasher_init k0 k1) val) ∧
  Some (SipHashUint256 k0 k1 val) =
    (h ← CSipHasher_Write64 (CSipHasher_init k0 k1) (GetUint64 val 0);
     h ← CSipHasher_Write64 h (GetUint64 val 1);
     h ← CSipHasher_Write64 h (GetUint64 val 2);
     h ← CSipHasher_Write64 h (GetUint64 val 3);
     Some (CSipHasher_Finalize h)) ∧
  SipHashUint256Extra k0 k1 val extra =
    CSipHasher_Finalize (CSipHasher_Write (CSipHasher_Write (CSipHasher_init k0 k1) val) (le_bytes 4 extra)).
Proof.
  intros Hv He. split_and!; [by apply SipHashUint256_stream|done|by apply SipHashUint256Extra_stream].
Qed.

Lemma SipHash_optimised_witness :
  SipHashUint256 0x0706050403020100 0x0F0E0D0C0B0A0908
    (map Z.of_nat (seq 0 32)) = 0x7127512f72f27cce.
Proof.
  rewrite (proj1 (SipHash_optimised 0x0706050403020100 0x0F0E0D0C0B0A0908 (map Z.of_nat (seq 0 32)) 1
    ltac:(split; [cbn; repeat constructor; lia|done]) ltac:(unfold_words; lia))).
  vm_compute. reflexivity.
Defined.
