(* ===== verification/Base58.v ===== *)
(** Base58 and addresses (base58.h, base58.cpp, the prefixes of chainparams.cpp): encoding by repeated
    multiplication in place, the checksum, and the addresses of keys and scripts. *)
From stdpp Require Import base list option.
From Stdlib Require Import ZArith Lia.
From Stdlib Require String.
From S2P Require Import Prelude ArithUint256 Serialize Text Sha256 Hash.
Import String.StringSyntax.
Open Scope Z_scope.

Definition pszBase58 : text := str "123456789ABCDEFGHJKLMNPQRSTUVWXYZabcdefghijkmnopqrstuvwxyz".

(** The loop over the digits from the least significant one: [b = b * mul + carry] in base [base], which
    stops behind the first [length] digits when nothing is carried. The result is the
    digits, the carry that is left and the number of digits in use. *)
Fixpoint b58_loop (mul base : Z) (b : bytes) (length carry i : Z) : bytes * Z * Z :=
  match b with
  | [] => ([], carry, i)
  | d :: b' =>
      if negb (carry =? 0) || (i <? length) then
        let carry := carry + mul * d in
        let '(b'', c, i') := b58_loop mul base b' length (carry /c base) (i + 1) in (carry %c base :: b'', c, i')
      else (b, carry, i)
  end.

Fixpoint skip_zeroes (b : bytes) : bytes := match b with 0 :: b' => skip_zeroes b' | _ => b end.
Fixpoint count_prefix (c : Z) (b : bytes) : nat := match b with d :: b' => if d =? c then S (count_prefix c b') else O | [] => O end.

Fixpoint encode_loop (pbegin : bytes) (b58 : bytes) (length : Z) : option (bytes * Z) :=
  match pbegin with
  | [] => Some (b58, length)
  | ch :: pbegin' =>
      let '(b58, carry, i) := b58_loop 256 58 b58 length ch 0 in
      if carry =? 0 then encode_loop pbegin' b58 i else None
  end.

(** [std::vector<unsigned char> b(size)]: zeroes, or an exception when [size] is negative. *)
Definition zero_vector (size : Z) : option bytes := if size <? 0 then None else Some (repeat 0 (Z.to_nat size)).

(** [None] is a failed assertion or allocation. Vectors have their least significant digit first. *)
Definition EncodeBase58 (vch : bytes) : option text :=
  let zeroes := count_prefix 0 vch in
  let pbegin := drop zeroes vch in
  b58 ← zero_vector (i32 (Z.of_nat (length pbegin) * 138 /c 100 + 1));
  '(b58, len) ← encode_loop pbegin b58 0;
  Some (repeat (chr "1") zeroes ++ map (λ d, nth (Z.to_nat d) pszBase58 0) (skip_zeroes (rev (take (Z.to_nat len) b58)))).

(** [strchr(pszBase58, c) - pszBase58] *)
Fixpoint char_index (c : Z) (s : text) : option Z :=
  match s with [] => None | d :: s' => if c =? d then Some 0 else Z.succ <$> char_index c s' end.

(** The digits and their number, with the rest of the string; the inner [None] is the return of [false]. *)
Fixpoint decode_loop (psz : text) (b256 : bytes) (length : Z) : option (option (bytes * Z * text)) :=
  match psz with
  | [] => Some (Some (b256, length, []))
  | c :: psz' =>
      if isspace c then Some (Some (b256, length, psz))
      else
        match char_index c pszBase58 with
        | None => Some None
        | Some carry =>
            let '(b256, carry, i) := b58_loop 58 256 b256 length carry 0 in
            if carry =? 0 then decode_loop psz' b256 i else None
        end
  end.

Fixpoint skip_spaces (s : text) : text := match s with c :: s' => if isspace c then skip_spaces s' else s | [] => [] end.

(** On a string without zero bytes. The outer [None] is a failed assertion, the inner one [false]. *)
Definition DecodeBase58 (psz : text) : option (option bytes) :=
  let psz := skip_spaces psz in
  let zeroes := count_prefix (chr "1") psz in
  let psz := drop zeroes psz in
  b256 ← zero_vector (i32 (Z.of_nat (length psz) * 733 /c 1000 + 1));
  r ← decode_loop psz b256 0;
  match r with
  | None => Some None
  | Some (b256, len, psz) =>
      match skip_spaces psz with
      | [] => Some (Some (repeat 0 zeroes ++ skip_zeroes (rev (take (Z.to_nat len) b256))))
      | _ => Some None
      end
  end.

(** [str.c_str()] ends at the first zero byte. *)
Fixpoint c_str (s : text) : text := match s with [] => [] | c :: s' => if c =? 0 then [] else c :: c_str s' end.

(** The buffer of the hasher, whose contents do not matter. *)
Abbreviation hash_mem := (repeat 0 64).

Definition EncodeBase58Check (vchIn : bytes) : option text := EncodeBase58 (vchIn ++ take 4 (Hash hash_mem [vchIn])).

Definition DecodeBase58Check (psz : text) : option (option bytes) :=
  r ← DecodeBase58 psz;
  match r with
  | None => Some None
  | Some vchRet =>
      if (length vchRet <? 4)%nat then Some None
      else
        let n := (length vchRet - 4)%nat in
        if text_eqb (take 4 (Hash hash_mem [take n vchRet])) (drop n vchRet) then Some (Some (take n vchRet)) else Some None
  end.

(** * Addresses *)

Record CBase58Data := mkCBase58Data { vchVersion : bytes; vchData : bytes }.

Definition Base58Data_init : CBase58Data := mkCBase58Data [] [].
Definition SetData (vchVersionIn pdata : bytes) : CBase58Data := mkCBase58Data vchVersionIn pdata.

(** With the returned boolean. *)
Definition SetString (psz : text) (nVersionBytes : nat) : option (CBase58Data * bool) :=
  r ← DecodeBase58Check psz;
  match r with
  | None => Some (mkCBase58Data [] [], false)
  | Some vchTemp =>
      if (length vchTemp <? nVersionBytes)%nat then Some (mkCBase58Data [] [], false)
      else Some (mkCBase58Data (take nVersionBytes vchTemp) (drop nVersionBytes vchTemp), true)
  end.

Definition ToString (d : CBase58Data) : option text := EncodeBase58Check (vchVersion d ++ vchData d).

(** [boost::variant<CNoDestination, CKeyID, CScriptID>] *)
Inductive CTxDestination := CNoDestination | CKeyID (id : bytes) | CScriptID (id : bytes).

#[export] Instance CTxDestination_eq_dec : EqDecision CTxDestination.
Proof. solve_decision. Defined.

Record Base58Prefixes := mkPrefixes { PUBKEY_ADDRESS : bytes; SCRIPT_ADDRESS : bytes; SECRET_KEY : bytes }.

Definition main_prefixes : Base58Prefixes := mkPrefixes [28] [122] [112].
Definition testnet_prefixes : Base58Prefixes := mkPrefixes [88] [124] [114].
Definition regtest_prefixes : Base58Prefixes := mkPrefixes [111] [196] [239].

Section addresses.
Context (params : Base58Prefixes).

(** [CCmusicAIAddress::Set] on a destination, through the visitor; the data of no destination stays empty. *)
Definition Address_Set (dest : CTxDestination) : CBase58Data :=
  match dest with
  | CKeyID id => SetData (PUBKEY_ADDRESS params) (take 20 id)
  | CScriptID id => SetData (SCRIPT_ADDRESS params) (take 20 id)
  | CNoDestination => Base58Data_init
  end.

Definition Address_IsValid (a : CBase58Data) : bool :=
  (length (vchData a) =? 20)%nat && (text_eqb (vchVersion a) (PUBKEY_ADDRESS params) || text_eqb (vchVersion a) (SCRIPT_ADDRESS params)).

Definition Address_Get (a : CBase58Data) : CTxDestination :=
  if negb (Address_IsValid a) then CNoDestination
  else if text_eqb (vchVersion a) (PUBKEY_ADDRESS params) then CKeyID (vchData a)
  else if text_eqb (vchVersion a) (SCRIPT_ADDRESS params) then CScriptID (vchData a)
  else CNoDestination.

Definition EncodeDestination (dest : CTxDestination) : option text :=
  let addr := Address_Set dest in if negb (Address_IsValid addr) then Some [] else ToString addr.

Definition DecodeDestination (s : text) : option CTxDestination :=
  '(a, _) ← SetString (c_str s) 1; Some (Address_Get a).

Definition IsValidDestinationString (s : text) : option bool :=
  '(a, _) ← SetString (c_str s) 1; Some (Address_IsValid a).
End addresses.

Definition IsValidDestination (dest : CTxDestination) : bool := match dest with CNoDestination => false | _ => true end.

(** * Numbers in a base *)

Section base.
Context (B : Z) (HB : 2 ≤ B).

Definition digit (d : Z) : Prop := 0 ≤ d < B.
Definition value (l : bytes) : Z := fold_left (λ acc d, acc * B + d) l 0.
Fixpoint lvalue (l : bytes) : Z := match l with [] => 0 | d :: l' => d + B * lvalue l' end.
(** No zero in front. *)
Definition canonical (l : bytes) : Prop := Forall digit l ∧ match l with 0 :: _ => False | _ => True end.

Lemma value_snoc l d : value (l ++ [d]) = value l * B + d.
Proof. unfold value. by rewrite fold_left_app. Qed.

Lemma value_rev l : value (rev l) = lvalue l.
Proof. induction l as [|d l IH]; [done|]. cbn [rev lvalue]. rewrite value_snoc, IH. lia. Qed.

Lemma lvalue_app a b : lvalue (a ++ b) = lvalue a + B ^ Z.of_nat (length a) * lvalue b.
Proof using HB.
  induction a as [|d a IH]; cbn [app lvalue length]; [lia|]. rewrite IH, Nat2Z.inj_succ, Z.pow_succ_r by lia. lia.
Qed.

Lemma lvalue_zeroes l : Forall (λ d, d = 0) l → lvalue l = 0.
Proof using HB. induction 1 as [|d l -> _ IH]; cbn [lvalue]; lia. Qed.

Lemma lvalue_range l : Forall digit l → 0 ≤ lvalue l < B ^ Z.of_nat (length l).
Proof using HB.
  induction 1 as [|d l Hd _ IH]; cbn [lvalue length]; [lia|]. rewrite Nat2Z.inj_succ, Z.pow_succ_r by lia. unfold digit in Hd. nia.
Qed.

Lemma value_range l : Forall digit l → 0 ≤ value l < B ^ Z.of_nat (length l).
Proof using HB.
  intros H. rewrite <- (rev_involutive l), value_rev, length_rev. apply lvalue_range. by apply Forall_rev.
Qed.

Lemma canonical_value l : canonical l → value l = 0 → l = [].
Proof using HB.
  intros [Hd Hc] H. induction l as [|d l IH] using rev_ind; [done|]. exfalso. rewrite value_snoc in H. apply Forall_app in Hd as [Hl Hd].
  apply (proj1 (Forall_singleton _ _)) in Hd. pose proof (value_range _ Hl). unfold digit in Hd.
  assert (value l = 0 ∧ d = 0) as [Hv ->] by nia. destruct l as [|e l]; [done|]. by specialize (IH Hl Hc Hv).
Qed.

Lemma last_digit x y d e : digit d → digit e → x * B + d = y * B + e → x = y ∧ d = e.
Proof using HB.
  unfold digit. intros Hd He E.
  assert (Ex : ∀ z f, 0 ≤ f < B → (z * B + f) / B = z) by (intros z f Hf; rewrite Z.add_comm, Z.div_add, Z.div_small by lia; lia).
  pose proof (Ex x d Hd) as E1. rewrite E, Ex in E1 by done. nia.
Qed.

(** The digits without zeroes in front are determined by the value. *)
Lemma canonical_unique a : ∀ b, canonical a → canonical b → value a = value b → a = b.
Proof using HB.
  induction a as [|d a IH] using rev_ind; intros b Ha Hb E; [symmetry; by apply canonical_value|].
  destruct b as [|e b _] using rev_ind; [by apply canonical_value|]. rewrite !value_snoc in E.
  destruct Ha as [[Ha Hd]%Forall_app Hca], Hb as [[Hb He]%Forall_app Hcb]. apply (proj1 (Forall_singleton _ _)) in Hd, He.
  destruct (last_digit _ _ _ _ Hd He E) as [Ev ->]. f_equal. apply IH; [| |done].
  - split; [done|]. by destruct a.
  - split; [done|]. by destruct b.
Qed.

Lemma skip_zeroes_value l : value (skip_zeroes l) = value l.
Proof. by induction l as [|[] l IH]. Qed.

Lemma skip_zeroes_canonical l : Forall digit l → canonical (skip_zeroes l).
Proof. induction 1 as [|d l Hd Hl IH]; [by split|]. destruct d; [done|..]; split; done || by constructor. Qed.

Lemma skip_zeroes_id l : canonical l → skip_zeroes l = l.
Proof. intros [_ H]. by destruct l as [|[]]. Qed.

(** * The loop in place *)

Context (M : Z) (HM : 0 ≤ M).

(** What is in use is at most [len] digits long. *)
Definition in_use (b : bytes) (len : Z) : Prop := 0 ≤ len ∧ Forall digit b ∧ Forall (λ d, d = 0) (drop (Z.to_nat len) b).

Lemma b58_loop_spec b : ∀ len carry i,
  Forall digit b → 0 ≤ carry → 0 ≤ i → Forall (λ d, d = 0) (drop (Z.to_nat (len - i)) b) →
  let '(b', c, i') := b58_loop M B b len carry i in
  0 ≤ c ∧ i ≤ i' ∧ length b' = length b ∧ Forall digit b' ∧ Forall (λ d, d = 0) (drop (Z.to_nat (i' - i)) b') ∧
  lvalue b' + B ^ Z.of_nat (length b) * c = M * lvalue b + carry.
Proof using HB HM.
  induction b as [|d b IH]; intros len carry i Hb Hc Hi Hz; cbn [b58_loop].
  { split_and!; [done|lia|done|done|by rewrite drop_nil|]. cbn [lvalue length]. lia. }
  inversion Hb as [|?? Hd Hb']; subst. unfold digit in Hd. destruct (negb (carry =? 0) || (i <? len)) eqn:E.
  - assert (Hnn : 0 ≤ carry + M * d) by nia. rewrite Z.quot_div_nonneg, Z.rem_mod_nonneg by lia.
    pose proof (Z.mod_pos_bound (carry + M * d) B ltac:(lia)) as Hm. pose proof (Z.div_pos (carry + M * d) B Hnn ltac:(lia)) as Hq.
    specialize (IH len ((carry + M * d) / B) (i + 1) Hb' Hq ltac:(lia)).
    destruct (b58_loop M B b len ((carry + M * d) / B) (i + 1)) as [[b' c] i'].
    destruct IH as (? & ? & Hl & ? & Hz' & Hv).
    { destruct (Z.ltb_spec i len).
      - replace (Z.to_nat (len - i)) with (S (Z.to_nat (len - (i + 1)))) in Hz by lia. exact Hz.
      - replace (Z.to_nat (len - (i + 1))) with O by lia. replace (Z.to_nat (len - i)) with O in Hz by lia. by inversion Hz. }
    split_and!; [done|lia|cbn; by f_equal|by constructor| |].
    + replace (Z.to_nat (i' - i)) with (S (Z.to_nat (i' - (i + 1)))) by lia. exact Hz'.
    + cbn [lvalue length]. rewrite Nat2Z.inj_succ, Z.pow_succ_r by lia. pose proof (Z.div_mod (carry + M * d) B ltac:(lia)). nia.
  - apply orb_false_iff in E as [E1%negb_false_iff E2]. apply Z.eqb_eq in E1 as ->. apply Z.ltb_ge in E2.
    replace (Z.to_nat (len - i)) with O in Hz by lia. rewrite Z.sub_diag. change (Z.to_nat 0) with O. rewrite drop_0 in *.
    rewrite (lvalue_zeroes (d :: b)) by done. split_and!; try done; lia.
Qed.

(** Room for the result means that nothing is carried out. *)
Lemma b58_loop_fits b len carry :
  in_use b len → 0 ≤ carry → M * lvalue b + carry < B ^ Z.of_nat (length b) →
  ∃ b' i, b58_loop M B b len carry 0 = (b', 0, i) ∧ in_use b' i ∧ length b' = length b ∧ lvalue b' = M * lvalue b + carry.
Proof using HB HM.
  intros (Hl & Hd & Hz) Hc Hf. pose proof (b58_loop_spec b len carry 0 Hd Hc ltac:(lia)) as H. rewrite Z.sub_0_r in H. specialize (H Hz).
  destruct (b58_loop M B b len carry 0) as [[b' c] i]. destruct H as (Hc' & Hi & Hlb & Hd' & Hz' & Hv). rewrite Z.sub_0_r in Hz'.
  pose proof (lvalue_range _ Hd') as Hr. rewrite Hlb in Hr.
  assert (c = 0) as -> by nia. exists b', i. split_and!; try done. lia.
Qed.

Lemma in_use_value b len : in_use b len → value (rev (take (Z.to_nat len) b)) = lvalue b.
Proof using HB.
  intros (_ & _ & Hz). rewrite value_rev. rewrite <- (take_drop (Z.to_nat len) b) at 2. rewrite lvalue_app, (lvalue_zeroes (drop _ _)) by done. lia.
Qed.

Lemma in_use_zeroes n : in_use (repeat 0 n) 0.
Proof using HB.
  assert (H : Forall (λ d, d = 0) (repeat 0 n)) by (induction n; by constructor). split_and!; [done| |done].
  eapply Forall_impl; [|exact H]. intros d ->. unfold digit. lia.
Qed.
End base.

(** * Conversion *)

Lemma encode_loop_spec pbegin : ∀ b len v,
  is_bytes pbegin → in_use 58 b len → lvalue 58 b = v →
  v * 256 ^ Z.of_nat (length pbegin) + value 256 pbegin < 58 ^ Z.of_nat (length b) →
  ∃ b' len', encode_loop pbegin b len = Some (b', len') ∧ in_use 58 b' len' ∧
    lvalue 58 b' = v * 256 ^ Z.of_nat (length pbegin) + value 256 pbegin.
Proof.
  induction pbegin as [|ch pbegin IH] using list_ind; intros b len v Hp Hu Hv Hf.
  { exists b, len. split_and!; try done. cbn. lia. }
  inversion Hp as [|?? Hch Hp']; subst.
  assert (Ev : value 256 (ch :: pbegin) = ch * 256 ^ Z.of_nat (length pbegin) + value 256 pbegin).
  { rewrite <- (rev_involutive (ch :: pbegin)), value_rev. cbn [rev]. rewrite (lvalue_app 256) by lia. rewrite <- value_rev, rev_involutive, length_rev.
    cbn [lvalue]. lia. }
  pose proof (value_range 256 ltac:(lia) pbegin Hp') as Hr. cbn [length] in Hf. rewrite Nat2Z.inj_succ, Z.pow_succ_r in Hf by lia.
  assert (Hpow : 0 < 256 ^ Z.of_nat (length pbegin)) by (apply Z.pow_pos_nonneg; lia). assert (Hb0 := Hu). destruct Hb0 as (_ & Hd & _).
  pose proof (lvalue_range 58 ltac:(lia) b Hd) as Hb. red in Hch. rewrite Ev in Hf.
  destruct (b58_loop_fits 58 ltac:(lia) 256 ltac:(lia) b len ch Hu ltac:(lia)) as (b' & i & E & Hu' & Hl & Hv'); [nia|].
  cbn [encode_loop]. rewrite E. change (0 =? 0) with true. cbn iota.
  destruct (IH b' i _ Hp' Hu' eq_refl) as (b'' & len' & E' & Hu'' & Hv''); [rewrite Hl, Hv'; nia|].
  exists b'', len'. split_and!; try done. rewrite Hv'', Hv', Ev. cbn [length]. rewrite Nat2Z.inj_succ, Z.pow_succ_r by lia. nia.
Qed.

Definition alph (d : Z) : Z := nth (Z.to_nat d) pszBase58 0.

Lemma alph_facts d : digit 58 d → char_index (alph d) pszBase58 = Some d ∧ isspace (alph d) = false ∧ alph d ≠ 0 ∧ (alph d = chr "1" ↔ d = 0).
Proof.
  intros Hd.
  assert (H : forallb (λ d, bool_decide (char_index (alph d) pszBase58 = Some d ∧ isspace (alph d) = false ∧ alph d ≠ 0 ∧
    (alph d = chr "1" ↔ d = 0))) (map Z.of_nat (seq 0 58)) = true) by (vm_compute; reflexivity).
  rewrite forallb_forall in H. eapply bool_decide_eq_true_1. apply H. apply in_map_iff. exists (Z.to_nat d).
  red in Hd. split; [lia|]. apply in_seq. lia.
Qed.

Lemma char_index_spec c s : ∀ d, char_index c s = Some d → 0 ≤ d < Z.of_nat (length s) ∧ nth (Z.to_nat d) s 0 = c.
Proof.
  induction s as [|x s IH]; intros d; [done|]. cbn [char_index length]. destruct (Z.eqb_spec c x) as [->|Hc].
  - intros [= <-]. split; [lia|done].
  - destruct (char_index c s) as [e|]; [|done]. intros [= <-]. destruct (IH e eq_refl) as [? ?]. split; [lia|].
    by replace (Z.to_nat (Z.succ e)) with (S (Z.to_nat e)) by lia.
Qed.

(** A string is digits up to a space, the end or a character that is no digit. *)
Lemma psz_cases psz : ∃ ds rest, psz = map alph ds ++ rest ∧ Forall (digit 58) ds ∧
  match rest with [] => True | c :: _ => isspace c = true ∨ char_index c pszBase58 = None end.
Proof.
  induction psz as [|c psz IH]; [by exists [], []|]. destruct (isspace c) eqn:Ec; [exists [], (c :: psz); eauto|].
  destruct (char_index c pszBase58) as [d|] eqn:Ed; [|exists [], (c :: psz); eauto].
  destruct IH as (ds & rest & -> & Hd & Hr). apply char_index_spec in Ed as [Hr' Hn]. exists (d :: ds), rest. split_and!; [|by constructor|done].
  fold (alph d) in Hn. cbn [map app]. by rewrite Hn.
Qed.

Lemma decode_loop_digits ds rest : ∀ b len,
  Forall (digit 58) ds → in_use 256 b len → lvalue 256 b * 58 ^ Z.of_nat (length ds) + value 58 ds < 256 ^ Z.of_nat (length b) →
  ∃ b' len', decode_loop (map alph ds ++ rest) b len = decode_loop rest b' len' ∧ in_use 256 b' len' ∧
    lvalue 256 b' = lvalue 256 b * 58 ^ Z.of_nat (length ds) + value 58 ds.
Proof.
  induction ds as [|d ds IH] using list_ind; intros b len Hp Hu Hf.
  { exists b, len. split_and!; try done. cbn. lia. }
  inversion Hp as [|?? Hch Hp']; subst.
  assert (Ev : value 58 (d :: ds) = d * 58 ^ Z.of_nat (length ds) + value 58 ds).
  { rewrite <- (rev_involutive (d :: ds)), value_rev. cbn [rev]. rewrite (lvalue_app 58) by lia. rewrite <- value_rev, rev_involutive, length_rev.
    cbn [lvalue]. lia. }
  pose proof (value_range 58 ltac:(lia) ds Hp') as Hr. cbn [length] in Hf. rewrite Nat2Z.inj_succ, Z.pow_succ_r in Hf by lia.
  assert (Hpow : 0 < 58 ^ Z.of_nat (length ds)) by (apply Z.pow_pos_nonneg; lia). assert (Hb0 := Hu). destruct Hb0 as (_ & Hd & _).
  pose proof (lvalue_range 256 ltac:(lia) b Hd) as Hb. destruct (alph_facts d Hch) as (Hi & Hs & _). red in Hch. rewrite Ev in Hf.
  destruct (b58_loop_fits 256 ltac:(lia) 58 ltac:(lia) b len d Hu ltac:(lia)) as (b' & i & E & Hu' & Hl & Hv'); [nia|].
  cbn [map app decode_loop]. rewrite Hs, Hi, E. change (0 =? 0) with true. cbn iota.
  destruct (IH b' i Hp' Hu') as (b'' & len' & E' & Hu'' & Hv''); [rewrite Hl, Hv'; nia|].
  exists b'', len'. split_and!; try done. rewrite Hv'', Hv', Ev. cbn [length]. rewrite Nat2Z.inj_succ, Z.pow_succ_r by lia. nia.
Qed.

(** The allocated size is enough. *)
Lemma size_bound a b p q n : 1 < a → 1 < b → 0 < p → 0 < q → a ^ q ≤ b ^ p → a ^ Z.of_nat n < b ^ (Z.of_nat n * p / q + 1).
Proof.
  intros Ha Hb Hp Hq H. assert (Hs : 0 ≤ Z.of_nat n * p / q) by (apply Z.div_pos; lia).
  apply (Z.pow_lt_mono_l_iff _ _ q); [apply Z.pow_nonneg; lia|apply Z.pow_nonneg; lia|lia|].
  rewrite <- !Z.pow_mul_r, (Z.mul_comm (Z.of_nat n)) by lia. rewrite Z.pow_mul_r by lia.
  apply Z.le_lt_trans with ((b ^ p) ^ Z.of_nat n); [apply Z.pow_le_mono_l; split; [apply Z.pow_nonneg; lia|done]|].
  rewrite <- Z.pow_mul_r by lia. apply Z.pow_lt_mono_r; [lia|nia|]. pose proof (Z.mul_succ_div_gt (Z.of_nat n * p) q ltac:(lia)). nia.
Qed.

Lemma count_prefix_split c s : s = repeat c (count_prefix c s) ++ drop (count_prefix c s) s ∧
  match drop (count_prefix c s) s with d :: _ => d ≠ c | [] => True end.
Proof.
  induction s as [|d s IH]; [done|]. cbn [count_prefix]. destruct (Z.eqb_spec d c) as [->|Hd]; [|done].
  cbn [repeat drop app]. destruct IH as [E H]. split; [by f_equal|done].
Qed.

Lemma count_prefix_repeat c n s : match s with d :: _ => d ≠ c | [] => True end → count_prefix c (repeat c n ++ s) = n.
Proof.
  intros H. induction n as [|n IH]; cbn [repeat app count_prefix]; [|by rewrite Z.eqb_refl, IH].
  destruct s as [|d s]; [done|]. cbn [count_prefix]. by rewrite (proj2 (Z.eqb_neq _ _) H).
Qed.

Lemma drop_repeat_app {A} (c : A) n s : drop n (repeat c n ++ s) = s.
Proof. by induction n. Qed.

Lemma skip_spaces_split s : ∃ sp, s = sp ++ skip_spaces s ∧ forallb isspace sp = true ∧ match skip_spaces s with c :: _ => isspace c = false | [] => True end.
Proof.
  induction s as [|c s IH]; [by exists []|]. cbn [skip_spaces]. destruct (isspace c) eqn:E; [|by exists []].
  destruct IH as (sp & Es & Hsp & Hh). exists (c :: sp). split_and!; [cbn [app]; by rewrite <- Es|cbn [forallb]; by rewrite E|done].
Qed.

Lemma skip_spaces_app sp s : forallb isspace sp = true → match s with c :: _ => isspace c = false | [] => True end → skip_spaces (sp ++ s) = s.
Proof.
  intros Hsp Hs. induction sp as [|c sp IH]; cbn [app].
  - destruct s as [|c s]; [done|]. cbn [skip_spaces]. by rewrite Hs.
  - cbn [forallb] in Hsp. apply andb_true_iff in Hsp as [Hc Hsp]. cbn [skip_spaces]. rewrite Hc. by apply IH.
Qed.

Lemma size_i32 n k q : Z.of_nat n < 2 ^ 23 → 0 < k < q * 2 → 0 < q → i32 (Z.of_nat n * k /c q + 1) = Z.of_nat n * k / q + 1.
Proof.
  intros Hn Hk Hq. rewrite Z.quot_div_nonneg by lia.
  assert (0 ≤ Z.of_nat n * k / q) by (apply Z.div_pos; lia). assert (Z.of_nat n * k / q < 2 ^ 24) by (apply Z.div_lt_upper_bound; [lia|]; nia).
  unfold i32. rewrite Z.mod_small; lia.
Qed.

Lemma zero_vector_size n : 0 ≤ n → zero_vector n = Some (repeat 0 (Z.to_nat n)).
Proof. intros H. unfold zero_vector. by rewrite (proj2 (Z.ltb_ge _ _) H). Qed.

Lemma lvalue_repeat B n : 2 ≤ B → lvalue B (repeat 0 n) = 0.
Proof. intros HB. apply lvalue_zeroes; [done|]. induction n; by constructor. Qed.

(** Encoding writes the digits of the value, and a one for every zero in front. *)
Lemma EncodeBase58_digits v :
  is_bytes v → Z.of_nat (length v) < 2 ^ 23 →
  ∃ ds, EncodeBase58 v = Some (repeat (chr "1") (count_prefix 0 v) ++ map alph ds) ∧ canonical 58 ds ∧
    value 58 ds = value 256 (drop (count_prefix 0 v) v).
Proof.
  intros Hv Hl. unfold EncodeBase58. set (p := drop (count_prefix 0 v) v). assert (Hp : is_bytes p) by (by apply Forall_drop).
  assert (Hlp : Z.of_nat (length p) < 2 ^ 23) by (unfold p; rewrite length_drop; lia).
  rewrite size_i32 by (done || lia). set (n := Z.of_nat (length p) * 138 / 100 + 1).
  assert (Hn : 0 ≤ Z.of_nat (length p) * 138 / 100) by (apply Z.div_pos; lia). rewrite zero_vector_size by lia. cbn [mbind option_bind].
  destruct (encode_loop_spec p (repeat 0 (Z.to_nat n)) 0 0 Hp) as (b & len & E & Hu & Hb).
  - apply in_use_zeroes. lia.
  - apply lvalue_repeat. lia.
  - rewrite repeat_length, Z2Nat.id by lia. pose proof (value_range 256 ltac:(lia) p Hp).
    pose proof (size_bound 256 58 138 100 (length p) ltac:(lia) ltac:(lia) ltac:(lia) ltac:(lia) ltac:(by vm_compute)). fold n in H0. lia.
  - rewrite E. cbn [mbind option_bind]. eexists. split; [reflexivity|]. assert (Hb' := Hu). destruct Hb' as (_ & Hd & _). split.
    + apply skip_zeroes_canonical. apply Forall_rev. by apply Forall_take.
    + rewrite skip_zeroes_value, in_use_value by (done || lia). lia.
Qed.

(** Decoding reads the digits. *)
Lemma DecodeBase58_digits sp z ds rest :
  forallb isspace sp = true → canonical 58 ds → Z.of_nat (length ds + length rest) < 2 ^ 23 →
  match rest with c :: _ => isspace c = true ∨ char_index c pszBase58 = None | [] => True end →
  match repeat (chr "1") z ++ map alph ds ++ rest with c :: _ => isspace c = false | [] => True end →
  ∃ l, canonical 256 l ∧ value 256 l = value 58 ds ∧
    DecodeBase58 (sp ++ repeat (chr "1") z ++ map alph ds ++ rest) =
    Some (if forallb isspace rest then Some (repeat 0 z ++ l) else None).
Proof.
  intros Hsp Hc Hl Hrest Hhead. unfold DecodeBase58. rewrite skip_spaces_app by done. set (s2 := map alph ds ++ rest).
  assert (Hs2 : match s2 with c :: _ => c ≠ chr "1" | [] => True end).
  { unfold s2. destruct Hc as [Hd Hz], ds as [|d ds]; cbn [map app].
    - destruct rest as [|c rest]; [done|]. intros ->. destruct Hrest as [H|H]; vm_compute in H; done.
    - inversion Hd as [|?? Hd0 _]; subst. destruct (alph_facts d Hd0) as (_ & _ & _ & H). rewrite H. by intros ->. }
  rewrite count_prefix_repeat, drop_repeat_app by done. assert (El : length s2 = (length ds + length rest)%nat) by (unfold s2; by rewrite length_app, length_map).
  rewrite size_i32 by (lia || by rewrite El). set (n := Z.of_nat (length s2) * 733 / 1000 + 1).
  assert (Hn : 0 ≤ Z.of_nat (length s2) * 733 / 1000) by (apply Z.div_pos; lia). rewrite zero_vector_size by lia. cbn [mbind option_bind].
  destruct Hc as [Hd Hcz]. destruct (decode_loop_digits ds rest (repeat 0 (Z.to_nat n)) 0 Hd) as (b & len & E & Hu & Hb).
  - apply in_use_zeroes. lia.
  - rewrite lvalue_repeat, repeat_length, Z2Nat.id by lia. pose proof (value_range 58 ltac:(lia) ds Hd).
    pose proof (size_bound 58 256 733 1000 (length s2) ltac:(lia) ltac:(lia) ltac:(lia) ltac:(lia) ltac:(by vm_compute)) as Hsz. fold n in Hsz.
    assert (58 ^ Z.of_nat (length ds) ≤ 58 ^ Z.of_nat (length s2)) by (apply Z.pow_le_mono_r; lia). lia.
  - fold s2 in E. rewrite E. rewrite lvalue_repeat in Hb by lia. exists (skip_zeroes (rev (take (Z.to_nat len) b))). assert (Hb' := Hu). destruct Hb' as (_ & Hdb & _).
    split; [apply skip_zeroes_canonical; apply Forall_rev; by apply Forall_take|]. split; [rewrite skip_zeroes_value, in_use_value by (done || lia); lia|].
    destruct rest as [|c rest]; [done|]. cbn [decode_loop]. destruct (isspace c) eqn:Ec; [|by destruct Hrest as [Hr|Hr]; [done|rewrite Hr; cbn [forallb]; rewrite Ec]].
    cbn [mbind option_bind]. destruct (forallb isspace (c :: rest)) eqn:Ef.
    + rewrite <- (app_nil_r (c :: rest)), skip_spaces_app by done. done.
    + destruct (skip_spaces (c :: rest)) eqn:Es; [|done]. destruct (skip_spaces_split (c :: rest)) as (sp' & E' & Hsp' & _). rewrite Es, app_nil_r in E'.
      by rewrite E', Hsp' in Ef.
Qed.

(** * Round trips *)

Lemma canonical_length B l : 2 ≤ B → canonical B l → l ≠ [] → B ^ Z.of_nat (length l - 1) ≤ value B l.
Proof.
  intros HB. induction l as [|d l IH] using rev_ind; [done|]. intros [[Hl Hd]%Forall_app Hz] _. rewrite value_snoc, length_app. cbn [length].
  apply (proj1 (Forall_singleton _ _)) in Hd. unfold digit in Hd. rewrite Nat.add_sub. destruct l as [|e l].
  - cbn. destruct d; [done|lia|lia].
  - assert (H : canonical B (e :: l)) by (split; [done|by destruct e]). specialize (IH H ltac:(done)).
    cbn [length] in *. rewrite Nat.sub_succ, Nat.sub_0_r in IH. rewrite Nat2Z.inj_succ, Z.pow_succ_r by lia. nia.
Qed.

Lemma encoded_length v ds : is_bytes v → canonical 58 ds → value 58 ds = value 256 v → (length ds ≤ 2 * length v)%nat.
Proof.
  intros Hv Hc E. destruct (decide (ds = [])) as [->|Hn]; [cbn; lia|]. pose proof (canonical_length 58 ds ltac:(lia) Hc Hn) as H.
  pose proof (value_range 256 ltac:(lia) v Hv) as Hr. assert (256 ^ Z.of_nat (length v) ≤ 58 ^ (2 * Z.of_nat (length v))).
  { rewrite Z.pow_mul_r by lia. apply Z.pow_le_mono_l. lia. }
  assert (58 ^ Z.of_nat (length ds - 1) < 58 ^ (2 * Z.of_nat (length v))) as Hp by lia. apply Z.pow_lt_mono_r_iff in Hp; [|lia|lia].
  destruct ds; [done|cbn in *; lia].
Qed.

Lemma decoded_length l ds : canonical 256 l → Forall (digit 58) ds → value 256 l = value 58 ds → (length l ≤ length ds)%nat.
Proof.
  intros Hc Hd E. destruct (decide (l = [])) as [->|Hn]; [cbn; lia|]. pose proof (canonical_length 256 l ltac:(lia) Hc Hn) as H.
  pose proof (value_range 58 ltac:(lia) ds Hd) as Hr. assert (58 ^ Z.of_nat (length ds) ≤ 256 ^ Z.of_nat (length ds)) by (apply Z.pow_le_mono_l; lia).
  assert (256 ^ Z.of_nat (length l - 1) < 256 ^ Z.of_nat (length ds)) as Hp by lia. apply Z.pow_lt_mono_r_iff in Hp; [|lia|lia]. lia.
Qed.

Lemma value_zeroes B z l : value B (repeat 0 z ++ l) = value B l.
Proof. induction z as [|z IH]; [done|]. exact IH. Qed.

Lemma zeroes_canonical v : is_bytes v → canonical 256 (drop (count_prefix 0 v) v).
Proof.
  intros Hv. destruct (count_prefix_split 0 v) as [_ H]. split; [by apply Forall_drop|]. by destruct (drop _ _) as [|[] ?].
Qed.

(** A string of the alphabet. *)
Definition base58_text (s : text) : Prop := Forall (λ c, is_Some (char_index c pszBase58)) s.

Lemma base58_text_digits z ds : Forall (digit 58) ds → base58_text (repeat (chr "1") z ++ map alph ds).
Proof.
  intros Hd. apply Forall_app. split.
  - induction z; constructor; [|done]. vm_compute. eauto.
  - induction Hd as [|d ds Hd _ IH]; constructor; [|done]. destruct (alph_facts d Hd) as (-> & _). eauto.
Qed.

Lemma base58_text_chars s : base58_text s → Forall (λ c, isspace c = false ∧ c ≠ 0) s.
Proof.
  apply Forall_impl. intros c [d Hd]. apply char_index_spec in Hd as [Hr Hn]. change (Z.of_nat (length pszBase58)) with 58 in Hr.
  destruct (alph_facts d Hr) as (_ & ? & ? & _). unfold alph in *. by rewrite Hn in *.
Qed.

Lemma head_not_space s : base58_text s → match s with c :: _ => isspace c = false | [] => True end.
Proof. intros H%base58_text_chars. destruct H as [|c s [? _] _]; done. Qed.

Lemma c_str_id s : base58_text s → c_str s = s.
Proof.
  intros H%base58_text_chars. induction H as [|c s [_ Hc] _ IH]; [done|]. cbn [c_str]. by rewrite (proj2 (Z.eqb_neq _ _) Hc), IH.
Qed.

Lemma Base58_encode_decode v :
  is_bytes v → Z.of_nat (length v) < 2 ^ 22 → ∃ s, EncodeBase58 v = Some s ∧ DecodeBase58 s = Some (Some v) ∧ base58_text s.
Proof.
  intros Hv Hl. destruct (EncodeBase58_digits v Hv ltac:(lia)) as (ds & E & Hc & Ev). eexists. split; [exact E|].
  assert (Ht := base58_text_digits (count_prefix 0 v) ds (proj1 Hc)). split; [|done].
  pose proof (zeroes_canonical v Hv) as Hcv. pose proof (encoded_length _ _ (proj1 Hcv) Hc Ev) as Hlen. rewrite length_drop in Hlen.
  destruct (DecodeBase58_digits [] (count_prefix 0 v) ds [] eq_refl Hc) as (l & Hcl & Hvl & Ed); [cbn; lia|done| |].
  { rewrite app_nil_r. by apply head_not_space. }
  rewrite app_nil_r in Ed. cbn [app] in Ed. rewrite Ed. cbn [forallb]. do 2 f_equal.
  rewrite (canonical_unique 256 ltac:(lia) l _ Hcl Hcv) by congruence. symmetry. apply count_prefix_split.
Qed.

Lemma canonical_head z ds : Forall (digit 58) ds → ∃ z' ds', repeat (chr "1") z ++ map alph ds = repeat (chr "1") z' ++ map alph ds' ∧ canonical 58 ds' ∧ (length ds' ≤ length ds)%nat.
Proof.
  revert z. induction ds as [|d ds IH]; intros z Hd; [by exists z, []|]. inversion Hd as [|?? Hd0 Hds]; subst. destruct (decide (d = 0)) as [->|Hn].
  - destruct (IH (S z) Hds) as (z' & ds' & E & Hc & Hl). exists z', ds'. split_and!; [|done|cbn; lia]. rewrite <- E. cbn [map]. change (alph 0) with (chr "1").
    change (repeat (chr "1") (S z)) with (chr "1" :: repeat (chr "1") z). rewrite repeat_cons, <- app_assoc. done.
  - exists z, (d :: ds). split_and!; [done| |done]. split; [done|]. by destruct d.
Qed.

(** Decoding always ends, and accepts a string between spaces only if it is the encoding of the result. *)
Lemma Base58_decode_encode s :
  Z.of_nat (length s) < 2 ^ 22 →
  ∃ r, DecodeBase58 s = Some r ∧ ∀ v, r = Some v → is_bytes v ∧ ∃ sp t sp', s = sp ++ t ++ sp' ∧ forallb isspace (sp ++ sp') = true ∧ EncodeBase58 v = Some t.
Proof.
  intros Hl. destruct (skip_spaces_split s) as (sp & Es & Hsp & Hh). rewrite Es in Hl |- *. revert Hl Hh. generalize (skip_spaces s). intros s1 Hl Hh.
  destruct (psz_cases s1) as (ds0 & rest & -> & Hd & Hrest). destruct (canonical_head 0 ds0 Hd) as (z & ds & E & Hc & Hlen). cbn [repeat app] in E.
  rewrite E, <- app_assoc in Hh, Hl |- *. rewrite !length_app, length_map, repeat_length in Hl.
  destruct (DecodeBase58_digits sp z ds rest Hsp Hc) as (l & Hcl & Hvl & Ed); [lia|by destruct rest|done|].
  eexists. split; [exact Ed|]. intros v Hv. destruct (forallb isspace rest) eqn:Er; [|done]. injection Hv as <-.
  assert (Hb : is_bytes (repeat 0 z ++ l)). { apply Forall_app. split; [|apply Hcl]. clear. induction z; constructor; [red; lia|done]. }
  split; [done|]. exists sp, (repeat (chr "1") z ++ map alph ds), rest. split; [by rewrite <- app_assoc|]. split; [by rewrite forallb_app, Hsp|].
  assert (Hz : count_prefix 0 (repeat 0 z ++ l) = z) by (apply count_prefix_repeat; destruct Hcl as [_ H]; destruct l as [|[] ?]; done).
  pose proof (decoded_length l ds Hcl (proj1 Hc) Hvl) as Hll.
  destruct (EncodeBase58_digits (repeat 0 z ++ l) Hb) as (ds' & E' & Hc' & Ev'); [rewrite length_app, repeat_length; lia|].
  rewrite Hz, drop_repeat_app in *. rewrite E'. do 2 f_equal. f_equal. apply (canonical_unique 58); [lia|done|done|congruence].
Qed.

Lemma hash_checksum v : length (take 4 (Hash hash_mem [v])) = 4%nat ∧ is_bytes (take 4 (Hash hash_mem [v])).
Proof.
  rewrite Hash_spec by done. split.
  - rewrite length_take, length_sha256. done.
  - apply Forall_take. apply sha256_bytes.
Qed.

#[local] Opaque Hash.

Lemma Base58Check_roundtrip v :
  is_bytes v → Z.of_nat (length v) < 2 ^ 21 → ∃ s, EncodeBase58Check v = Some s ∧ DecodeBase58Check s = Some (Some v) ∧ base58_text s.
Proof.
  intros Hv Hl. destruct (hash_checksum v) as [Hc Hb]. unfold EncodeBase58Check, DecodeBase58Check.
  destruct (Base58_encode_decode (v ++ take 4 (Hash hash_mem [v]))) as (s & E & D & T); [by apply Forall_app|rewrite length_app, Hc; lia|].
  exists s. split_and!; [done| |done]. rewrite D. cbn [mbind option_bind]. rewrite length_app, Hc.
  destruct (Nat.ltb_spec (length v + 4) 4); [lia|]. rewrite Nat.add_sub, take_app_length, drop_app_length. unfold text_eqb. by rewrite bool_decide_eq_true_2.
Qed.

(** Prefixes of one byte, different for keys and scripts. *)
Definition prefixes_ok (params : Base58Prefixes) : Prop :=
  is_bytes (PUBKEY_ADDRESS params) ∧ is_bytes (SCRIPT_ADDRESS params) ∧ length (PUBKEY_ADDRESS params) = 1%nat ∧
  length (SCRIPT_ADDRESS params) = 1%nat ∧ PUBKEY_ADDRESS params ≠ SCRIPT_ADDRESS params.

Definition dest_ok (d : CTxDestination) : Prop :=
  match d with CNoDestination => False | CKeyID id | CScriptID id => is_bytes id ∧ length id = 20%nat end.

Lemma EncodeDestination_roundtrip params d :
  prefixes_ok params → dest_ok d →
  ∃ s, EncodeDestination params d = Some s ∧ DecodeDestination params s = Some d ∧ IsValidDestinationString params s = Some true ∧ base58_text s.
Proof.
  intros (Hp & Hs & Lp & Ls & Hne) Hd.
  assert (Key : ∀ pre id, is_bytes pre → length pre = 1%nat → is_bytes id → length id = 20%nat →
    (pre = PUBKEY_ADDRESS params ∨ pre = SCRIPT_ADDRESS params) → Address_Set params d = SetData pre id →
    Address_Get params (mkCBase58Data pre id) = d → ∃ s, EncodeDestination params d = Some s ∧ DecodeDestination params s = Some d ∧
    IsValidDestinationString params s = Some true ∧ base58_text s).
  { intros pre id Hpre Lpre Hid Lid Hor Eset Eget. assert (Hval : Address_IsValid params (mkCBase58Data pre id) = true).
    { unfold Address_IsValid. cbn [vchData vchVersion]. rewrite Lid, orb_true_intro; [done|]. rewrite !text_eqb_spec. done. }
    destruct (Base58Check_roundtrip (pre ++ id)) as (s & E & D & T); [by apply Forall_app|rewrite length_app; lia|]. exists s.
    unfold EncodeDestination, DecodeDestination, IsValidDestinationString, ToString, SetString. rewrite Eset. unfold SetData. rewrite Hval. cbn [negb vchVersion vchData].
    rewrite c_str_id, D by done. destruct pre as [|x [|]]; try done. cbn [mbind option_bind app length Nat.ltb Nat.leb firstn skipn]. rewrite ?take_0, ?drop_0. by rewrite Eget, Hval. }
  destruct d as [|id|id]; [done|..]; destruct Hd as [Hb Hl].
  - apply (Key (PUBKEY_ADDRESS params) id); try done; [by left|unfold Address_Set; by rewrite take_ge by lia|].
    unfold Address_Get, Address_IsValid. cbn [vchData vchVersion]. rewrite Hl. unfold text_eqb. by rewrite (bool_decide_eq_true_2 (PUBKEY_ADDRESS params = _)).
  - apply (Key (SCRIPT_ADDRESS params) id); try done; [by right|unfold Address_Set; by rewrite take_ge by lia|].
    unfold Address_Get, Address_IsValid. cbn [vchData vchVersion]. rewrite Hl. unfold text_eqb. rewrite (bool_decide_eq_false_2 (SCRIPT_ADDRESS params = PUBKEY_ADDRESS params)) by done.
    by rewrite (bool_decide_eq_true_2 (SCRIPT_ADDRESS params = SCRIPT_ADDRESS params)).
Qed.

(** Different destinations have different addresses. *)
Lemma EncodeDestination_inj params d d' :
  prefixes_ok params → dest_ok d → dest_ok d' → EncodeDestination params d = EncodeDestination params d' → d = d'.
Proof.
  intros Hp Hd Hd' E. destruct (EncodeDestination_roundtrip params d Hp Hd) as (s & E1 & D1 & _).
  destruct (EncodeDestination_roundtrip params d' Hp Hd') as (s' & E2 & D2 & _). congruence.
Qed.

Lemma networks_prefixes_ok : prefixes_ok main_prefixes ∧ prefixes_ok testnet_prefixes ∧ prefixes_ok regtest_prefixes.
Proof. unfold prefixes_ok. split_and!; (done || (constructor; [red; cbn; lia|done])). Qed.

(** C18: Base58 in place is exact. The space that is allocated is always enough, so that no assertion fails; encoding
    and decoding byte strings are inverse to each other, and a string is only accepted, between spaces, if it is the
    encoding of the result; the address of a key or a script hash is decoded to the same destination,
    whatever the prefixes of the network. *)
Theorem base58_roundtrip params v s d :
  prefixes_ok params → is_bytes v → Z.of_nat (length v) < 2 ^ 22 → Z.of_nat (length s) < 2 ^ 22 → dest_ok d →
  (∃ t, EncodeBase58 v = Some t ∧ DecodeBase58 t = Some (Some v)) ∧
  (∃ r, DecodeBase58 s = Some r ∧
     ∀ u, r = Some u → ∃ sp t sp', s = sp ++ t ++ sp' ∧ forallb isspace (sp ++ sp') = true ∧ EncodeBase58 u = Some t) ∧
  (∃ t, EncodeDestination params d = Some t ∧ DecodeDestination params t = Some d ∧ IsValidDestinationString params t = Some true).
Proof.
  intros Hp Hv Lv Ls Hd. split_and!.
  - destruct (Base58_encode_decode v Hv Lv) as (t & ? & ? & _). eauto.
  - destruct (Base58_decode_encode s Ls) as (r & E & H). exists r. split; [done|]. intros u Hu. by destruct (H u Hu) as [_ ?].
  - destruct (EncodeDestination_roundtrip params d Hp Hd) as (t & ? & ? & ? & _). eauto.
Qed.

Lemma base58_roundtrip_witness :
  DecodeBase58 (str "2NEpo7TZRRrLZSi2U") = Some (Some (str "Hello World!")) ∧ EncodeBase58 (str "Hello World!") = Some (str "2NEpo7TZRRrLZSi2U") ∧
  ∃ t, EncodeDestination main_prefixes (CKeyID (repeat 7 20)) = Some t ∧ DecodeDestination main_prefixes t = Some (CKeyID (repeat 7 20)).
Proof.
  assert (E : EncodeBase58 (str "Hello World!") = Some (str "2NEpo7TZRRrLZSi2U")) by (vm_compute; reflexivity).
  destruct (base58_roundtrip main_prefixes (str "Hello World!") (str " 2g ") (CKeyID (repeat 7 20))) as ((t & Et & Dt) & _ & (a & Ea & Da & _)).
  - apply networks_prefixes_ok.
  - repeat (constructor; [red; vm_compute; split; done|]). constructor.
  - vm_compute. reflexivity.
  - vm_compute. reflexivity.
  - split; [|done]. repeat (constructor; [red; lia|]). constructor.
  - rewrite E in Et. apply (inj Some) in Et. rewrite <- Et in Dt. split; [exact Dt|]. split; [exact E|]. exists a. split; [exact Ea|exact Da].
Defined.
