(* ===== verification/Merkle.v ===== *)
(** Merkle roots and branches (consensus/merkle.cpp): the constant-space
    computation over an array of subtree hashes, against the definition that
    pairs up one level after the other. *)
From stdpp Require Import base list option.
From Stdlib Require Import ZArith Lia.
From S2P Require Import Prelude ArithUint256 Serialize Chain Transaction HashStream Sha256 Hash.
Open Scope Z_scope.

(** * Arithmetic of levels *)

Abbreviation p2 l := (2 ^ Z.of_nat l).

Lemma p2_pos l : 0 < p2 l.
Proof. apply Z.pow_pos_nonneg; lia. Qed.

Lemma p2_S l : p2 (S l) = 2 * p2 l.
Proof. rewrite Nat2Z.inj_succ, Z.pow_succ_r by lia. done. Qed.

Lemma div_S c l : c / p2 (S l) = c / p2 l / 2.
Proof. rewrite p2_S, Z.mul_comm. pose proof (p2_pos l). by rewrite Z.div_div by lia. Qed.

Lemma testbit_level c l : Z.testbit c (Z.of_nat l) = Z.odd (c / p2 l).
Proof. rewrite Z.testbit_odd, Z.shiftr_div_pow2 by lia. done. Qed.

Lemma odd_half q : q = 2 * (q / 2) + (if Z.odd q then 1 else 0).
Proof. pose proof (Z.div2_odd q). rewrite Z.div2_div in *. destruct (Z.odd q); cbn [Z.b2z] in *; lia. Qed.

Lemma mod_level c l : c mod p2 l = 0 ↔ c = p2 l * (c / p2 l).
Proof. pose proof (p2_pos l). pose proof (Z.div_mod c (p2 l) ltac:(lia)). lia. Qed.

Lemma mod_S c l : c mod p2 (S l) = 0 ↔ c mod p2 l = 0 ∧ Z.testbit c (Z.of_nat l) = false.
Proof.
  rewrite testbit_level, !mod_level, div_S, p2_S. pose proof (p2_pos l) as Hp. pose proof (odd_half (c / p2 l)) as E.
  pose proof (Z.div_mod c (p2 l) ltac:(lia)) as D. pose proof (Z.mod_pos_bound c (p2 l) Hp) as R.
  set (q := c / p2 l) in *. set (h := q / 2) in *. set (P := p2 l) in *. set (r := c mod P) in *.
  destruct (Z.odd q).
  - split; [intros H; exfalso; nia|by intros [_ ?]].
  - split; [intros H; split; [nia|done]|intros [H _]; nia].
Qed.

(** The number just below a multiple. *)
Lemma pred_div c l : 0 < c → c mod p2 l = 0 → (c - 1) / p2 l = c / p2 l - 1.
Proof.
  intros Hc H. pose proof (p2_pos l). apply mod_level in H.
  symmetry. apply (Z.div_unique _ _ _ (p2 l - 1)); lia.
Qed.

Lemma pred_div_other c l : c mod p2 l ≠ 0 → (c - 1) / p2 l = c / p2 l.
Proof.
  intros H. pose proof (p2_pos l). pose proof (Z.div_mod c (p2 l) ltac:(lia)).
  pose proof (Z.mod_pos_bound c (p2 l) ltac:(lia)).
  symmetry. apply (Z.div_unique _ _ _ (c mod p2 l - 1)); lia.
Qed.

Lemma mod_mono c l l' : (l ≤ l')%nat → c mod p2 l' = 0 → c mod p2 l = 0.
Proof. intros Hl H. induction Hl as [|l' _ IH]; [done|]. apply mod_S in H. tauto. Qed.

Lemma list_pair_ind {A} (P : list A → Prop) :
  P [] → (∀ x, P [x]) → (∀ x y l, P l → P (x :: y :: l)) → ∀ l, P l.
Proof.
  intros H0 H1 H2 l. enough (P l ∧ ∀ x, P (x :: l)) by tauto.
  induction l as [|x l [IH1 IH2]]; split; auto.
Qed.

Section Merkle.
Context {A : Type} (eqbA : A → A → bool) (comb : A → A → A) (zero : A).

(** * The computation *)

(** The loops that combine a hash with the array while the bit of [count] at
    its level is clear: [want] is [pbranch != nullptr]. The result is the
    level reached, the hash, [matchh], [mutated] and the branch. *)
Fixpoint climb (fuel : nat) (count : Z) (inner : list A) (want : bool) (matchlevel : Z)
    (level : nat) (h : A) (matchh mutated : bool) (branch : list A)
    : option (nat * A * bool * bool * list A) :=
  if Z.testbit count (Z.of_nat level) then Some (level, h, matchh, mutated, branch)
  else
    match fuel with
    | O => None
    | S fuel' =>
        let x := nth level inner zero in
        let '(branch, matchh) :=
          if want then
            if matchh then (branch ++ [x], matchh)
            else if matchlevel =? Z.of_nat level then (branch ++ [h], true)
            else (branch, matchh)
          else (branch, matchh) in
        climb fuel' count inner want matchlevel (S level) (comb x h) matchh (mutated || eqbA x h) branch
    end.

Record mstate := mkMstate {
  m_count : Z; m_inner : list A; m_mutated : bool; m_matchlevel : Z; m_branch : list A }.

Definition add_leaf (want : bool) (branchpos : Z) (st : option mstate) (leaf : A) : option mstate :=
  st ← st;
  let matchh := m_count st =? branchpos in
  let count := u32 (m_count st + 1) in
  '(level, h, matchh, mutated, branch) ←
    climb 32 count (m_inner st) want (m_matchlevel st) 0 leaf matchh (m_mutated st) (m_branch st);
  Some (mkMstate count (upd level h (m_inner st)) mutated
          (if (matchh : bool) then Z.of_nat level else m_matchlevel st) branch).

(** [while (!(count & (1 << level))) level++] *)
Fixpoint skip_clear (fuel : nat) (count : Z) (level : nat) : option nat :=
  if Z.testbit count (Z.of_nat level) then Some level
  else match fuel with O => None | S fuel' => skip_clear fuel' count (S level) end.

Fixpoint sweep (fuel : nat) (count : Z) (inner : list A) (want : bool) (matchlevel : Z)
    (level : nat) (h : A) (matchh : bool) (branch : list A) : option (A * list A) :=
  if count =? u32 (Z.shiftl 1 (Z.of_nat level)) then Some (h, branch)
  else
    match fuel with
    | O => None
    | S fuel' =>
        let branch := if want && matchh then branch ++ [h] else branch in
        let h := comb h h in
        let count := u32 (count + Z.shiftl 1 (Z.of_nat level)) in
        '(level, h, matchh, _, branch) ←
          climb 32 count inner want matchlevel (S level) h matchh false branch;
        sweep fuel' count inner want matchlevel level h matchh branch
    end.

(** The root, [mutated] and the branch; [None] is a loop that does not end. *)
Definition MerkleComputation (leaves : list A) (branchpos : Z) (want : bool) : option (A * bool * list A) :=
  match leaves with
  | [] => Some (zero, false, [])
  | _ =>
      st ← fold_left (add_leaf want branchpos) leaves (Some (mkMstate 0 (repeat zero 32) false (-1) []));
      level ← skip_clear 32 (m_count st) 0;
      let h := nth level (m_inner st) zero in
      let matchh := m_matchlevel st =? Z.of_nat level in
      '(root, branch) ←
        sweep 32 (m_count st) (m_inner st) want (m_matchlevel st) level h matchh (m_branch st);
      Some (root, m_mutated st, branch)
  end.

Fixpoint branch_pairs (hash : A) (branch : list A) (nIndex : Z) : list (A * A) :=
  match branch with
  | [] => []
  | x :: branch' =>
      (if negb (Z.land nIndex 1 =? 0) then (x, hash) else (hash, x)) ::
      branch_pairs (if negb (Z.land nIndex 1 =? 0) then comb x hash else comb hash x)
        branch' (Z.shiftr nIndex 1)
  end.

Fixpoint root_from_branch (hash : A) (branch : list A) (nIndex : Z) : A :=
  match branch with
  | [] => hash
  | x :: branch' =>
      root_from_branch (if negb (Z.land nIndex 1 =? 0) then comb x hash else comb hash x)
        branch' (Z.shiftr nIndex 1)
  end.

(** * The definition: one level after the other *)

(** Neighbours are combined, a last odd one with itself. *)
Fixpoint pair_up (l : list A) : list A :=
  match l with
  | [] => []
  | [x] => [comb x x]
  | x :: y :: l' => comb x y :: pair_up l'
  end.

(** Levels up to the one with a single hash. *)
Fixpoint root_levels (fuel : nat) (l : list A) : option A :=
  match l with
  | [] => Some zero
  | [x] => Some x
  | _ => match fuel with O => None | S fuel' => root_levels fuel' (pair_up l) end
  end.

Lemma MerkleComputation_some ls pos want : ls ≠ [] →
  MerkleComputation ls pos want =
  (st ← fold_left (add_leaf want pos) ls (Some (mkMstate 0 (repeat zero 32) false (-1) []));
   level ← skip_clear 32 (m_count st) 0;
   '(root, branch) ←
     sweep 32 (m_count st) (m_inner st) want (m_matchlevel st) level (nth level (m_inner st) zero)
       (m_matchlevel st =? Z.of_nat level) (m_branch st);
   Some (root, m_mutated st, branch)).
Proof. by destruct ls. Qed.

(** ** Nodes by level and index *)

Context (leaves : list A).
Let n : Z := Z.of_nat (length leaves).
Definition leaf_at (i : Z) : A := nth (Z.to_nat i) leaves zero.

(** The number of nodes of a level. *)
Fixpoint width (l : nat) : Z := match l with O => n | S l' => (width l' + 1) / 2 end.

Fixpoint node (l : nat) (i : Z) : A :=
  match l with
  | O => leaf_at i
  | S l' => comb (node l' (2 * i)) (node l' (if 2 * i + 1 <? width l' then 2 * i + 1 else 2 * i))
  end.

(** The first level with a single node. *)
Definition is_top (k : nat) : Prop := width k = 1 ∧ ∀ l, (l < k)%nat → 1 < width l.

(** The sibling of the node [j] of a level in a branch. *)
Definition sib (l : nat) (j : Z) : A :=
  if Z.odd j then node l (j - 1) else node l (if j + 1 <? width l then j + 1 else j).
Definition branch_of (pos : Z) (k : nat) : list A :=
  map (λ l, sib l (pos / 2 ^ Z.of_nat l)) (seq 0 k).

(** The two complete subtrees of some inner node are equal. *)
Definition twin (l : nat) (i : Z) : Prop :=
  0 ≤ i ∧ (2 * i + 2) * 2 ^ Z.of_nat l ≤ n ∧ eqbA (node l (2 * i)) (node l (2 * i + 1)) = true.

Lemma width_bounds l : 0 < n → p2 l * (width l - 1) < n ≤ p2 l * width l.
Proof.
  intros Hn. induction l as [|l IH]; [cbn; lia|]. cbn [width]. rewrite p2_S. pose proof (p2_pos l).
  pose proof (odd_half (width l + 1)). destruct (Z.odd (width l + 1)); nia.
Qed.

Lemma complete_lt l c : 0 < n → c ≤ n → c / p2 l ≤ width l.
Proof.
  intros Hn Hc. pose proof (width_bounds l Hn). pose proof (p2_pos l).
  apply Z.div_le_upper_bound; lia.
Qed.

(** The parent of two neighbours. *)
Lemma node_parent l q : Z.odd q = false → q ≤ width l →
  node (S l) (q / 2 - 1) = comb (node l (q - 2)) (node l (q - 1)).
Proof.
  intros Hq Hw. pose proof (odd_half q) as E. rewrite Hq in E. cbn [node].
  replace (2 * (q / 2 - 1)) with (q - 2) by lia. replace (q - 2 + 1) with (q - 1) by lia.
  by rewrite (proj2 (Z.ltb_lt _ _)) by lia.
Qed.

Lemma branch_of_S pos k : branch_of pos (S k) = branch_of pos k ++ [sib k (pos / p2 k)].
Proof. unfold branch_of. by rewrite seq_S, map_app. Qed.

(** ** The climb *)

Section Climb.
Context (c : Z) (inner : list A) (pos : Z) (want : bool) (m : Z).
(** Where the leaf [pos] is when [h] stands at a level. *)
Definition match_ok (level : nat) (matchh : bool) (branch : list A) : Prop :=
  if matchh then pos / p2 level = c / p2 level - 1 ∧ branch = branch_of pos level
  else ∀ l, m = Z.of_nat l → (level ≤ l)%nat → branch = branch_of pos l ∧
         (c mod p2 (S l) = 0 → pos / p2 l = c / p2 l - 2).

Lemma climb_spec level0 (Hw : ∀ l, (level0 ≤ l)%nat → c / p2 l ≤ width l)
    (Hin : ∀ l, (level0 ≤ l)%nat → c mod p2 (S l) = 0 → nth l inner zero = node l (c / p2 l - 2)) :
  ∀ fuel level h matchh mutated branch, (level0 ≤ level)%nat → c mod p2 level = 0 →
  h = node level (c / p2 level - 1) →
  (∃ b, (level ≤ b ≤ level + fuel)%nat ∧ Z.testbit c (Z.of_nat b) = true) →
  (want = true → match_ok level matchh branch) →
  ∃ level' h' matchh' mutated' branch',
    climb fuel c inner want m level h matchh mutated branch = Some (level', h', matchh', mutated', branch') ∧
    (level ≤ level')%nat ∧ c mod p2 level' = 0 ∧ Z.testbit c (Z.of_nat level') = true ∧
    h' = node level' (c / p2 level' - 1) ∧
    (mutated' = true ↔ mutated = true ∨ ∃ l, (level ≤ l)%nat ∧ c mod p2 (S l) = 0 ∧
        eqbA (node l (c / p2 l - 2)) (node l (c / p2 l - 1)) = true) ∧
    (want = true → match_ok level' matchh' branch' ∧
       (matchh' = false → matchh = false ∧ branch' = branch ∧ ∀ l, m = Z.of_nat l → (level ≤ l < level')%nat → False)).
Proof.
  induction fuel as [|fuel IH]; intros level h matchh mutated branch Hl0 Hmod Hh Hfuel Hmatch; cbn [climb];
    destruct (Z.testbit c (Z.of_nat level)) eqn:Eb.
  1, 3: (exists level, h, matchh, mutated, branch; split_and!; [done..| |];
    [split; [by left|intros [?|(l & Hl & Hm & _)]; [done|]]; exfalso;
      apply (mod_mono _ (S level)) in Hm; [|lia]; apply mod_S in Hm as [_ ?]; congruence
    |intros Hwant; split; [auto|]; intros; split_and!; [done..|]; intros; lia]).
  - destruct Hfuel as (b & Hb & Hbit). assert (b = level) as -> by lia. congruence.
  - assert (Hmod' : c mod p2 (S level) = 0) by (by apply mod_S).
    rewrite (Hin level Hl0 Hmod'). set (x := node level (c / p2 level - 2)).
    assert (Hodd : Z.odd (c / p2 level) = false) by (by rewrite <- testbit_level).
    assert (Hh' : comb x h = node (S level) (c / p2 (S level) - 1)).
    { rewrite div_S, node_parent by auto. by rewrite Hh. }
    set (bm := if want then _ else _).
    assert (Hbm : want = true → match_ok (S level) bm.2 bm.1 ∧
              (bm.2 = false → matchh = false ∧ bm.1 = branch ∧ m ≠ Z.of_nat level)).
    { intros ->. specialize (Hmatch eq_refl). unfold bm, match_ok in *.
      pose proof (odd_half (c / p2 level)) as Ehalf. rewrite Hodd in Ehalf. destruct matchh; cbn [fst snd].
      - destruct Hmatch as [Hpos ->]. split; [|done]. rewrite !div_S, Hpos, branch_of_S. split.
        + pose proof (odd_half (c / p2 level - 1)). rewrite Z.odd_sub, Hodd in *. cbn in *. lia.
        + f_equal. f_equal. unfold sib. rewrite Hpos, Z.odd_sub, Hodd. cbn. unfold x. f_equal. lia.
      - destruct (Z.eqb_spec m (Z.of_nat level)) as [Em|Em]; cbn [fst snd].
        + destruct (Hmatch level Em ltac:(lia)) as [-> Hpos]. specialize (Hpos Hmod'). split; [|done].
          rewrite !div_S, Hpos, branch_of_S. split.
          * pose proof (odd_half (c / p2 level - 2)). rewrite Z.odd_sub, Hodd in *. cbn in *. lia.
          * f_equal. f_equal. unfold sib. rewrite Hpos, Z.odd_sub, Hodd. cbn [xorb Z.odd].
            rewrite (proj2 (Z.ltb_lt _ _)) by (specialize (Hw level Hl0); lia). rewrite Hh. f_equal. lia.
        + split; [|done]. intros l El Hl. apply Hmatch; [done|]. assert (l ≠ level) by congruence. lia. }
    destruct bm as [branch1 matchh1]. cbn [fst snd] in Hbm. 
    destruct (IH (S level) (comb x h) matchh1 (mutated || eqbA x h) branch1) as
      (level' & h' & matchh' & mutated' & branch' & E & Hlev & Hm' & Hbit' & Hhh & Hmut & Hmatch');
      [lia|done|done| |by intros; apply Hbm|].
    { destruct Hfuel as (b & Hb & Hbit). exists b. split; [|done].
      assert (b ≠ level) by congruence. lia. }
    exists level', h', matchh', mutated', branch'. split_and!; [done|lia|done..| |].
    + rewrite Hmut, orb_true_iff. split.
      * intros [[?|Hx]|(l & Hl & Hm & He)]; [by left|right..].
        -- exists level. split_and!; [lia|done|]. by rewrite <- Hh.
        -- exists l. split_and!; [lia|done..].
      * intros [?|(l & Hl & Hm & He)]; [by left; left|].
        destruct (Nat.eq_dec l level) as [->|]; [left; right; by rewrite Hh|].
        right. exists l. split_and!; [lia|done..].
    + intros Hwant. destruct (Hmatch' Hwant) as [H1 H2]. split; [done|]. intros Hf.
      destruct (H2 Hf) as (H3 & H4 & H5). destruct (Hbm Hwant) as [_ H6].
      destruct (H6 H3) as (H7 & H8 & H9). split_and!; [done|by rewrite H4|].
      intros l El Hl. destruct (Nat.eq_dec l level) as [->|]; [done|]. apply (H5 l El). lia.
Qed.
End Climb.

(** ** Processing the leaves *)

Section Computation.
Context (pos : Z) (want : bool) (Hpos : 0 ≤ pos) (Hn : 0 < n ≤ 2 ^ 31).

Record processed (c : Z) (st : mstate) : Prop := {
  pr_count : m_count st = c;
  pr_len : length (m_inner st) = 32%nat;
  pr_inner : ∀ l, Z.testbit c (Z.of_nat l) = true → nth l (m_inner st) zero = node l (c / p2 l - 1);
  pr_mutated : m_mutated st = true ↔ ∃ l i, 0 ≤ i ∧ (2 * i + 2) * p2 l ≤ c ∧
                 eqbA (node l (2 * i)) (node l (2 * i + 1)) = true;
  pr_match : want = true → if pos <? c
    then ∃ l, m_matchlevel st = Z.of_nat l ∧ Z.testbit c (Z.of_nat l) = true ∧
           pos / p2 l = c / p2 l - 1 ∧ m_branch st = branch_of pos l
    else m_matchlevel st = -1 ∧ m_branch st = [] }.

Lemma high_bit c : 0 < c < 2 ^ 32 → ∃ b, (b < 32)%nat ∧ Z.testbit c (Z.of_nat b) = true.
Proof.
  intros Hc. exists (Z.to_nat (Z.log2 c)). pose proof (Z.log2_nonneg c).
  pose proof (proj1 (Z.log2_lt_pow2 c 32 ltac:(lia)) ltac:(lia)).
  rewrite Z2Nat.id by lia. split; [lia|]. apply Z.bit_log2. lia.
Qed.

Lemma level_lt c l : 0 < c < 2 ^ 32 → Z.testbit c (Z.of_nat l) = true → (l < 32)%nat.
Proof.
  intros Hc Hb. destruct (Nat.lt_ge_cases l 32) as [|L]; [done|]. exfalso.
  rewrite Z.bits_above_log2 in Hb; [done|lia|].
  pose proof (proj1 (Z.log2_lt_pow2 c 32 ltac:(lia)) ltac:(lia)). lia.
Qed.

(** The bit below the lowest set one, before and after the increment. *)
Lemma carry_bits c l : 0 < c → c mod p2 l = 0 →
  Z.testbit (c - 1) (Z.of_nat l) = negb (Z.testbit c (Z.of_nat l)).
Proof.
  intros Hc Hm. rewrite !testbit_level, pred_div, Z.odd_sub by done. cbn. by rewrite xorb_true_r.
Qed.

Lemma above_bits c l l' : Z.testbit c (Z.of_nat l) = true → (l < l')%nat → (c - 1) / p2 l' = c / p2 l'.
Proof.
  intros Hb Hl. apply pred_div_other. intros Hm. apply (mod_mono _ (S l)) in Hm; [|lia].
  apply mod_S in Hm as [_ ?]. congruence.
Qed.

Lemma twin_step c : 0 ≤ c →
  (∃ l i, 0 ≤ i ∧ (2 * i + 2) * p2 l ≤ c + 1 ∧ eqbA (node l (2 * i)) (node l (2 * i + 1)) = true) ↔
  (∃ l i, 0 ≤ i ∧ (2 * i + 2) * p2 l ≤ c ∧ eqbA (node l (2 * i)) (node l (2 * i + 1)) = true) ∨
  (∃ l, (0 ≤ l)%nat ∧ (c + 1) mod p2 (S l) = 0 ∧
     eqbA (node l ((c + 1) / p2 l - 2)) (node l ((c + 1) / p2 l - 1)) = true).
Proof.
  intros Hc. split.
  - intros (l & i & Hi & Hle & He). pose proof (p2_pos l). destruct (Z.eq_dec ((2 * i + 2) * p2 l) (c + 1)) as [E|].
    + right. exists l. split_and!; [lia|apply mod_level; rewrite <- E, p2_S|].
      * rewrite <- (Z.div_unique ((2 * i + 2) * p2 l) (2 * p2 l) (i + 1) 0) by (lia || nia). nia.
      * rewrite <- E, Z.div_mul by lia. replace (2 * i + 2 - 2) with (2 * i) by lia.
        by replace (2 * i + 2 - 1) with (2 * i + 1) by lia.
    + left. exists l, i. split_and!; [done|lia|done].
  - intros [(l & i & Hi & Hle & He)|(l & _ & Hm & He)].
    + exists l, i. split_and!; [done|lia|done].
    + exists l, ((c + 1) / p2 (S l) - 1). pose proof (p2_pos l). pose proof Hm as Hm2.
      apply mod_S in Hm2 as [Hm2 Hb]. apply mod_level in Hm, Hm2. rewrite p2_S in Hm.
      rewrite testbit_level in Hb. pose proof (odd_half ((c + 1) / p2 l)) as E. rewrite Hb in E.
      rewrite div_S in *. split_and!.
      * assert (0 < (c + 1) / p2 l / 2) by nia. lia.
      * nia.
      * replace (2 * ((c + 1) / p2 l / 2 - 1)) with ((c + 1) / p2 l - 2) by lia.
        by replace ((c + 1) / p2 l - 2 + 1) with ((c + 1) / p2 l - 1) by lia.
Qed.

Lemma add_leaf_spec c st : processed c st → 0 ≤ c < n →
  ∃ st', add_leaf want pos (Some st) (leaf_at c) = Some st' ∧ processed (c + 1) st'.
Proof.
  intros [P1 P2 P3 P4 P5] Hc. unfold add_leaf. cbn [mbind option_bind]. rewrite P1.
  assert (u32 (c + 1) = c + 1) as -> by (apply u32_small; unfold_words; lia).
  destruct (climb_spec (c + 1) (m_inner st) pos want (m_matchlevel st) 0
    ltac:(intros; apply complete_lt; lia)
    ltac:(intros l _ Hm; pose proof Hm as Hm2; apply mod_S in Hm2 as [Hm2 Hb];
          rewrite P3; [|replace c with (c + 1 - 1) by lia; rewrite carry_bits, Hb by (done || lia); done];
          f_equal; replace c with (c + 1 - 1) at 1 by lia; rewrite pred_div by (done || lia); lia)
    32 0 (leaf_at c) (c =? pos) (m_mutated st) (m_branch st)) as
    (level & h & matchh & mut & br & E & _ & Hmod & Hbit & Hh & Hmut & Hmatch).
  - lia.
  - cbn. apply Z.mod_1_r.
  - cbn. f_equal. rewrite Z.div_1_r. lia.
  - destruct (high_bit (c + 1) ltac:(lia)) as (b & Hb & Hbit). exists b. split; [lia|done].
  - intros Hwant. specialize (P5 Hwant). unfold match_ok. destruct (Z.eqb_spec c pos) as [<-|Hne].
    + cbn. rewrite !Z.div_1_r, (proj2 (Z.ltb_ge _ _)) in * by lia. destruct P5 as [_ ->]. split; [lia|done].
    + intros l El _. destruct (Z.ltb_spec pos c) as [L|L]; [|lia].
      destruct P5 as (l' & El' & Hb' & Hp & ->). assert (l' = l) as -> by lia. split; [done|].
      intros Hm. rewrite Hp. replace c with (c + 1 - 1) at 1 by lia.
      rewrite pred_div; [lia|lia|]. apply (mod_mono _ _ (S l)); [lia|done].
  - rewrite E. cbn [mbind option_bind]. eexists. split; [done|].
    pose proof (level_lt (c + 1) level ltac:(lia) Hbit) as Hlt.
    split; cbn [m_count m_inner m_mutated m_matchlevel m_branch].
    + done.
    + by rewrite length_upd.
    + intros l Hb. rewrite nth_upd. destruct (Nat.eqb_spec level l) as [<-|Hl].
      * rewrite (proj2 (Nat.ltb_lt _ _)) by lia. exact Hh.
      * cbn [andb]. assert (level < l)%nat.
        { destruct (Nat.lt_ge_cases level l); [done|]. exfalso.
          apply (mod_mono _ (S l)) in Hmod; [|lia]. apply mod_S in Hmod as [_ ?]. congruence. }
        pose proof (above_bits (c + 1) level l Hbit ltac:(done)) as Ea. rewrite Z.add_simpl_r in Ea.
        rewrite P3; [by rewrite Ea|]. by rewrite testbit_level, Ea, <- testbit_level.
    + rewrite twin_step, <- P4 by lia. done.
    + intros Hwant. destruct (Hmatch Hwant) as [H1 H2]. specialize (P5 Hwant). pose proof (p2_pos level).
      apply mod_level in Hmod as Hmul. destruct matchh.
      * destruct H1 as [H1 ->]. rewrite (proj2 (Z.ltb_lt _ _)).
        -- exists level. done.
        -- pose proof (Z.div_mod pos (p2 level) ltac:(lia)). pose proof (Z.mod_pos_bound pos (p2 level) ltac:(lia)). nia.
      * destruct (H2 eq_refl) as (H3 & -> & H4). apply Z.eqb_neq in H3.
        destruct (Z.ltb_spec pos c) as [L|L].
        -- rewrite (proj2 (Z.ltb_lt _ _)) by lia. destruct P5 as (l & El & Hb & Hp & Hbr).
           assert (level < l)%nat.
           { destruct (Nat.lt_trichotomy l level) as [L'|[->|]]; [exfalso; by apply (H4 l El); lia| |done].
             exfalso. replace c with (c + 1 - 1) in Hb by lia. rewrite carry_bits, Hbit in Hb by (done || lia). done. }
           pose proof (above_bits (c + 1) level l Hbit ltac:(done)) as Ea. rewrite Z.add_simpl_r in Ea.
           exists l. rewrite testbit_level, Ea in Hb. rewrite testbit_level, Hp, Ea. done.
        -- rewrite (proj2 (Z.ltb_ge _ _)) by lia. done.
Qed.

Lemma add_leaves_spec k : (k ≤ length leaves)%nat →
  ∃ st, fold_left (add_leaf want pos) (take k leaves) (Some (mkMstate 0 (repeat zero 32) false (-1) [])) = Some st ∧
        processed (Z.of_nat k) st.
Proof.
  induction k as [|k IH]; intros Hk.
  - eexists. split; [done|]. split; cbn [m_count m_inner m_mutated m_matchlevel m_branch]; [done..| | |].
    + intros l Hb. change (Z.of_nat 0) with 0 in Hb. by rewrite Z.bits_0 in Hb.
    + split; [done|]. intros (l & i & Hi & Hle & _). pose proof (p2_pos l). nia.
    + intros _. by rewrite (proj2 (Z.ltb_ge _ _)) by lia.
  - destruct IH as (st & E & P); [lia|].
    destruct (add_leaf_spec _ _ P) as (st' & E' & P'); [unfold n in *; lia|].
    exists st'. rewrite Nat2Z.inj_succ. split; [|done]. unfold leaf_at in E'. rewrite Nat2Z.id in E'.
    rewrite (take_S_nth _ zero) by lia. rewrite fold_left_app, E. exact E'.
Qed.

(** ** The sweep over the incomplete right edge *)

(** A count that [n] is rounded up to at a level. *)
Definition covers (c : Z) (l : nat) : Prop := c = width l * p2 l ∧ n ≤ c.

Lemma width_unique l q : p2 l * (q - 1) < n ≤ p2 l * q → width l = q.
Proof. intros Hq. pose proof (width_bounds l ltac:(lia)). pose proof (p2_pos l). nia. Qed.

Lemma p2_mono l l' : (l ≤ l')%nat → p2 l ≤ p2 l'.
Proof. intros. apply Z.pow_le_mono_r; lia. Qed.

Lemma covers_up c l l' : covers c l → (l ≤ l')%nat → c mod p2 l' = 0 → covers c l'.
Proof.
  intros [Hc Hle] Hl Hm. split; [|done]. apply mod_level in Hm. pose proof (p2_mono l l' Hl).
  pose proof (width_bounds l ltac:(lia)). rewrite (width_unique l' (c / p2 l')); lia.
Qed.

Lemma covers_next c l : covers c l → Z.testbit c (Z.of_nat l) = true → covers (c + p2 l) (S l).
Proof.
  intros [Hc Hle] Hb. pose proof (p2_pos l). rewrite testbit_level, Hc, Z.div_mul in Hb by lia.
  split; [|lia]. cbn [width]. rewrite p2_S. pose proof (odd_half (width l + 1)) as E.
  rewrite Z.odd_add, Hb in E. cbn in E. nia.
Qed.

(** Above the level, the array holds the left neighbours. *)
Lemma covers_div c l l' : covers c l → n < c → (l ≤ l')%nat → c mod p2 l' = 0 → n / p2 l' = c / p2 l' - 1.
Proof.
  intros Hc Hlt Hl Hm. destruct (covers_up _ _ _ Hc Hl Hm) as [Hc' _]. pose proof (p2_pos l').
  pose proof (width_bounds l' ltac:(lia)). apply mod_level in Hm.
  symmetry. apply (Z.div_unique _ _ _ (n - p2 l' * (width l' - 1))); [lia|].
  rewrite Hc', Z.div_mul by lia. lia.
Qed.

Lemma covers_le c l : covers c l → (l ≤ 31)%nat → c ≤ 2 ^ 31.
Proof.
  intros [Hc _] Hl. pose proof (width_bounds l ltac:(lia)). pose proof (p2_pos l).
  assert (2 ^ 31 = p2 l * 2 ^ (31 - Z.of_nat l)) as E by (rewrite <- Z.pow_add_r by lia; f_equal; lia).
  set (K := 2 ^ (31 - Z.of_nat l)) in *. assert (width l - 1 < K) by (apply (Z.mul_lt_mono_pos_l (p2 l)); lia).
  rewrite E, Hc. nia.
Qed.

Lemma covers_width c l l' : covers c l → (l ≤ l')%nat → c / p2 l' ≤ width l'.
Proof.
  intros [Hc _] Hl. pose proof (width_bounds l ltac:(lia)). pose proof (width_bounds l' ltac:(lia)).
  pose proof (p2_mono l l' Hl). pose proof (p2_pos l').
  enough (c / p2 l' < width l' + 1) by lia. apply Z.div_lt_upper_bound; lia.
Qed.

(** The hash [h] at the right edge of a level, and where the leaf [pos] is. *)
Record edge (m : Z) (c : Z) (level : nat) (h : A) (matchh : bool) (branch : list A) : Prop := {
  ed_covers : covers c level;
  ed_le : c ≤ 2 ^ 31;
  ed_first : p2 level < 2 * n;
  ed_bit : Z.testbit c (Z.of_nat level) = true;
  ed_node : h = node level (c / p2 level - 1);
  ed_match : want = true → if matchh
    then pos / p2 level = c / p2 level - 1 ∧ branch = branch_of pos level
    else (∃ l, m = Z.of_nat l ∧ (level < l)%nat ∧ Z.testbit n (Z.of_nat l) = true ∧
            pos / p2 l = n / p2 l - 1 ∧ branch = branch_of pos l) ∨
         (m = -1 ∧ n ≤ pos) }.

Lemma edge_low m c level h matchh branch : edge m c level h matchh branch → c ≠ p2 level →
  3 ≤ width level ∧ (level < 30)%nat.
Proof.
  intros [[Hc _] _ _ Hb _ _] Hne. pose proof (p2_pos level). pose proof (width_bounds level ltac:(lia)).
  rewrite testbit_level, Hc, Z.div_mul in Hb by lia. pose proof (odd_half (width level)) as E. rewrite Hb in E.
  assert (width level ≠ 1) by (intros Ew; apply Hne; rewrite Hc, Ew; lia).
  assert (3 ≤ width level) by nia. split; [done|]. destruct (Nat.lt_ge_cases level 30) as [|L]; [done|].
  pose proof (p2_mono 30 level L). change (p2 30) with (2 ^ 30) in *. nia.
Qed.

(** Combining the edge with itself goes one level up. *)
Lemma edge_up m c level h matchh branch : edge m c level h matchh branch →
  let c' := c + p2 level in
  covers c' (S level) ∧ n < c' ∧ c' mod p2 (S level) = 0 ∧ comb h h = node (S level) (c' / p2 (S level) - 1) ∧
  (matchh = true → want = true →
     pos / p2 (S level) = c' / p2 (S level) - 1 ∧ branch ++ [h] = branch_of pos (S level)).
Proof.
  intros [Hcov _ _ Hb Hh Hmatch] c'. pose proof (covers_next _ _ Hcov Hb) as Hcov'.
  pose proof (p2_pos level) as Hp. rewrite testbit_level in Hb.
  assert (Hq : c' / p2 (S level) = (c / p2 level + 1) / 2).
  { rewrite div_S. unfold c'. rewrite <- (Z.mul_1_l (p2 level)) at 1. by rewrite Z.div_add by lia. }
  assert (Hwid : width level = c / p2 level) by (destruct Hcov as [-> _]; by rewrite Z.div_mul by lia).
  pose proof (odd_half (c / p2 level + 1)) as E. rewrite Z.odd_add, Hb in E. cbn in E.
  split_and!.
  - done.
  - destruct Hcov. unfold c'. lia.
  - destruct Hcov' as [Hc' _]. unfold c'. rewrite Hc'. apply Z.mod_mul. rewrite p2_S. lia.
  - cbn [node]. rewrite Hq. replace (2 * ((c / p2 level + 1) / 2 - 1)) with (c / p2 level - 1) by lia.
    rewrite (proj2 (Z.ltb_ge _ _)) by lia. by rewrite Hh.
  - intros -> Hwant. destruct (Hmatch Hwant) as [Hpos' ->]. rewrite Hq, div_S, branch_of_S, Hpos'.
    pose proof (odd_half (c / p2 level - 1)) as E'. rewrite Z.odd_sub, Hb in E'. cbn in E'. split; [lia|].
    do 2 f_equal. unfold sib. rewrite Z.odd_sub, Hb. cbn [xorb Z.odd].
    by rewrite (proj2 (Z.ltb_ge _ _)) by lia.
Qed.

Lemma edge_step st m c level h matchh branch : processed n st → m = m_matchlevel st →
  edge m c level h matchh branch → c ≠ p2 level →
  u32 (c + p2 level) = c + p2 level ∧
  ∃ level' h' matchh' mutated' branch',
    climb 32 (c + p2 level) (m_inner st) want m (S level) (comb h h) matchh false
      (if want && matchh then branch ++ [h] else branch) = Some (level', h', matchh', mutated', branch') ∧
    (level < level')%nat ∧ edge m (c + p2 level) level' h' matchh' branch'.
Proof.
  intros P Hm He Hne. destruct (edge_low _ _ _ _ _ _ He Hne) as [H3 Hlow].
  destruct (edge_up _ _ _ _ _ _ He) as (Hcov & Hlt & Hcm & Hup & Hmt). destruct He as [[Hc _] _ _ _ _ Hmatch].
  set (c' := c + p2 level) in *. pose proof (covers_le _ _ Hcov ltac:(lia)).
  split; [apply u32_small; unfold_words; lia|].
  destruct (climb_spec c' (m_inner st) pos want m (S level)
    ltac:(intros; by apply (covers_width _ _ _ Hcov))
    ltac:(intros l Hl Hml; pose proof Hml as Hml2; apply mod_S in Hml2 as [Hml2 Hbl];
          pose proof (covers_div _ _ l Hcov Hlt Hl Hml2) as Hd; rewrite testbit_level in Hbl;
          rewrite (pr_inner _ _ P), Hd; [f_equal; lia|]; rewrite testbit_level, Hd, Z.odd_sub, Hbl; done)
    32 (S level) (comb h h) matchh false (if want && matchh then branch ++ [h] else branch)) as
    (level' & h' & matchh' & mut & br & E & Hl & Hmod & Hbit & Hh' & _ & Hmatch').
  - lia.
  - done.
  - done.
  - destruct (high_bit c' ltac:(lia)) as (b & Hb & Hbit). exists b. split; [|done].
    destruct (Nat.lt_ge_cases b (S level)) as [L|]; [|lia]. exfalso.
    apply (mod_mono _ (S b)) in Hcm; [|lia]. apply mod_S in Hcm as [_ ?]. congruence.
  - intros Hwant. rewrite Hwant. unfold match_ok. destruct matchh; cbn [andb]; [by apply Hmt|].
    intros l El Hll. destruct (Hmatch Hwant) as [(l0 & El0 & Hlv & Hbl & Hpl & ->)|[? _]]; [|lia]. assert (l0 = l) as -> by lia.
    split; [done|]. intros Hml. apply mod_S in Hml as [Hml _].
    pose proof (covers_div _ _ l Hcov Hlt Hll Hml). lia.
  - exists level', h', matchh', mut, br. split_and!; [done|lia|].
    split; [by apply (covers_up _ _ _ Hcov)|done| |done..|].
    { pose proof (width_bounds level ltac:(lia)). pose proof (p2_pos level).
      destruct (Nat.eq_dec level' (S level)) as [->|]; [rewrite p2_S; nia|].
      pose proof (p2_mono (S (S level)) level' ltac:(lia)). rewrite !p2_S in *.
      destruct (covers_up _ _ _ Hcov Hl Hmod) as [Hc' _]. pose proof (p2_pos level').
      assert (0 < width level') by (pose proof (width_bounds level' ltac:(lia)); nia).
      assert (p2 level' ≤ c') by (rewrite Hc'; nia). unfold c' in *. lia. }
    intros Hwant. destruct (Hmatch' Hwant) as [H1 H2].
    destruct matchh'; [done|]. destruct (H2 eq_refl) as (-> & -> & Hno). rewrite andb_false_r in *.
    destruct (Hmatch Hwant) as [(l & El & Hlv & Hbl & Hpl & Hbr)|]; [left|by right].
    exists l. split_and!; [done| |done..].
    destruct (Nat.lt_trichotomy l level') as [L|[->|]]; [exfalso; apply (Hno l El); lia| |done].
    exfalso. pose proof (covers_div _ _ level' Hcov Hlt Hl Hmod) as Hd.
    rewrite testbit_level in Hbl, Hbit. rewrite Hd, Z.odd_sub, Hbit in Hbl. done.
Qed.

Lemma edge_shift m c level h matchh branch : edge m c level h matchh branch →
  u32 (Z.shiftl 1 (Z.of_nat level)) = p2 level.
Proof.
  intros [[_ Hc] Hle _ Hb _ _]. pose proof (level_lt c level ltac:(lia) Hb). pose proof (p2_mono level 31 ltac:(lia)).
  pose proof (p2_pos level). change (p2 31) with (2 ^ 31) in *.
  rewrite Z.shiftl_1_l. apply u32_small. unfold_words. lia.
Qed.

(** The last edge is the root. *)
Lemma edge_end m c level h matchh branch : edge m c level h matchh branch → c = p2 level →
  ∃ k branch', Some (h, branch) = Some (node k 0, branch') ∧
    is_top k ∧ (pos < n → want = true → pos / p2 k = 0 ∧ branch' = branch_of pos k).
Proof.
  intros [[Hc Hnc] _ Hf _ Hh Hmatch] E. pose proof (p2_pos level).
  rewrite E, Z.div_same in * by lia. exists level, branch. split_and!; [by rewrite Hh|split; [nia|]|].
  { intros l Hl. pose proof (p2_mono (S l) level Hl). pose proof (width_bounds l ltac:(lia)). rewrite p2_S in *. nia. }
  intros Hlt Hwant. destruct matchh; [by apply Hmatch|]. exfalso.
  destruct (Hmatch Hwant) as [(l & _ & Hl & Hb & _)|[_ ?]]; [|lia].
  pose proof (p2_mono level l ltac:(lia)). assert (p2 level < p2 l) by (apply Z.pow_lt_mono_r; lia).
  rewrite testbit_level, Z.div_small in Hb by lia. done.
Qed.

Lemma sweep_spec st m : processed n st → m = m_matchlevel st →
  ∀ fuel c level h matchh branch, (32 ≤ level + fuel)%nat → edge m c level h matchh branch →
  ∃ k branch', sweep fuel c (m_inner st) want m level h matchh branch = Some (node k 0, branch') ∧
    is_top k ∧ (pos < n → want = true → pos / p2 k = 0 ∧ branch' = branch_of pos k).
Proof.
  intros P Hm. induction fuel as [|fuel IH]; intros c level h matchh branch Hf He; cbn [sweep];
    destruct (Z.eqb_spec c (u32 (Z.shiftl 1 (Z.of_nat level)))) as [E|E];
    rewrite (edge_shift _ _ _ _ _ _ He) in E.
  1, 3: by eapply edge_end.
  - exfalso. destruct (edge_low _ _ _ _ _ _ He E). lia.
  - destruct (edge_step st m _ _ _ _ _ P Hm He E) as (Hu & level' & h' & matchh' & mut & br & Ec & Hl & He').
    rewrite Z.shiftl_1_l, Hu, Ec. cbn [mbind option_bind]. apply IH; [lia|done].
Qed.

Lemma skip_clear_spec c : 0 < c < 2 ^ 32 → ∀ fuel level, c mod p2 level = 0 → (32 ≤ level + fuel)%nat →
  ∃ l, skip_clear fuel c level = Some l ∧ c mod p2 l = 0 ∧ Z.testbit c (Z.of_nat l) = true.
Proof.
  intros Hc. induction fuel as [|fuel IH]; intros level Hm Hf; cbn [skip_clear];
    destruct (Z.testbit c (Z.of_nat level)) eqn:E; [by exists level| |by exists level|].
  - exfalso. pose proof (p2_mono 32 level ltac:(lia)). apply mod_level in Hm.
    rewrite (Z.div_small c) in Hm by (change (p2 32) with (2 ^ 32) in *; lia). lia.
  - apply IH; [by apply mod_S|lia].
Qed.

(** The computation ends, with the node of the first level of width one, the
    flag for equal siblings, and the siblings on the path of [pos]. *)
Lemma MerkleComputation_spec :
  ∃ k mutated branch, MerkleComputation leaves pos want = Some (node k 0, mutated, branch) ∧ is_top k ∧
    (mutated = true ↔ ∃ l i, twin l i) ∧
    (pos < n → want = true → pos / p2 k = 0 ∧ branch = branch_of pos k).
Proof.
  destruct (add_leaves_spec (length leaves)) as (st & E & P); [done|]. rewrite take_ge in E by done.
  fold n in P. pose proof P as [P1 P2 P3 P4 P5].
  destruct (skip_clear_spec n ltac:(lia) 32 0) as (level & El & Hm & Hb); [apply Z.mod_1_r|lia|].
  assert (edge (m_matchlevel st) n level (nth level (m_inner st) zero)
            (m_matchlevel st =? Z.of_nat level) (m_branch st)) as He.
  { pose proof (p2_pos level). pose proof (proj1 (mod_level _ _) Hm) as Hd.
    assert (0 < n / p2 level) by nia. split; [|lia|nia|done|by apply P3|].
    - split; [|lia]. rewrite (width_unique level (n / p2 level)); lia.
    - intros Hwant. specialize (P5 Hwant). destruct (Z.ltb_spec pos n) as [L|L].
      + destruct P5 as (l & -> & Hbl & Hpl & ->). destruct (Z.eqb_spec (Z.of_nat l) (Z.of_nat level)) as [El'|Hne].
        * apply Nat2Z.inj in El' as ->. done.
        * left. exists l. split_and!; [done| |done..]. destruct (Nat.lt_ge_cases level l); [done|]. exfalso.
          apply (mod_mono _ (S l)) in Hm; [|lia]. apply mod_S in Hm as [_ ?]. congruence.
      + destruct P5 as [-> _]. rewrite (proj2 (Z.eqb_neq _ _)) by lia. by right. }
  destruct (sweep_spec st _ P eq_refl 32 _ _ _ _ _ ltac:(lia) He) as (k & br & Es & Hk & Hbr).
  exists k, (m_mutated st), br. split_and!; [|done..].
  rewrite MerkleComputation_some by (intros Hnil; unfold n in Hn; rewrite Hnil in Hn; cbn in Hn; lia).
  rewrite E. cbn [mbind option_bind]. rewrite P1, El. cbn [mbind option_bind].
  by rewrite Es.
Qed.
End Computation.

(** ** Levels as lists *)

Lemma length_pair_up ls : Z.of_nat (length (pair_up ls)) = (Z.of_nat (length ls) + 1) / 2.
Proof.
  induction ls as [| |x y ls IH] using list_pair_ind; [done..|].
  cbn [pair_up length]. rewrite !Nat2Z.inj_succ, IH.
  replace (Z.succ (Z.succ (Z.of_nat (length ls))) + 1) with (Z.of_nat (length ls) + 1 + 1 * 2) by lia.
  rewrite Z.div_add; lia.
Qed.

Lemma nth_pair_up ls i : (i < length (pair_up ls))%nat →
  nth i (pair_up ls) zero =
  comb (nth (2 * i) ls zero) (nth (if (2 * i + 1 <? length ls)%nat then 2 * i + 1 else 2 * i) ls zero).
Proof.
  revert i. induction ls as [| |x y ls IH] using list_pair_ind; intros i Hi; cbn [pair_up length] in *; [lia| |].
  - by assert (i = 0%nat) as -> by lia.
  - destruct i as [|i]; [done|]. cbn [nth]. rewrite IH by lia.
    replace (2 * S i)%nat with (S (S (2 * i))) by lia. cbn [nth Nat.add].
    change (S (S (2 * i + 1)) <? S (S (length ls)))%nat with (2 * i + 1 <? length ls)%nat.
    by destruct (2 * i + 1 <? length ls)%nat.
Qed.

Definition levels (l : nat) : list A := Nat.iter l pair_up leaves.

Lemma length_levels l : Z.of_nat (length (levels l)) = width l.
Proof. induction l as [|l IH]; [done|]. cbn [width].
  change (levels (S l)) with (pair_up (levels l)). by rewrite length_pair_up, IH. Qed.

Lemma nth_levels l i : (i < length (levels l))%nat → nth i (levels l) zero = node l (Z.of_nat i).
Proof.
  revert i. induction l as [|l IH]; intros i Hi; [cbn; unfold leaf_at; by rewrite Nat2Z.id|].
  pose proof (length_levels l) as Hw. cbn [node]. rewrite <- Hw.
  change (levels (S l)) with (pair_up (levels l)) in *.
  pose proof (length_pair_up (levels l)) as Hl. pose proof (Z.div_mod (Z.of_nat (length (levels l)) + 1) 2 ltac:(lia)).
  pose proof (Z.mod_pos_bound (Z.of_nat (length (levels l)) + 1) 2 ltac:(lia)).
  rewrite nth_pair_up by done.
  destruct (Nat.ltb_spec (2 * i + 1) (length (levels l))); rewrite !IH by lia.
  - rewrite (proj2 (Z.ltb_lt _ _)) by lia. f_equal; f_equal; lia.
  - rewrite (proj2 (Z.ltb_ge _ _)) by lia. f_equal; f_equal; lia.
Qed.

Lemma root_levels_top k : is_top k → ∀ j fuel, (j ≤ k)%nat → (k - j ≤ fuel)%nat →
  root_levels fuel (levels j) = Some (node k 0).
Proof.
  intros [Hk Hlt] j. remember (k - j)%nat as d eqn:Ed. revert j Ed. induction d as [|d IH]; intros j Ed fuel Hj Hf.
  - assert (j = k) as -> by lia. pose proof (length_levels k) as Hl. rewrite Hk in Hl.
    pose proof (nth_levels k 0 ltac:(lia)) as Hn0. change (Z.of_nat 0) with 0 in Hn0.
    destruct (levels k) as [|x [|? ?]]; cbn [length nth] in *; [lia| |lia].
    rewrite <- Hn0. by destruct fuel.
  - destruct fuel as [|fuel]; [lia|]. pose proof (length_levels j) as Hl. specialize (Hlt j ltac:(lia)).
    specialize (IH (S j) ltac:(lia) fuel ltac:(lia) ltac:(lia)).
    change (levels (S j)) with (pair_up (levels j)) in IH.
    destruct (levels j) as [|x [|y ls]]; cbn [length] in Hl; [lia..|]. exact IH.
Qed.

Lemma is_top_log k : is_top k → 0 < n → Z.of_nat k = Z.log2_up n.
Proof.
  intros [Hk Hlt] Hn. symmetry. pose proof (width_bounds k Hn) as B. rewrite Hk in B. destruct k as [|k].
  - change (p2 0) with 1 in B. by assert (n = 1) as -> by lia.
  - specialize (Hlt k ltac:(lia)). pose proof (width_bounds k Hn). pose proof (p2_pos k).
    apply Z.log2_up_unique; [lia|]. split; [|lia]. replace (Z.pred (Z.of_nat (S k))) with (Z.of_nat k) by lia. nia.
Qed.

(** ** Branches *)

Lemma pos_lt_width pos l : 0 ≤ pos < n → 0 ≤ pos / p2 l < width l.
Proof.
  intros Hp. pose proof (p2_pos l). pose proof (width_bounds l ltac:(lia)).
  split; [apply Z.div_pos; lia|]. apply Z.div_lt_upper_bound; lia.
Qed.

Lemma root_from_branch_path pos : 0 ≤ pos < n → ∀ m l,
  root_from_branch (node l (pos / p2 l)) (map (λ l, sib l (pos / p2 l)) (seq l m)) (pos / p2 l) =
  node (l + m) (pos / p2 (l + m)).
Proof.
  intros Hp. induction m as [|m IH]; intros l; cbn [seq map root_from_branch]; [by rewrite Nat.add_0_r|].
  pose proof (pos_lt_width pos l Hp) as Hw. set (j := pos / p2 l) in *.
  replace (Z.land j 1) with (Z.b2z (Z.odd j)) by 
    (change 1 with (Z.ones 1); rewrite Z.land_ones, Zmod_odd by lia; by destruct (Z.odd j)).
  rewrite Z.shiftr_div_pow2 by lia. change (2 ^ 1) with 2. pose proof (odd_half j) as E.
  replace (if negb (Z.b2z (Z.odd j) =? 0) then comb (sib l j) (node l j) else comb (node l j) (sib l j))
    with (node (S l) (pos / p2 (S l))).
  - replace (j / 2) with (pos / p2 (S l)) by (by rewrite div_S). rewrite IH. by rewrite Nat.add_succ_comm.
  - rewrite div_S. fold j. cbn [node]. unfold sib. destruct (Z.odd j); cbn [Z.b2z Z.eqb negb].
    + replace (2 * (j / 2)) with (j - 1) by lia. replace (j - 1 + 1) with j by lia.
      by rewrite (proj2 (Z.ltb_lt _ _)) by lia.
    + by replace (2 * (j / 2)) with j by lia.
Qed.

(** ** What a root commits to *)

(** Well-formed values. *)
Context (ok : A → Prop) (HeqbA : ∀ x y, ok x → ok y → eqbA x y = true ↔ x = y).
Context (Hzero : ok zero) (Hcomb : ∀ x y, ok (comb x y)).

(** A collision among the pairs that have been hashed. *)
Context (hashed : A * A → Prop).

Definition collision : Prop :=
  ∃ x y x' y', hashed (x, y) ∧ hashed (x', y') ∧ (x, y) ≠ (x', y') ∧ comb x y = comb x' y'.

Lemma comb_or_collision x y x' y' : ok x → ok y → ok x' → ok y' → hashed (x, y) → hashed (x', y') →
  comb x y = comb x' y' → collision ∨ (x = x' ∧ y = y').
Proof using HeqbA.
  intros Hx Hy Hx' Hy' Hp Hp' E. pose proof (HeqbA x x' Hx Hx') as E1. pose proof (HeqbA y y' Hy Hy') as E2.
  destruct (eqbA x x'), (eqbA y y'); [right; tauto|left..];
    exists x, y, x', y'; (split_and!; [done..| |done]); intros [= -> ->]; intuition discriminate.
Qed.

Lemma root_from_branch_inj b : ∀ b' x x' i, length b = length b' → ok x → ok x' → Forall ok b → Forall ok b' →
  Forall hashed (branch_pairs x b i) → Forall hashed (branch_pairs x' b' i) →
  root_from_branch x b i = root_from_branch x' b' i → collision ∨ (x = x' ∧ b = b').
Proof using HeqbA Hcomb.
  induction b as [|s b IH]; intros [|s' b'] x x' i Hl Hx Hx' Hb Hb' Hp Hp' E; cbn [length root_from_branch branch_pairs] in *; try done;
    [by right|].
  apply Forall_cons_iff in Hb as [Hs Hb], Hb' as [Hs' Hb'], Hp as [Hp Hps], Hp' as [Hp' Hps'].
  assert (Ho : ∀ s x, ok (if negb (Z.land i 1 =? 0) then comb s x else comb x s)) by (intros; by case_match).
  destruct (IH b' _ _ _ (eq_add_S _ _ Hl) (Ho _ _) (Ho _ _) Hb Hb' Hps Hps' E) as [|[Ex ->]]; [by left|].
  destruct (negb (Z.land i 1 =? 0)); apply comb_or_collision in Ex as [|[-> ->]]; auto.
Qed.

Context (Hleaves : Forall ok leaves).
Context (Hhashed : ∀ l i, 1 < width l → 0 ≤ i → 2 * i < width l →
  hashed (node l (2 * i), node l (if 2 * i + 1 <? width l then 2 * i + 1 else 2 * i))).

Lemma node_ok l i : ok (node l i).
Proof using Hzero Hcomb Hleaves.
  destruct l; [|apply Hcomb]. cbn [node]. unfold leaf_at.
  destruct (nth_in_or_default (Z.to_nat i) leaves zero) as [Hin| ->]; [|done].
  by eapply List.Forall_forall in Hleaves.
Qed.

(** An incomplete subtree equal to an earlier one repeats a pair of that one. *)
Lemma incomplete_twin l : ∀ a b, 0 ≤ a < b → b < width l → n < (b + 1) * p2 l → node l a = node l b →
  collision ∨ ∃ l' i, twin l' i.
Proof using HeqbA Hzero Hcomb Hleaves Hhashed.
  induction l as [|l IH]; intros a b Hab Hb Hinc E; [cbn in *; lia|].
  cbn [node width] in E, Hb. rewrite p2_S in Hinc. pose proof (p2_pos l).
  pose proof (odd_half (width l + 1)) as Ew. assert (2 * b < width l) by (destruct (Z.odd _); lia).
  pose proof (Hhashed l a ltac:(lia) ltac:(lia) ltac:(lia)) as Hha. pose proof (Hhashed l b ltac:(lia) ltac:(lia) ltac:(lia)) as Hhb.
  rewrite (proj2 (Z.ltb_lt (2 * a + 1) _)) in E, Hha by lia.
  apply comb_or_collision in E as [|[E1 E2]]; [by left| |apply node_ok..|exact Hha|exact Hhb]. destruct (Z.ltb_spec (2 * b + 1) (width l)) as [L|L].
  - apply (IH (2 * a + 1) (2 * b + 1)); [lia..|done].
  - right. exists l, a. unfold twin. split_and!; [lia| |apply HeqbA; [apply node_ok..|by rewrite E1, E2]].
    destruct (Z.le_gt_cases n 0) as [Hn|Hn]; [exfalso|].
    + assert (width l ≤ 0); [|lia]. clear -Hn. induction l as [|l IH]; [done|]. cbn [width].
      enough ((width l + 1) / 2 < 1) by lia. apply Z.div_lt_upper_bound; lia.
    + pose proof (width_bounds l ltac:(lia)). nia.
Qed.

Lemma siblings_twin l i : 0 < n → 0 ≤ i → 2 * i + 1 < width l → node l (2 * i) = node l (2 * i + 1) →
  collision ∨ ∃ l' i', twin l' i'.
Proof using HeqbA Hzero Hcomb Hleaves Hhashed.
  intros Hn Hi Hw E. destruct (Z.le_gt_cases ((2 * i + 2) * p2 l) n) as [L|L].
  - right. exists l, i. unfold twin. split_and!; [done..|]. apply HeqbA; [apply node_ok..|done].
  - apply (incomplete_twin l (2 * i) (2 * i + 1)); [lia|lia|lia|done].
Qed.
End Merkle.

(** * What a root commits to *)

Lemma bounded_or (P : Prop) (Q : Z → Prop) m : (∀ i, 0 ≤ i < m → P ∨ Q i) → P ∨ ∀ i, 0 ≤ i < m → Q i.
Proof.
  intros H. destruct (Z.le_gt_cases 0 m) as [Hm|Hm]; [|right; lia].
  revert m Hm H. apply (natlike_ind (λ m, (∀ i, 0 ≤ i < m → P ∨ Q i) → P ∨ ∀ i, 0 ≤ i < m → Q i)); [right; lia|].
  intros m Hm IH H. destruct IH as [|IH]; [intros; apply H; lia|by left|].
  destruct (H m ltac:(lia)) as [|Hq]; [by left|right]. intros i Hi.
  destruct (Z.eq_dec i m) as [->|]; [done|]. apply IH. lia.
Qed.

Section Binding.
Context {A : Type} (eqbA : A → A → bool) (comb : A → A → A) (zero : A).
Context (ok : A → Prop) (HeqbA : ∀ x y, ok x → ok y → eqbA x y = true ↔ x = y).
Context (Hzero : ok zero) (Hcomb : ∀ x y, ok (comb x y)).

(** The siblings of the tree of [ls] are among the pairs [hashed]. *)
Definition hashes (hashed : A * A → Prop) (ls : list A) : Prop := ∀ l i, 1 < width ls l → 0 ≤ i → 2 * i < width ls l →
  hashed (node comb zero ls l (2 * i), node comb zero ls l (if 2 * i + 1 <? width ls l then 2 * i + 1 else 2 * i)).
Context (hashed : A * A → Prop).

Definition twins (ls : list A) : Prop := ∃ l i, twin eqbA comb zero ls l i.
Definition agree (ls ls' : list A) (l : nat) : Prop :=
  width ls l = width ls' l ∧ ∀ i, 0 ≤ i < width ls l → node comb zero ls l i = node comb zero ls' l i.

Lemma agree_sym ls ls' l : agree ls ls' l → agree ls' ls l.
Proof. intros [E H]. split; [done|]. intros i Hi. symmetry. apply H. lia. Qed.

(** A last node without a partner against one with. *)
Lemma uneven_twins ls ls' l i : Forall ok ls' → hashes hashed ls' → ls' ≠ [] → 0 ≤ i → width ls l = 2 * i + 1 → width ls' l = 2 * i + 2 →
  node comb zero ls l (2 * i) = node comb zero ls' l (2 * i) →
  node comb zero ls l (2 * i) = node comb zero ls' l (2 * i + 1) → collision comb hashed ∨ twins ls'.
Proof using HeqbA Hzero Hcomb.
  intros Hok Hh Hne Hi Hw Hw' E1 E2. apply (siblings_twin eqbA comb zero ls' ok HeqbA Hzero Hcomb hashed Hok Hh l i); [|done|lia|congruence].
  destruct ls'; [done|]. cbn [length]. lia.
Qed.

Lemma width_pos (ls : list A) l : ls ≠ [] → 0 < width ls l.
Proof.
  intros Hne. pose proof (p2_pos l). assert (0 < Z.of_nat (length ls)) as Hn by (destruct ls; cbn [length]; [done|lia]).
  pose proof (width_bounds ls l Hn). nia.
Qed.

Lemma agree_down ls ls' l : Forall ok ls → Forall ok ls' → hashes hashed ls → hashes hashed ls' →
  ls ≠ [] → ls' ≠ [] → 1 < width ls l → 1 < width ls' l → agree ls ls' (S l) →
  collision comb hashed ∨ twins ls ∨ twins ls' ∨ agree ls ls' l.
Proof using HeqbA Hzero Hcomb.
  intros Hok Hok' Hh Hh' Hne Hne' Hg Hg' [Hw H]. cbn [width node] in Hw, H. set (w := width ls l) in *. set (w' := width ls' l) in *.
  destruct (bounded_or (collision comb hashed) (λ i,
    node comb zero ls l (2 * i) = node comb zero ls' l (2 * i) ∧
    node comb zero ls l (if 2 * i + 1 <? w then 2 * i + 1 else 2 * i) =
    node comb zero ls' l (if 2 * i + 1 <? w' then 2 * i + 1 else 2 * i)) ((w + 1) / 2)) as [|Hc]; [|by left|].
  { intros i Hi. pose proof (odd_half (w + 1)) as E. pose proof (odd_half (w' + 1)) as E'. rewrite <- Hw in E'.
    assert (2 * i < w) by (destruct (Z.odd (w + 1)); lia). assert (2 * i < w') by (destruct (Z.odd (w' + 1)); lia).
    apply (comb_or_collision eqbA comb ok HeqbA); [by apply node_ok..|apply Hh; lia|apply Hh'; lia|by apply H]. }
  pose proof (odd_half (w + 1)) as E. pose proof (odd_half (w' + 1)) as E'. rewrite <- Hw in E'.
  set (W := (w + 1) / 2) in *. pose proof (width_pos _ l Hne) as Hw0. fold w in Hw0.
  specialize (Hc (W - 1) ltac:(destruct (Z.odd (w + 1)); lia)) as Hlast.
  destruct (Z.odd (w + 1)) eqn:Eo, (Z.odd (w' + 1)) eqn:Eo'.
  2: { rewrite (proj2 (Z.ltb_lt _ _)), (proj2 (Z.ltb_ge _ _)) in Hlast by lia. destruct Hlast as [E1 E2].
       destruct (uneven_twins ls' ls l (W - 1)); auto; lia. }
  2: { rewrite (proj2 (Z.ltb_ge _ _)), (proj2 (Z.ltb_lt _ _)) in Hlast by lia. destruct Hlast as [E1 E2].
       destruct (uneven_twins ls ls' l (W - 1)); auto; lia. }
  all: right; right; right; assert (w' = w) as Ew by lia; split; [by symmetry|]; fold w; intros j Hj;
    pose proof (odd_half j) as Ej; destruct (Hc (j / 2) ltac:(destruct (Z.odd j); lia)) as [H1 H2];
    rewrite Ew in H2; destruct (Z.odd j);
    [rewrite (proj2 (Z.ltb_lt _ _)) in H2 by lia; by rewrite <- Ej in H2|by rewrite Z.add_0_r in Ej; rewrite <- Ej in H1].
Qed.

Lemma agree_leaves ls ls' : agree ls ls' 0 → ls = ls'.
Proof.
  intros [Hl H]. cbn [width] in *. apply Nat2Z.inj in Hl. apply (nth_ext _ _ zero zero); [done|].
  intros i Hi. specialize (H (Z.of_nat i) ltac:(lia)). cbn [node] in H. unfold leaf_at in H. by rewrite Nat2Z.id in H.
Qed.

Lemma agree_all ls ls' l : Forall ok ls → Forall ok ls' → hashes hashed ls → hashes hashed ls' → ls ≠ [] → ls' ≠ [] →
  (∀ k, (k < l)%nat → 1 < width ls k ∧ 1 < width ls' k) → agree ls ls' l →
  collision comb hashed ∨ twins ls ∨ twins ls' ∨ ls = ls'.
Proof using HeqbA Hzero Hcomb.
  intros Hok Hok' Hh Hh' Hne Hne'. induction l as [|l IH]; intros Hk H; [auto using agree_leaves|].
  assert (∀ k, (k < l)%nat → 1 < width ls k ∧ 1 < width ls' k) by (intros k ?; apply Hk; lia).
  destruct (Hk l ltac:(lia)). apply agree_down in H; [|done..]. tauto.
Qed.

Lemma agree_top ls ls' k : is_top ls k → is_top ls' k → node comb zero ls k 0 = node comb zero ls' k 0 → agree ls ls' k.
Proof.
  intros [H1 _] [H2 _] E. split; [congruence|]. rewrite H1. intros i Hi. by replace i with 0 by lia.
Qed.

(** The siblings of a twin, in the lists of the levels. *)
Lemma twins_levels ls : Forall ok ls → twins ls ↔ ∃ l i x,
  (2 * i + 2) * 2 ^ Z.of_nat l ≤ Z.of_nat (length ls) ∧ 0 ≤ i ∧
  levels comb ls l !! Z.to_nat (2 * i) = Some x ∧ levels comb ls l !! Z.to_nat (2 * i + 1) = Some x.
Proof using HeqbA Hzero Hcomb.
  intros Hok. assert (Hlook : ∀ l j x, 0 ≤ j < width ls l →
    levels comb ls l !! Z.to_nat j = Some x ↔ x = node comb zero ls l j).
  { intros l j x Hj. pose proof (length_levels comb ls l) as Hl.
    rewrite <- (Z2Nat.id j) at 2 by lia. rewrite <- (nth_levels comb zero ls) by lia.
    destruct (nth_lookup_or_length (levels comb ls l) (Z.to_nat j) zero) as [E|]; [|lia].
    rewrite E. split; [by intros [= ->]|by intros ->]. }
  assert (Hin : ∀ l i, 0 ≤ i → (2 * i + 2) * 2 ^ Z.of_nat l ≤ Z.of_nat (length ls) → 2 * i + 1 < width ls l).
  { intros l i Hi Hle. pose proof (p2_pos l). pose proof (width_bounds ls l ltac:(nia)). nia. }
  unfold twins, twin. split.
  - intros (l & i & Hi & Hle & E). specialize (Hin l i Hi Hle). exists l, i, (node comb zero ls l (2 * i)).
    apply HeqbA in E; [|by apply node_ok..]. rewrite !Hlook by lia. done.
  - intros (l & i & x & Hle & Hi & E1 & E2). specialize (Hin l i Hi Hle). exists l, i. rewrite Hlook in * by lia.
    split_and!; [done..|]. apply HeqbA; [by apply node_ok..|congruence].
Qed.

(** The pairs of siblings in the levels that have more than one value. *)
Definition siblings (ls : list A) (p : A * A) : Prop := ∃ l i,
  (1 < length (levels comb ls l))%nat ∧ levels comb ls l !! (2 * i)%nat = Some p.1 ∧
  (levels comb ls l !! (2 * i + 1)%nat = Some p.2 ∨ levels comb ls l !! (2 * i + 1)%nat = None ∧ p.2 = p.1).

Lemma hashes_siblings ls : hashes (siblings ls) ls.
Proof.
  intros l i H1 Hi Hlt. pose proof (length_levels comb ls l) as Hl. exists l, (Z.to_nat i). cbn [fst snd].
  assert (Hlook : ∀ j, 0 ≤ j < width ls l → levels comb ls l !! Z.to_nat j = Some (node comb zero ls l j)).
  { intros j Hj. rewrite <- (Z2Nat.id j) at 2 by lia. rewrite <- (nth_levels comb zero ls) by lia.
    destruct (nth_lookup_or_length (levels comb ls l) (Z.to_nat j) zero) as [E|]; [done|lia]. }
  replace (2 * Z.to_nat i)%nat with (Z.to_nat (2 * i)) by lia.
  replace (Z.to_nat (2 * i) + 1)%nat with (Z.to_nat (2 * i + 1)) by lia.
  split_and!; [lia|apply Hlook; lia|]. destruct (Z.ltb_spec (2 * i + 1) (width ls l)); [left; apply Hlook; lia|right].
  split; [apply lookup_ge_None_2; lia|done].
Qed.
End Binding.

Lemma pair_up_ext {A} (f g : A → A → A) l : (∀ x y, f x y = g x y) → pair_up f l = pair_up g l.
Proof. intros H. induction l as [| |x y l IH] using list_pair_ind; cbn [pair_up]; [done|by rewrite H|by rewrite H, IH]. Qed.

Lemma levels_ext {A} (f g : A → A → A) l k : (∀ x y, f x y = g x y) → levels f l k = levels g l k.
Proof.
  intros H. induction k as [|k IH]; [done|].
  change (pair_up f (levels f l k) = pair_up g (levels g l k)). rewrite IH. by apply pair_up_ext.
Qed.

Lemma root_levels_ext {A} (f g : A → A → A) z fuel : (∀ x y, f x y = g x y) →
  ∀ l, root_levels f z fuel l = root_levels g z fuel l.
Proof.
  intros H. induction fuel as [|fuel IH]; intros l; cbn [root_levels]; [done|].
  rewrite (pair_up_ext f g) by done. by rewrite IH.
Qed.

(** * The functions of the program *)

Section Blocks.
(** The memory of the hash buffers, not initialised. *)
Context (mem : bytes).

Definition uint256_eqb (a b : uint256) : bool := memcmp a b =? 0.
Definition hash_pair (l r : uint256) : uint256 :=
  CHash256_Finalize (CHash256_Write (CHash256_Write (CHash256_init mem) l) r).

Definition ComputeMerkleRoot (leaves : list uint256) : option (uint256 * bool) :=
  '(root, mutated, _) ← MerkleComputation uint256_eqb hash_pair uint256_null leaves (u32 (-1)) false;
  Some (root, mutated).
Definition ComputeMerkleBranch (leaves : list uint256) (position : Z) : option (list uint256) :=
  '(_, _, branch) ← MerkleComputation uint256_eqb hash_pair uint256_null leaves position true; Some branch.

Fixpoint ComputeMerkleRootFromBranch (hash : uint256) (vMerkleBranch : list uint256) (nIndex : Z)
    {struct vMerkleBranch} : uint256 :=
  match vMerkleBranch with
  | [] => hash
  | it :: rest =>
      let hash := if negb (Z.land nIndex 1 =? 0) then Hash mem [it; hash] else Hash mem [hash; it] in
      ComputeMerkleRootFromBranch hash rest (Z.shiftr nIndex 1)
  end.

Definition BlockMerkleRoot (block : CBlock) : option (uint256 * bool) :=
  ComputeMerkleRoot (map (CTransaction_ComputeHash mem) (vtx block)).

(** [leaves[0]] is out of bounds for a block without transactions. *)
Definition BlockWitnessMerkleRoot (block : CBlock) : option (uint256 * bool) :=
  match vtx block with
  | [] => None
  | _ :: rest => ComputeMerkleRoot (uint256_null :: map (GetWitnessHash mem) rest)
  end.

Definition BlockMerkleBranch (block : CBlock) (position : Z) : option (list uint256) :=
  ComputeMerkleBranch (map (CTransaction_ComputeHash mem) (vtx block)) position.
End Blocks.

(** * Properties *)

(** The hash of two nodes. *)
Definition dsha256_pair (l r : uint256) : uint256 := sha256 (sha256 (l ++ r)).
Definition is_uint256 (x : uint256) : Prop := length x = 32%nat.

(** Among the given pairs, two different ones with the same double hash. *)
Definition dsha256_collision (hashed : uint256 * uint256 → Prop) : Prop :=
  ∃ p q, hashed p ∧ hashed q ∧ p ≠ q ∧ dsha256_pair p.1 p.2 = dsha256_pair q.1 q.2.

Lemma memcmp_eq a b : length a = length b → memcmp a b = 0 ↔ a = b.
Proof.
  revert b. induction a as [|x a IH]; intros [|y b] Hl; cbn [memcmp length] in *; try done.
  injection Hl as Hl. specialize (IH b Hl). rewrite Z.gtb_ltb.
  destruct (Z.ltb_spec x y); [split; [done|intros [= -> ->]; lia]|].
  destruct (Z.ltb_spec y x); [split; [done|intros [= -> ->]; lia]|].
  rewrite IH. split; [intros ->; f_equal; lia|by intros [= -> ->]].
Qed.

Lemma uint256_eqb_eq x y : is_uint256 x → is_uint256 y → uint256_eqb x y = true ↔ x = y.
Proof. intros Hx Hy. unfold uint256_eqb. rewrite Z.eqb_eq. apply memcmp_eq. by rewrite Hx, Hy. Qed.

Lemma concat_pair (l r : bytes) : concat [l; r] = l ++ r.
Proof. cbn. by rewrite app_nil_r. Qed.

Section Facts.
Context (mem : bytes) (Hmem : length mem = 64%nat).

Lemma Hash_pair l r : Hash mem [l; r] = hash_pair mem l r.
Proof. unfold hash_pair, Hash. cbn [fold_left]. reflexivity. Qed.

Lemma hash_pair_spec l r : hash_pair mem l r = dsha256_pair l r.
Proof using Hmem.
  unfold dsha256_pair. pose proof (Hash_spec mem [l; r] Hmem) as E. rewrite concat_pair in E.
  by rewrite <- E, Hash_pair.
Qed.

Lemma hash_pair_ok l r : is_uint256 (hash_pair mem l r).
Proof using Hmem. rewrite hash_pair_spec. apply length_sha256. Qed.

Lemma collision_dsha256 hashed : collision (hash_pair mem) hashed → dsha256_collision hashed.
Proof using Hmem.
  intros (x & y & x' & y' & Hx & Hx' & Hne & E). rewrite !hash_pair_spec in E. by exists (x, y), (x', y').
Qed.

Lemma siblings_dsha256 ls p : siblings (hash_pair mem) ls p ↔ siblings dsha256_pair ls p.
Proof using Hmem.
  unfold siblings. assert (E : ∀ l, levels (hash_pair mem) ls l = levels dsha256_pair ls l)
    by (intros l; apply levels_ext, hash_pair_spec).
  split; intros (l & i & H); exists l, i; [rewrite E in H|rewrite E]; exact H.
Qed.

Lemma branch_pairs_dsha256 x b i : branch_pairs (hash_pair mem) x b i = branch_pairs dsha256_pair x b i.
Proof using Hmem.
  revert x i. induction b as [|s b IH]; intros x i; cbn [branch_pairs]; [reflexivity|].
  rewrite !hash_pair_spec, IH. reflexivity.
Qed.

Lemma RootFromBranch_eq hash branch i :
  ComputeMerkleRootFromBranch mem hash branch i = root_from_branch (hash_pair mem) hash branch i.
Proof.
  revert hash i. induction branch as [|x branch IH]; intros hash i; [reflexivity|].
  cbn [ComputeMerkleRootFromBranch root_from_branch]. cbv zeta.
  rewrite !Hash_pair. apply IH.
Qed.
End Facts.

Lemma length_nonempty {X} (l : list X) : l ≠ [] ↔ 0 < Z.of_nat (length l).
Proof. destruct l; cbn [length]; split; intros; [done|lia|lia|done]. Qed.

Lemma is_uint256_null : is_uint256 uint256_null.
Proof. reflexivity. Qed.

#[local] Hint Resolve is_uint256_null uint256_eqb_eq hash_pair_ok : core.

Section Roots.
Context (mem : bytes) (leaves : list uint256).
Context (Hne : leaves ≠ []) (Hle : Z.of_nat (length leaves) ≤ 2 ^ 31).

Lemma ComputeMerkleRoot_top : ∃ k mutated,
  ComputeMerkleRoot mem leaves = Some (node (hash_pair mem) uint256_null leaves k 0, mutated) ∧ is_top leaves k ∧
  (mutated = true ↔ twins uint256_eqb (hash_pair mem) uint256_null leaves).
Proof using Hne Hle.
  destruct (MerkleComputation_spec uint256_eqb (hash_pair mem) uint256_null leaves (u32 (-1)) false)
    as (k & mutated & branch & E & Hk & Hm & _); [by vm_compute|apply length_nonempty in Hne; lia|].
  exists k, mutated. unfold ComputeMerkleRoot. rewrite E. done.
Qed.

Lemma ComputeMerkleBranch_top pos : 0 ≤ pos < Z.of_nat (length leaves) → ∃ k,
  ComputeMerkleBranch mem leaves pos = Some (branch_of (hash_pair mem) uint256_null leaves pos k) ∧ is_top leaves k ∧
  root_from_branch (hash_pair mem) (nth (Z.to_nat pos) leaves uint256_null)
    (branch_of (hash_pair mem) uint256_null leaves pos k) pos = node (hash_pair mem) uint256_null leaves k 0.
Proof using Hle.
  intros Hpos. destruct (MerkleComputation_spec uint256_eqb (hash_pair mem) uint256_null leaves pos true)
    as (k & mutated & branch & E & Hk & _ & Hb); [lia..|]. destruct (Hb ltac:(lia) eq_refl) as [Hp ->].
  exists k. unfold ComputeMerkleBranch. rewrite E. split_and!; [done..|].
  pose proof (root_from_branch_path (hash_pair mem) uint256_null leaves pos Hpos k 0) as Hr.
  rewrite Z.div_1_r in Hr. cbn [Nat.add] in Hr. rewrite Hp in Hr. exact Hr.
Qed.
End Roots.

(** C7: for up to 2^31 leaves the constant-space computation ends, and gives the
    root obtained by pairing up level after level with double SHA-256, a last
    odd hash with itself; [mutated] is set exactly when two sibling subtrees,
    both without padding, are equal. *)
Theorem ComputeMerkleRoot_correct mem leaves : length mem = 64%nat → Forall is_uint256 leaves →
  Z.of_nat (length leaves) ≤ 2 ^ 31 →
  ∃ root mutated, ComputeMerkleRoot mem leaves = Some (root, mutated) ∧
    root_levels dsha256_pair uint256_null 31 leaves = Some root ∧
    (mutated = true ↔ ∃ l i x, (2 * i + 2) * 2 ^ Z.of_nat l ≤ Z.of_nat (length leaves) ∧ 0 ≤ i ∧
       levels dsha256_pair leaves l !! Z.to_nat (2 * i) = Some x ∧
       levels dsha256_pair leaves l !! Z.to_nat (2 * i + 1) = Some x).
Proof.
  intros Hmem Hok Hle. destruct (decide (leaves = [])) as [->|Hne].
  { exists uint256_null, false. split_and!; [done..|]. split; [done|]. intros (l & i & x & H & Hi & _).
    cbn [length] in H. pose proof (p2_pos l). nia. }
  destruct (ComputeMerkleRoot_top mem leaves Hne Hle) as (k & mutated & E & Hk & Hm).
  eexists _, mutated. split; [exact E|]. split.
  - rewrite <- (root_levels_ext (hash_pair mem)) by (intros; by apply hash_pair_spec).
    change leaves with (levels (hash_pair mem) leaves 0) at 1. apply root_levels_top; [done|lia|].
    pose proof (proj1 (length_nonempty leaves) Hne). pose proof (is_top_log _ _ Hk ltac:(lia)) as Hlog.
    pose proof (Z.log2_up_le_mono _ _ Hle) as Hlog2. rewrite Z.log2_up_pow2 in Hlog2 by lia. lia.
  - rewrite Hm, (twins_levels _ _ _ is_uint256) by auto.
    split; intros (l & i & x & H); exists l, i, x.
    + by rewrite <- !(levels_ext (hash_pair mem)) by (intros; by apply hash_pair_spec).
    + by rewrite !(levels_ext (hash_pair mem) dsha256_pair) by (intros; by apply hash_pair_spec).
Qed.

Definition example_leaves : list uint256 := [repeat 1 32; repeat 2 32; repeat 3 32].

Lemma example_leaves_ok : Forall is_uint256 example_leaves.
Proof. repeat constructor. Qed.

Lemma ComputeMerkleRoot_correct_witness : ∃ root mutated,
  ComputeMerkleRoot (replicate 64 9) (example_leaves ++ [repeat 3 32]) = Some (root, mutated) ∧
  root_levels dsha256_pair uint256_null 31 (example_leaves ++ [repeat 3 32]) = Some root ∧ mutated = true.
Proof.
  destruct (ComputeMerkleRoot_correct (replicate 64 9) (example_leaves ++ [repeat 3 32]))
    as (root & mutated & E & R & M); [reflexivity|repeat constructor|vm_compute; discriminate|].
  exists root, mutated. split; [exact E|]. split; [exact R|]. apply M.
  exists 0%nat, 1, (repeat 3 32). repeat split; vm_compute; discriminate.
Defined.

(** the branch of a leaf has one hash per level and leads from the leaf back
    to the root; and, unless two different pairs of nodes hashed along the two
    branches have the same double SHA-256, no other leaf or branch of that length does. *)
Theorem ComputeMerkleBranch_correct mem leaves pos : length mem = 64%nat → Forall is_uint256 leaves →
  Z.of_nat (length leaves) ≤ 2 ^ 31 → 0 ≤ pos < Z.of_nat (length leaves) →
  ∃ root mutated branch leaf,
    ComputeMerkleRoot mem leaves = Some (root, mutated) ∧ leaves !! Z.to_nat pos = Some leaf ∧
    ComputeMerkleBranch mem leaves pos = Some branch ∧
    Z.of_nat (length branch) = Z.log2_up (Z.of_nat (length leaves)) ∧
    ComputeMerkleRootFromBranch mem leaf branch pos = root ∧
    ∀ leaf' branch', is_uint256 leaf' → Forall is_uint256 branch' → length branch' = length branch →
      ComputeMerkleRootFromBranch mem leaf' branch' pos = root →
      dsha256_collision (λ p, p ∈ branch_pairs dsha256_pair leaf branch pos ++ branch_pairs dsha256_pair leaf' branch' pos) ∨
      (leaf' = leaf ∧ branch' = branch).
Proof.
  intros Hmem Hok Hle Hpos. assert (leaves ≠ []) as Hne by (apply length_nonempty; lia).
  destruct (ComputeMerkleRoot_top mem leaves Hne Hle) as (k & mutated & E & Hk & _).
  destruct (ComputeMerkleBranch_top mem leaves Hle pos Hpos) as (k' & Eb & Hk' & Hr).
  pose proof (is_top_log _ _ Hk ltac:(lia)) as L. pose proof (is_top_log _ _ Hk' ltac:(lia)) as L'.
  assert (k' = k) as -> by lia. set (branch := branch_of _ _ _ _ _) in *.
  assert (Hlb : length branch = k) by (unfold branch, branch_of; by rewrite length_map, length_seq).
  assert (Forall is_uint256 branch) as Hbok.
  { unfold branch, branch_of. apply Forall_map, Forall_true. intros l. unfold sib.
    repeat case_match; apply (node_ok (hash_pair mem) _ leaves is_uint256); auto. }
  destruct (nth_lookup_or_length leaves (Z.to_nat pos) uint256_null) as [Hn|]; [|lia].
  eexists _, mutated, branch, _. split_and!; [exact E|exact Hn|exact Eb|by rewrite Hlb| |].
  - by rewrite RootFromBranch_eq.
  - intros leaf' branch' Hl' Hb' Hlen' E'. rewrite RootFromBranch_eq, <- Hr in E'.
    match goal with |- dsha256_collision ?h ∨ _ => set (hashed := h) end.
    apply (root_from_branch_inj uint256_eqb _ is_uint256) with (hashed := hashed) in E'; auto.
    + destruct E' as [C|?]; [left|by right]. eapply collision_dsha256; [exact Hmem|exact C].
    + eapply List.Forall_forall; [exact Hok|]. apply nth_In. lia.
    + rewrite branch_pairs_dsha256 by exact Hmem. apply List.Forall_forall. intros p Hp. unfold hashed.
      rewrite elem_of_app. right. by apply list_elem_of_In.
    + rewrite branch_pairs_dsha256 by exact Hmem. apply List.Forall_forall. intros p Hp. unfold hashed.
      rewrite elem_of_app. left. by apply list_elem_of_In.
Qed.

Lemma ComputeMerkleBranch_correct_witness : ∃ root mutated branch,
  ComputeMerkleRoot (replicate 64 9) example_leaves = Some (root, mutated) ∧
  ComputeMerkleBranch (replicate 64 9) example_leaves 2 = Some branch ∧ length branch = 2%nat ∧
  ComputeMerkleRootFromBranch (replicate 64 9) (repeat 3 32) branch 2 = root.
Proof.
  destruct (ComputeMerkleBranch_correct (replicate 64 9) example_leaves 2)
    as (root & mutated & branch & leaf & E & L & B & Hl & R & _);
    [reflexivity|exact example_leaves_ok|vm_compute; discriminate|split; vm_compute; congruence|].
  exists root, mutated, branch. injection L as <-. split; [exact E|]. split; [exact B|]. split; [|exact R].
  change (Z.log2_up (Z.of_nat (length example_leaves))) with 2 in Hl. lia.
Defined.

Lemma txids_ok mem l : length mem = 64%nat → Forall is_uint256 (map (CTransaction_ComputeHash mem) l).
Proof.
  intros Hmem. apply Forall_map, Forall_true. intros tx. unfold CTransaction_ComputeHash.
  rewrite Hash_spec by exact Hmem. apply length_sha256.
Qed.

Lemma roots_commit mem ls ls' root : length mem = 64%nat → Forall is_uint256 ls → Forall is_uint256 ls' →
  ls ≠ [] → ls' ≠ [] → Z.of_nat (length ls) ≤ 2 ^ 31 → Z.of_nat (length ls') ≤ 2 ^ 31 →
  Z.log2_up (Z.of_nat (length ls)) = Z.log2_up (Z.of_nat (length ls')) →
  ComputeMerkleRoot mem ls = Some (root, false) → ComputeMerkleRoot mem ls' = Some (root, false) →
  dsha256_collision (λ p, siblings dsha256_pair ls p ∨ siblings dsha256_pair ls' p) ∨ ls = ls'.
Proof.
  intros Hmem Ho Ho' Hn Hn' Hle Hle' Hlog E E'.
  destruct (ComputeMerkleRoot_top mem ls Hn Hle) as (k & mut & E2 & Hk & Hm).
  destruct (ComputeMerkleRoot_top mem ls' Hn' Hle') as (k' & mut' & E2' & Hk' & Hm').
  pose proof (is_top_log _ _ Hk ltac:(by apply length_nonempty)) as L.
  pose proof (is_top_log _ _ Hk' ltac:(by apply length_nonempty)) as L'. assert (k' = k) as -> by lia.
  rewrite E in E2. rewrite E' in E2'. injection E2 as Er <-. injection E2' as Er' <-.
  set (hashed := λ p, siblings dsha256_pair ls p ∨ siblings dsha256_pair ls' p).
  destruct (agree_all uint256_eqb (hash_pair mem) uint256_null is_uint256) with (hashed := hashed) (ls := ls) (ls' := ls') (l := k)
    as [C|[T|[T|?]]]; auto.
  - intros l i H1 Hi Hw. left. apply (siblings_dsha256 mem Hmem). by apply hashes_siblings.
  - intros l i H1 Hi Hw. right. apply (siblings_dsha256 mem Hmem). by apply hashes_siblings.
  - intros l Hl. split; [by apply Hk|by apply Hk'].
  - apply agree_top; [done..|congruence].
  - left. by eapply collision_dsha256.
  - by apply Hm in T.
  - by apply Hm' in T.
Qed.

(** C32: a block's Merkle root commits to its transactions: two blocks whose trees
    have the same height, whose roots are equal and of which neither is flagged
    as mutated contain the same transaction identifiers in the same order, or two
    different pairs of siblings of the two trees have the same double SHA-256. The flag is needed: the duplication
    of a suffix keeps the root. *)
Theorem BlockMerkleRoot_commits mem b b' root : length mem = 64%nat → vtx b ≠ [] → vtx b' ≠ [] →
  Z.of_nat (length (vtx b)) ≤ 2 ^ 31 → Z.of_nat (length (vtx b')) ≤ 2 ^ 31 →
  Z.log2_up (Z.of_nat (length (vtx b))) = Z.log2_up (Z.of_nat (length (vtx b'))) →
  BlockMerkleRoot mem b = Some (root, false) → BlockMerkleRoot mem b' = Some (root, false) →
  (let ids := map (CTransaction_ComputeHash mem) (vtx b) in let ids' := map (CTransaction_ComputeHash mem) (vtx b') in
   dsha256_collision (λ p, siblings dsha256_pair ids p ∨ siblings dsha256_pair ids' p)) ∨
  map (CTransaction_ComputeHash mem) (vtx b) = map (CTransaction_ComputeHash mem) (vtx b').
Proof.
  intros Hmem Hne Hne' Hle Hle' Hlog E E'. unfold BlockMerkleRoot in *.
  rewrite <- !(length_map (CTransaction_ComputeHash mem)) in *.
  eapply (roots_commit mem _ _ root); [done|by apply txids_ok|by apply txids_ok| | |done..].
  - by destruct (vtx b).
  - by destruct (vtx b').
Qed.

Definition example_block_header : CBlockHeader := mkCBlockHeader 0 [] [] 0 0 0 0 0 [].

Lemma BlockMerkleRoot_commits_witness :
  (let ids := map (CTransaction_ComputeHash (replicate 64 9)) [example_tx [[1]]] in
   let ids' := map (CTransaction_ComputeHash (replicate 64 9)) [example_tx []] in
   dsha256_collision (λ p, siblings dsha256_pair ids p ∨ siblings dsha256_pair ids' p)) ∨
  map (CTransaction_ComputeHash (replicate 64 9)) [example_tx [[1]]] =
  map (CTransaction_ComputeHash (replicate 64 9)) [example_tx []].
Proof.
  apply (BlockMerkleRoot_commits (replicate 64 9) (mkCBlock example_block_header [example_tx [[1]]])
    (mkCBlock example_block_header [example_tx []]) (CTransaction_ComputeHash (replicate 64 9) (example_tx []))).
  all: vm_compute; congruence.
Defined.
