(* ===== verification/Script.v ===== *)
(** Scripts (script/script.h, script/script.cpp): opcodes, script numbers,
    building and parsing scripts, and the predicates and counts over them. An
    iterator into a script is modelled by the bytes from it to the end. *)
From stdpp Require Import base list option.
From Stdlib Require Import ZArith Lia.
From S2P Require Import Prelude ArithUint256 Serialize.
Open Scope Z_scope.

(** * Constants *)

Abbreviation MAX_SCRIPT_ELEMENT_SIZE := 520%Z.
Abbreviation MAX_OPS_PER_SCRIPT := 201%Z.
Abbreviation MAX_PUBKEYS_PER_MULTISIG := 20%Z.
Abbreviation MAX_SCRIPT_SIZE := 10000%Z.
Abbreviation MAX_STACK_SIZE := 1000%Z.
Abbreviation LOCKTIME_THRESHOLD := 500000000%Z.

(** [enum opcodetype] *)
Abbreviation OP_0 := 0x00%Z.
Abbreviation OP_PUSHDATA1 := 0x4c%Z.
Abbreviation OP_PUSHDATA2 := 0x4d%Z.
Abbreviation OP_PUSHDATA4 := 0x4e%Z.
Abbreviation OP_1NEGATE := 0x4f%Z.
Abbreviation OP_RESERVED := 0x50%Z.
Abbreviation OP_1 := 0x51%Z.
Abbreviation OP_2 := 0x52%Z.
Abbreviation OP_3 := 0x53%Z.
Abbreviation OP_4 := 0x54%Z.
Abbreviation OP_5 := 0x55%Z.
Abbreviation OP_6 := 0x56%Z.
Abbreviation OP_7 := 0x57%Z.
Abbreviation OP_8 := 0x58%Z.
Abbreviation OP_9 := 0x59%Z.
Abbreviation OP_10 := 0x5a%Z.
Abbreviation OP_11 := 0x5b%Z.
Abbreviation OP_12 := 0x5c%Z.
Abbreviation OP_13 := 0x5d%Z.
Abbreviation OP_14 := 0x5e%Z.
Abbreviation OP_15 := 0x5f%Z.
Abbreviation OP_16 := 0x60%Z.
Abbreviation OP_NOP := 0x61%Z.
Abbreviation OP_VER := 0x62%Z.
Abbreviation OP_IF := 0x63%Z.
Abbreviation OP_NOTIF := 0x64%Z.
Abbreviation OP_VERIF := 0x65%Z.
Abbreviation OP_VERNOTIF := 0x66%Z.
Abbreviation OP_ELSE := 0x67%Z.
Abbreviation OP_ENDIF := 0x68%Z.
Abbreviation OP_VERIFY := 0x69%Z.
Abbreviation OP_RETURN := 0x6a%Z.
Abbreviation OP_TOALTSTACK := 0x6b%Z.
Abbreviation OP_FROMALTSTACK := 0x6c%Z.
Abbreviation OP_2DROP := 0x6d%Z.
Abbreviation OP_2DUP := 0x6e%Z.
Abbreviation OP_3DUP := 0x6f%Z.
Abbreviation OP_2OVER := 0x70%Z.
Abbreviation OP_2ROT := 0x71%Z.
Abbreviation OP_2SWAP := 0x72%Z.
Abbreviation OP_IFDUP := 0x73%Z.
Abbreviation OP_DEPTH := 0x74%Z.
Abbreviation OP_DROP := 0x75%Z.
Abbreviation OP_DUP := 0x76%Z.
Abbreviation OP_NIP := 0x77%Z.
Abbreviation OP_OVER := 0x78%Z.
Abbreviation OP_PICK := 0x79%Z.
Abbreviation OP_ROLL := 0x7a%Z.
Abbreviation OP_ROT := 0x7b%Z.
Abbreviation OP_SWAP := 0x7c%Z.
Abbreviation OP_TUCK := 0x7d%Z.
Abbreviation OP_CAT := 0x7e%Z.
Abbreviation OP_SUBSTR := 0x7f%Z.
Abbreviation OP_LEFT := 0x80%Z.
Abbreviation OP_RIGHT := 0x81%Z.
Abbreviation OP_SIZE := 0x82%Z.
Abbreviation OP_INVERT := 0x83%Z.
Abbreviation OP_AND := 0x84%Z.
Abbreviation OP_OR := 0x85%Z.
Abbreviation OP_XOR := 0x86%Z.
Abbreviation OP_EQUAL := 0x87%Z.
Abbreviation OP_EQUALVERIFY := 0x88%Z.
Abbreviation OP_RESERVED1 := 0x89%Z.
Abbreviation OP_RESERVED2 := 0x8a%Z.
Abbreviation OP_1ADD := 0x8b%Z.
Abbreviation OP_1SUB := 0x8c%Z.
Abbreviation OP_2MUL := 0x8d%Z.
Abbreviation OP_2DIV := 0x8e%Z.
Abbreviation OP_NEGATE := 0x8f%Z.
Abbreviation OP_ABS := 0x90%Z.
Abbreviation OP_NOT := 0x91%Z.
Abbreviation OP_0NOTEQUAL := 0x92%Z.
Abbreviation OP_ADD := 0x93%Z.
Abbreviation OP_SUB := 0x94%Z.
Abbreviation OP_MUL := 0x95%Z.
Abbreviation OP_DIV := 0x96%Z.
Abbreviation OP_MOD := 0x97%Z.
Abbreviation OP_LSHIFT := 0x98%Z.
Abbreviation OP_RSHIFT := 0x99%Z.
Abbreviation OP_BOOLAND := 0x9a%Z.
Abbreviation OP_BOOLOR := 0x9b%Z.
Abbreviation OP_NUMEQUAL := 0x9c%Z.
Abbreviation OP_NUMEQUALVERIFY := 0x9d%Z.
Abbreviation OP_NUMNOTEQUAL := 0x9e%Z.
Abbreviation OP_LESSTHAN := 0x9f%Z.
Abbreviation OP_GREATERTHAN := 0xa0%Z.
Abbreviation OP_LESSTHANOREQUAL := 0xa1%Z.
Abbreviation OP_GREATERTHANOREQUAL := 0xa2%Z.
Abbreviation OP_MIN := 0xa3%Z.
Abbreviation OP_MAX := 0xa4%Z.
Abbreviation OP_WITHIN := 0xa5%Z.
Abbreviation OP_RIPEMD160 := 0xa6%Z.
Abbreviation OP_SHA1 := 0xa7%Z.
Abbreviation OP_SHA256 := 0xa8%Z.
Abbreviation OP_HASH160 := 0xa9%Z.
Abbreviation OP_HASH256 := 0xaa%Z.
Abbreviation OP_CODESEPARATOR := 0xab%Z.
Abbreviation OP_CHECKSIG := 0xac%Z.
Abbreviation OP_CHECKSIGVERIFY := 0xad%Z.
Abbreviation OP_CHECKMULTISIG := 0xae%Z.
Abbreviation OP_CHECKMULTISIGVERIFY := 0xaf%Z.
Abbreviation OP_NOP1 := 0xb0%Z.
Abbreviation OP_CHECKLOCKTIMEVERIFY := 0xb1%Z.
Abbreviation OP_CHECKSEQUENCEVERIFY := 0xb2%Z.
Abbreviation OP_NOP4 := 0xb3%Z.
Abbreviation OP_NOP5 := 0xb4%Z.
Abbreviation OP_NOP6 := 0xb5%Z.
Abbreviation OP_NOP7 := 0xb6%Z.
Abbreviation OP_NOP8 := 0xb7%Z.
Abbreviation OP_NOP9 := 0xb8%Z.
Abbreviation OP_NOP10 := 0xb9%Z.
Abbreviation OP_cmusicai_ASSET := 0xc0%Z.
Abbreviation OP_SMALLINTEGER := 0xfa%Z.
Abbreviation OP_PUBKEYS := 0xfb%Z.
Abbreviation OP_PUBKEYHASH := 0xfd%Z.
Abbreviation OP_PUBKEY := 0xfe%Z.
Abbreviation OP_INVALIDOPCODE := 0xff%Z.
Abbreviation MAX_OPCODE := OP_NOP10.

Definition valtype := bytes.
Definition size {A} (v : list A) : Z := Z.of_nat (length v).

Definition byte_at (v : bytes) (i : nat) : Z := nth i v 0.

(** * Script numbers *)

(** A [CScriptNum] is its [m_value], a 64-bit integer. *)
Definition nDefaultMaxNumSize : Z := 4.

(** The loop of [set_vch]. *)
Fixpoint set_vch_loop (vch : bytes) (i : Z) (result : Z) : Z :=
  match vch with
  | [] => result
  | x :: vch' => set_vch_loop vch' (i + 1) (Z.lor result (i64 (Z.shiftl x (8 * i))))
  end.
Definition set_vch (vch : bytes) : Z :=
  match vch with
  | [] => 0
  | _ =>
      let result := set_vch_loop vch 0 0 in
      if negb (Z.land (List.last vch 0) 0x80 =? 0)
      then i64 (- i64 (Z.ldiff (u64 result) (u64 (Z.shiftl 0x80 (8 * (size vch - 1))))))
      else result
  end.

(** The constructor from bytes; [None] is the exception [scriptnum_error]. *)
Definition CScriptNum (vch : bytes) (fRequireMinimal : bool) (nMaxNumSize : Z) : option Z :=
  if nMaxNumSize <? size vch then None
  else if fRequireMinimal && (0 <? size vch) && (Z.land (List.last vch 0) 0x7f =? 0) &&
          ((size vch <=? 1) || (Z.land (byte_at vch (length vch - 2)) 0x80 =? 0)) then None
  else Some (set_vch vch).

(** The arithmetic; [None] is a failed assertion. *)
Definition num_add (a b : Z) : Z := i64 (a + b).
Definition num_sub (a b : Z) : Z := i64 (a - b).
Definition num_neg (a : Z) : option Z := if a =? - 2 ^ 63 then None else Some (- a).
Definition num_add_assign (a rhs : Z) : option Z :=
  if (rhs =? 0) || ((0 <? rhs) && (a <=? 2 ^ 63 - 1 - rhs)) || ((rhs <? 0) && (- 2 ^ 63 - rhs <=? a))
  then Some (a + rhs) else None.
Definition num_sub_assign (a rhs : Z) : option Z :=
  if (rhs =? 0) || ((0 <? rhs) && (- 2 ^ 63 + rhs <=? a)) || ((rhs <? 0) && (a <=? 2 ^ 63 - 1 + rhs))
  then Some (a - rhs) else None.
Definition getint (m_value : Z) : Z :=
  if 2 ^ 31 - 1 <? m_value then 2 ^ 31 - 1 else if m_value <? - 2 ^ 31 then - 2 ^ 31 else m_value.

(** [while (absvalue)] of [serialize]; a 64-bit number has 8 bytes. *)
Fixpoint serialize_loop (fuel : nat) (absvalue : Z) : bytes :=
  match fuel with
  | O => []
  | S fuel' =>
      if absvalue =? 0 then []
      else Z.land absvalue 0xff :: serialize_loop fuel' (Z.shiftr absvalue 8)
  end.
Definition serialize (value : Z) : bytes :=
  if value =? 0 then []
  else
    let neg := value <? 0 in
    let absvalue := u64 (if neg then - value else value) in
    let result := serialize_loop 8 absvalue in
    let back := List.last result 0 in
    if negb (Z.land back 0x80 =? 0) then result ++ [if neg then 0x80 else 0]
    else if neg then upd (length result - 1) (Z.lor back 0x80) result
    else result.

(** * Building scripts *)

Definition CScript := bytes.

(** [operator<<(const std::vector<unsigned char>&)]: what it appends. *)
Definition push_data (b : valtype) : bytes :=
  (if size b <? OP_PUSHDATA1 then [u8 (size b)]
   else if size b <=? 0xff then [OP_PUSHDATA1; u8 (size b)]
   else if size b <=? 0xffff then OP_PUSHDATA2 :: le_bytes 2 (u16 (size b))
   else OP_PUSHDATA4 :: le_bytes 4 (u32 (size b))) ++ b.

Definition push_int64 (n : Z) : bytes :=
  if (n =? -1) || ((1 <=? n) && (n <=? 16)) then [u8 (n + (OP_1 - 1))]
  else if n =? 0 then [OP_0]
  else push_data (serialize n).

(** [operator<<(opcodetype)]; [None] is the exception. *)
Definition push_opcode (opcode : Z) : option bytes :=
  if (opcode <? 0) || (0xff <? opcode) then None else Some [u8 opcode].

(** * Parsing scripts *)

(** The result of [GetOp2]: the returned value, the iterator after it (moved also
    when it fails), the opcode and the data. *)
Definition getop : Type := bool * bytes * Z * valtype.

Definition GetOp2_data (pc : bytes) (opcode nSize : Z) : getop :=
  if u32 (size pc) <? nSize then (false, pc, OP_INVALIDOPCODE, [])
  else (true, drop (Z.to_nat nSize) pc, opcode, take (Z.to_nat nSize) pc).

Definition GetOp (pc : bytes) : getop :=
  match pc with
  | [] => (false, [], OP_INVALIDOPCODE, [])
  | opcode :: pc =>
      if opcode <=? OP_PUSHDATA4 then
        if opcode <? OP_PUSHDATA1 then GetOp2_data pc opcode opcode
        else if opcode =? OP_PUSHDATA1 then
          if size pc <? 1 then (false, pc, OP_INVALIDOPCODE, [])
          else GetOp2_data (drop 1 pc) opcode (byte_at pc 0)
        else if opcode =? OP_PUSHDATA2 then
          if size pc <? 2 then (false, pc, OP_INVALIDOPCODE, [])
          else GetOp2_data (drop 2 pc) opcode (le_val (take 2 pc))
        else
          if size pc <? 4 then (false, pc, OP_INVALIDOPCODE, [])
          else GetOp2_data (drop 4 pc) opcode (le_val (take 4 pc))
      else if opcode =? OP_cmusicai_ASSET then
        let nSize := Z.to_nat (u32 (size pc)) in
        (true, drop nSize pc, opcode, take nSize pc)
      else (true, pc, opcode, [])
  end.

(** [DecodeOP_N], [EncodeOP_N]; [None] is a failed assertion. *)
Definition DecodeOP_N (opcode : Z) : option Z :=
  if opcode =? OP_0 then Some 0
  else if (OP_1 <=? opcode) && (opcode <=? OP_16) then Some (opcode - (OP_1 - 1)) else None.
Definition EncodeOP_N (n : Z) : option Z :=
  if (0 <=? n) && (n <=? 16) then Some (if n =? 0 then OP_0 else OP_1 + n - 1) else None.

(** [std::equal(b.begin(), b.end(), pc)] with the test of the remaining length. *)
Fixpoint starts_with (b pc : bytes) : bool :=
  match b, pc with
  | [], _ => true
  | _, [] => false
  | x :: b', y :: pc' => (x =? y) && starts_with b' pc'
  end.

(** The inner loop of [FindAndDelete]: the iterator after the occurrences of [b]. *)
Fixpoint skip_matches (fuel : nat) (b pc : bytes) (nFound : Z) : bytes * Z :=
  match fuel with
  | O => (pc, nFound)
  | S fuel' =>
      if starts_with b pc then skip_matches fuel' b (drop (length b) pc) (nFound + 1) else (pc, nFound)
  end.

(** [pc2] and [pc] delimit bytes to keep. *)
Fixpoint FindAndDelete_loop (fuel : nat) (b pc2 pc result : bytes) (nFound : Z) : bytes * bytes * Z :=
  let result := result ++ take (length pc2 - length pc) pc2 in
  let '(pc, nFound) := skip_matches (length pc) b pc nFound in
  match fuel with
  | O => (result, pc, nFound)
  | S fuel' =>
      let '(ok, pc', _, _) := GetOp pc in
      if (ok : bool) then FindAndDelete_loop fuel' b pc pc' result nFound else (result, pc, nFound)
  end.

Definition FindAndDelete (script b : CScript) : CScript * Z :=
  match b with
  | [] => (script, 0)
  | _ =>
      let '(result, pc2, nFound) := FindAndDelete_loop (length script) b script script [] 0 in
      (if 0 <? nFound then result ++ pc2 else script, nFound)
  end.

(** The opcodes and data that successive calls of [GetOp] give from [pc] on, until
    the end ([true]) or a failure ([false]); every call moves the iterator. *)
Fixpoint ops_from (fuel : nat) (pc : bytes) : list (Z * valtype) * bool :=
  match pc with
  | [] => ([], true)
  | _ =>
      match fuel with
      | O => ([], false)
      | S fuel' =>
          let '(ok, pc', opcode, data) := GetOp pc in
          if (ok : bool) then let '(l, b) := ops_from fuel' pc' in ((opcode, data) :: l, b) else ([], false)
      end
  end.
Definition ops (script : CScript) : list (Z * valtype) * bool := ops_from (length script) script.

Definition Find (script : CScript) (op : Z) : Z :=
  size (filter (λ '(opcode, _), opcode = op) (ops script).1).

(** * Signature operations *)

Fixpoint GetSigOpCount_loop (fAccurate : bool) (l : list (Z * valtype)) (lastOpcode n : Z) : Z :=
  match l with
  | [] => n
  | (opcode, _) :: l' =>
      let n :=
        if (opcode =? OP_CHECKSIG) || (opcode =? OP_CHECKSIGVERIFY) then u32 (n + 1)
        else if (opcode =? OP_CHECKMULTISIG) || (opcode =? OP_CHECKMULTISIGVERIFY) then
          if fAccurate && (OP_1 <=? lastOpcode) && (lastOpcode <=? OP_16)
          then u32 (n + default 0 (DecodeOP_N lastOpcode))
          else u32 (n + MAX_PUBKEYS_PER_MULTISIG)
        else n in
      GetSigOpCount_loop fAccurate l' opcode n
  end.
Definition GetSigOpCount (script : CScript) (fAccurate : bool) : Z :=
  GetSigOpCount_loop fAccurate (ops script).1 OP_INVALIDOPCODE 0.

Definition IsPayToScriptHash (s : CScript) : bool :=
  (size s =? 23) && (byte_at s 0 =? OP_HASH160) && (byte_at s 1 =? 0x14) && (byte_at s 22 =? OP_EQUAL).

(** The loop over the [scriptSig]: the last data pushed, or [None] where it
    returns 0. *)
Fixpoint last_push (l : list (Z * valtype)) (vData : valtype) : option valtype :=
  match l with
  | [] => Some vData
  | (opcode, data) :: l' => if OP_16 <? opcode then None else last_push l' data
  end.
Definition GetSigOpCount_P2SH (script scriptSig : CScript) : Z :=
  if negb (IsPayToScriptHash script) then GetSigOpCount script true
  else
    let '(l, complete) := ops scriptSig in
    match last_push l [] with
    | None => 0
    | Some vData => if (complete : bool) then GetSigOpCount vData true else 0
    end.

(** * Predicates *)

Definition IsPayToPublicKeyHash (s : CScript) : bool :=
  (size s =? 25) && (byte_at s 0 =? OP_DUP) && (byte_at s 1 =? OP_HASH160) && (byte_at s 2 =? 0x14) &&
  (byte_at s 23 =? OP_EQUALVERIFY) && (byte_at s 24 =? OP_CHECKSIG).

Definition IsPayToWitnessScriptHash (s : CScript) : bool :=
  (size s =? 34) && (byte_at s 0 =? OP_0) && (byte_at s 1 =? 0x20).

(** The version and the program. *)
Definition IsWitnessProgram (s : CScript) : option (Z * bytes) :=
  if (size s <? 4) || (42 <? size s) then None
  else if negb (byte_at s 0 =? OP_0) && ((byte_at s 0 <? OP_1) || (OP_16 <? byte_at s 0)) then None
  else if byte_at s 1 + 2 =? size s then v ← DecodeOP_N (byte_at s 0); Some (v, drop 2 s)
  else None.

Definition IsPayToPublicKey (s : CScript) : bool :=
  if size s =? 35 then ((byte_at s 1 =? 0x02) || (byte_at s 1 =? 0x03)) && (byte_at s 34 =? OP_CHECKSIG)
  else if size s =? 67 then (byte_at s 1 =? 0x04) && (byte_at s 66 =? OP_CHECKSIG)
  else false.

Definition IsPushOnly (s : CScript) : bool :=
  let '(l, complete) := ops s in forallb (λ '(opcode, _), opcode <=? OP_16) l && complete.

Definition HasValidOps (s : CScript) : bool :=
  let '(l, complete) := ops s in
  forallb (λ '(opcode, item), (opcode <=? MAX_OPCODE) && (size item <=? MAX_SCRIPT_ELEMENT_SIZE)) l && complete.

(** ** Asset scripts *)

Inductive txnouttype := TX_NONSTANDARD | TX_PUBKEY | TX_PUBKEYHASH | TX_SCRIPTHASH | TX_MULTISIG | TX_NULL_DATA
  | TX_WITNESS_V0_SCRIPTHASH | TX_WITNESS_V0_KEYHASH
  | TX_NEW_ASSET | TX_REISSUE_ASSET | TX_TRANSFER_ASSET | TX_RESTRICTED_ASSET_DATA.

Abbreviation cmusicai_N := 114%Z.
Abbreviation cmusicai_E := 118%Z.
Abbreviation cmusicai_X := 110%Z.
Abbreviation cmusicai_Q := 113%Z.
Abbreviation cmusicai_T := 116%Z.
Abbreviation cmusicai_O := 111%Z.

(** Where the letters of the asset marker end, or -1. *)
Definition asset_index (s : CScript) : Z :=
  if byte_at s 27 =? cmusicai_N then
    if (byte_at s 28 =? cmusicai_E) && (byte_at s 29 =? cmusicai_X) then 30 else -1
  else
    if (byte_at s 28 =? cmusicai_N) && (byte_at s 29 =? cmusicai_E) && (byte_at s 30 =? cmusicai_X) then 31 else -1.

(** The kind, [fIsOwner] (false unless set) and [nStartingIndex]. *)
Definition IsAssetScript3 (s : CScript) : option (txnouttype * bool * Z) :=
  if (31 <? size s) && (byte_at s 25 =? OP_cmusicai_ASSET) then
    let index := asset_index s in
    if 0 <? index then
      let c := byte_at s (Z.to_nat index) in
      if c =? cmusicai_T then Some (TX_TRANSFER_ASSET, false, index + 1)
      else if (c =? cmusicai_Q) && (39 <? size s) then Some (TX_NEW_ASSET, false, index + 1)
      else if c =? cmusicai_O then Some (TX_NEW_ASSET, true, index + 1)
      else if c =? cmusicai_N then Some (TX_REISSUE_ASSET, false, index + 1)
      else None
    else None
  else None.
Definition IsAssetScript (s : CScript) : bool := bool_decide (is_Some (IsAssetScript3 s)).
Definition IsNewAsset (s : CScript) : bool :=
  match IsAssetScript3 s with Some (TX_NEW_ASSET, false, _) => true | _ => false end.
Definition IsOwnerAsset (s : CScript) : bool :=
  match IsAssetScript3 s with Some (TX_NEW_ASSET, true, _) => true | _ => false end.
Definition IsReissueAsset (s : CScript) : bool :=
  match IsAssetScript3 s with Some (TX_REISSUE_ASSET, _, _) => true | _ => false end.
Definition IsTransferAsset (s : CScript) : bool :=
  match IsAssetScript3 s with Some (TX_TRANSFER_ASSET, _, _) => true | _ => false end.

Definition IsNullAssetTxDataScript (s : CScript) : bool :=
  (23 <? size s) && (byte_at s 0 =? OP_cmusicai_ASSET) && (byte_at s 1 =? 0x14).
Definition IsNullGlobalRestrictionAssetTxDataScript (s : CScript) : bool :=
  (6 <? size s) && (byte_at s 0 =? OP_cmusicai_ASSET) && (byte_at s 1 =? OP_RESERVED) && (byte_at s 2 =? OP_RESERVED).
Definition IsNullAssetVerifierTxDataScript (s : CScript) : bool :=
  (3 <? size s) && (byte_at s 0 =? OP_cmusicai_ASSET) && (byte_at s 1 =? OP_RESERVED) && negb (byte_at s 2 =? OP_RESERVED).
Definition IsNullAsset (s : CScript) : bool :=
  IsNullAssetTxDataScript s || IsNullGlobalRestrictionAssetTxDataScript s || IsNullAssetVerifierTxDataScript s.

(** * Script numbers: proofs *)

Lemma le_val_app a b : le_val (a ++ b) = le_val a + 256 ^ size a * le_val b.
Proof.
  unfold size. induction a as [|x a IH]; cbn [app le_val length]; [change (256 ^ Z.of_nat 0) with 1; lia|].
  rewrite IH, Nat2Z.inj_succ, Z.pow_succ_r by lia. lia.
Qed.

Lemma size_app {A} (a b : list A) : size (a ++ b) = size a + size b.
Proof. unfold size. rewrite length_app. lia. Qed.

Lemma size_nonneg {A} (a : list A) : 0 ≤ size a.
Proof. unfold size. lia. Qed.

Lemma size_bytes_range a : is_bytes a → 0 ≤ le_val a < 256 ^ size a.
Proof. apply le_val_range. Qed.

(** Little-endian digits without a leading zero. *)
Definition minimal (l : bytes) : Prop := is_bytes l ∧ ∀ l' x, l = l' ++ [x] → x ≠ 0.

Lemma minimal_snoc l x : minimal (l ++ [x]) ↔ is_bytes l ∧ is_u8 x ∧ x ≠ 0.
Proof.
  unfold minimal. rewrite is_bytes_app, is_bytes_cons. split.
  - intros [(H1 & H2 & _) H]. by split_and!; [..|eapply H].
  - intros (H1 & H2 & H3). split; [split_and!; [done..|constructor]|].
    intros ? ? [_ [= <-]]%app_inj_2; done.
Qed.

Lemma minimal_tail x l : minimal (x :: l) → minimal l.
Proof.
  intros [[_ Hl]%is_bytes_cons H]. split; [done|]. intros l' y ->. by apply (H (x :: l')).
Qed.

Lemma minimal_zero l : minimal l → le_val l = 0 → l = [].
Proof.
  induction l as [|x l IH]; [done|]. intros Hm E. exfalso. pose proof (minimal_tail _ _ Hm) as Hm'.
  destruct Hm as [[Hx Hl]%is_bytes_cons H]. pose proof (size_bytes_range _ Hl). cbn [le_val] in E. unfold is_u8 in Hx.
  rewrite (IH Hm' ltac:(lia)) in *. apply (H [] x); [done|]. cbn in E. lia.
Qed.

Lemma minimal_unique l : ∀ l', minimal l → minimal l' → le_val l = le_val l' → l = l'.
Proof.
  induction l as [|x l IH]; intros l' Hl Hl' E; [symmetry; by apply minimal_zero|].
  destruct l' as [|y l']; [by apply minimal_zero in E|].
  pose proof (IH l' (minimal_tail _ _ Hl) (minimal_tail _ _ Hl')) as IH'.
  destruct Hl as [[Hx _]%is_bytes_cons _], Hl' as [[Hy _]%is_bytes_cons _]. unfold is_u8 in *. cbn [le_val] in E.
  assert (x = y ∧ le_val l = le_val l') as [-> E'] by lia. by rewrite IH'.
Qed.

Lemma serialize_loop_spec fuel : ∀ a, 0 ≤ a < 256 ^ Z.of_nat fuel →
  minimal (serialize_loop fuel a) ∧ le_val (serialize_loop fuel a) = a.
Proof.
  induction fuel as [|fuel IH]; intros a Ha; cbn [serialize_loop].
  - change (256 ^ Z.of_nat 0) with 1 in Ha. split; [|cbn; lia]. split; [constructor|]. by intros [] ?.
  - rewrite Nat2Z.inj_succ, Z.pow_succ_r in Ha by lia.
    destruct (Z.eqb_spec a 0) as [->|Hne]; [split; [|done]; split; [constructor|by intros [] ?]|].
    rewrite Z.shiftr_div_pow2 by lia. change (2 ^ 8) with 256.
    destruct (IH (a / 256)) as [[Hb Hm] Hv]; [split; [apply Z.div_pos; lia|apply Z.div_lt_upper_bound; lia]|].
    change 0xff with (Z.ones 8). rewrite Z.land_ones by lia. change (2 ^ 8) with 256.
    pose proof (Z.mod_pos_bound a 256 ltac:(lia)). pose proof (Z.div_mod a 256 ltac:(lia)).
    split; [|cbn [le_val]; lia]. split; [apply is_bytes_cons; split; [unfold is_u8; lia|done]|].
    intros [|z l'] x [= Hz Hl]; [|by apply (Hm l')]. rewrite Hl in Hv. cbn in Hv. lia.
Qed.

Lemma serialize_loop_unique fuel l : minimal l → size l ≤ Z.of_nat fuel → serialize_loop fuel (le_val l) = l.
Proof.
  intros Hm Hs. pose proof (size_bytes_range l (proj1 Hm)) as Hr.
  pose proof (Z.pow_le_mono_r 256 (size l) (Z.of_nat fuel) ltac:(lia) Hs).
  destruct (serialize_loop_spec fuel (le_val l)) as [H1 H2]; [lia|]. by apply minimal_unique.
Qed.

Lemma i64_small z : is_i64 z → i64 z = z.
Proof. unfold_words. intros H. rewrite Z.mod_small by lia. lia. Qed.

Lemma land_0x80 x : is_u8 x → (Z.land x 0x80 =? 0) = (x <? 128).
Proof. apply land_80. Qed.

Lemma land_0x7f x : Z.land x 0x7f = x mod 128.
Proof. apply land_7F. Qed.

Lemma set_vch_loop_spec v : ∀ k r, is_bytes v → 0 ≤ k → k + size v ≤ 7 → 0 ≤ r < 256 ^ k →
  set_vch_loop v k r = r + 256 ^ k * le_val v.
Proof.
  unfold size. induction v as [|x v IH]; intros k r Hb Hk Hs Hr; cbn [set_vch_loop le_val length] in *; [lia|].
  apply is_bytes_cons in Hb as [Hx Hb]. unfold is_u8 in Hx.
  assert (256 ^ k = 2 ^ (8 * k)) as Ep by (rewrite Z.pow_mul_r by lia; done).
  pose proof (Z.pow_pos_nonneg 256 k ltac:(lia) Hk).
  assert (256 ^ k ≤ 256 ^ 6) by (apply Z.pow_le_mono_r; lia).
  rewrite Z.shiftl_mul_pow2, <- Ep, i64_small by (unfold is_i64; nia || lia).
  rewrite (lor_disjoint (8 * k)) by (rewrite <- ?Ep; auto using Z.mod_mul; lia || (apply Z.mod_mul; lia)).
  rewrite IH by (rewrite ?Z.pow_add_r; auto; lia || nia). rewrite Z.pow_add_r by lia. lia.
Qed.

Lemma ldiff_top m j : 0 ≤ j → 0 ≤ m < 2 ^ j → Z.ldiff (2 ^ j + m) (2 ^ j) = m.
Proof.
  intros Hj Hm. rewrite <- Z.sub_nocarry_ldiff; [lia|]. apply Z.bits_inj'. intros i Hi.
  rewrite Z.ldiff_spec, Z.bits_0, Z.pow2_bits_eqb by lia. destruct (Z.eqb_spec j i) as [<-|]; [|done].
  rewrite Z.testbit_odd, Z.shiftr_div_pow2 by lia. replace (2 ^ j + m) with (m + 1 * 2 ^ j) by lia.
  rewrite Z.div_add, Z.div_small by lia. done.
Qed.

Lemma i64_sub z : ∃ q, i64 z = z - 2 ^ 64 * q.
Proof. exists ((z + 2 ^ 63) / 2 ^ 64). unfold i64. pose proof (Z.div_mod (z + 2 ^ 63) (2 ^ 64) ltac:(lia)). lia. Qed.

Lemma set_vch_snoc v b : is_bytes v → is_u8 b → size v ≤ 7 →
  set_vch (v ++ [b]) = if b <? 128 then le_val (v ++ [b]) else - le_val (v ++ [b - 128]).
Proof.
  intros Hv Hb Hs. assert (Hl : ∀ k r w, set_vch_loop (w ++ [b]) k r =
    Z.lor (set_vch_loop w k r) (i64 (Z.shiftl b (8 * (k + size w))))).
  { clear. intros k r w. revert k r. induction w as [|x w IH]; intros k r; cbn [app set_vch_loop].
    - by rewrite Z.add_0_r. 
    - rewrite IH. unfold size. cbn [length]. do 4 f_equal. lia. }
  unfold set_vch. destruct (v ++ [b]) as [|y w] eqn:E; [by destruct v|]. rewrite <- E, last_last.
  rewrite land_0x80, Hl, Z.add_0_l by done. rewrite set_vch_loop_spec by (done || lia).
  change (256 ^ 0) with 1. rewrite Z.add_0_l, Z.mul_1_l, size_app. change (size [b]) with 1.
  rewrite Z.add_simpl_r, !le_val_app. cbn [le_val]. pose proof (size_bytes_range v Hv) as Hr.
  pose proof (size_nonneg v). assert (256 ^ size v = 2 ^ (8 * size v)) as Ep by (rewrite Z.pow_mul_r by lia; done).
  pose proof (Z.pow_pos_nonneg 256 (size v) ltac:(lia) ltac:(lia)).
  assert (256 ^ size v ≤ 256 ^ 7) by (apply Z.pow_le_mono_r; lia).
  rewrite !Z.shiftl_mul_pow2, <- !Ep by lia. unfold is_u8 in Hb.
  assert (Hlor : ∀ z, z mod 256 ^ size v = 0 → Z.lor (le_val v) z = le_val v + z)
    by (intros z Hz; apply (lor_disjoint (8 * size v)); rewrite <- ?Ep; lia).
  destruct (Z.ltb_spec b 128); cbn [negb].
  - rewrite i64_small by (unfold is_i64; nia). rewrite Hlor by (apply Z.mod_mul; lia). lia.
  - destruct (i64_sub (b * 256 ^ size v)) as [q Eq]. rewrite Eq.
    assert (2 ^ 64 = 256 ^ (8 - size v) * 256 ^ size v) as E64 by (change (2 ^ 64) with (256 ^ 8); rewrite <- Z.pow_add_r by lia; f_equal; lia).
    rewrite Hlor by (apply Z.mod_divide; [lia|]; exists (b - 256 ^ (8 - size v) * q); rewrite E64; ring).
    set (P := 256 ^ size v) in *. set (a := le_val v) in *.
    replace (u64 (a + (b * P - 2 ^ 64 * q))) with (128 * P + (a + P * (b - 128))).
    2: { unfold u64. replace (a + (b * P - 2 ^ 64 * q)) with (128 * P + (a + P * (b - 128)) + (- q) * 2 ^ 64) by lia.
         rewrite Z.mod_add, Z.mod_small by (lia || nia). done. }
    assert (128 * P = 2 ^ (8 * size v + 7)) as E128 by (rewrite Z.pow_add_r, <- Ep by lia; change (2 ^ 7) with 128; lia).
    rewrite u64_small, E128, ldiff_top by (unfold is_u64; nia || lia). 
    assert (0 ≤ a + P * (b - 128) < 2 ^ 63) by (change (2 ^ 63) with (128 * 256 ^ 7); nia).
    rewrite (i64_small (a + _)), i64_small by (unfold is_i64; lia). lia.
Qed.

(** Sign and magnitude. *)
Definition sm_encode (neg : bool) (l : bytes) : bytes :=
  let back := List.last l 0 in
  if negb (Z.land back 0x80 =? 0) then l ++ [if neg then 0x80 else 0]
  else if neg then upd (length l - 1) (Z.lor back 0x80) l else l.

Lemma sm_encode_snoc neg l x : is_u8 x → sm_encode neg (l ++ [x]) =
  if x <? 128 then l ++ [if neg then x + 128 else x] else (l ++ [x]) ++ [if neg then 128 else 0].
Proof.
  intros Hx. unfold sm_encode. rewrite last_last, land_0x80 by done. unfold is_u8 in Hx.
  destruct (Z.ltb_spec x 128); cbn [negb]; [|done]. destruct neg; [|done].
  rewrite length_app. cbn [length]. rewrite Nat.add_sub, upd_middle by done.
  rewrite (lor_disjoint 7) by (lia || done). done.
Qed.

Definition signed (neg : bool) (n : Z) : Z := if neg then - n else n.

(** The decoder's view of an encoding: the bytes, whether they are minimal and
    their value. *)
Definition is_minimal_num (vch : bytes) : bool :=
  negb ((Z.land (List.last vch 0) 0x7f =? 0) &&
        ((size vch <=? 1) || (Z.land (byte_at vch (length vch - 2)) 0x80 =? 0))).

Lemma is_minimal_snoc2 v x b : is_u8 x → is_u8 b →
  is_minimal_num ((v ++ [x]) ++ [b]) = negb ((b mod 128 =? 0) && (x <? 128)).
Proof.
  intros Hx Hb. unfold is_minimal_num. rewrite last_last, land_0x7f, !size_app.
  unfold byte_at. rewrite !length_app. cbn [length]. replace (length v + 1 + 1 - 2)%nat with (length v) by lia.
  rewrite <- app_assoc. cbn [app]. rewrite nth_middle, land_0x80 by done. change (size [x]) with 1. change (size [b]) with 1.
  pose proof (size_nonneg v). rewrite (proj2 (Z.leb_gt _ _)) by lia. done.
Qed.

Lemma is_minimal_pos v b : is_u8 b → b mod 128 ≠ 0 → is_minimal_num (v ++ [b]) = true.
Proof.
  intros Hb H. unfold is_minimal_num. by rewrite last_last, land_0x7f, (proj2 (Z.eqb_neq _ _)) by done.
Qed.

Lemma is_minimal_zero b : is_u8 b → b mod 128 = 0 → is_minimal_num [b] = false.
Proof. intros Hb H. unfold is_minimal_num. cbn [List.last]. by rewrite land_0x7f, H. Qed.

Lemma is_bytes_snoc v x : is_bytes (v ++ [x]) ↔ is_bytes v ∧ is_u8 x.
Proof. rewrite is_bytes_app, is_bytes_cons. intuition. constructor. Qed.

Lemma nonempty_snoc {A} (l : list A) : l ≠ [] → ∃ v x, l = v ++ [x].
Proof. intros H. destruct (exists_last H) as (v & x & ->). eauto. Qed.

(** An encoding's magnitude against its size. *)
Lemma sm_encode_size neg l m : minimal l → l ≠ [] → 1 ≤ m →
  size (sm_encode neg l) ≤ m ↔ le_val l < 2 ^ (8 * m - 1).
Proof.
  intros Hm (v & x & ->)%nonempty_snoc Hm1. apply minimal_snoc in Hm as (Hv & Hx & Hx0).
  rewrite sm_encode_snoc, le_val_app by done. cbn [le_val]. rewrite Z.mul_0_r, Z.add_0_r. unfold is_u8 in Hx.
  pose proof (size_bytes_range v Hv) as Hr. pose proof (size_nonneg v) as Hs.
  assert (E : 2 ^ (8 * m - 1) = 128 * 256 ^ (m - 1)).
  { replace (8 * m - 1) with (7 + 8 * (m - 1)) by lia. rewrite Z.pow_add_r, Z.pow_mul_r by lia. done. }
  rewrite E. assert (Hmono : ∀ i j, 0 ≤ i < j → 256 ^ i * 256 ≤ 256 ^ j).
  { intros i j Hij. rewrite <- (Z.pow_1_r 256) at 2. rewrite <- Z.pow_add_r by lia. apply Z.pow_le_mono_r; lia. }
  pose proof (Z.pow_pos_nonneg 256 (m - 1) ltac:(lia) ltac:(lia)).
  destruct (Z.ltb_spec x 128); rewrite !size_app; change (size [_]) with 1.
  - destruct (Z.lt_trichotomy (size v) (m - 1)) as [L|[E'|L]].
    + pose proof (Hmono (size v) (m - 1) ltac:(lia)). split; [nia|lia].
    + rewrite <- E' in *. split; [nia|lia].
    + pose proof (Hmono (m - 1) (size v) ltac:(lia)). split; [lia|nia].
  - destruct (Z.lt_trichotomy (size v) (m - 1)) as [L|[E'|L]].
    + pose proof (Hmono (size v) (m - 1) ltac:(lia)). split; [nia|lia].
    + rewrite <- E' in *. split; [lia|nia].
    + pose proof (Hmono (m - 1) (size v) ltac:(lia)). split; [lia|nia].
Qed.

Lemma mod128 x : is_u8 x → x mod 128 = if x <? 128 then x else x - 128.
Proof.
  unfold is_u8. intros Hx. destruct (Z.ltb_spec x 128); [apply Z.mod_small; lia|].
  replace x with (x - 128 + 1 * 128) at 1 by lia. rewrite Z.mod_add, Z.mod_small; lia.
Qed.

Lemma sm_decode neg l : minimal l → l ≠ [] → le_val l < 2 ^ 63 →
  is_bytes (sm_encode neg l) ∧ is_minimal_num (sm_encode neg l) = true ∧
  set_vch (sm_encode neg l) = signed neg (le_val l).
Proof.
  intros Hm Hne Hlt. assert (Hsz : size (sm_encode neg l) ≤ 8) by (apply sm_encode_size; [done..|lia|done]).
  apply nonempty_snoc in Hne as (v & x & ->). apply minimal_snoc in Hm as (Hv & Hx & Hx0).
  rewrite sm_encode_snoc in * by done. pose proof Hx as Hx'. unfold is_u8 in Hx'.
  destruct (Z.ltb_spec x 128) as [L|L]; rewrite !size_app in Hsz; change (size [_]) with 1 in Hsz.
  - assert (Hb : is_u8 (if neg then x + 128 else x)) by (unfold is_u8; destruct neg; lia).
    rewrite is_bytes_snoc, is_minimal_pos, set_vch_snoc by (done || lia || (rewrite mod128 by done; destruct neg;
      [rewrite (proj2 (Z.ltb_ge _ _))|rewrite (proj2 (Z.ltb_lt _ _))]; lia)).
    split_and!; [done..|]. destruct neg; cbn [signed].
    + rewrite (proj2 (Z.ltb_ge _ _)) by lia. by replace (x + 128 - 128) with x by lia.
    + by rewrite (proj2 (Z.ltb_lt _ _)) by lia.
  - assert (Hb : is_u8 (if neg then 128 else 0)) by (destruct neg; done).
    assert (is_bytes (v ++ [x])) by (by rewrite is_bytes_snoc).
    rewrite is_bytes_snoc, is_minimal_snoc2, set_vch_snoc by (done || (rewrite size_app; change (size [_]) with 1; lia)).
    rewrite (proj2 (Z.ltb_ge x _)), andb_false_r by lia. split_and!; [done..|].
    destruct neg; cbn [signed]; [change (128 <? 128) with false; change (128 - 128) with 0|change (0 <? 128) with true];
      cbv iota; rewrite (le_val_app (v ++ [x])); cbn [le_val]; lia.
Qed.

Lemma sm_encode_surj vch : is_bytes vch → vch ≠ [] → is_minimal_num vch = true →
  ∃ neg l, minimal l ∧ l ≠ [] ∧ vch = sm_encode neg l.
Proof.
  intros Hb (v & b & ->)%nonempty_snoc Hm. apply is_bytes_snoc in Hb as [Hv Hb]. pose proof Hb as Hb'. unfold is_u8 in Hb'.
  pose proof (mod128 b Hb) as Eb. destruct (Z.eqb_spec (b mod 128) 0) as [E|E].
  - destruct v as [|y w] using rev_ind; [cbn [app] in Hm; by rewrite is_minimal_zero in Hm|]. clear IHw.
    apply is_bytes_snoc in Hv as [Hw Hy]. rewrite is_minimal_snoc2, E in Hm by done. cbn [Z.eqb andb] in Hm.
    apply negb_true_iff, Z.ltb_ge in Hm. exists (128 <=? b), (w ++ [y]). rewrite minimal_snoc. split_and!; [done..|lia|by destruct w|].
    rewrite sm_encode_snoc by done. rewrite (proj2 (Z.ltb_ge y _)) by lia. f_equal. f_equal.
    destruct (Z.ltb_spec b 128), (Z.leb_spec 128 b); lia.
  - exists (128 <=? b), (v ++ [b mod 128]). pose proof (Z.mod_pos_bound b 128 ltac:(lia)).
    assert (is_u8 (b mod 128)) by (unfold is_u8; lia). rewrite minimal_snoc. split_and!; [done..|by destruct v|].
    rewrite sm_encode_snoc, (proj2 (Z.ltb_lt _ _)) by (done || lia). f_equal. f_equal.
    destruct (Z.ltb_spec b 128), (Z.leb_spec 128 b); lia.
Qed.

Lemma serialize_encode n : n ≠ 0 → Z.abs n < 2 ^ 63 → ∃ l, minimal l ∧ l ≠ [] ∧
  serialize n = sm_encode (n <? 0) l ∧ n = signed (n <? 0) (le_val l) ∧ le_val l = Z.abs n.
Proof.
  intros Hn Ha. exists (serialize_loop 8 (Z.abs n)).
  destruct (serialize_loop_spec 8 (Z.abs n)) as [Hm Hv]; [change (256 ^ Z.of_nat 8) with (2 ^ 64); lia|].
  unfold serialize. rewrite (proj2 (Z.eqb_neq _ _)) by done. rewrite Hv.
  assert (u64 (if n <? 0 then - n else n) = Z.abs n) as ->.
  { rewrite u64_small by (unfold is_u64; destruct (Z.ltb_spec n 0); lia). destruct (Z.ltb_spec n 0); lia. }
  split_and!; [done| |done| |done].
  - intros E. rewrite E in Hv. cbn in Hv. lia.
  - unfold signed. destruct (Z.ltb_spec n 0); lia.
Qed.

Lemma CScriptNum_eq vch req max : CScriptNum vch req max =
  if max <? size vch then None
  else if req && (0 <? size vch) && negb (is_minimal_num vch) then None else Some (set_vch vch).
Proof. unfold CScriptNum, is_minimal_num. rewrite negb_involutive. by rewrite andb_assoc. Qed.

Lemma CScriptNum_range vch req max n : is_bytes vch → 1 ≤ max ≤ 8 → CScriptNum vch req max = Some n →
  Z.abs n < 2 ^ (8 * max - 1).
Proof.
  intros Hb Hmax. rewrite CScriptNum_eq. destruct (Z.ltb_spec max (size vch)) as [|Hs]; [done|].
  destruct (_ && _); [done|]. intros [= <-].
  assert (E : 2 ^ (8 * max - 1) = 128 * 256 ^ (max - 1)).
  { replace (8 * max - 1) with (7 + 8 * (max - 1)) by lia. rewrite Z.pow_add_r, Z.pow_mul_r by lia. done. }
  pose proof (Z.pow_pos_nonneg 256 (max - 1) ltac:(lia) ltac:(lia)). rewrite E.
  destruct vch as [|b v] using rev_ind; [cbn; lia|]. clear IHv. apply is_bytes_snoc in Hb as [Hv Hb].
  rewrite size_app in Hs. change (size [b]) with 1 in Hs. pose proof (size_bytes_range v Hv).
  pose proof (Z.pow_le_mono_r 256 (size v) (max - 1) ltac:(lia) ltac:(lia)).
  pose proof (Z.pow_pos_nonneg 256 (size v) ltac:(lia) (size_nonneg v)). unfold is_u8 in Hb.
  rewrite set_vch_snoc by (done || lia). destruct (Z.ltb_spec b 128); rewrite le_val_app; cbn [le_val];
    rewrite Z.mul_0_r, Z.add_0_r; nia.
Qed.

(** script numbers have exactly one minimal encoding: [serialize] produces it,
    the reader gives the number back exactly when it fits the size allowed, and
    accepts nothing else where minimality is required; the numbers read from up
    to [max] bytes are below [2 ^ (8 max - 1)] in magnitude. *)
Theorem CScriptNum_canonical n vch req max : 1 ≤ max ≤ 8 → is_bytes vch →
  (Z.abs n < 2 ^ 63 →
     CScriptNum (serialize n) req max = if Z.abs n <? 2 ^ (8 * max - 1) then Some n else None) ∧
  (CScriptNum vch true max = Some n → vch = serialize n) ∧
  (CScriptNum vch req max = Some n → Z.abs n < 2 ^ (8 * max - 1)).
Proof.
  intros Hmax Hb. assert (0 < 2 ^ (8 * max - 1)) by (apply Z.pow_pos_nonneg; lia).
  split_and!; [| |by apply CScriptNum_range].
  - intros Ha. rewrite CScriptNum_eq. destruct (Z.eq_dec n 0) as [->|Hn].
    { change (serialize 0) with (@nil Z). change (size []) with 0. rewrite (proj2 (Z.ltb_ge _ _)) by lia.
      change (Z.abs 0) with 0. rewrite (proj2 (Z.ltb_lt 0 (2 ^ _))) by lia. by rewrite andb_false_r. }
    destruct (serialize_encode n Hn Ha) as (l & Hm & Hne & Es & En & Hv). rewrite Es.
    destruct (sm_decode (n <? 0) l Hm Hne ltac:(lia)) as (_ & Hmin & Hset).
    rewrite Hmin, Hset, andb_false_r, <- En. pose proof (sm_encode_size (n <? 0) l max Hm Hne ltac:(lia)) as Hsz.
    rewrite Hv in Hsz. destruct (Z.ltb_spec max (size (sm_encode (n <? 0) l))), (Z.ltb_spec (Z.abs n) (2 ^ (8 * max - 1)));
      [lia|done|done|lia].
  - intros E. pose proof (CScriptNum_range _ _ _ _ Hb Hmax E) as Hr. rewrite CScriptNum_eq in E.
    destruct (Z.ltb_spec max (size vch)) as [|Hs]; [done|]. destruct vch as [|y w]; [by injection E as <-|].
    change (0 <? size (y :: w)) with true in E. cbn [andb] in E. set (vch := y :: w) in *.
    destruct (is_minimal_num vch) eqn:Em; [|done]. cbn [negb] in E. assert (set_vch vch = n) as En by congruence. clear E.
    destruct (sm_encode_surj vch Hb ltac:(done) Em) as (neg & l & Hm & Hne & Evch).
    rewrite Evch in Hs, En |- *.
    apply sm_encode_size in Hs as Hlt; [|done..|lia].
    pose proof (Z.pow_le_mono_r 2 (8 * max - 1) 63 ltac:(lia) ltac:(lia)).
    destruct (sm_decode neg l Hm Hne ltac:(lia)) as (_ & _ & Hset). rewrite Hset in En.
    assert (0 < le_val l) as Hpos.
    { pose proof (size_bytes_range l (proj1 Hm)). assert (le_val l ≠ 0) by (intros E0; by apply Hne, minimal_zero). lia. }
    destruct (serialize_encode n) as (l' & Hm' & Hne' & Es & En' & Hv'); [destruct neg; cbn in En; lia|lia|].
    rewrite Es. assert ((n <? 0) = neg) as Esg by (destruct neg; cbn in En; destruct (Z.ltb_spec n 0); lia || done).
    rewrite Esg. f_equal. apply minimal_unique; [done..|]. destruct neg; cbn in En; lia.
Qed.

Lemma CScriptNum_canonical_witness :
  CScriptNum (serialize (-255)) true 4 = Some (-255) ∧ [255; 128] = serialize (-255).
Proof.
  destruct (CScriptNum_canonical (-255) [255; 128] true 4) as (H1 & H2 & _); [lia|repeat constructor; lia|].
  split; [exact (H1 eq_refl)|exact (H2 eq_refl)].
Defined.

(** * Parsing: proofs *)

Lemma GetOp2_data_true pc op n pc' op' d : GetOp2_data pc op n = (true, pc', op', d) →
  op' = op ∧ d = take (Z.to_nat n) pc ∧ pc' = drop (Z.to_nat n) pc.
Proof. unfold GetOp2_data. destruct (_ <? _); [done|]. by intros [= <- <- <-]. Qed.

Lemma GetOp2_data_false pc op n pc' op' d : GetOp2_data pc op n = (false, pc', op', d) → pc' = pc.
Proof. unfold GetOp2_data. destruct (_ <? _); [by intros [= <- <- <-]|done]. Qed.

(** A successful call consumes some bytes, of which the data are a part. *)
Lemma GetOp_true pc pc' op d : GetOp pc = (true, pc', op, d) →
  ∃ pre, pc = op :: pre ++ pc' ∧ (length d ≤ length pre)%nat ∧ ∃ k, d = drop k pre.
Proof.
  unfold GetOp. destruct pc as [|x pc]; [done|]. intros H.
  assert (Hdata : ∀ k n, GetOp2_data (drop k pc) x n = (true, pc', op, d) →
    ∃ pre, x :: pc = op :: pre ++ pc' ∧ (length d ≤ length pre)%nat ∧ ∃ k, d = drop k pre).
  { intros k n (-> & -> & ->)%GetOp2_data_true. exists (take k pc ++ take (Z.to_nat n) (drop k pc)).
    rewrite <- app_assoc, !take_drop, length_app. split_and!; [done|lia|].
    exists (length (take k pc)). by rewrite drop_app_length. }
  destruct (x <=? OP_PUSHDATA4).
  - repeat case_match; simplify_eq; try (by eapply Hdata). by apply (Hdata 0%nat x).
  - destruct (x =? OP_cmusicai_ASSET); injection H as <- <- <-.
    + eexists. rewrite take_drop. split_and!; [done..|]. by exists 0%nat.
    + exists []. split_and!; [done..|]. by exists 0%nat.
Qed.

Lemma GetOp_length pc pc' op d : GetOp pc = (true, pc', op, d) → (length pc' < length pc)%nat.
Proof. intros (pre & -> & _)%GetOp_true. cbn [length]. rewrite length_app. lia. Qed.

Lemma GetOp_bytes pc pc' op d : GetOp pc = (true, pc', op, d) → is_bytes pc →
  is_u8 op ∧ is_bytes d ∧ is_bytes pc'.
Proof.
  intros (pre & -> & _ & k & ->)%GetOp_true. rewrite is_bytes_cons, is_bytes_app. intros (? & Hp & ?).
  split_and!; [done| |done]. by apply Forall_skipn.
Qed.

Lemma ops_from_fuel fuel : ∀ pc, (length pc ≤ fuel)%nat → ops_from fuel pc = ops pc.
Proof.
  unfold ops. assert (∀ k fuel pc, (length pc ≤ k)%nat → (k ≤ fuel)%nat → ops_from fuel pc = ops_from k pc) as H.
  { clear. induction k as [|k IH]; intros fuel pc Hk Hf; destruct pc as [|x pc]; cbn [length] in Hk;
      [by destruct fuel|lia|by destruct fuel|]. destruct fuel as [|fuel]; [lia|].
    cbn [ops_from]. destruct (GetOp (x :: pc)) as [[[[] pc'] op] d] eqn:E; [|done].
    apply GetOp_length in E. cbn [length] in E. by rewrite IH by lia. }
  intros pc Hl. by apply H.
Qed.

Lemma ops_nil : ops [] = ([], true).
Proof. done. Qed.

Lemma ops_cons pc pc' op d : GetOp pc = (true, pc', op, d) →
  ops pc = let '(l, b) := ops pc' in ((op, d) :: l, b).
Proof.
  intros E. pose proof (GetOp_length _ _ _ _ E) as Hl. rewrite <- (ops_from_fuel (length pc)) by done.
  destruct pc as [|x pc]; [cbn in Hl; lia|]. cbn [length ops_from]. rewrite E.
  by rewrite ops_from_fuel by (cbn [length] in Hl; lia).
Qed.

Lemma ops_fail pc pc' op d : pc ≠ [] → GetOp pc = (false, pc', op, d) → ops pc = ([], false).
Proof. intros Hne E. unfold ops. destruct pc as [|x pc]; [done|]. cbn [length ops_from]. by rewrite E. Qed.

Lemma GetOp2_data_app d rest op : size d + size rest < 2 ^ 32 →
  GetOp2_data (d ++ rest) op (size d) = (true, rest, op, d).
Proof.
  intros Hs. pose proof (size_nonneg d). pose proof (size_nonneg rest). unfold GetOp2_data.
  rewrite size_app, u32_small by (unfold is_u32; lia). rewrite (proj2 (Z.ltb_ge _ _)) by lia.
  unfold size. rewrite Nat2Z.id. by rewrite take_app_length, drop_app_length.
Qed.

(** The opcode that pushes data. *)
Definition push_op (b : valtype) : Z :=
  if size b <? OP_PUSHDATA1 then size b
  else if size b <=? 0xff then OP_PUSHDATA1 else if size b <=? 0xffff then OP_PUSHDATA2 else OP_PUSHDATA4.

Lemma GetOp2_data_prefix le d rest op : le_val le = size d → size d + size rest < 2 ^ 32 →
  GetOp2_data (drop (length le) (le ++ d ++ rest)) op (le_val (take (length le) (le ++ d ++ rest))) = (true, rest, op, d).
Proof. intros Hv Hs. rewrite drop_app_length, take_app_length, Hv. by apply GetOp2_data_app. Qed.

Lemma GetOp_push_data b rest : size b + size rest < 2 ^ 32 →
  GetOp (push_data b ++ rest) = (true, rest, push_op b, b).
Proof.
  intros Hs. pose proof (size_nonneg b) as Hb0. pose proof (size_nonneg rest). unfold push_data, push_op.
  rewrite <- app_assoc. destruct (Z.ltb_spec (size b) OP_PUSHDATA1) as [L1|L1];
    [|destruct (Z.leb_spec (size b) 0xff) as [L2|L2]; [|destruct (Z.leb_spec (size b) 0xffff) as [L3|L3]]].
  - rewrite u8_small by (unfold is_u8; lia). cbn [app GetOp].
    rewrite (proj2 (Z.leb_le _ _)), (proj2 (Z.ltb_lt _ _)) by lia. by apply GetOp2_data_app.
  - rewrite u8_small by (unfold is_u8; lia). change ([OP_PUSHDATA1; size b] ++ b ++ rest) with (OP_PUSHDATA1 :: [size b] ++ b ++ rest).
    unfold GetOp. cbn [Z.leb Z.ltb Z.eqb Z.compare Pos.compare Pos.compare_cont Pos.eqb].
    rewrite (proj2 (Z.ltb_ge _ _)) by (rewrite size_app; change (size [_]) with 1; pose proof (size_nonneg (b ++ rest)); lia).
    by apply (GetOp2_data_app b rest OP_PUSHDATA1).
  - assert (u16 (size b) = size b) as -> by (unfold u16; rewrite Z.mod_small; lia).
    pose proof (length_le_bytes 2 (size b)) as Hl. set (le := le_bytes 2 (size b)) in *.
    change ((OP_PUSHDATA2 :: le) ++ b ++ rest) with (OP_PUSHDATA2 :: le ++ b ++ rest).
    unfold GetOp. cbn [Z.leb Z.ltb Z.eqb Z.compare Pos.compare Pos.compare_cont Pos.eqb].
    rewrite (proj2 (Z.ltb_ge _ _)) by (rewrite size_app; unfold size at 1; rewrite Hl; pose proof (size_nonneg (b ++ rest)); lia).
    rewrite <- Hl. apply GetOp2_data_prefix; [|done]. apply le_val_bytes. change (256 ^ Z.of_nat 2) with (2 ^ 16). lia.
  - rewrite u32_small by (unfold is_u32; lia).
    pose proof (length_le_bytes 4 (size b)) as Hl. set (le := le_bytes 4 (size b)) in *.
    change ((OP_PUSHDATA4 :: le) ++ b ++ rest) with (OP_PUSHDATA4 :: le ++ b ++ rest).
    unfold GetOp. cbn [Z.leb Z.ltb Z.eqb Z.compare Pos.compare Pos.compare_cont Pos.eqb].
    rewrite (proj2 (Z.ltb_ge _ _)) by (rewrite size_app; unfold size at 1; rewrite Hl; pose proof (size_nonneg (b ++ rest)); lia).
    rewrite <- Hl. apply GetOp2_data_prefix; [|done]. apply le_val_bytes. change (256 ^ Z.of_nat 4) with (2 ^ 32). lia.
Qed.

Lemma GetOp_opcode op rest : OP_PUSHDATA4 < op → op ≠ OP_cmusicai_ASSET → GetOp (op :: rest) = (true, rest, op, []).
Proof. intros H1 H2. unfold GetOp. by rewrite (proj2 (Z.leb_gt _ _)), (proj2 (Z.eqb_neq _ _)) by lia. Qed.

(** Scripts as sequences of what is appended to them. *)
Inductive item := IOp (op : Z) | IData (b : valtype) | IInt (n : Z).

Definition build1 (i : item) : bytes :=
  match i with IOp op => default [] (push_opcode op) | IData b => push_data b | IInt n => push_int64 n end.
Definition build (l : list item) : CScript := concat (map build1 l).

(** What the parser makes of them. *)
Definition parse1 (i : item) : Z * valtype :=
  match i with
  | IOp op => (op, [])
  | IData b => (push_op b, b)
  | IInt n => if (n =? -1) || ((1 <=? n) && (n <=? 16)) then (n + 80, []) else
              if n =? 0 then (OP_0, []) else (push_op (serialize n), serialize n)
  end.
Definition item_ok (i : item) : Prop :=
  match i with IOp op => OP_PUSHDATA4 < op ≤ 0xff ∧ op ≠ OP_cmusicai_ASSET | _ => True end.

Lemma size_push_data b : size b ≤ size (push_data b).
Proof. unfold push_data. rewrite size_app. pose proof (size_nonneg (A := Z)). repeat case_match; match goal with |- _ ≤ size ?x + _ => pose proof (size_nonneg x) end; lia. Qed.

Lemma GetOp_build1 i rest : item_ok i → size (build1 i) + size rest < 2 ^ 32 →
  GetOp (build1 i ++ rest) = (true, rest, (parse1 i).1, (parse1 i).2).
Proof.
  assert (Hd : ∀ b, size (push_data b) + size rest < 2 ^ 32 → GetOp (push_data b ++ rest) = (true, rest, push_op b, b)).
  { intros b Hs. apply GetOp_push_data. pose proof (size_push_data b). lia. }
  destruct i as [op|b|n]; cbn [item_ok build1 parse1 fst snd]; intros Hok Hs; [|by apply Hd|].
  - destruct Hok as [Ho Hn]. unfold push_opcode.
    rewrite (proj2 (Z.ltb_ge _ _)), (proj2 (Z.ltb_ge _ _)) by lia. cbn [orb from_option id].
    rewrite u8_small by (unfold is_u8; lia). apply GetOp_opcode; lia.
  - unfold push_int64 in *. destruct ((n =? -1) || ((1 <=? n) && (n <=? 16))) eqn:E; cbn [fst snd].
    + assert (n = -1 ∨ 1 ≤ n ≤ 16) as Hn by (rewrite orb_true_iff, andb_true_iff, Z.eqb_eq, !Z.leb_le in E; lia).
      rewrite u8_small by (unfold is_u8; lia). replace (n + (OP_1 - 1)) with (n + 80) by lia. apply GetOp_opcode; lia.
    + destruct (Z.eqb_spec n 0) as [->|]; cbn [fst snd]; [|by apply Hd]. apply (GetOp2_data_app [] rest).
      change (size []) with 0. pose proof (size_nonneg rest). cbn in Hs. unfold size in *. cbn [length] in *. lia.
Qed.

(** a script built by appending opcodes, data and integers is parsed by
    [GetOp] into exactly those, in order and to the end. *)
Theorem build_parse l : Forall item_ok l → size (build l) < 2 ^ 32 → ops (build l) = (map parse1 l, true).
Proof.
  intros Hl Hs. induction Hl as [|i l Hi _ IH]; [done|].
  change (build (i :: l)) with (build1 i ++ build l) in *. rewrite size_app in Hs. pose proof (size_nonneg (build1 i)).
  rewrite (ops_cons _ _ _ _ (GetOp_build1 i (build l) Hi Hs)), IH by lia. cbn [map]. by destruct (parse1 i).
Qed.

Lemma build_parse_witness :
  ops (build [IOp OP_DUP; IOp OP_HASH160; IData (repeat 7 20); IInt 300; IInt 5; IOp OP_CHECKSIG]) =
  ([(OP_DUP, []); (OP_HASH160, []); (20, repeat 7 20); (2, [44; 1]); (OP_5, []); (OP_CHECKSIG, [])], true).
Proof.
  apply (build_parse [IOp OP_DUP; IOp OP_HASH160; IData (repeat 7 20); IInt 300; IInt 5; IOp OP_CHECKSIG]).
  - repeat constructor; discriminate.
  - vm_compute. reflexivity.
Defined.
