(* ===== verification/Interpreter.v ===== *)
(** The script interpreter (script/interpreter.cpp): encodings of signatures and
    keys, the evaluation of a script, and the limits it keeps. The stacks and the
    nesting of conditionals are lists with their top first: [stacktop(-i)] is the
    element [i - 1]. *)
From stdpp Require Import base list option.
From Stdlib Require Import ZArith Lia.
From S2P Require Import Prelude ArithUint256 Serialize Chain Transaction HashStream Sha256 Sha1 Ripemd160 Hash Script.
Open Scope Z_scope.

(** * Errors and flags (script/script_error.h, script/interpreter.h) *)

Inductive ScriptError :=
  | SCRIPT_ERR_OK | SCRIPT_ERR_UNKNOWN_ERROR | SCRIPT_ERR_EVAL_FALSE | SCRIPT_ERR_OP_RETURN
  | SCRIPT_ERR_SCRIPT_SIZE | SCRIPT_ERR_PUSH_SIZE | SCRIPT_ERR_OP_COUNT | SCRIPT_ERR_STACK_SIZE
  | SCRIPT_ERR_SIG_COUNT | SCRIPT_ERR_PUBKEY_COUNT
  | SCRIPT_ERR_VERIFY | SCRIPT_ERR_EQUALVERIFY | SCRIPT_ERR_CHECKMULTISIGVERIFY | SCRIPT_ERR_CHECKSIGVERIFY
  | SCRIPT_ERR_NUMEQUALVERIFY
  | SCRIPT_ERR_BAD_OPCODE | SCRIPT_ERR_DISABLED_OPCODE | SCRIPT_ERR_INVALID_STACK_OPERATION
  | SCRIPT_ERR_INVALID_ALTSTACK_OPERATION | SCRIPT_ERR_UNBALANCED_CONDITIONAL
  | SCRIPT_ERR_NEGATIVE_LOCKTIME | SCRIPT_ERR_UNSATISFIED_LOCKTIME
  | SCRIPT_ERR_SIG_HASHTYPE | SCRIPT_ERR_SIG_DER | SCRIPT_ERR_MINIMALDATA | SCRIPT_ERR_SIG_PUSHONLY
  | SCRIPT_ERR_SIG_HIGH_S | SCRIPT_ERR_SIG_NULLDUMMY | SCRIPT_ERR_PUBKEYTYPE | SCRIPT_ERR_CLEANSTACK
  | SCRIPT_ERR_MINIMALIF | SCRIPT_ERR_SIG_NULLFAIL
  | SCRIPT_ERR_DISCOURAGE_UPGRADABLE_NOPS | SCRIPT_ERR_DISCOURAGE_UPGRADABLE_WITNESS_PROGRAM
  | SCRIPT_ERR_WITNESS_PROGRAM_WRONG_LENGTH | SCRIPT_ERR_WITNESS_PROGRAM_WITNESS_EMPTY
  | SCRIPT_ERR_WITNESS_PROGRAM_MISMATCH | SCRIPT_ERR_WITNESS_MALLEATED | SCRIPT_ERR_WITNESS_MALLEATED_P2SH
  | SCRIPT_ERR_WITNESS_UNEXPECTED | SCRIPT_ERR_WITNESS_PUBKEYTYPE.

Abbreviation SIGHASH_ALL := 1%Z.
Abbreviation SIGHASH_NONE := 2%Z.
Abbreviation SIGHASH_SINGLE := 3%Z.
Abbreviation SIGHASH_ANYONECANPAY := 0x80%Z.

(** Each flag is one bit of the word. *)
Abbreviation SCRIPT_VERIFY_P2SH := 0%Z.
Abbreviation SCRIPT_VERIFY_STRICTENC := 1%Z.
Abbreviation SCRIPT_VERIFY_DERSIG := 2%Z.
Abbreviation SCRIPT_VERIFY_LOW_S := 3%Z.
Abbreviation SCRIPT_VERIFY_NULLDUMMY := 4%Z.
Abbreviation SCRIPT_VERIFY_SIGPUSHONLY := 5%Z.
Abbreviation SCRIPT_VERIFY_MINIMALDATA := 6%Z.
Abbreviation SCRIPT_VERIFY_DISCOURAGE_UPGRADABLE_NOPS := 7%Z.
Abbreviation SCRIPT_VERIFY_CLEANSTACK := 8%Z.
Abbreviation SCRIPT_VERIFY_CHECKLOCKTIMEVERIFY := 9%Z.
Abbreviation SCRIPT_VERIFY_CHECKSEQUENCEVERIFY := 10%Z.
Abbreviation SCRIPT_VERIFY_WITNESS := 11%Z.
Abbreviation SCRIPT_VERIFY_DISCOURAGE_UPGRADABLE_WITNESS_PROGRAM := 12%Z.
Abbreviation SCRIPT_VERIFY_MINIMALIF := 13%Z.
Abbreviation SCRIPT_VERIFY_NULLFAIL := 14%Z.
Abbreviation SCRIPT_VERIFY_WITNESS_PUBKEYTYPE := 15%Z.

(** [flags & (1U << bit)] *)
Definition has (flags bit : Z) : bool := negb (Z.land flags (Z.shiftl 1 bit) =? 0).

Inductive SigVersion := SIGVERSION_BASE | SIGVERSION_WITNESS_V0.
Definition is_base (v : SigVersion) : bool := match v with SIGVERSION_BASE => true | _ => false end.

(** The virtual methods of [BaseSignatureChecker]. *)
Record BaseSignatureChecker := {
  CheckSig : valtype → valtype → CScript → SigVersion → bool;
  CheckLockTime : Z → bool;
  CheckSequence : Z → bool }.

(** * Outcomes *)

(** The exceptions that can be thrown inside [EvalScript]. *)
Inductive exn := scriptnum_error | out_of_range | popstack_empty.

(** A computation returns, reports an error by [set_error], throws, or fails an
    assertion. *)
Inductive outcome (A : Type) :=
  | Ok (a : A) | Err (e : ScriptError) | Throw (x : exn) | Abort.
Arguments Ok {A} a.
Arguments Err {A} e.
Arguments Throw {A} x.
Arguments Abort {A}.

Definition obind {A B} (m : outcome A) (f : A → outcome B) : outcome B :=
  match m with Ok a => f a | Err e => Err e | Throw x => Throw x | Abort => Abort end.
Declare Scope outcome_scope.
Delimit Scope outcome_scope with outcome.
Notation "'let!' x := m 'in' k" := (obind m (λ x, k))
  (at level 10, x pattern, k at level 200) : outcome_scope.
Open Scope outcome_scope.

Definition assert_some {A} (o : option A) : outcome A := match o with Some a => Ok a | None => Abort end.

(** * Encodings of signatures and keys *)

Fixpoint CastToBool (vch : valtype) : bool :=
  match vch with
  | [] => false
  | [x] => negb (x =? 0) && negb (x =? 0x80)
  | x :: vch' => negb (x =? 0) || CastToBool vch'
  end.

Definition IsCompressedOrUncompressedPubKey (vchPubKey : valtype) : bool :=
  if size vchPubKey <? 33 then false
  else if byte_at vchPubKey 0 =? 0x04 then size vchPubKey =? 65
  else if (byte_at vchPubKey 0 =? 0x02) || (byte_at vchPubKey 0 =? 0x03) then size vchPubKey =? 33
  else false.

Definition IsCompressedPubKey (vchPubKey : valtype) : bool :=
  if negb (size vchPubKey =? 33) then false
  else if negb (byte_at vchPubKey 0 =? 0x02) && negb (byte_at vchPubKey 0 =? 0x03) then false
  else true.

Definition IsValidSignatureEncoding (sig : bytes) : bool :=
  let at_ (i : Z) := byte_at sig (Z.to_nat i) in
  if size sig <? 9 then false
  else if 73 <? size sig then false
  else if negb (at_ 0 =? 0x30) then false
  else if negb (at_ 1 =? size sig - 3) then false
  else
    let lenR := at_ 3 in
    if size sig <=? 5 + lenR then false
    else
      let lenS := at_ (5 + lenR) in
      if negb (lenR + lenS + 7 =? size sig) then false
      else if negb (at_ 2 =? 0x02) then false
      else if lenR =? 0 then false
      else if negb (Z.land (at_ 4) 0x80 =? 0) then false
      else if (1 <? lenR) && (at_ 4 =? 0) && (Z.land (at_ 5) 0x80 =? 0) then false
      else if negb (at_ (lenR + 4) =? 0x02) then false
      else if lenS =? 0 then false
      else if negb (Z.land (at_ (lenR + 6)) 0x80 =? 0) then false
      else if (1 <? lenS) && (at_ (lenR + 6) =? 0) && (Z.land (at_ (lenR + 7)) 0x80 =? 0) then false
      else true.

Definition IsDefinedHashtypeSignature (vchSig : valtype) : bool :=
  if size vchSig =? 0 then false
  else
    let nHashType := Z.ldiff (byte_at vchSig (length vchSig - 1)) SIGHASH_ANYONECANPAY in
    negb ((nHashType <? SIGHASH_ALL) || (SIGHASH_SINGLE <? nHashType)).

Definition CheckMinimalPush (data : valtype) (opcode : Z) : bool :=
  if size data =? 0 then opcode =? OP_0
  else if (size data =? 1) && (1 <=? byte_at data 0) && (byte_at data 0 <=? 16) then
    opcode =? OP_1 + (byte_at data 0 - 1)
  else if (size data =? 1) && (byte_at data 0 =? 0x81) then opcode =? OP_1NEGATE
  else if size data <=? 75 then opcode =? size data
  else if size data <=? 255 then opcode =? OP_PUSHDATA1
  else if size data <=? 65535 then opcode =? OP_PUSHDATA2
  else true.

Section Encodings.
(** [CPubKey::CheckLowS] *)
Context (CheckLowS : bytes → bool).

Definition IsLowDERSignature (vchSig : valtype) : outcome unit :=
  if negb (IsValidSignatureEncoding vchSig) then Err SCRIPT_ERR_SIG_DER
  else if negb (CheckLowS (take (length vchSig - 1) vchSig)) then Err SCRIPT_ERR_SIG_HIGH_S
  else Ok tt.

Definition CheckSignatureEncoding (vchSig : valtype) (flags : Z) : outcome unit :=
  if size vchSig =? 0 then Ok tt
  else if (has flags SCRIPT_VERIFY_DERSIG || has flags SCRIPT_VERIFY_LOW_S || has flags SCRIPT_VERIFY_STRICTENC) &&
          negb (IsValidSignatureEncoding vchSig) then Err SCRIPT_ERR_SIG_DER
  else
    let! _ := if has flags SCRIPT_VERIFY_LOW_S then IsLowDERSignature vchSig else Ok tt in
    if has flags SCRIPT_VERIFY_STRICTENC && negb (IsDefinedHashtypeSignature vchSig) then Err SCRIPT_ERR_SIG_HASHTYPE
    else Ok tt.

Definition CheckPubKeyEncoding (vchPubKey : valtype) (flags : Z) (sigversion : SigVersion) : outcome unit :=
  if has flags SCRIPT_VERIFY_STRICTENC && negb (IsCompressedOrUncompressedPubKey vchPubKey) then Err SCRIPT_ERR_PUBKEYTYPE
  else if has flags SCRIPT_VERIFY_WITNESS_PUBKEYTYPE && negb (is_base sigversion) &&
          negb (IsCompressedPubKey vchPubKey) then Err SCRIPT_ERR_WITNESS_PUBKEYTYPE
  else Ok tt.
End Encodings.

(** * The machine *)

(** The local variables of [EvalScript] that its loop updates. *)
Record machine := mkMachine {
  stack : list valtype; altstack : list valtype; vfExec : list bool; nOpCount : Z; pbegincodehash : bytes }.

Definition with_stack (m : machine) (s : list valtype) : machine :=
  mkMachine s (altstack m) (vfExec m) (nOpCount m) (pbegincodehash m).
Definition with_altstack (m : machine) (s : list valtype) : machine :=
  mkMachine (stack m) s (vfExec m) (nOpCount m) (pbegincodehash m).
Definition with_vfExec (m : machine) (v : list bool) : machine :=
  mkMachine (stack m) (altstack m) v (nOpCount m) (pbegincodehash m).
Definition with_nOpCount (m : machine) (n : Z) : machine :=
  mkMachine (stack m) (altstack m) (vfExec m) n (pbegincodehash m).

Definition vchFalse : valtype := [].
Definition vchTrue : valtype := [1].
Definition of_bool (b : bool) : valtype := if b then vchTrue else vchFalse.

(** [stacktop(-i)] is [stack.at(stack.size() - i)]. *)
Definition stacktop (s : list valtype) (i : Z) : outcome valtype :=
  match s !! Z.to_nat (i - 1) with Some v => Ok v | None => Throw out_of_range end.
Definition popstack (s : list valtype) : outcome (list valtype) :=
  match s with [] => Throw popstack_empty | _ :: s' => Ok s' end.
(** [swap(stacktop(-i), stacktop(-j))] *)
Definition swap_top (s : list valtype) (i j : Z) : outcome (list valtype) :=
  let! a := stacktop s i in
  let! b := stacktop s j in
  Ok (upd (Z.to_nat (i - 1)) b (upd (Z.to_nat (j - 1)) a s)).
(** [erase(end() - i, end() - j)] *)
Definition erase_top (s : list valtype) (i j : nat) : list valtype := take j s ++ drop i s.

Definition num (vch : valtype) (fRequireMinimal : bool) (max : Z) : outcome Z :=
  match CScriptNum vch fRequireMinimal max with Some n => Ok n | None => Throw scriptnum_error end.

Section Interpreter.
(** The buffers of hash objects are not initialised; [CheckLowS] is of [CPubKey]. *)
Context (mem : bytes) (CheckLowS : bytes → bool).
Context (flags : Z) (checker : BaseSignatureChecker) (sigversion : SigVersion).

Definition fRequireMinimal : bool := has flags SCRIPT_VERIFY_MINIMALDATA.
Abbreviation guard b e k := (if b then Err e else k).

(** ** Constants and control *)

Definition op_number (opcode : Z) (m : machine) : outcome machine :=
  Ok (with_stack m (serialize (opcode - (OP_1 - 1)) :: stack m)).

Definition op_nop_discouraged (m : machine) : outcome machine :=
  guard (has flags SCRIPT_VERIFY_DISCOURAGE_UPGRADABLE_NOPS) SCRIPT_ERR_DISCOURAGE_UPGRADABLE_NOPS (Ok m).

Definition op_checklocktimeverify (m : machine) : outcome machine :=
  if negb (has flags SCRIPT_VERIFY_CHECKLOCKTIMEVERIFY) then op_nop_discouraged m
  else guard (size (stack m) <? 1) SCRIPT_ERR_INVALID_STACK_OPERATION (
    let! v := stacktop (stack m) 1 in
    let! nLockTime := num v fRequireMinimal 5 in
    guard (nLockTime <? 0) SCRIPT_ERR_NEGATIVE_LOCKTIME (
    guard (negb (CheckLockTime checker nLockTime)) SCRIPT_ERR_UNSATISFIED_LOCKTIME (Ok m))).

Definition op_checksequenceverify (m : machine) : outcome machine :=
  if negb (has flags SCRIPT_VERIFY_CHECKSEQUENCEVERIFY) then op_nop_discouraged m
  else guard (size (stack m) <? 1) SCRIPT_ERR_INVALID_STACK_OPERATION (
    let! v := stacktop (stack m) 1 in
    let! nSequence := num v fRequireMinimal 5 in
    guard (nSequence <? 0) SCRIPT_ERR_NEGATIVE_LOCKTIME (
    if negb (Z.land nSequence SEQUENCE_LOCKTIME_DISABLE_FLAG =? 0) then Ok m
    else guard (negb (CheckSequence checker nSequence)) SCRIPT_ERR_UNSATISFIED_LOCKTIME (Ok m))).

Definition op_if (fExec : bool) (opcode : Z) (m : machine) : outcome machine :=
  if fExec then
    guard (size (stack m) <? 1) SCRIPT_ERR_UNBALANCED_CONDITIONAL (
    let! vch := stacktop (stack m) 1 in
    let strict := negb (is_base sigversion) && has flags SCRIPT_VERIFY_MINIMALIF in
    guard (strict && (1 <? size vch)) SCRIPT_ERR_MINIMALIF (
    guard (strict && (size vch =? 1) && negb (byte_at vch 0 =? 1)) SCRIPT_ERR_MINIMALIF (
    let fValue := CastToBool vch in
    let fValue := if opcode =? OP_NOTIF then negb fValue else fValue in
    let! s := popstack (stack m) in
    Ok (with_vfExec (with_stack m s) (fValue :: vfExec m)))))
  else Ok (with_vfExec m (false :: vfExec m)).

Definition op_else (m : machine) : outcome machine :=
  match vfExec m with
  | [] => Err SCRIPT_ERR_UNBALANCED_CONDITIONAL
  | b :: v => Ok (with_vfExec m (negb b :: v))
  end.

Definition op_endif (m : machine) : outcome machine :=
  match vfExec m with
  | [] => Err SCRIPT_ERR_UNBALANCED_CONDITIONAL
  | _ :: v => Ok (with_vfExec m v)
  end.

Definition op_verify (m : machine) : outcome machine :=
  guard (size (stack m) <? 1) SCRIPT_ERR_INVALID_STACK_OPERATION (
  let! v := stacktop (stack m) 1 in
  if CastToBool v then let! s := popstack (stack m) in Ok (with_stack m s) else Err SCRIPT_ERR_VERIFY).

(** ** Stack operations *)

Definition op_toaltstack (m : machine) : outcome machine :=
  guard (size (stack m) <? 1) SCRIPT_ERR_INVALID_STACK_OPERATION (
  let! v := stacktop (stack m) 1 in
  let! s := popstack (stack m) in
  Ok (with_stack (with_altstack m (v :: altstack m)) s)).

Definition op_fromaltstack (m : machine) : outcome machine :=
  guard (size (altstack m) <? 1) SCRIPT_ERR_INVALID_ALTSTACK_OPERATION (
  let! v := stacktop (altstack m) 1 in
  let! s := popstack (altstack m) in
  Ok (with_altstack (with_stack m (v :: stack m)) s)).

Definition op_2drop (m : machine) : outcome machine :=
  guard (size (stack m) <? 2) SCRIPT_ERR_INVALID_STACK_OPERATION (
  let! s := popstack (stack m) in let! s := popstack s in Ok (with_stack m s)).

Definition op_2dup (m : machine) : outcome machine :=
  guard (size (stack m) <? 2) SCRIPT_ERR_INVALID_STACK_OPERATION (
  let! vch1 := stacktop (stack m) 2 in let! vch2 := stacktop (stack m) 1 in
  Ok (with_stack m (vch2 :: vch1 :: stack m))).

Definition op_3dup (m : machine) : outcome machine :=
  guard (size (stack m) <? 3) SCRIPT_ERR_INVALID_STACK_OPERATION (
  let! vch1 := stacktop (stack m) 3 in let! vch2 := stacktop (stack m) 2 in let! vch3 := stacktop (stack m) 1 in
  Ok (with_stack m (vch3 :: vch2 :: vch1 :: stack m))).

Definition op_2over (m : machine) : outcome machine :=
  guard (size (stack m) <? 4) SCRIPT_ERR_INVALID_STACK_OPERATION (
  let! vch1 := stacktop (stack m) 4 in let! vch2 := stacktop (stack m) 3 in
  Ok (with_stack m (vch2 :: vch1 :: stack m))).

Definition op_2rot (m : machine) : outcome machine :=
  guard (size (stack m) <? 6) SCRIPT_ERR_INVALID_STACK_OPERATION (
  let! vch1 := stacktop (stack m) 6 in let! vch2 := stacktop (stack m) 5 in
  Ok (with_stack m (vch2 :: vch1 :: erase_top (stack m) 6 4))).

Definition op_2swap (m : machine) : outcome machine :=
  guard (size (stack m) <? 4) SCRIPT_ERR_INVALID_STACK_OPERATION (
  let! s := swap_top (stack m) 4 2 in let! s := swap_top s 3 1 in Ok (with_stack m s)).

Definition op_ifdup (m : machine) : outcome machine :=
  guard (size (stack m) <? 1) SCRIPT_ERR_INVALID_STACK_OPERATION (
  let! vch := stacktop (stack m) 1 in
  Ok (if CastToBool vch then with_stack m (vch :: stack m) else m)).

Definition op_depth (m : machine) : outcome machine :=
  Ok (with_stack m (serialize (size (stack m)) :: stack m)).

Definition op_drop (m : machine) : outcome machine :=
  guard (size (stack m) <? 1) SCRIPT_ERR_INVALID_STACK_OPERATION (
  let! s := popstack (stack m) in Ok (with_stack m s)).

Definition op_dup (m : machine) : outcome machine :=
  guard (size (stack m) <? 1) SCRIPT_ERR_INVALID_STACK_OPERATION (
  let! vch := stacktop (stack m) 1 in Ok (with_stack m (vch :: stack m))).

Definition op_nip (m : machine) : outcome machine :=
  guard (size (stack m) <? 2) SCRIPT_ERR_INVALID_STACK_OPERATION (Ok (with_stack m (erase_top (stack m) 2 1))).

Definition op_over (m : machine) : outcome machine :=
  guard (size (stack m) <? 2) SCRIPT_ERR_INVALID_STACK_OPERATION (
  let! vch := stacktop (stack m) 2 in Ok (with_stack m (vch :: stack m))).

Definition op_pick_roll (opcode : Z) (m : machine) : outcome machine :=
  guard (size (stack m) <? 2) SCRIPT_ERR_INVALID_STACK_OPERATION (
  let! v := stacktop (stack m) 1 in
  let! bn := num v fRequireMinimal nDefaultMaxNumSize in
  let n := getint bn in
  let! s := popstack (stack m) in
  guard ((n <? 0) || (size s <=? n)) SCRIPT_ERR_INVALID_STACK_OPERATION (
  let! vch := stacktop s (n + 1) in
  let s := if opcode =? OP_ROLL then erase_top s (Z.to_nat (n + 1)) (Z.to_nat n) else s in
  Ok (with_stack m (vch :: s)))).

Definition op_rot (m : machine) : outcome machine :=
  guard (size (stack m) <? 3) SCRIPT_ERR_INVALID_STACK_OPERATION (
  let! s := swap_top (stack m) 3 2 in let! s := swap_top s 2 1 in Ok (with_stack m s)).

Definition op_swap (m : machine) : outcome machine :=
  guard (size (stack m) <? 2) SCRIPT_ERR_INVALID_STACK_OPERATION (
  let! s := swap_top (stack m) 2 1 in Ok (with_stack m s)).

(** [insert(end() - 2, vch)] *)
Definition op_tuck (m : machine) : outcome machine :=
  guard (size (stack m) <? 2) SCRIPT_ERR_INVALID_STACK_OPERATION (
  let! vch := stacktop (stack m) 1 in
  Ok (with_stack m (take 2 (stack m) ++ vch :: drop 2 (stack m)))).

Definition op_size (m : machine) : outcome machine :=
  guard (size (stack m) <? 1) SCRIPT_ERR_INVALID_STACK_OPERATION (
  let! v := stacktop (stack m) 1 in Ok (with_stack m (serialize (size v) :: stack m))).

Definition op_equal (opcode : Z) (m : machine) : outcome machine :=
  guard (size (stack m) <? 2) SCRIPT_ERR_INVALID_STACK_OPERATION (
  let! vch1 := stacktop (stack m) 2 in
  let! vch2 := stacktop (stack m) 1 in
  let fEqual := bool_decide (vch1 = vch2) in
  let! s := popstack (stack m) in let! s := popstack s in
  let s := of_bool fEqual :: s in
  if opcode =? OP_EQUALVERIFY then
    if fEqual then let! s := popstack s in Ok (with_stack m s) else Err SCRIPT_ERR_EQUALVERIFY
  else Ok (with_stack m s)).

(** ** Numeric operations *)

Definition op_unary (opcode : Z) (m : machine) : outcome machine :=
  guard (size (stack m) <? 1) SCRIPT_ERR_INVALID_STACK_OPERATION (
  let! v := stacktop (stack m) 1 in
  let! bn := num v fRequireMinimal nDefaultMaxNumSize in
  let! bn :=
    (if opcode =? OP_1ADD then assert_some (num_add_assign bn 1)
     else if opcode =? OP_1SUB then assert_some (num_sub_assign bn 1)
     else if opcode =? OP_NEGATE then assert_some (num_neg bn)
     else if opcode =? OP_ABS then if bn <? 0 then assert_some (num_neg bn) else Ok bn
     else if opcode =? OP_NOT then Ok (Z.b2z (bn =? 0))
     else if opcode =? OP_0NOTEQUAL then Ok (Z.b2z (negb (bn =? 0)))
     else Abort) in
  let! s := popstack (stack m) in
  Ok (with_stack m (serialize bn :: s))).

Definition op_binary (opcode : Z) (m : machine) : outcome machine :=
  guard (size (stack m) <? 2) SCRIPT_ERR_INVALID_STACK_OPERATION (
  let! v1 := stacktop (stack m) 2 in
  let! bn1 := num v1 fRequireMinimal nDefaultMaxNumSize in
  let! v2 := stacktop (stack m) 1 in
  let! bn2 := num v2 fRequireMinimal nDefaultMaxNumSize in
  let! bn :=
    (if opcode =? OP_ADD then Ok (num_add bn1 bn2)
     else if opcode =? OP_SUB then Ok (num_sub bn1 bn2)
     else if opcode =? OP_BOOLAND then Ok (Z.b2z (negb (bn1 =? 0) && negb (bn2 =? 0)))
     else if opcode =? OP_BOOLOR then Ok (Z.b2z (negb (bn1 =? 0) || negb (bn2 =? 0)))
     else if opcode =? OP_NUMEQUAL then Ok (Z.b2z (bn1 =? bn2))
     else if opcode =? OP_NUMEQUALVERIFY then Ok (Z.b2z (bn1 =? bn2))
     else if opcode =? OP_NUMNOTEQUAL then Ok (Z.b2z (negb (bn1 =? bn2)))
     else if opcode =? OP_LESSTHAN then Ok (Z.b2z (bn1 <? bn2))
     else if opcode =? OP_GREATERTHAN then Ok (Z.b2z (bn2 <? bn1))
     else if opcode =? OP_LESSTHANOREQUAL then Ok (Z.b2z (bn1 <=? bn2))
     else if opcode =? OP_GREATERTHANOREQUAL then Ok (Z.b2z (bn2 <=? bn1))
     else if opcode =? OP_MIN then Ok (if bn1 <? bn2 then bn1 else bn2)
     else if opcode =? OP_MAX then Ok (if bn2 <? bn1 then bn1 else bn2)
     else Abort) in
  let! s := popstack (stack m) in let! s := popstack s in
  let s := serialize bn :: s in
  if opcode =? OP_NUMEQUALVERIFY then
    let! top := stacktop s 1 in
    if CastToBool top then let! s := popstack s in Ok (with_stack m s) else Err SCRIPT_ERR_NUMEQUALVERIFY
  else Ok (with_stack m s)).

Definition op_within (m : machine) : outcome machine :=
  guard (size (stack m) <? 3) SCRIPT_ERR_INVALID_STACK_OPERATION (
  let! v1 := stacktop (stack m) 3 in
  let! bn1 := num v1 fRequireMinimal nDefaultMaxNumSize in
  let! v2 := stacktop (stack m) 2 in
  let! bn2 := num v2 fRequireMinimal nDefaultMaxNumSize in
  let! v3 := stacktop (stack m) 1 in
  let! bn3 := num v3 fRequireMinimal nDefaultMaxNumSize in
  let fValue := (bn2 <=? bn1) && (bn1 <? bn3) in
  let! s := popstack (stack m) in let! s := popstack s in let! s := popstack s in
  Ok (with_stack m (of_bool fValue :: s))).

(** ** Hashes and signatures *)

Definition hash_op (opcode : Z) (vch : valtype) : valtype :=
  if opcode =? OP_RIPEMD160 then CRIPEMD160_Finalize (CRIPEMD160_Write (CRIPEMD160_init mem) vch)
  else if opcode =? OP_SHA1 then CSHA1_Finalize (CSHA1_Write (CSHA1_init mem) vch)
  else if opcode =? OP_SHA256 then CSHA256_Finalize (CSHA256_Write (CSHA256_init mem) vch)
  else if opcode =? OP_HASH160 then CHash160_Finalize mem (CHash256_Write (CHash256_init mem) vch)
  else CHash256_Finalize (CHash256_Write (CHash256_init mem) vch).

Definition op_hash (opcode : Z) (m : machine) : outcome machine :=
  guard (size (stack m) <? 1) SCRIPT_ERR_INVALID_STACK_OPERATION (
  let! vch := stacktop (stack m) 1 in
  let vchHash := hash_op opcode vch in
  let! s := popstack (stack m) in
  Ok (with_stack m (vchHash :: s))).

Definition op_codeseparator (pc : bytes) (m : machine) : outcome machine :=
  Ok (mkMachine (stack m) (altstack m) (vfExec m) (nOpCount m) pc).

(** [scriptCode.FindAndDelete(CScript(vchSig))] in pre-segwit scripts. *)
Definition drop_signature (scriptCode : CScript) (vchSig : valtype) : CScript :=
  if is_base sigversion then (FindAndDelete scriptCode (push_data vchSig)).1 else scriptCode.

Definition op_checksig (opcode : Z) (m : machine) : outcome machine :=
  guard (size (stack m) <? 2) SCRIPT_ERR_INVALID_STACK_OPERATION (
  let! vchSig := stacktop (stack m) 2 in
  let! vchPubKey := stacktop (stack m) 1 in
  let scriptCode := drop_signature (pbegincodehash m) vchSig in
  let! _ := CheckSignatureEncoding CheckLowS vchSig flags in
  let! _ := CheckPubKeyEncoding vchPubKey flags sigversion in
  let fSuccess := CheckSig checker vchSig vchPubKey scriptCode sigversion in
  guard (negb fSuccess && has flags SCRIPT_VERIFY_NULLFAIL && negb (size vchSig =? 0)) SCRIPT_ERR_SIG_NULLFAIL (
  let! s := popstack (stack m) in let! s := popstack s in
  let s := of_bool fSuccess :: s in
  if opcode =? OP_CHECKSIGVERIFY then
    if fSuccess then let! s := popstack s in Ok (with_stack m s) else Err SCRIPT_ERR_CHECKSIGVERIFY
  else Ok (with_stack m s))).

(** [while (fSuccess && nSigsCount > 0)]: every turn uses up one key. *)
Fixpoint multisig_loop (fuel : nat) (s : list valtype) (scriptCode : CScript)
    (isig ikey nSigsCount nKeysCount : Z) : outcome bool :=
  if nSigsCount <=? 0 then Ok true
  else
    match fuel with
    | O => Abort
    | S fuel' =>
        let! vchSig := stacktop s isig in
        let! vchPubKey := stacktop s ikey in
        let! _ := CheckSignatureEncoding CheckLowS vchSig flags in
        let! _ := CheckPubKeyEncoding vchPubKey flags sigversion in
        let fOk := CheckSig checker vchSig vchPubKey scriptCode sigversion in
        let isig := if fOk then isig + 1 else isig in
        let nSigsCount := if fOk then nSigsCount - 1 else nSigsCount in
        if nKeysCount - 1 <? nSigsCount then Ok false
        else multisig_loop fuel' s scriptCode isig (ikey + 1) nSigsCount (nKeysCount - 1)
    end.

(** The loop that drops the signatures from the script. *)
Fixpoint drop_signatures (n : nat) (s : list valtype) (isig : Z) (scriptCode : CScript) : outcome CScript :=
  match n with
  | O => Ok scriptCode
  | S n' =>
      let! vchSig := stacktop s isig in
      drop_signatures n' s (isig + 1) (drop_signature scriptCode vchSig)
  end.

(** [while (i-- > 1)] *)
Fixpoint cleanup (n : nat) (fSuccess : bool) (ikey2 : Z) (s : list valtype) : outcome (list valtype) :=
  match n with
  | O => Ok s
  | S n' =>
      let! bad := (if negb fSuccess && has flags SCRIPT_VERIFY_NULLFAIL && (ikey2 =? 0)
                   then let! top := stacktop s 1 in Ok (negb (size top =? 0)) else Ok false) in
      guard bad SCRIPT_ERR_SIG_NULLFAIL (
      let ikey2 := if 0 <? ikey2 then ikey2 - 1 else ikey2 in
      let! s := popstack s in
      cleanup n' fSuccess ikey2 s)
  end.

Definition op_checkmultisig (opcode : Z) (m : machine) : outcome machine :=
  let s := stack m in
  guard (size s <? 1) SCRIPT_ERR_INVALID_STACK_OPERATION (
  let! v := stacktop s 1 in
  let! bn := num v fRequireMinimal nDefaultMaxNumSize in
  let nKeysCount := getint bn in
  guard ((nKeysCount <? 0) || (MAX_PUBKEYS_PER_MULTISIG <? nKeysCount)) SCRIPT_ERR_PUBKEY_COUNT (
  let m := with_nOpCount m (nOpCount m + nKeysCount) in
  guard (MAX_OPS_PER_SCRIPT <? nOpCount m) SCRIPT_ERR_OP_COUNT (
  let ikey := 2 in
  let ikey2 := nKeysCount + 2 in
  let i := 2 + nKeysCount in
  guard (size s <? i) SCRIPT_ERR_INVALID_STACK_OPERATION (
  let! v := stacktop s i in
  let! bn := num v fRequireMinimal nDefaultMaxNumSize in
  let nSigsCount := getint bn in
  guard ((nSigsCount <? 0) || (nKeysCount <? nSigsCount)) SCRIPT_ERR_SIG_COUNT (
  let isig := i + 1 in
  let i := i + 1 + nSigsCount in
  guard (size s <? i) SCRIPT_ERR_INVALID_STACK_OPERATION (
  let! scriptCode := drop_signatures (Z.to_nat nSigsCount) s isig (pbegincodehash m) in
  let! fSuccess := multisig_loop (Z.to_nat nKeysCount) s scriptCode isig ikey nSigsCount nKeysCount in
  let! s := cleanup (Z.to_nat (i - 1)) fSuccess ikey2 s in
  guard (size s <? 1) SCRIPT_ERR_INVALID_STACK_OPERATION (
  let! dummy := stacktop s 1 in
  guard (has flags SCRIPT_VERIFY_NULLDUMMY && negb (size dummy =? 0)) SCRIPT_ERR_SIG_NULLDUMMY (
  let! s := popstack s in
  let s := of_bool fSuccess :: s in
  if opcode =? OP_CHECKMULTISIGVERIFY then
    if fSuccess then let! s := popstack s in Ok (with_stack m s) else Err SCRIPT_ERR_CHECKMULTISIGVERIFY
  else Ok (with_stack m s))))))))).

(** ** The switch *)

Definition one_of (opcode : Z) (l : list Z) : bool := existsb (Z.eqb opcode) l.

Definition exec_opcode (fExec : bool) (opcode : Z) (pc : bytes) (m : machine) : outcome machine :=
  if (opcode =? OP_1NEGATE) || ((OP_1 <=? opcode) && (opcode <=? OP_16)) then op_number opcode m
  else if opcode =? OP_NOP then Ok m
  else if opcode =? OP_CHECKLOCKTIMEVERIFY then op_checklocktimeverify m
  else if opcode =? OP_CHECKSEQUENCEVERIFY then op_checksequenceverify m
  else if one_of opcode [OP_NOP1; OP_NOP4; OP_NOP5; OP_NOP6; OP_NOP7; OP_NOP8; OP_NOP9; OP_NOP10] then op_nop_discouraged m
  else if one_of opcode [OP_IF; OP_NOTIF] then op_if fExec opcode m
  else if opcode =? OP_ELSE then op_else m
  else if opcode =? OP_ENDIF then op_endif m
  else if opcode =? OP_VERIFY then op_verify m
  else if opcode =? OP_RETURN then Err SCRIPT_ERR_OP_RETURN
  else if opcode =? OP_TOALTSTACK then op_toaltstack m
  else if opcode =? OP_FROMALTSTACK then op_fromaltstack m
  else if opcode =? OP_2DROP then op_2drop m
  else if opcode =? OP_2DUP then op_2dup m
  else if opcode =? OP_3DUP then op_3dup m
  else if opcode =? OP_2OVER then op_2over m
  else if opcode =? OP_2ROT then op_2rot m
  else if opcode =? OP_2SWAP then op_2swap m
  else if opcode =? OP_IFDUP then op_ifdup m
  else if opcode =? OP_DEPTH then op_depth m
  else if opcode =? OP_DROP then op_drop m
  else if opcode =? OP_DUP then op_dup m
  else if opcode =? OP_NIP then op_nip m
  else if opcode =? OP_OVER then op_over m
  else if one_of opcode [OP_PICK; OP_ROLL] then op_pick_roll opcode m
  else if opcode =? OP_ROT then op_rot m
  else if opcode =? OP_SWAP then op_swap m
  else if opcode =? OP_TUCK then op_tuck m
  else if opcode =? OP_SIZE then op_size m
  else if one_of opcode [OP_EQUAL; OP_EQUALVERIFY] then op_equal opcode m
  else if one_of opcode [OP_1ADD; OP_1SUB; OP_NEGATE; OP_ABS; OP_NOT; OP_0NOTEQUAL] then op_unary opcode m
  else if one_of opcode [OP_ADD; OP_SUB; OP_BOOLAND; OP_BOOLOR; OP_NUMEQUAL; OP_NUMEQUALVERIFY; OP_NUMNOTEQUAL;
                         OP_LESSTHAN; OP_GREATERTHAN; OP_LESSTHANOREQUAL; OP_GREATERTHANOREQUAL; OP_MIN; OP_MAX]
       then op_binary opcode m
  else if opcode =? OP_WITHIN then op_within m
  else if one_of opcode [OP_RIPEMD160; OP_SHA1; OP_SHA256; OP_HASH160; OP_HASH256] then op_hash opcode m
  else if opcode =? OP_CODESEPARATOR then op_codeseparator pc m
  else if one_of opcode [OP_CHECKSIG; OP_CHECKSIGVERIFY] then op_checksig opcode m
  else if one_of opcode [OP_CHECKMULTISIG; OP_CHECKMULTISIGVERIFY] then op_checkmultisig opcode m
  else if opcode =? OP_cmusicai_ASSET then Ok m
  else Err SCRIPT_ERR_BAD_OPCODE.

(** ** The loop *)

Definition is_disabled (opcode : Z) : bool :=
  one_of opcode [OP_CAT; OP_SUBSTR; OP_LEFT; OP_RIGHT; OP_INVERT; OP_AND; OP_OR; OP_XOR; OP_2MUL; OP_2DIV;
                 OP_MUL; OP_DIV; OP_MOD; OP_LSHIFT; OP_RSHIFT].

(** The turn of the loop for an instruction that has been read. *)
Definition exec_instruction (opcode : Z) (vchPushValue : valtype) (pc : bytes) (m : machine) : outcome machine :=
  let fExec := forallb id (vfExec m) in
  guard (MAX_SCRIPT_ELEMENT_SIZE <? size vchPushValue) SCRIPT_ERR_PUSH_SIZE (
  let m := if OP_16 <? opcode then with_nOpCount m (nOpCount m + 1) else m in
  guard ((OP_16 <? opcode) && (MAX_OPS_PER_SCRIPT <? nOpCount m)) SCRIPT_ERR_OP_COUNT (
  guard (is_disabled opcode) SCRIPT_ERR_DISABLED_OPCODE (
  let! m :=
    (if fExec && (0 <=? opcode) && (opcode <=? OP_PUSHDATA4) then
       guard (fRequireMinimal && negb (CheckMinimalPush vchPushValue opcode)) SCRIPT_ERR_MINIMALDATA (
       Ok (with_stack m (vchPushValue :: stack m)))
     else if fExec || ((OP_IF <=? opcode) && (opcode <=? OP_ENDIF)) then exec_opcode fExec opcode pc m
     else Ok m) in
  guard (MAX_STACK_SIZE <? size (stack m) + size (altstack m)) SCRIPT_ERR_STACK_SIZE (Ok m)))).

Fixpoint EvalScript_loop (fuel : nat) (pc : bytes) (m : machine) : outcome machine :=
  match pc with
  | [] => Ok m
  | _ =>
      match fuel with
      | O => Abort
      | S fuel' =>
          let '(ok, pc', opcode, vchPushValue) := GetOp pc in
          if negb ok then Err SCRIPT_ERR_BAD_OPCODE
          else let! m := exec_instruction opcode vchPushValue pc' m in EvalScript_loop fuel' pc' m
      end
  end.

(** [catch (...)] *)
Definition catch {A} (o : outcome A) : outcome A :=
  match o with Throw _ => Err SCRIPT_ERR_UNKNOWN_ERROR | _ => o end.

(** The stack that a successful evaluation leaves; on an error the caller does not
    look at it. *)
Definition EvalScript (s : list valtype) (script : CScript) : outcome (list valtype) :=
  guard (MAX_SCRIPT_SIZE <? size script) SCRIPT_ERR_SCRIPT_SIZE (
  let! m := catch (EvalScript_loop (length script) script (mkMachine s [] [] 0 script)) in
  match vfExec m with
  | [] => Ok (stack m)
  | _ => Err SCRIPT_ERR_UNBALANCED_CONDITIONAL
  end).
End Interpreter.
