(* ===== verification/ScriptLimits.v ===== *)
(** The limits of the script interpreter: no evaluation reads outside a stack,
    fails an assertion or exceeds the bounds on the number and size of elements
    and on the number of operations. *)
From stdpp Require Import base list option.
From Stdlib Require Import ZArith Lia.
From S2P Require Import Prelude ArithUint256 Serialize Chain Transaction HashStream Sha256 Sha1 Ripemd160 Hash.
From S2P Require Import Script Interpreter.
Open Scope Z_scope.

Create HintDb limits.

(** * Safe outcomes *)

(** What an outcome may be where nothing but reading a number throws, no access
    is out of range and no assertion fails. *)
Definition safe {A} (P : A → Prop) (o : outcome A) : Prop :=
  match o with Ok a => P a | Err _ => True | Throw x => x = scriptnum_error | Abort => False end.

Lemma safe_bind {A B} (P : A → Prop) (Q : B → Prop) m f :
  safe P m → (∀ a, P a → safe Q (f a)) → safe Q (obind m f).
Proof. destruct m; cbn; auto. Qed.

Lemma safe_impl {A} (P Q : A → Prop) o : safe P o → (∀ a, P a → Q a) → safe Q o.
Proof. destruct o; cbn; auto. Qed.

Lemma safe_guard {A} (Q : A → Prop) (b : bool) e o : (b = false → safe Q o) → safe Q (if b then Err e else o).
Proof. destruct b; cbn; auto. Qed.

Definition elem_ok (v : valtype) : Prop := is_bytes v ∧ size v ≤ MAX_SCRIPT_ELEMENT_SIZE.
Definition stack_ok (s : list valtype) : Prop := Forall elem_ok s.

Lemma stack_ok_cons v s : stack_ok (v :: s) ↔ elem_ok v ∧ stack_ok s.
Proof. apply Forall_cons_iff. Qed.

Lemma size_cons {A} (x : A) l : size (x :: l) = size l + 1.
Proof. unfold size. cbn [length]. lia. Qed.

Lemma safe_stacktop s i : stack_ok s → 1 ≤ i ≤ size s → safe elem_ok (stacktop s i).
Proof.
  intros Hs Hi. unfold stacktop, size in *. destruct (s !! Z.to_nat (i - 1)) as [v|] eqn:E.
  - cbn. by eapply Forall_lookup_1.
  - apply lookup_ge_None in E. lia.
Qed.

Lemma stacktop_1 v s : stacktop (v :: s) 1 = Ok v.
Proof. done. Qed.

Lemma safe_popstack s : stack_ok s → 1 ≤ size s →
  safe (λ s', stack_ok s' ∧ size s' = size s - 1) (popstack s).
Proof.
  intros Hs Hi. destruct s as [|v s]; [done|]. cbn. apply stack_ok_cons in Hs as [_ Hs]. rewrite size_cons. split; [done|lia].
Qed.

Lemma stack_ok_upd i v s : elem_ok v → stack_ok s → stack_ok (upd i v s).
Proof.
  intros Hv Hs. revert i. induction Hs as [|x s Hx Hs IH]; intros [|i]; cbn [upd]; [constructor..| |];
    apply stack_ok_cons; split; auto.
Qed.

Lemma safe_swap_top s i j : stack_ok s → 1 ≤ i ≤ size s → 1 ≤ j ≤ size s →
  safe (λ s', stack_ok s' ∧ size s' = size s) (swap_top s i j).
Proof.
  intros Hs Hi Hj. unfold swap_top. eapply safe_bind; [by apply safe_stacktop|]. intros a Ha.
  eapply safe_bind; [by apply safe_stacktop|]. intros b Hb. cbn.
  split; [by repeat apply stack_ok_upd|]. unfold size. by rewrite !length_upd.
Qed.

Lemma erase_top_ok s i j : stack_ok s → (j ≤ i)%nat → (i ≤ length s)%nat →
  stack_ok (erase_top s i j) ∧ size (erase_top s i j) = size s - Z.of_nat (i - j).
Proof.
  intros Hs Hij Hi. unfold erase_top. split.
  - apply Forall_app. split; [by apply Forall_take|by apply Forall_drop].
  - unfold size. rewrite length_app, length_take, length_drop. lia.
Qed.

Lemma safe_num v req max : elem_ok v → 1 ≤ max ≤ 8 → safe (λ n, Z.abs n < 2 ^ (8 * max - 1)) (num v req max).
Proof.
  intros [Hv _] Hm. unfold num. destruct (CScriptNum v req max) as [n|] eqn:E; cbn; [|done].
  by eapply CScriptNum_range.
Qed.

(** Numbers that operations produce fit an element. *)
Lemma serialize_ok n : Z.abs n < 2 ^ 63 → elem_ok (serialize n).
Proof.
  intros Hn. destruct (Z.eq_dec n 0) as [->|Hn0]; [split; [constructor|done]|].
  destruct (serialize_encode n Hn0 Hn) as (l & Hm & Hne & -> & _ & Hv).
  destruct (sm_decode (n <? 0) l Hm Hne ltac:(lia)) as (Hb & _ & _). split; [done|].
  pose proof (proj2 (sm_encode_size (n <? 0) l 8 Hm Hne ltac:(lia))) as H. change (2 ^ (8 * 8 - 1)) with (2 ^ 63) in H. lia.
Qed.

Lemma of_bool_ok b : elem_ok (of_bool b).
Proof. destruct b; split; cbn; try done; repeat constructor; lia. Qed.

Lemma getint_id n : - 2 ^ 31 ≤ n < 2 ^ 31 → getint n = n.
Proof. intros Hn. unfold getint. by rewrite (proj2 (Z.ltb_ge _ _)), (proj2 (Z.ltb_ge _ _)) by lia. Qed.

(** * The operations *)

Section Limits.
Context (mem : bytes) (Hmem : length mem = 64%nat) (CheckLowS : bytes → bool).
Context (flags : Z) (checker : BaseSignatureChecker) (sigversion : SigVersion).

Record machine_ok (m : machine) : Prop := {
  ok_stack : stack_ok (stack m);
  ok_altstack : stack_ok (altstack m);
  ok_size : size (stack m) + size (altstack m) ≤ MAX_STACK_SIZE;
  ok_count : 0 ≤ nOpCount m ≤ MAX_OPS_PER_SCRIPT }.

(** After an operation, before the test of the stack size. *)
Record step_ok (m' : machine) : Prop := {
  st_stack : stack_ok (stack m');
  st_altstack : stack_ok (altstack m');
  st_count : 0 ≤ nOpCount m' ≤ MAX_OPS_PER_SCRIPT }.

Ltac side := first [done | lia | apply of_bool_ok | apply serialize_ok; lia | idtac].

Ltac safe_step :=
  lazymatch goal with
  | |- safe _ (if ?b then Err _ else _) =>
      apply safe_guard; let H := fresh "Hg" in intros H;
      rewrite ?orb_false_iff, ?andb_false_iff, ?Z.ltb_ge, ?Z.leb_gt in H
  | |- safe _ (obind (stacktop _ _) _) => eapply safe_bind; [apply safe_stacktop; side|]; intros ? ?; cbv beta
  | |- safe _ (obind (popstack _) _) => eapply safe_bind; [apply safe_popstack; side|]; intros ? [? ?]; cbv beta
  | |- safe _ (obind (swap_top _ _ _) _) => eapply safe_bind; [apply safe_swap_top; side|]; intros ? [? ?]; cbv beta
  | |- safe _ (obind (num _ _ _) _) => eapply safe_bind; [apply safe_num; [side|unfold nDefaultMaxNumSize; lia]|];
      let x := fresh "bn" in let H := fresh "Hbn" in intros x H; cbv beta in H |- *
  end.

Ltac start m := intros [Hs Ha Hsz Hc]; destruct m as [s a v n p]; cbn [stack altstack vfExec nOpCount pbegincodehash with_stack with_altstack with_vfExec with_nOpCount] in *.
Ltac finish := cbn [safe]; split; cbn [stack altstack nOpCount with_stack with_altstack with_vfExec with_nOpCount]; rewrite ?stack_ok_cons; split_and?; side.

Ltac simple_op m := start m; repeat safe_step; finish.

Lemma safe_number opcode m : OP_1NEGATE ≤ opcode ≤ OP_16 → machine_ok m → safe step_ok (op_number opcode m).
Proof. intros Ho. unfold op_number. start m. finish. Qed.

Lemma safe_nop m : machine_ok m → safe step_ok (Ok m).
Proof. simple_op m. Qed.

Lemma safe_nop_discouraged m : machine_ok m → safe step_ok (op_nop_discouraged flags m).
Proof. unfold op_nop_discouraged. simple_op m. Qed.

Lemma safe_checklocktimeverify m : machine_ok m → safe step_ok (op_checklocktimeverify flags checker m).
Proof.
  intros Hm. unfold op_checklocktimeverify. destruct (negb _); [by apply safe_nop_discouraged|]. revert Hm. simple_op m.
Qed.

Lemma safe_checksequenceverify m : machine_ok m → safe step_ok (op_checksequenceverify flags checker m).
Proof.
  intros Hm. unfold op_checksequenceverify. destruct (negb _); [by apply safe_nop_discouraged|]. revert Hm.
  start m. repeat safe_step. destruct (negb _); [finish|]. repeat safe_step. finish.
Qed.

Lemma safe_if fExec opcode m : machine_ok m → safe step_ok (op_if flags sigversion fExec opcode m).
Proof. unfold op_if. destruct fExec; simple_op m. Qed.

Lemma safe_else m : machine_ok m → safe step_ok (op_else m).
Proof. unfold op_else. start m. destruct v; [done|finish]. Qed.

Lemma safe_endif m : machine_ok m → safe step_ok (op_endif m).
Proof. unfold op_endif. start m. destruct v; [done|finish]. Qed.

Lemma safe_verify m : machine_ok m → safe step_ok (op_verify m).
Proof. unfold op_verify. start m. repeat safe_step. destruct (CastToBool _); [|done]. repeat safe_step. finish. Qed.

Lemma safe_toaltstack m : machine_ok m → safe step_ok (op_toaltstack m).
Proof. unfold op_toaltstack. simple_op m. Qed.

Lemma safe_fromaltstack m : machine_ok m → safe step_ok (op_fromaltstack m).
Proof. unfold op_fromaltstack. simple_op m. Qed.

Lemma safe_2drop m : machine_ok m → safe step_ok (op_2drop m).
Proof. unfold op_2drop. simple_op m. Qed.

Lemma safe_2dup m : machine_ok m → safe step_ok (op_2dup m).
Proof. unfold op_2dup. simple_op m. Qed.

Lemma safe_3dup m : machine_ok m → safe step_ok (op_3dup m).
Proof. unfold op_3dup. simple_op m. Qed.

Lemma safe_2over m : machine_ok m → safe step_ok (op_2over m).
Proof. unfold op_2over. simple_op m. Qed.

Lemma safe_2rot m : machine_ok m → safe step_ok (op_2rot m).
Proof.
  unfold op_2rot. start m. repeat safe_step.
  destruct (erase_top_ok s 6 4); [done|lia|unfold size in *; lia|]. finish.
Qed.

Lemma safe_2swap m : machine_ok m → safe step_ok (op_2swap m).
Proof. unfold op_2swap. simple_op m. Qed.

Lemma safe_ifdup m : machine_ok m → safe step_ok (op_ifdup m).
Proof. unfold op_ifdup. start m. repeat safe_step. destruct (CastToBool _); finish. Qed.

Lemma safe_depth m : machine_ok m → safe step_ok (op_depth m).
Proof.
  unfold op_depth. start m. pose proof (size_nonneg a). pose proof (size_nonneg s). finish.
Qed.

Lemma safe_drop m : machine_ok m → safe step_ok (op_drop m).
Proof. unfold op_drop. simple_op m. Qed.

Lemma safe_dup m : machine_ok m → safe step_ok (op_dup m).
Proof. unfold op_dup. simple_op m. Qed.

Lemma safe_nip m : machine_ok m → safe step_ok (op_nip m).
Proof.
  unfold op_nip. start m. repeat safe_step.
  destruct (erase_top_ok s 2 1); [done|lia|unfold size in *; lia|]. finish.
Qed.

Lemma safe_over m : machine_ok m → safe step_ok (op_over m).
Proof. unfold op_over. simple_op m. Qed.

Lemma safe_pick_roll opcode m : machine_ok m → safe step_ok (op_pick_roll flags opcode m).
Proof.
  unfold op_pick_roll. start m. repeat safe_step. destruct (opcode =? OP_ROLL); [|finish].
  match goal with |- context [erase_top ?s ?i ?j] => destruct (erase_top_ok s i j) end;
    [done|lia|unfold size in *; lia|]. finish.
Qed.

Lemma safe_rot m : machine_ok m → safe step_ok (op_rot m).
Proof. unfold op_rot. simple_op m. Qed.

Lemma safe_swap m : machine_ok m → safe step_ok (op_swap m).
Proof. unfold op_swap. simple_op m. Qed.

Lemma safe_tuck m : machine_ok m → safe step_ok (op_tuck m).
Proof.
  unfold op_tuck. start m. repeat safe_step. finish. apply Forall_app. split; [by apply Forall_take|].
  apply stack_ok_cons. split; [done|by apply Forall_drop].
Qed.

Lemma safe_size m : machine_ok m → safe step_ok (op_size m).
Proof.
  unfold op_size. start m. repeat safe_step. match goal with H : elem_ok _ |- _ => pose proof (proj2 H) end.
  pose proof (size_nonneg a0). finish.
Qed.

Lemma safe_equal opcode m : machine_ok m → safe step_ok (op_equal opcode m).
Proof.
  unfold op_equal. start m. repeat safe_step. destruct (opcode =? _); [|finish].
  destruct (bool_decide _); [|done]. cbn [of_bool popstack obind]. finish.
Qed.

Lemma one_of_In opcode l : one_of opcode l = true ↔ In opcode l.
Proof.
  unfold one_of. rewrite existsb_exists. split; [intros (x & Hx & ->%Z.eqb_eq); done|].
  intros H. exists opcode. by rewrite Z.eqb_refl.
Qed.

(** An [if] chain over opcodes one of which is taken. *)
Ltac by_opcode := repeat match goal with
  | H : In ?o (_ :: _) |- _ => destruct H as [<-|H]
  | H : In _ [] |- _ => destruct H
  end; cbn [Z.eqb Pos.eqb Z.leb Z.compare Pos.compare Pos.compare_cont].

Lemma safe_unary opcode m : In opcode [OP_1ADD; OP_1SUB; OP_NEGATE; OP_ABS; OP_NOT; OP_0NOTEQUAL] → machine_ok m →
  safe step_ok (op_unary flags opcode m).
Proof.
  intros Ho. unfold op_unary. start m. repeat safe_step.
  eapply (safe_bind (λ n, Z.abs n < 2 ^ 63)); [|intros; repeat safe_step; finish].
  change (2 ^ (8 * nDefaultMaxNumSize - 1)) with (2 ^ 31) in *. unfold num_add_assign, num_sub_assign, num_neg. by_opcode.
  - rewrite (proj2 (Z.leb_le bn _)) by lia. cbn. lia.
  - rewrite (proj2 (Z.leb_le _ bn)) by lia. cbn. lia.
  - rewrite (proj2 (Z.eqb_neq _ _)) by lia. cbn. lia.
  - destruct (bn <? 0); [rewrite (proj2 (Z.eqb_neq _ _)) by lia|]; cbn; lia.
  - destruct (bn =? 0); cbn; lia.
  - destruct (bn =? 0); cbn; lia.
Qed.

Lemma b2z_small (b : bool) : Z.abs (Z.b2z b) < 2 ^ 63.
Proof. destruct b; cbn; lia. Qed.

Lemma safe_binary opcode m : In opcode [OP_ADD; OP_SUB; OP_BOOLAND; OP_BOOLOR; OP_NUMEQUAL; OP_NUMEQUALVERIFY;
    OP_NUMNOTEQUAL; OP_LESSTHAN; OP_GREATERTHAN; OP_LESSTHANOREQUAL; OP_GREATERTHANOREQUAL; OP_MIN; OP_MAX] →
  machine_ok m → safe step_ok (op_binary flags opcode m).
Proof.
  intros Ho. unfold op_binary. start m. repeat safe_step.
  eapply (safe_bind (λ n, Z.abs n < 2 ^ 63)).
  - change (2 ^ (8 * nDefaultMaxNumSize - 1)) with (2 ^ 31) in *. unfold num_add, num_sub. by_opcode; cbn [safe];
      try apply b2z_small; try (rewrite i64_small by (unfold is_i64; lia); lia);
      match goal with |- context [if ?b then _ else _] => destruct b end; lia.
  - intros b Hb. repeat safe_step. destruct (opcode =? _); [|finish].
    rewrite stacktop_1. cbn [obind popstack]. destruct (CastToBool _); [finish|done].
Qed.

Lemma safe_within m : machine_ok m → safe step_ok (op_within flags m).
Proof. unfold op_within. simple_op m. Qed.

Lemma elem_ok_digest d k : is_bytes d ∧ length d = k → (k ≤ 520)%nat → elem_ok d.
Proof. intros [Hd <-] Hk. split; [done|]. unfold size. lia. Qed.

Lemma CHash256_Write_eq sha d : CHash256_Write sha d = CSHA256_Write sha d.
Proof. reflexivity. Qed.

Lemma Hash160_eq m m' v : Hash160 m m' v = CHash160_Finalize m' (CSHA256_Write (CHash256_init m) v).
Proof. reflexivity. Qed.

(** The hash opcodes compute the standard functions. *)
Definition hash_std (opcode : Z) (v : valtype) : valtype :=
  if opcode =? OP_RIPEMD160 then ripemd160 v
  else if opcode =? OP_SHA1 then sha1 v
  else if opcode =? OP_SHA256 then sha256 v
  else if opcode =? OP_HASH160 then ripemd160 (sha256 v)
  else sha256 (sha256 v).

Lemma hash_op_std opcode v : hash_op mem opcode v = hash_std opcode v.
Proof using Hmem.
  assert (E1 := ripemd160_digest _ v (CRIPEMD160_Write_holds _ [] v (CRIPEMD160_init_holds mem Hmem))).
  assert (E2 := sha1_digest _ v (CSHA1_Write_holds _ [] v (CSHA1_init_holds mem Hmem))).
  assert (E3 := sha256_digest _ v (CSHA256_Write_holds _ [] v (CSHA256_init_holds mem Hmem))).
  assert (E4 := Hash160_spec mem mem v Hmem Hmem). rewrite Hash160_eq in E4.
  assert (E5 := CHash256_Finalize_holds _ v (CSHA256_Write_holds _ [] v (CSHA256_init_holds mem Hmem))).
  unfold hash_op, hash_std. rewrite (CHash256_Write_eq (CHash256_init mem) v).
  destruct (opcode =? OP_RIPEMD160); [exact E1|]. destruct (opcode =? OP_SHA1); [exact E2|].
  destruct (opcode =? OP_SHA256); [exact E3|]. destruct (opcode =? OP_HASH160); [exact E4|exact E5].
Qed.

Lemma hash_op_ok opcode v : elem_ok (hash_op mem opcode v).
Proof using Hmem.
  rewrite hash_op_std. unfold hash_std.
  destruct (opcode =? OP_RIPEMD160); [apply (elem_ok_digest _ 20 (ripemd160_bytes v)); lia|].
  destruct (opcode =? OP_SHA1); [apply (elem_ok_digest _ 20 (sha1_bytes v)); lia|].
  destruct (opcode =? OP_SHA256); [apply (elem_ok_digest _ 32 (sha256_bytes v)); lia|].
  destruct (opcode =? OP_HASH160); [apply (elem_ok_digest _ 20 (ripemd160_bytes (sha256 v))); lia|].
  apply (elem_ok_digest _ 32 (sha256_bytes (sha256 v))). lia.
Qed.

Lemma safe_hash opcode m : machine_ok m → safe step_ok (op_hash mem opcode m).
Proof using Hmem. unfold op_hash. start m. repeat safe_step. finish. apply hash_op_ok. Qed.

Lemma safe_codeseparator pc m : machine_ok m → safe step_ok (op_codeseparator pc m).
Proof. unfold op_codeseparator. simple_op m. Qed.

Lemma safe_CheckSignatureEncoding v : safe (λ _, True) (CheckSignatureEncoding CheckLowS v flags).
Proof. unfold CheckSignatureEncoding, IsLowDERSignature. repeat case_match; cbn; repeat case_match; done. Qed.

Lemma safe_CheckPubKeyEncoding v : safe (λ _, True) (CheckPubKeyEncoding v flags sigversion).
Proof. unfold CheckPubKeyEncoding. repeat case_match; done. Qed.

Ltac encodings :=
  eapply safe_bind; [apply safe_CheckSignatureEncoding|]; intros _ _;
  eapply safe_bind; [apply safe_CheckPubKeyEncoding|]; intros _ _.

Lemma safe_checksig opcode m : machine_ok m → safe step_ok (op_checksig CheckLowS flags checker sigversion opcode m).
Proof.
  unfold op_checksig. start m. repeat safe_step. encodings. repeat safe_step.
  destruct (opcode =? _); [|finish]. destruct (CheckSig _ _ _ _ _); [|done]. cbn [of_bool popstack obind]. finish.
Qed.

Lemma safe_drop_signatures n s : stack_ok s → ∀ isig code, 1 ≤ isig → isig + Z.of_nat n - 1 ≤ size s →
  safe (λ _, True) (drop_signatures sigversion n s isig code).
Proof.
  intros Hs. induction n as [|n IH]; intros isig code H1 H2; cbn [drop_signatures]; [done|].
  safe_step. apply IH; lia.
Qed.

Lemma safe_multisig_loop s code : stack_ok s → ∀ fuel isig ikey nSigs nKeys, 1 ≤ isig → 1 ≤ ikey →
  nSigs ≤ nKeys → nKeys = Z.of_nat fuel → isig + nSigs - 1 ≤ size s → ikey + nKeys - 1 ≤ size s →
  safe (λ _, True) (multisig_loop CheckLowS flags checker sigversion fuel s code isig ikey nSigs nKeys).
Proof.
  intros Hs. induction fuel as [|fuel IH]; intros isig ikey nSigs nKeys Hi Hk Hle Hf H1 H2; cbn [multisig_loop];
    destruct (Z.leb_spec nSigs 0); try done; [lia|].
  repeat safe_step. encodings. destruct (CheckSig _ _ _ _ _); destruct (Z.ltb_spec (nKeys - 1) (if true then nSigs - 1 else nSigs));
    try (destruct (Z.ltb_spec (nKeys - 1) nSigs)); try done; apply IH; lia.
Qed.

Lemma safe_cleanup n fSuccess : ∀ ikey2 s, stack_ok s → Z.of_nat n ≤ size s →
  safe (λ s', stack_ok s' ∧ size s' = size s - Z.of_nat n) (cleanup flags n fSuccess ikey2 s).
Proof.
  induction n as [|n IH]; intros ikey2 s Hs Hn; cbn [cleanup]; [cbn; split; [done|lia]|].
  eapply (safe_bind (λ _, True)).
  { case_match; [|done]. safe_step. done. }
  intros bad _. repeat safe_step. eapply safe_impl; [apply IH; [done|lia]|]. cbn beta. intros s' [? ?]. split; [done|lia].
Qed.

Lemma safe_checkmultisig opcode m : machine_ok m →
  safe step_ok (op_checkmultisig CheckLowS flags checker sigversion opcode m).
Proof.
  unfold op_checkmultisig. start m. repeat safe_step. cbv zeta in *. cbn [nOpCount] in *.
  eapply safe_bind; [apply safe_drop_signatures; [done|lia..]|]. intros code _.
  eapply safe_bind; [apply safe_multisig_loop; [done|lia..]|]. intros fSuccess _.
  eapply safe_bind; [apply safe_cleanup; [done|lia]|]. intros s' [Hs' Hsz']. repeat safe_step.
  destruct (opcode =? _); [|finish]. destruct fSuccess; [|done]. cbn [of_bool popstack obind]. finish.
Qed.

#[local] Hint Resolve safe_nop safe_nop_discouraged safe_checklocktimeverify safe_checksequenceverify safe_if safe_else
  safe_endif safe_verify safe_toaltstack safe_fromaltstack safe_2drop safe_2dup safe_3dup safe_2over safe_2rot safe_2swap
  safe_ifdup safe_depth safe_drop safe_dup safe_nip safe_over safe_pick_roll safe_rot safe_swap safe_tuck safe_size
  safe_equal safe_within safe_hash safe_codeseparator safe_checksig safe_checkmultisig : limits.

Lemma safe_exec_opcode fExec opcode pc m : machine_ok m →
  safe step_ok (exec_opcode mem CheckLowS flags checker sigversion fExec opcode pc m).
Proof using Hmem.
  intros Hm. unfold exec_opcode.
  repeat match goal with
  | |- safe _ (if one_of ?o ?l then op_unary _ _ _ else _) => destruct (one_of o l) eqn:?; [apply safe_unary; [by apply one_of_In|done]|]
  | |- safe _ (if one_of ?o ?l then op_binary _ _ _ else _) => destruct (one_of o l) eqn:?; [apply safe_binary; [by apply one_of_In|done]|]
  | |- safe _ (if ?b then op_number _ _ else _) => destruct b eqn:E; [apply safe_number; [|done];
      rewrite orb_true_iff, andb_true_iff, Z.eqb_eq, !Z.leb_le in E; lia|]
  | |- safe _ (if ?b then _ else _) => destruct b; [by auto with limits|]
  end. done.
Qed.

Lemma safe_exec_instruction opcode v pc m : machine_ok m → is_bytes v →
  safe machine_ok (exec_instruction mem CheckLowS flags checker sigversion opcode v pc m).
Proof using Hmem.
  intros Hm Hv. pose proof Hm as [Hs Ha Hsz Hc]. unfold exec_instruction. safe_step.
  set (m1 := if OP_16 <? opcode then _ else _).
  assert (Hm1 : stack m1 = stack m ∧ altstack m1 = altstack m ∧ 0 ≤ nOpCount m1) by (subst m1; case_match; cbn; split_and!; auto; lia).
  destruct Hm1 as (E1 & E2 & E3). apply safe_guard. intros Hcount. apply safe_guard. intros _.
  assert (machine_ok m1) as Hm1.
  { split; [by rewrite E1|by rewrite E2|by rewrite E1, E2|]. split; [done|]. subst m1. destruct (OP_16 <? opcode); [|lia].
    cbn [andb] in Hcount. by apply Z.ltb_ge in Hcount. }
  eapply (safe_bind step_ok).
  - destruct (forallb id (vfExec m) && _ && _); [apply safe_guard; intros _; cbn; split; cbn [stack altstack nOpCount with_stack]|].
    + rewrite stack_ok_cons, E1. by split.
    + by rewrite E2.
    + apply Hm1.
    + destruct (forallb id (vfExec m) || _); [by apply safe_exec_opcode|by apply safe_nop].
  - intros m' [H1 H2 H3]. safe_step. cbn. by split.
Qed.

(** The loop ends with a machine within the limits, or an error. *)
Lemma safe_loop : ∀ fuel pc m, (length pc ≤ fuel)%nat → is_bytes pc → machine_ok m →
  safe machine_ok (EvalScript_loop mem CheckLowS flags checker sigversion fuel pc m).
Proof using Hmem.
  induction fuel as [|fuel IH]; intros pc m Hl Hb Hm; destruct pc as [|x pc]; cbn [EvalScript_loop]; try done; [cbn in Hl; lia|].
  destruct (GetOp (x :: pc)) as [[[ok pc'] opcode] v] eqn:E. destruct ok; cbn [negb]; [|done].
  pose proof (GetOp_length _ _ _ _ E). destruct (GetOp_bytes _ _ _ _ E Hb) as (_ & Hv & Hb').
  eapply safe_bind; [by apply safe_exec_instruction|]. intros m' Hm'. apply IH; [cbn [length] in *; lia|done..].
Qed.
End Limits.

(** * Properties *)

(** C2: whatever the script, the flags and the signature checker, the evaluation of
    a script on a stack within the limits ends; it never reads below the bottom
    of a stack and never fails an assertion (the only exception is that of
    reading a number); all through it both stacks together keep at most 1000
    elements of at most 520 bytes and at most 201 operations are counted; and
    it returns such a stack or one of the documented errors. *)
Theorem EvalScript_limits mem CheckLowS flags checker sigversion s script :
  length mem = 64%nat → is_bytes script → stack_ok s → size s ≤ MAX_STACK_SIZE →
  safe machine_ok
    (EvalScript_loop mem CheckLowS flags checker sigversion (length script) script (mkMachine s [] [] 0 script)) ∧
  ((∃ s', EvalScript mem CheckLowS flags checker sigversion s script = Ok s' ∧ stack_ok s' ∧ size s' ≤ MAX_STACK_SIZE) ∨
   ∃ e, EvalScript mem CheckLowS flags checker sigversion s script = Err e).
Proof.
  intros Hmem Hb Hs Hsz. assert (Hm : machine_ok (mkMachine s [] [] 0 script)).
  { split; cbn; [done|constructor|change (size []) with 0; lia|lia]. }
  pose proof (safe_loop mem Hmem CheckLowS flags checker sigversion (length script) script _ (le_n _) Hb Hm) as H.
  split; [done|]. unfold EvalScript. destruct (_ <? _); [by right; eexists|].
  destruct (EvalScript_loop _ _ _ _ _ _ _ _) as [m|e|x|]; cbn [catch obind safe] in *; [|by right; eexists..|done].
  destruct (vfExec m); [left|by right; eexists]. destruct H as [H1 H2 H3 _]. eexists. split_and!; [done..|].
  pose proof (size_nonneg (altstack m)). lia.
Qed.

Definition no_checker : BaseSignatureChecker := {|
  CheckSig := λ _ _ _ _, false; CheckLockTime := λ _, false; CheckSequence := λ _, false |}.

Lemma EvalScript_limits_witness :
  (∃ s', EvalScript (replicate 64 0) (λ _, true) 0 no_checker SIGVERSION_BASE [[5]] [OP_DUP; OP_ADD; OP_10; OP_EQUAL] = Ok s' ∧
     stack_ok s' ∧ size s' ≤ MAX_STACK_SIZE) ∨
  ∃ e, EvalScript (replicate 64 0) (λ _, true) 0 no_checker SIGVERSION_BASE [[5]] [OP_DUP; OP_ADD; OP_10; OP_EQUAL] = Err e.
Proof.
  apply (EvalScript_limits (replicate 64 0) (λ _, true) 0 no_checker SIGVERSION_BASE [[5]] [OP_DUP; OP_ADD; OP_10; OP_EQUAL]).
  - reflexivity.
  - repeat constructor; discriminate.
  - repeat constructor; vm_compute; discriminate.
  - vm_compute. discriminate.
Defined.
