(* ===== verification/VerifyScript.v ===== *)
(** The verification of an input's script (script/interpreter.cpp): witness
    programs, pay-to-script-hash, the final checks and the count of signature
    operations in witnesses. *)
From stdpp Require Import base list option.
From Stdlib Require Import ZArith Lia.
From S2P Require Import Prelude ArithUint256 Serialize Chain Transaction HashStream Sha256 Hash Script Interpreter.
Open Scope Z_scope.

Section Verify.
Context (mem : bytes) (CheckLowS : bytes → bool).
Context (flags : Z) (checker : BaseSignatureChecker).

Abbreviation guard b e k := (if b then Err e else k).
Abbreviation EvalScript v s script := (EvalScript mem CheckLowS flags checker v s script).

(** [CastToBool(stack.back())] *)
Definition top_true (s : list valtype) : bool := match s with [] => false | v :: _ => CastToBool v end.

(** The part of [VerifyWitnessProgram] after the script and the stack are set. *)
Definition run_witness (s : list valtype) (scriptPubKey : CScript) : outcome unit :=
  guard (existsb (λ v, MAX_SCRIPT_ELEMENT_SIZE <? size v) s) SCRIPT_ERR_PUSH_SIZE (
  let! s := EvalScript SIGVERSION_WITNESS_V0 s scriptPubKey in
  guard (negb (size s =? 1)) SCRIPT_ERR_EVAL_FALSE (
  guard (negb (top_true s)) SCRIPT_ERR_EVAL_FALSE (Ok tt))).

(** A witness is in the order of its serialization: the last element is the top. *)
Definition VerifyWitnessProgram (witness : list valtype) (witversion : Z) (program : bytes) : outcome unit :=
  if witversion =? 0 then
    if size program =? 32 then
      match rev witness with
      | [] => Err SCRIPT_ERR_WITNESS_PROGRAM_WITNESS_EMPTY
      | scriptPubKey :: s =>
          let hashScriptPubKey := CSHA256_Finalize (CSHA256_Write (CSHA256_init mem) scriptPubKey) in
          guard (negb (memcmp hashScriptPubKey program =? 0)) SCRIPT_ERR_WITNESS_PROGRAM_MISMATCH (
          run_witness s scriptPubKey)
      end
    else if size program =? 20 then
      guard (negb (size witness =? 2)) SCRIPT_ERR_WITNESS_PROGRAM_MISMATCH (
      run_witness (rev witness) ([OP_DUP; OP_HASH160] ++ push_data program ++ [OP_EQUALVERIFY; OP_CHECKSIG]))
    else Err SCRIPT_ERR_WITNESS_PROGRAM_WRONG_LENGTH
  else guard (has flags SCRIPT_VERIFY_DISCOURAGE_UPGRADABLE_WITNESS_PROGRAM)
         SCRIPT_ERR_DISCOURAGE_UPGRADABLE_WITNESS_PROGRAM (Ok tt).

(** [stack.resize(1)] keeps the bottom element. *)
Definition resize1 (s : list valtype) : list valtype := [List.last s []].

(** Bare witness programs: the stack and [hadWitness] afterwards. *)
Definition verify_bare_witness (scriptSig scriptPubKey : CScript) (witness : list valtype) (s : list valtype)
    : outcome (list valtype * bool) :=
  if has flags SCRIPT_VERIFY_WITNESS then
    match IsWitnessProgram scriptPubKey with
    | Some (witnessversion, witnessprogram) =>
        guard (negb (size scriptSig =? 0)) SCRIPT_ERR_WITNESS_MALLEATED (
        let! _ := VerifyWitnessProgram witness witnessversion witnessprogram in
        Ok (resize1 s, true))
    | None => Ok (s, false)
    end
  else Ok (s, false).

(** Pay-to-script-hash: [s] is the restored [stackCopy]. *)
Definition verify_p2sh (scriptSig : CScript) (witness : list valtype) (s : list valtype) (hadWitness : bool)
    : outcome (list valtype * bool) :=
  guard (negb (IsPushOnly scriptSig)) SCRIPT_ERR_SIG_PUSHONLY (
  match s with
  | [] => Abort
  | pubKey2 :: s =>
      let! s := EvalScript SIGVERSION_BASE s pubKey2 in
      guard (size s =? 0) SCRIPT_ERR_EVAL_FALSE (
      guard (negb (top_true s)) SCRIPT_ERR_EVAL_FALSE (
      if has flags SCRIPT_VERIFY_WITNESS then
        match IsWitnessProgram pubKey2 with
        | Some (witnessversion, witnessprogram) =>
            guard (negb (bool_decide (scriptSig = push_data pubKey2))) SCRIPT_ERR_WITNESS_MALLEATED_P2SH (
            let! _ := VerifyWitnessProgram witness witnessversion witnessprogram in
            Ok (resize1 s, true))
        | None => Ok (s, hadWitness)
        end
      else Ok (s, hadWitness)))
  end).

(** The checks at the end. *)
Definition verify_end (witness : list valtype) (s : list valtype) (hadWitness : bool) : outcome unit :=
  let! _ :=
    (if has flags SCRIPT_VERIFY_CLEANSTACK then
       if negb (has flags SCRIPT_VERIFY_P2SH && has flags SCRIPT_VERIFY_WITNESS) then Abort
       else guard (negb (size s =? 1)) SCRIPT_ERR_CLEANSTACK (Ok tt)
     else Ok tt) in
  if has flags SCRIPT_VERIFY_WITNESS then
    if negb (has flags SCRIPT_VERIFY_P2SH) then Abort
    else guard (negb hadWitness && negb (witness_IsNull witness)) SCRIPT_ERR_WITNESS_UNEXPECTED (Ok tt)
  else Ok tt.

(** [Ok] is the result [true]; a null [witness] is the empty one. *)
Definition VerifyScript (scriptSig scriptPubKey : CScript) (witness : option (list valtype)) : outcome unit :=
  let witness := default [] witness in
  guard (has flags SCRIPT_VERIFY_SIGPUSHONLY && negb (IsPushOnly scriptSig)) SCRIPT_ERR_SIG_PUSHONLY (
  let! s := EvalScript SIGVERSION_BASE [] scriptSig in
  let stackCopy := s in
  let! s := EvalScript SIGVERSION_BASE s scriptPubKey in
  guard (size s =? 0) SCRIPT_ERR_EVAL_FALSE (
  guard (negb (top_true s)) SCRIPT_ERR_EVAL_FALSE (
  let! (s, hadWitness) := verify_bare_witness scriptSig scriptPubKey witness s in
  let! (s, hadWitness) :=
    (if has flags SCRIPT_VERIFY_P2SH && IsPayToScriptHash scriptPubKey
     then verify_p2sh scriptSig witness stackCopy hadWitness else Ok (s, hadWitness)) in
  verify_end witness s hadWitness))).
End Verify.

(** What [VerifyScript] asserts of its flags: the witness rules need pay-to-script-hash, a clean stack
    needs both. *)
Definition valid_flags (g : Z) : Prop :=
  (has g SCRIPT_VERIFY_WITNESS = true → has g SCRIPT_VERIFY_P2SH = true) ∧
  (has g SCRIPT_VERIFY_CLEANSTACK = true → has g SCRIPT_VERIFY_P2SH = true ∧ has g SCRIPT_VERIFY_WITNESS = true).

(** * Signature operations in witnesses *)

Definition WitnessSigOps (witversion : Z) (witprogram : bytes) (witness : list valtype) : Z :=
  if witversion =? 0 then
    if size witprogram =? 20 then 1
    else if (size witprogram =? 32) && (0 <? size witness) then GetSigOpCount (List.last witness []) true
    else 0
  else 0.

(** [None] is the failed assertion. *)
Definition CountWitnessSigOps (scriptSig scriptPubKey : CScript) (witness : option (list valtype)) (flags : Z) : option Z :=
  if negb (has flags SCRIPT_VERIFY_WITNESS) then Some 0
  else if negb (has flags SCRIPT_VERIFY_P2SH) then None
  else
    match IsWitnessProgram scriptPubKey with
    | Some (v, program) => Some (WitnessSigOps v program (default [] witness))
    | None =>
        if IsPayToScriptHash scriptPubKey && IsPushOnly scriptSig then
          let subscript := (List.last (ops scriptSig).1 (OP_0, [])).2 in
          match IsWitnessProgram subscript with
          | Some (v, program) => Some (WitnessSigOps v program (default [] witness))
          | None => Some 0
          end
        else Some 0
    end.
