(* ===== verification/Softfork.v ===== *)
(** Soft-fork safety of the verification flags: what passes under more flags
    passes under fewer, as the comments of script/interpreter.h ("softfork safe")
    promise. *)
From stdpp Require Import base list option.
From Stdlib Require Import ZArith Lia.
From S2P Require Import Prelude ArithUint256 Serialize Chain Transaction HashStream Sha256 Sha1 Ripemd160 Hash.
From S2P Require Import Script Interpreter ScriptLimits VerifyScript.
Open Scope Z_scope.

(** [o] succeeds with the same result wherever [o'] does. *)
Definition relaxes {A} (o' o : outcome A) : Prop :=
  match o' with Ok a => o = Ok a | _ => True end.

Lemma relaxes_intro {A} (o' o : outcome A) : (∀ a, o' = Ok a → o = Ok a) → relaxes o' o.
Proof. destruct o'; cbn; auto. Qed.

Lemma relaxes_elim {A} (o' o : outcome A) a : relaxes o' o → o' = Ok a → o = Ok a.
Proof. by intros H ->. Qed.

Create HintDb softfork.

Section Relax.
Context {A B : Type}.

Lemma relaxes_refl (o : outcome A) : relaxes o o.
Proof. by apply relaxes_intro. Qed.

Lemma relaxes_err e (o : outcome A) : relaxes (Err e) o.
Proof. exact I. Qed.

Lemma relaxes_abort (o : outcome A) : relaxes Abort o.
Proof. exact I. Qed.

Lemma relaxes_bind (m' m : outcome A) (f' f : A → outcome B) :
  relaxes m' m → (∀ a, relaxes (f' a) (f a)) → relaxes (obind m' f') (obind m f).
Proof.
  intros Hm Hf. destruct m' as [a| | |]; cbn in *; try done. by rewrite Hm.
Qed.

Lemma relaxes_guard (b' b : bool) e' e (k' k : outcome A) : (b = true → b' = true) → relaxes k' k →
  relaxes (if b' then Err e' else k') (if b then Err e else k).
Proof. intros Hb Hk. destruct b'; [done|]. destruct b; [by specialize (Hb eq_refl)|done]. Qed.

Lemma relaxes_if (b : bool) (o1' o1 o2' o2 : outcome A) :
  relaxes o1' o1 → relaxes o2' o2 → relaxes (if b then o1' else o2') (if b then o1 else o2).
Proof. by destruct b. Qed.
End Relax.
#[export] Hint Resolve relaxes_refl relaxes_err relaxes_abort : softfork.

Section Softfork.
Context (mem : bytes) (CheckLowS : bytes → bool) (checker : BaseSignatureChecker).
(** The flags [f] are some of the flags [f']. *)
Context (f f' : Z) (Hsub : ∀ bit, has f bit = true → has f' bit = true).
(** Discouraging the reserved no-operations is not a rule for blocks: where it is
    on, the opcodes that took over such operations are the same in both. *)
Context (Hnops : has f SCRIPT_VERIFY_DISCOURAGE_UPGRADABLE_NOPS = true →
  has f SCRIPT_VERIFY_CHECKLOCKTIMEVERIFY = has f' SCRIPT_VERIFY_CHECKLOCKTIMEVERIFY ∧
  has f SCRIPT_VERIFY_CHECKSEQUENCEVERIFY = has f' SCRIPT_VERIFY_CHECKSEQUENCEVERIFY).

Ltac bools := intros; repeat match goal with
  | H : _ && _ = true |- _ => apply andb_true_iff in H as [? ?]
  | |- _ && _ = true => apply andb_true_iff; split
  | H : has f _ = true |- _ => apply Hsub in H
  end; try done.

Lemma relaxes_num v max : relaxes (num v (fRequireMinimal f') max) (num v (fRequireMinimal f) max).
Proof using All.
  apply relaxes_intro. intros n. unfold num, fRequireMinimal, CScriptNum. destruct (_ <? _); [done|].
  pose proof (Hsub SCRIPT_VERIFY_MINIMALDATA) as H.
  destruct (has f' SCRIPT_VERIFY_MINIMALDATA), (has f SCRIPT_VERIFY_MINIMALDATA); try done; [|by specialize (H eq_refl)]. cbn [andb]. by destruct (_ && _).
Qed.

Lemma relaxes_nop m : relaxes (op_nop_discouraged f' m) (op_nop_discouraged f m).
Proof using All. apply relaxes_guard; [apply Hsub|apply relaxes_refl]. Qed.

Hint Resolve relaxes_num relaxes_nop : softfork.

Ltac relax := repeat lazymatch goal with
  | |- ∀ _, _ => intros ?
  | |- relaxes _ _ => first
      [ solve [auto 2 with softfork]
      | apply relaxes_guard; [solve [bools]|]
      | apply relaxes_if
      | apply relaxes_bind ]
  end.

Lemma relaxes_cltv m : relaxes (op_checklocktimeverify f' checker m) (op_checklocktimeverify f checker m).
Proof using All.
  unfold op_checklocktimeverify.
  case_eq (has f' SCRIPT_VERIFY_CHECKLOCKTIMEVERIFY); intros E'; case_eq (has f SCRIPT_VERIFY_CHECKLOCKTIMEVERIFY); intros E; cbn [negb];
    [relax| |apply Hsub in E; congruence|relax].
  apply relaxes_intro. intros m' Hm'. unfold op_nop_discouraged. case_eq (has f SCRIPT_VERIFY_DISCOURAGE_UPGRADABLE_NOPS); intros En; [destruct (Hnops En); congruence|].
  destruct (_ <? _); [done|]. destruct (stacktop _ _); try done. cbn [obind] in Hm'. destruct (num _ _ _); try done.
  cbn [obind] in Hm'. by repeat case_match.
Qed.

Lemma relaxes_csv m : relaxes (op_checksequenceverify f' checker m) (op_checksequenceverify f checker m).
Proof using All.
  unfold op_checksequenceverify.
  case_eq (has f' SCRIPT_VERIFY_CHECKSEQUENCEVERIFY); intros E'; case_eq (has f SCRIPT_VERIFY_CHECKSEQUENCEVERIFY); intros E; cbn [negb];
    [relax| |apply Hsub in E; congruence|relax].
  apply relaxes_intro. intros m' Hm'. unfold op_nop_discouraged. case_eq (has f SCRIPT_VERIFY_DISCOURAGE_UPGRADABLE_NOPS); intros En; [destruct (Hnops En); congruence|].
  destruct (_ <? _); [done|]. destruct (stacktop _ _); try done. cbn [obind] in Hm'. destruct (num _ _ _); try done.
  cbn [obind] in Hm'. by repeat case_match.
Qed.

Lemma relaxes_if_op v fExec opcode m : relaxes (op_if f' v fExec opcode m) (op_if f v fExec opcode m).
Proof using All. unfold op_if. relax. Qed.

Lemma relaxes_pick_roll opcode m : relaxes (op_pick_roll f' opcode m) (op_pick_roll f opcode m).
Proof using All. unfold op_pick_roll. relax. Qed.

Lemma relaxes_unary opcode m : relaxes (op_unary f' opcode m) (op_unary f opcode m).
Proof using All. unfold op_unary. relax. Qed.

Lemma relaxes_binary opcode m : relaxes (op_binary f' opcode m) (op_binary f opcode m).
Proof using All. unfold op_binary. relax. Qed.

Lemma relaxes_within m : relaxes (op_within f' m) (op_within f m).
Proof using All. unfold op_within. relax. Qed.

Lemma relaxes_sig_encoding v : relaxes (CheckSignatureEncoding CheckLowS v f') (CheckSignatureEncoding CheckLowS v f).
Proof using All.
  unfold CheckSignatureEncoding. apply relaxes_if; [auto with softfork|]. apply relaxes_guard.
  { rewrite !andb_true_iff, !orb_true_iff. intros [[[Hf|Hf]|Hf] ?]; apply Hsub in Hf; rewrite Hf; tauto. }
  apply relaxes_bind; [|relax]. pose proof (Hsub SCRIPT_VERIFY_LOW_S) as H.
  destruct (has f' SCRIPT_VERIFY_LOW_S), (has f SCRIPT_VERIFY_LOW_S); auto with softfork; [|by specialize (H eq_refl)]. by apply relaxes_intro; intros [].
Qed.

Lemma relaxes_key_encoding v sv : relaxes (CheckPubKeyEncoding v f' sv) (CheckPubKeyEncoding v f sv).
Proof using All. unfold CheckPubKeyEncoding. relax. Qed.

Hint Resolve relaxes_sig_encoding relaxes_key_encoding : softfork.

Lemma relaxes_checksig v opcode m :
  relaxes (op_checksig CheckLowS f' checker v opcode m) (op_checksig CheckLowS f checker v opcode m).
Proof using All. unfold op_checksig. relax. Qed.

Lemma relaxes_multisig_loop v fuel s code : ∀ isig ikey nSigs nKeys,
  relaxes (multisig_loop CheckLowS f' checker v fuel s code isig ikey nSigs nKeys)
          (multisig_loop CheckLowS f checker v fuel s code isig ikey nSigs nKeys).
Proof using All. induction fuel as [|fuel IH]; intros; cbn [multisig_loop]; relax. Qed.

Lemma relaxes_cleanup n ok : ∀ ikey2 s, relaxes (cleanup f' n ok ikey2 s) (cleanup f n ok ikey2 s).
Proof using All.
  induction n as [|n IH]; intros ikey2 s; cbn [cleanup]; [apply relaxes_refl|].
  assert (Hpop : relaxes (let! s := popstack s in cleanup f' n ok (if 0 <? ikey2 then ikey2 - 1 else ikey2) s)
    (let! s := popstack s in cleanup f n ok (if 0 <? ikey2 then ikey2 - 1 else ikey2) s)) by relax.
  case_eq (has f SCRIPT_VERIFY_NULLFAIL); intros E; [rewrite (Hsub _ E); relax; exact Hpop|].
  rewrite andb_false_r. cbn [andb obind]. apply relaxes_intro. intros s'.
  destruct (negb ok && _ && _); [|by apply relaxes_elim]. destruct (stacktop s 1) as [v| | |]; [|done..].
  cbn [obind]. destruct (negb (size v =? 0)); [done|by apply relaxes_elim].
Qed.

Hint Resolve relaxes_multisig_loop relaxes_cleanup : softfork.

Lemma relaxes_checkmultisig v opcode m :
  relaxes (op_checkmultisig CheckLowS f' checker v opcode m) (op_checkmultisig CheckLowS f checker v opcode m).
Proof using All. unfold op_checkmultisig. relax. Qed.

Hint Resolve relaxes_cltv relaxes_csv relaxes_if_op relaxes_pick_roll relaxes_unary relaxes_binary relaxes_within
  relaxes_checksig relaxes_checkmultisig : softfork.

Lemma relaxes_exec_opcode v fExec opcode pc m :
  relaxes (exec_opcode mem CheckLowS f' checker v fExec opcode pc m) (exec_opcode mem CheckLowS f checker v fExec opcode pc m).
Proof using All. unfold exec_opcode. repeat (apply relaxes_if; [auto with softfork|]). apply relaxes_refl. Qed.

Lemma relaxes_instruction v opcode d pc m :
  relaxes (exec_instruction mem CheckLowS f' checker v opcode d pc m) (exec_instruction mem CheckLowS f checker v opcode d pc m).
Proof using All.
  unfold exec_instruction, fRequireMinimal. repeat (apply relaxes_guard; [done|]). apply relaxes_bind; [|relax].
  apply relaxes_if; [relax|]. apply relaxes_if; [apply relaxes_exec_opcode|relax].
Qed.

Lemma relaxes_loop v fuel : ∀ pc m,
  relaxes (EvalScript_loop mem CheckLowS f' checker v fuel pc m) (EvalScript_loop mem CheckLowS f checker v fuel pc m).
Proof using All.
  induction fuel as [|fuel IH]; intros [|x pc] m; cbn [EvalScript_loop];
    [apply relaxes_refl|apply relaxes_abort|apply relaxes_refl|].
  destruct (GetOp (x :: pc)) as [[[[] pc'] opcode] d]; cbn [negb]; [|apply relaxes_err].
  apply relaxes_bind; [apply relaxes_instruction|intros m'; apply IH].
Qed.

Lemma relaxes_EvalScript v s script :
  relaxes (EvalScript mem CheckLowS f' checker v s script) (EvalScript mem CheckLowS f checker v s script).
Proof using All.
  unfold EvalScript. apply relaxes_guard; [done|]. apply relaxes_bind; [|intros; apply relaxes_refl].
  apply relaxes_intro. intros m E. pose proof (relaxes_loop v (length script) script (mkMachine s [] [] 0 script)) as H.
  destruct (EvalScript_loop mem CheckLowS f' _ _ _ _ _); cbn [catch] in E; try done.
  cbn in H. by rewrite H.
Qed.

(** ** Verification *)

Lemma relaxes_run_witness s script :
  relaxes (run_witness mem CheckLowS f' checker s script) (run_witness mem CheckLowS f checker s script).
Proof using All.
  unfold run_witness. apply relaxes_guard; [done|]. apply relaxes_bind; [apply relaxes_EvalScript|intros; apply relaxes_refl].
Qed.

Lemma relaxes_witness_program w v program :
  relaxes (VerifyWitnessProgram mem CheckLowS f' checker w v program) (VerifyWitnessProgram mem CheckLowS f checker w v program).
Proof using All.
  unfold VerifyWitnessProgram. apply relaxes_if; [|apply relaxes_guard; [apply Hsub|apply relaxes_refl]].
  apply relaxes_if; [destruct (rev w) as [|script s]; [apply relaxes_err|]|apply relaxes_if; [|apply relaxes_err]];
    (apply relaxes_guard; [intros H; exact H|apply relaxes_run_witness]).
Qed.

Abbreviation bare g := (verify_bare_witness mem CheckLowS g checker).
Abbreviation p2sh g := (verify_p2sh mem CheckLowS g checker).

Lemma relaxes_bare sig pub w s : has f SCRIPT_VERIFY_WITNESS = true → relaxes (bare f' sig pub w s) (bare f sig pub w s).
Proof using All.
  intros E. unfold verify_bare_witness. rewrite E, (Hsub _ E).
  destruct (IsWitnessProgram pub) as [[v program]|]; [|apply relaxes_refl].
  apply relaxes_guard; [intros H; exact H|]. apply relaxes_bind; [apply relaxes_witness_program|intros; apply relaxes_refl].
Qed.

Lemma relaxes_p2sh sig w s had : has f SCRIPT_VERIFY_WITNESS = true → relaxes (p2sh f' sig w s had) (p2sh f sig w s had).
Proof using All.
  intros E. unfold verify_p2sh. rewrite E, (Hsub _ E). apply relaxes_guard; [intros H; exact H|].
  destruct s as [|pubKey2 s]; [apply relaxes_abort|]. apply relaxes_bind; [apply relaxes_EvalScript|]. intros s1.
  do 2 (apply relaxes_guard; [intros H; exact H|]).
  destruct (IsWitnessProgram pubKey2) as [[v program]|]; [|apply relaxes_refl].
  apply relaxes_guard; [intros H; exact H|]. apply relaxes_bind; [apply relaxes_witness_program|intros; apply relaxes_refl].
Qed.

(** Without the witness rules the scripts alone decide. *)
Lemma p2sh_no_witness sig w s had had' a : has f SCRIPT_VERIFY_WITNESS = false →
  p2sh f' sig w s had = Ok a → ∃ a', p2sh f sig w s had' = Ok a'.
Proof using All.
  intros E. unfold verify_p2sh. rewrite E. destruct (negb _); [done|]. destruct s as [|pubKey2 s]; [done|].
  destruct (EvalScript mem CheckLowS f' checker _ s pubKey2) as [s1| | |] eqn:E1; cbn [obind]; [|done..].
  rewrite (relaxes_elim _ _ _ (relaxes_EvalScript _ _ _) E1). cbn [obind].
  destruct (size s1 =? 0); [done|]. destruct (negb (top_true s1)); [done|]. eauto.
Qed.

Lemma relaxes_end w s had : valid_flags f → relaxes (verify_end f' w s had) (verify_end f w s had).
Proof using All.
  intros [Hw Hc]. unfold verify_end. apply relaxes_intro. intros [].
  case_eq (has f SCRIPT_VERIFY_CLEANSTACK); intros Ec.
  - destruct (Hc Ec) as [Ep Ew]. by rewrite Ep, Ew, (Hsub _ Ec), (Hsub _ Ep), (Hsub _ Ew).
  - case_eq (has f SCRIPT_VERIFY_WITNESS); intros Ew; [|done]. specialize (Hw Ew).
    rewrite Hw, (Hsub _ Ew), (Hsub _ Hw). cbn [andb negb]. by repeat case_match.
Qed.

Lemma end_no_witness w s had : valid_flags f → has f SCRIPT_VERIFY_WITNESS = false → verify_end f w s had = Ok tt.
Proof using Type.
  intros [Hw Hc] E. unfold verify_end. rewrite E.
  case_eq (has f SCRIPT_VERIFY_CLEANSTACK); intros Ec; [|done]. destruct (Hc Ec); congruence.
Qed.
End Softfork.


Lemma has_subset f f' bit : Z.land f f' = f → has f bit = true → has f' bit = true.
Proof.
  unfold has. intros E. rewrite !negb_true_iff, !Z.eqb_neq. intros H H'. apply H.
  by rewrite <- E, <- Z.land_assoc, H', Z.land_0_r.
Qed.

(** C5: verification flags are a soft fork, as script/interpreter.h promises: when the flags [f] are some of
    the flags [f'], an input that [VerifyScript] accepts under [f'] is accepted under [f], whatever the
    scripts, the witness and the signature checker. [f] has to satisfy what [VerifyScript] asserts of its flags,
    and where [f] discourages reserved no-operations, the two flags that turn such an operation into a lock
    time check are the same in both. *)
Theorem VerifyScript_softfork mem CheckLowS checker f f' scriptSig scriptPubKey witness :
  Z.land f f' = f → valid_flags f →
  (has f SCRIPT_VERIFY_DISCOURAGE_UPGRADABLE_NOPS = true →
   has f SCRIPT_VERIFY_CHECKLOCKTIMEVERIFY = has f' SCRIPT_VERIFY_CHECKLOCKTIMEVERIFY ∧
   has f SCRIPT_VERIFY_CHECKSEQUENCEVERIFY = has f' SCRIPT_VERIFY_CHECKSEQUENCEVERIFY) →
  VerifyScript mem CheckLowS f' checker scriptSig scriptPubKey witness = Ok tt →
  VerifyScript mem CheckLowS f checker scriptSig scriptPubKey witness = Ok tt.
Proof.
  intros Hsub Hf Hn. assert (Hs : ∀ bit, has f bit = true → has f' bit = true) by (intros bit; by apply has_subset).
  unfold VerifyScript. destruct (has f' SCRIPT_VERIFY_SIGPUSHONLY && _) eqn:Es; [done|].
  replace (has f SCRIPT_VERIFY_SIGPUSHONLY && _) with false.
  2:{ destruct (has f SCRIPT_VERIFY_SIGPUSHONLY) eqn:E; [|done]. by rewrite (Hs _ E) in Es. }
  set (w := default [] witness). clearbody w.
  destruct (EvalScript mem CheckLowS f' _ _ [] _) as [s1| | |] eqn:E1; [|done..].
  rewrite (relaxes_elim _ _ _ (relaxes_EvalScript mem CheckLowS checker f f' Hs Hn _ _ _) E1). cbn [obind].
  destruct (EvalScript mem CheckLowS f' _ _ s1 _) as [s2| | |] eqn:E2; [|done..].
  rewrite (relaxes_elim _ _ _ (relaxes_EvalScript mem CheckLowS checker f f' Hs Hn _ _ _) E2). cbn [obind].
  destruct (size s2 =? 0); [done|]. destruct (negb (top_true s2)); [done|].
  destruct (verify_bare_witness mem CheckLowS f' _ _ _ _ _) as [[s3 had]| | |] eqn:E3; [|done..]. cbn [obind].
  destruct (has f SCRIPT_VERIFY_WITNESS) eqn:Ew.
  - rewrite (relaxes_elim _ _ _ (relaxes_bare mem CheckLowS checker f f' Hs Hn _ _ _ _ Ew) E3). cbn [obind].
    rewrite (proj1 Hf Ew), (Hs _ (proj1 Hf Ew)). cbn [andb]. apply relaxes_elim. apply relaxes_bind.
    + apply relaxes_if; [by apply relaxes_p2sh|apply relaxes_refl].
    + intros [s4 had']. by apply relaxes_end.
  - intros H. unfold verify_bare_witness at 1. rewrite Ew. cbn [obind].
    destruct (has f SCRIPT_VERIFY_P2SH) eqn:Ep; [|by apply end_no_witness]. rewrite (Hs _ Ep) in H. cbn [andb] in *.
    destruct (IsPayToScriptHash scriptPubKey); [|by apply end_no_witness].
    destruct (verify_p2sh mem CheckLowS f' _ _ _ _ _) as [a| | |] eqn:E4; [|done..].
    destruct (p2sh_no_witness mem CheckLowS checker f f' Hs Hn _ _ _ _ false _ Ew E4) as [[s4 had'] ->].
    by apply end_no_witness.
Qed.

(** All the flags, and only pay-to-script-hash, on the scripts [OP_2] and
    [OP_1ADD OP_3 OP_NUMEQUAL]. *)
Lemma VerifyScript_softfork_witness :
  VerifyScript (repeat 0 64) (λ _, true) 1 no_checker [0x52] [OP_1ADD; 0x53; OP_NUMEQUAL] None = Ok tt.
Proof.
  apply (VerifyScript_softfork (repeat 0 64) (λ _, true) no_checker 1 0xFFFF); [done| |done|vm_compute; reflexivity].
  split; [done|discriminate].
Defined.
