(* ===== verification/SigHash.v ===== *)
(** Signature hashes and the checker of transaction signatures (script/interpreter.cpp):
    the serializer of the part of a transaction that a signature covers, the hashes of
    version 0 witness programs with their cache, and the lock time checks. *)
From stdpp Require Import base list option.
From Stdlib Require Import ZArith Lia.
From S2P Require Import Prelude ArithUint256 Serialize Chain Transaction HashStream Sha256 Hash Script Interpreter.
Open Scope Z_scope.

(** * The serializer *)

Definition fAnyoneCanPay (nHashType : Z) : bool := negb (Z.land nHashType SIGHASH_ANYONECANPAY =? 0).
Definition fHashSingle (nHashType : Z) : bool := Z.land nHashType 0x1f =? SIGHASH_SINGLE.
Definition fHashNone (nHashType : Z) : bool := Z.land nHashType 0x1f =? SIGHASH_NONE.

(** The loops of [SerializeScriptCode]; an iterator is the rest of the script and
    every turn that goes on uses some of it. *)
Fixpoint count_separators (fuel : nat) (it : bytes) (nCodeSeparators : Z) : Z :=
  match fuel with
  | O => nCodeSeparators
  | S fuel' =>
      let '(ok, it', opcode, _) := GetOp it in
      if negb ok then nCodeSeparators
      else count_separators fuel' it' (if opcode =? OP_CODESEPARATOR then nCodeSeparators + 1 else nCodeSeparators)
  end.

(** [s.write(&itBegin[0], n)] *)
Fixpoint write_code (fuel : nat) (itBegin it : bytes) : bytes :=
  match fuel with
  | O => []
  | S fuel' =>
      let '(ok, it', opcode, _) := GetOp it in
      if (ok : bool) then
        if opcode =? OP_CODESEPARATOR then
          take (length itBegin - length it' - 1) itBegin ++ write_code fuel' it' it'
        else write_code fuel' itBegin it'
      else match itBegin with [] => [] | _ => take (length itBegin - length it') itBegin end
  end.

Definition SerializeScriptCode (scriptCode : CScript) : bytes :=
  WriteCompactSize (size scriptCode - count_separators (S (length scriptCode)) scriptCode 0) ++
  write_code (S (length scriptCode)) scriptCode scriptCode.

Definition null_txin : CTxIn := mkCTxIn COutPoint_SetNull [] SEQUENCE_FINAL [].

Section Serializer.
Context (txTo : CTransaction) (scriptCode : CScript) (nIn nHashType : Z).

Definition SerializeInput (nInput : Z) : bytes :=
  let nInput := if fAnyoneCanPay nHashType then nIn else nInput in
  let txin := nth (Z.to_nat nInput) (vin txTo) null_txin in
  Serialize (prevout txin) ++
  (if negb (nInput =? nIn) then Serialize_bytes [] else SerializeScriptCode scriptCode) ++
  (if negb (nInput =? nIn) && (fHashSingle nHashType || fHashNone nHashType) then ser_write_i32 0
   else ser_writedata32 (nSequence txin)).

Definition SerializeOutput (nOutput : Z) : bytes :=
  if fHashSingle nHashType && negb (nOutput =? nIn) then Serialize CTxOut_SetNull
  else Serialize (nth (Z.to_nat nOutput) (vout txTo) CTxOut_SetNull).

(** [for (unsigned int i = 0; i < n; i++)] *)
Definition upto (n : Z) : list Z := map Z.of_nat (seq 0 (Z.to_nat n)).

Definition CTransactionSignatureSerializer_Serialize : bytes :=
  let nInputs := if fAnyoneCanPay nHashType then 1 else u32 (size (vin txTo)) in
  let nOutputs := if fHashNone nHashType then 0
                  else if fHashSingle nHashType then u32 (nIn + 1) else u32 (size (vout txTo)) in
  ser_write_i32 (tx_nVersion txTo) ++
  WriteCompactSize nInputs ++ concat (map SerializeInput (upto nInputs)) ++
  WriteCompactSize nOutputs ++ concat (map SerializeOutput (upto nOutputs)) ++
  ser_writedata32 (nLockTime txTo).
End Serializer.

(** * The hash that a signature signs *)

Record PrecomputedTransactionData := mkPrecomputed {
  hashPrevouts : uint256; hashSequence : uint256; hashOutputs : uint256; ready : bool }.

Section SigHash.
(** The buffers of hash objects are not initialised. *)
Context (mem : bytes).

(** [CHashWriter] hashes what is written to it. *)
Definition GetPrevoutHash (txTo : CTransaction) : uint256 := Hash mem (map (λ txin, Serialize (prevout txin)) (vin txTo)).
Definition GetSequenceHash (txTo : CTransaction) : uint256 :=
  Hash mem (map (λ txin, ser_writedata32 (nSequence txin)) (vin txTo)).
Definition GetOutputsHash (txTo : CTransaction) : uint256 := Hash mem (map Serialize (vout txTo)).

Definition PrecomputedTransactionData_init (txTo : CTransaction) : PrecomputedTransactionData :=
  if HasWitness txTo then mkPrecomputed (GetPrevoutHash txTo) (GetSequenceHash txTo) (GetOutputsHash txTo) true
  else mkPrecomputed uint256_null uint256_null uint256_null false.

(** [uint256S("00...01")]: the least significant byte is the first. *)
Definition uint256_one : uint256 := 1 :: repeat 0 31.

(** The three hashes of the witness version, [cache] being a pointer. *)
Definition witness_hashes (txTo : CTransaction) (nIn nHashType : Z) (cache : option PrecomputedTransactionData)
    : uint256 * uint256 * uint256 :=
  let cached (f : PrecomputedTransactionData → uint256) (h : uint256) :=
    match cache with Some c => if ready c then f c else h | None => h end in
  let hashPrevouts :=
    if negb (fAnyoneCanPay nHashType) then cached hashPrevouts (GetPrevoutHash txTo) else uint256_null in
  let hashSequence :=
    if negb (fAnyoneCanPay nHashType) && negb (fHashSingle nHashType) && negb (fHashNone nHashType)
    then cached hashSequence (GetSequenceHash txTo) else uint256_null in
  let hashOutputs :=
    if negb (fHashSingle nHashType) && negb (fHashNone nHashType) then cached hashOutputs (GetOutputsHash txTo)
    else if fHashSingle nHashType && (nIn <? size (vout txTo))
         then Hash mem [Serialize (nth (Z.to_nat nIn) (vout txTo) CTxOut_SetNull)]
    else uint256_null in
  (hashPrevouts, hashSequence, hashOutputs).

(** What is written to the hash, field by field. *)
Definition witness_preimage (scriptCode : CScript) (txTo : CTransaction) (nIn nHashType amount : Z)
    (cache : option PrecomputedTransactionData) : list bytes :=
  let '(hashPrevouts, hashSequence, hashOutputs) := witness_hashes txTo nIn nHashType cache in
  let txin := nth (Z.to_nat nIn) (vin txTo) null_txin in
  [ser_write_i32 (tx_nVersion txTo); hashPrevouts; hashSequence; Serialize (prevout txin); Serialize_bytes scriptCode;
   ser_write_i64 amount; ser_writedata32 (nSequence txin); hashOutputs; ser_writedata32 (nLockTime txTo);
   ser_write_i32 nHashType].

(** [None] is the failed assertion. *)
Definition SignatureHash (scriptCode : CScript) (txTo : CTransaction) (nIn nHashType amount : Z) (sigversion : SigVersion)
    (cache : option PrecomputedTransactionData) : option uint256 :=
  if negb (nIn <? size (vin txTo)) then None
  else if negb (is_base sigversion) then Some (Hash mem (witness_preimage scriptCode txTo nIn nHashType amount cache))
  else if fHashSingle nHashType && (size (vout txTo) <=? nIn) then Some uint256_one
  else Some (Hash mem [CTransactionSignatureSerializer_Serialize txTo scriptCode nIn nHashType; ser_write_i32 nHashType]).

(** ** The earlier definition (test/sighash_tests.cpp) *)

Definition set_scriptSig (i : CTxIn) (s : CScript) : CTxIn := mkCTxIn (prevout i) s (nSequence i) (scriptWitness i).
Definition set_nSequence (i : CTxIn) (n : Z) : CTxIn := mkCTxIn (prevout i) (scriptSig i) n (scriptWitness i).

(** [if (i != nIn) vin[i].nSequence = 0] for every input. *)
Definition zero_sequences (nIn : Z) (l : list CTxIn) : list CTxIn :=
  imap (λ i txin, if negb (Z.of_nat i =? nIn) then set_nSequence txin 0 else txin) l.

Definition SignatureHashOld (scriptCode : CScript) (txTo : CTransaction) (nIn nHashType : Z) : uint256 :=
  if size (vin txTo) <=? nIn then uint256_one
  else
    let n := Z.to_nat nIn in
    let scriptCode := (FindAndDelete scriptCode [OP_CODESEPARATOR]).1 in
    let vin1 := map (λ i, set_scriptSig i []) (vin txTo) in
    let vin1 := upd n (set_scriptSig (nth n vin1 null_txin) scriptCode) vin1 in
    let finish vin2 vout2 :=
      let vin2 := if fAnyoneCanPay nHashType then [nth n vin2 null_txin] else vin2 in
      Hash mem [SerializeTransaction SERIALIZE_TRANSACTION_NO_WITNESS
                  (mkCTransaction (tx_nVersion txTo) vin2 vout2 (nLockTime txTo)); ser_write_i32 nHashType] in
    if fHashNone nHashType then finish (zero_sequences nIn vin1) []
    else if fHashSingle nHashType then
      if size (vout txTo) <=? nIn then uint256_one
      else finish (zero_sequences nIn vin1) (repeat CTxOut_SetNull n ++ [nth n (vout txTo) CTxOut_SetNull])
    else finish vin1 (vout txTo).
End SigHash.

(** * The checker *)

(** [CPubKey] (pubkey.h): the bytes of a key; an invalid one has the first byte 0xFF. *)
Definition GetLen (chHeader : Z) : Z :=
  if (chHeader =? 2) || (chHeader =? 3) then 33
  else if (chHeader =? 4) || (chHeader =? 6) || (chHeader =? 7) then 65 else 0.
Definition CPubKey_Set (vch : bytes) : bytes :=
  let len := match vch with [] => 0 | x :: _ => GetLen x end in
  if negb (len =? 0) && (len =? size vch) then vch else [0xFF].
Definition CPubKey_IsValid (key : bytes) : bool := 0 <? GetLen (byte_at key 0).

Section Checker.
Context (mem : bytes).
(** [CPubKey::Verify] of a key on a hash and a signature. *)
Context (Verify : bytes → uint256 → bytes → bool).
Context (txTo : CTransaction) (nIn amount : Z) (txdata : option PrecomputedTransactionData).

Definition VerifySignature (vchSig pubkey : bytes) (sighash : uint256) : bool := Verify pubkey sighash vchSig.

(** A failed assertion counts as no success. *)
Definition tx_CheckSig (vchSigIn vchPubKey : valtype) (scriptCode : CScript) (sigversion : SigVersion) : bool :=
  let pubkey := CPubKey_Set vchPubKey in
  if negb (CPubKey_IsValid pubkey) then false
  else
    match vchSigIn with
    | [] => false
    | _ =>
        let nHashType := List.last vchSigIn 0 in
        let vchSig := removelast vchSigIn in
        match SignatureHash mem scriptCode txTo nIn nHashType amount sigversion txdata with
        | Some sighash => VerifySignature vchSig pubkey sighash
        | None => false
        end
    end.

Definition tx_CheckLockTime (n : Z) : bool :=
  if negb (((nLockTime txTo <? LOCKTIME_THRESHOLD) && (n <? LOCKTIME_THRESHOLD)) ||
           ((LOCKTIME_THRESHOLD <=? nLockTime txTo) && (LOCKTIME_THRESHOLD <=? n))) then false
  else if nLockTime txTo <? n then false
  else negb (SEQUENCE_FINAL =? nSequence (nth (Z.to_nat nIn) (vin txTo) null_txin)).

Definition tx_CheckSequence (n : Z) : bool :=
  let txToSequence := nSequence (nth (Z.to_nat nIn) (vin txTo) null_txin) in
  if u32 (tx_nVersion txTo) <? 2 then false
  else if negb (Z.land txToSequence SEQUENCE_LOCKTIME_DISABLE_FLAG =? 0) then false
  else
    let nLockTimeMask := Z.lor SEQUENCE_LOCKTIME_TYPE_FLAG SEQUENCE_LOCKTIME_MASK in
    let txToSequenceMasked := Z.land txToSequence nLockTimeMask in
    let nSequenceMasked := Z.land n nLockTimeMask in
    if negb (((txToSequenceMasked <? SEQUENCE_LOCKTIME_TYPE_FLAG) && (nSequenceMasked <? SEQUENCE_LOCKTIME_TYPE_FLAG)) ||
             ((SEQUENCE_LOCKTIME_TYPE_FLAG <=? txToSequenceMasked) && (SEQUENCE_LOCKTIME_TYPE_FLAG <=? nSequenceMasked))) then false
    else negb (txToSequenceMasked <? nSequenceMasked).

Definition TransactionSignatureChecker : BaseSignatureChecker := {|
  CheckSig := tx_CheckSig; CheckLockTime := tx_CheckLockTime; CheckSequence := tx_CheckSequence |}.
End Checker.

(** * The script without its separators *)

(** The instructions of a script other than [OP_CODESEPARATOR], with what follows the
    last one that can be read. *)
Fixpoint kept_from (fuel : nat) (pc : bytes) : bytes :=
  match fuel with
  | O => pc
  | S fuel' =>
      let '(ok, pc', opcode, _) := GetOp pc in
      if (ok : bool) then
        (if opcode =? OP_CODESEPARATOR then [] else take (length pc - length pc') pc) ++ kept_from fuel' pc'
      else pc
  end.
Definition without_separators (script : CScript) : CScript := kept_from (length script) script.

(** An instruction is read from the front: its bytes and the rest. *)
Lemma GetOp_split pc pc' op d : GetOp pc = (true, pc', op, d) →
  pc = take (length pc - length pc') pc ++ pc' ∧ (length pc' < length pc)%nat.
Proof.
  intros E. pose proof (GetOp_length _ _ _ _ E). split; [|done]. apply GetOp_true in E as (pre & -> & _).
  cbn [length]. rewrite length_app. replace (S (length pre + length pc') - length pc')%nat with (S (length pre)) by lia.
  cbn [take app]. by rewrite take_app_length.
Qed.

Lemma GetOp2_data_op a b c pc' op d : GetOp2_data a b c = (true, pc', op, d) → op = b.
Proof. unfold GetOp2_data. destruct (_ <? _); [done|]. intros ?. by simplify_eq. Qed.

Lemma GetOp_separator pc pc' d : GetOp pc = (true, pc', OP_CODESEPARATOR, d) → pc = OP_CODESEPARATOR :: pc'.
Proof.
  intros E. unfold GetOp in E. destruct pc as [|x pc]; [done|]. destruct (Z.leb_spec x OP_PUSHDATA4).
  - repeat case_match; try done; apply GetOp2_data_op in E; lia.
  - destruct (x =? OP_cmusicai_ASSET) eqn:Ea; [|by simplify_eq].
    apply Z.eqb_eq in Ea as ->. by simplify_eq.
Qed.

Lemma kept_from_fuel fuel : ∀ pc, (length pc ≤ fuel)%nat → kept_from fuel pc = without_separators pc.
Proof.
  unfold without_separators. assert (∀ k fuel pc, (length pc ≤ k)%nat → (k ≤ fuel)%nat → kept_from fuel pc = kept_from k pc) as H.
  { induction k as [|k IH]; intros [|fuel'] pc Hk Hf; cbn [kept_from]; try lia; [done| |].
    - destruct pc; [done|cbn [length] in Hk; lia].
    - destruct (GetOp pc) as [[[[] pc'] op] d] eqn:E; [|done]. pose proof (GetOp_length _ _ _ _ E). by rewrite IH by lia. }
  intros pc Hf. by apply H.
Qed.

Lemma without_separators_step pc pc' op d : GetOp pc = (true, pc', op, d) →
  without_separators pc = (if op =? OP_CODESEPARATOR then [] else take (length pc - length pc') pc) ++ without_separators pc'.
Proof.
  intros E. pose proof (GetOp_length _ _ _ _ E) as Hl. rewrite <- (kept_from_fuel (length pc)) by done.
  destruct pc as [|x pc]; [done|]. cbn [length kept_from]. rewrite E. cbn [length] in Hl. by rewrite kept_from_fuel by lia.
Qed.

Lemma without_separators_fail pc pc' op d : GetOp pc = (false, pc', op, d) → without_separators pc = pc.
Proof. intros E. unfold without_separators. destruct pc as [|x pc]; [done|]. cbn [length kept_from]. by rewrite E. Qed.

Lemma without_separators_cons pc : without_separators (OP_CODESEPARATOR :: pc) = without_separators pc.
Proof. by rewrite (without_separators_step _ pc OP_CODESEPARATOR []) by (by apply GetOp_opcode). Qed.

(** A complete script: every instruction can be read. *)
Definition complete (script : CScript) : Prop := (ops script).2 = true.

Lemma complete_step pc pc' op d : GetOp pc = (true, pc', op, d) → complete pc → complete pc'.
Proof. intros E. unfold complete. rewrite (ops_cons _ _ _ _ E). by destruct (ops pc'). Qed.

Lemma complete_fail pc pc' op d : GetOp pc = (false, pc', op, d) → complete pc → pc = [].
Proof. intros E. unfold complete. destruct pc as [|x pc]; [done|].
  rewrite (ops_fail (x :: pc) pc' op d ltac:(done) E). discriminate. Qed.

Lemma count_separators_spec fuel : ∀ it n, (length it < fuel)%nat →
  count_separators fuel it n = n + size it - size (without_separators it).
Proof.
  induction fuel as [|fuel IH]; intros it n Hf; [lia|]. cbn [count_separators].
  destruct (GetOp it) as [[[[] it'] op] d] eqn:E; cbn [negb].
  - destruct (GetOp_split _ _ _ _ E) as [Hs Hl]. rewrite IH, (without_separators_step _ _ _ _ E) by lia.
    destruct (Z.eqb_spec op OP_CODESEPARATOR) as [->|].
    + apply GetOp_separator in E as ->. unfold size. cbn [app length]. lia.
    + rewrite size_app. pose proof (f_equal size Hs) as Hz. rewrite size_app in Hz. lia.
  - rewrite (without_separators_fail _ _ _ _ E). lia.
Qed.

Lemma write_code_spec fuel : ∀ kept it, (length it < fuel)%nat → complete it →
  write_code fuel (kept ++ it) it = kept ++ without_separators it.
Proof.
  induction fuel as [|fuel IH]; intros kept it Hf Hc; [lia|]. cbn [write_code].
  destruct (GetOp it) as [[[[] it'] op] d] eqn:E.
  - destruct (GetOp_split _ _ _ _ E) as [Hs Hl]. pose proof (complete_step _ _ _ _ E Hc) as Hc'.
    rewrite (without_separators_step _ _ _ _ E). destruct (Z.eqb_spec op OP_CODESEPARATOR) as [->|].
    + apply GetOp_separator in E as ->. rewrite length_app. cbn [length].
      replace (length kept + S (length it') - length it' - 1)%nat with (length kept) by lia. rewrite take_app_length.
      cbn [app]. f_equal. cbn [length] in Hf. apply (IH [] it'); [lia|done].
    + rewrite Hs at 1. rewrite app_assoc, IH by (done || lia). by rewrite app_assoc.
  - pose proof (complete_fail _ _ _ _ E Hc) as ->. injection E as <- <- <-. rewrite !app_nil_r, Nat.sub_0_r, firstn_all.
    by destruct kept.
Qed.

(** A complete script is written without its separators, as a vector. *)
Lemma SerializeScriptCode_spec script : complete script →
  SerializeScriptCode script = Serialize_bytes (without_separators script).
Proof.
  intros Hc. unfold SerializeScriptCode, Serialize_bytes. rewrite count_separators_spec by lia.
  rewrite (write_code_spec _ [] script) by (done || lia). f_equal. f_equal. unfold size. lia.
Qed.

(** ** [FindAndDelete] of the separator *)

Lemma skip_separators fuel : ∀ pc n pc' n', (length pc ≤ fuel)%nat → skip_matches fuel [OP_CODESEPARATOR] pc n = (pc', n') →
  without_separators pc = without_separators pc' ∧ (length pc' ≤ length pc)%nat ∧ n ≤ n' ∧ (n' = n → pc' = pc) ∧
  starts_with [OP_CODESEPARATOR] pc' = false.
Proof.
  induction fuel as [|fuel IH]; intros pc n pc' n' Hf; cbn [skip_matches];
    [destruct pc; [|cbn [length] in Hf; lia]; intros [= <- <-]; split_and!; (done || lia)|].
  destruct pc as [|x pc]; cbn [starts_with]; [intros [= <- <-]; split_and!; (done || lia)|].
  destruct (Z.eqb_spec OP_CODESEPARATOR x) as [<-|]; cbn [andb length skipn];
    [|intros [= <- <-]; cbn [starts_with]; rewrite (proj2 (Z.eqb_neq _ _)) by done; split_and!; (done || lia)].
  replace (starts_with [] pc) with true by (by destruct pc). rewrite drop_0. intros E. cbn [length] in Hf.
  apply IH in E as (Hw & Hl & Hn & _ & Hs); [|lia].
  rewrite without_separators_cons. cbn [length]. split_and!; [done|lia|lia|intros; exfalso; lia|done].
Qed.

Lemma FindAndDelete_loop_spec fuel : ∀ chunk pc result n r pc2 n', (length pc ≤ fuel)%nat →
  FindAndDelete_loop fuel [OP_CODESEPARATOR] (chunk ++ pc) pc result n = (r, pc2, n') →
  r ++ pc2 = result ++ chunk ++ without_separators pc ∧ n ≤ n' ∧ (n' = n → without_separators pc = pc).
Proof.
  induction fuel as [|fuel IH]; intros chunk pc result n r pc2 n' Hf; cbn [FindAndDelete_loop];
    rewrite length_app, Nat.add_sub, take_app_length;
    destruct (skip_matches (length pc) [OP_CODESEPARATOR] pc n) as [pc1 n1] eqn:Es;
    apply skip_separators in Es as (Hw & Hl & Hn & Hi & Hsep); [|done| |done].
  - destruct pc; [|cbn [length] in Hf; lia]. destruct pc1; [|cbn [length] in Hl; lia].
    intros [= <- <- <-]. rewrite <- app_assoc. split_and!; done.
  - destruct (GetOp pc1) as [[[[] pc1'] op] d] eqn:E.
    + destruct (GetOp_split _ _ _ _ E) as [Hs Hl']. rewrite Hs at 1. intros E2. apply IH in E2 as (Hr & Hn' & Hi'); [|lia].
      rewrite Hr, Hw, (without_separators_step _ _ _ _ E).
      assert ((op =? OP_CODESEPARATOR) = false) as ->.
      { apply Z.eqb_neq. intros ->. apply GetOp_separator in E as ->. by destruct pc1'. }
      rewrite <- !app_assoc. split_and!; [done|lia|]. intros ->. rewrite Hi' by lia. rewrite <- Hs. apply Hi. lia.
    + rewrite (without_separators_fail _ _ _ _ E) in Hw. intros [= <- <- <-]. rewrite Hw, <- app_assoc. done.
Qed.

Lemma FindAndDelete_separators script : (FindAndDelete script [OP_CODESEPARATOR]).1 = without_separators script.
Proof.
  unfold FindAndDelete. destruct (FindAndDelete_loop _ _ _ _ _ _) as [[r pc2] n'] eqn:E.
  apply (FindAndDelete_loop_spec _ []) in E as (Hr & Hn & Hi); [|done]. cbn [app fst] in *.
  destruct (Z.ltb_spec 0 n'); [done|]. symmetry. apply Hi. lia.
Qed.

(** * The serializer and the earlier definition *)

Lemma map_upto {A} (f : Z → A) n : map f (upto (Z.of_nat n)) = map (λ i, f (Z.of_nat i)) (seq 0 n).
Proof. unfold upto. by rewrite Nat2Z.id, map_map. Qed.

Lemma map_seq_nth {A B} (f : nat → A → B) (l : list A) d :
  map (λ i, f i (nth i l d)) (seq 0 (length l)) = imap f l.
Proof.
  revert f. induction l as [|x l IH]; intros f; [done|]. cbn [length seq map imap]. f_equal.
  by rewrite <- IH, <- seq_shift, map_map.
Qed.

Lemma Serialize_vector_eq {A} `{Serializable A} (l : list A) :
  Serialize_vector l = WriteCompactSize (size l) ++ concat (map Serialize l).
Proof. done. Qed.

Lemma SerializeTransaction_basic v l o t :
  SerializeTransaction SERIALIZE_TRANSACTION_NO_WITNESS (mkCTransaction v l o t) =
  ser_write_i32 v ++ Serialize_vector l ++ Serialize_vector o ++ ser_writedata32 t.
Proof. done. Qed.

Lemma imap_imap {A B C} (f : nat → B → C) (g : nat → A → B) l : imap f (imap g l) = imap (λ i x, f i (g i x)) l.
Proof. revert f g. induction l as [|x l IH]; intros f g; cbn [imap]; [done|]. f_equal. apply IH. Qed.

Lemma nth_imap {A B} (f : nat → A → B) l n d d' : (n < length l)%nat → nth n (imap f l) d' = f n (nth n l d).
Proof.
  revert f n. induction l as [|x l IH]; intros f n Hn; [cbn in Hn; lia|]. destruct n as [|n]; [done|].
  cbn [imap nth]. cbn in Hn. rewrite (IH (f ∘ S)) by lia. done.
Qed.

Lemma map_repeat_eq {A B} (f : A → B) c l : (∀ x, In x l → f x = c) → map f l = repeat c (length l).
Proof.
  induction l as [|x l IH]; intros H; cbn [map length repeat]; [done|]. f_equal; [by apply H; left|].
  apply IH. intros y Hy. by apply H; right.
Qed.

Section Equivalence.
Context (txTo : CTransaction) (scriptCode : CScript) (nIn nHashType : Z).
Context (Hcode : complete scriptCode) (HnIn : 0 ≤ nIn < size (vin txTo)).
Context (Hvin : size (vin txTo) < 2 ^ 32) (Hvout : size (vout txTo) < 2 ^ 32).

(** The input [i] as the earlier definition leaves it. *)
Definition old_input (zero : bool) (i : nat) (txin : CTxIn) : CTxIn :=
  let own := Z.of_nat i =? nIn in
  let txin := set_scriptSig txin (if own then without_separators scriptCode else []) in
  if zero && negb own then set_nSequence txin 0 else txin.

Lemma upd_imap {A B} (f g : nat → A → B) n l d : (n < length l)%nat → (∀ i x, i ≠ n → f i x = g i x) →
  upd n (f n (nth n l d)) (imap g l) = imap f l.
Proof.
  revert n f g. induction l as [|x l IH]; intros n f g Hn H; [cbn in Hn; lia|].
  destruct n as [|n]; cbn [imap upd nth].
  - f_equal. apply imap_ext. intros i y _. symmetry. by apply H.
  - f_equal; [symmetry; by apply H|]. apply (IH n (f ∘ S)); [cbn in Hn; lia|]. intros i y Hi. apply H. lia.
Qed.

Lemma old_inputs_eq : let vin1 := map (λ i, set_scriptSig i []) (vin txTo) in
  upd (Z.to_nat nIn) (set_scriptSig (nth (Z.to_nat nIn) vin1 null_txin) (without_separators scriptCode)) vin1 =
  imap (old_input false) (vin txTo).
Proof using HnIn.
  intros vin1. assert (Hn : (Z.to_nat nIn < length (vin txTo))%nat) by (unfold size in HnIn; lia).
  replace (set_scriptSig (nth (Z.to_nat nIn) vin1 null_txin) (without_separators scriptCode))
    with (old_input false (Z.to_nat nIn) (nth (Z.to_nat nIn) (vin txTo) null_txin)).
  - unfold vin1. rewrite <- (imap_const (λ i, set_scriptSig i [])). apply upd_imap; [done|].
    intros i x Hi. unfold old_input. by rewrite (proj2 (Z.eqb_neq _ _)) by lia.
  - unfold old_input. rewrite Z2Nat.id, Z.eqb_refl by lia. unfold vin1. cbn [andb].
    rewrite (nth_indep (map _ _) null_txin (set_scriptSig null_txin [])) by (by rewrite length_map).
    by rewrite (map_nth (λ i, set_scriptSig i [])).
Qed.

Lemma old_inputs_zero : zero_sequences nIn (imap (old_input false) (vin txTo)) = imap (old_input true) (vin txTo).
Proof.
  unfold zero_sequences. rewrite imap_imap. apply imap_ext. intros i x _. unfold old_input. cbn [andb].
  by destruct (Z.of_nat i =? nIn).
Qed.

Lemma SerializeInput_old i txin : txin = nth i (vin txTo) null_txin → fAnyoneCanPay nHashType = false →
  SerializeInput txTo scriptCode nIn nHashType (Z.of_nat i) =
  Serialize (old_input (fHashSingle nHashType || fHashNone nHashType) i txin).
Proof using Hcode.
  intros -> Ha. unfold SerializeInput, old_input. rewrite Ha, Nat2Z.id. cbn [Serialize CTxIn_ser].
  destruct (Z.of_nat i =? nIn); cbn [negb andb].
  - rewrite andb_false_r, SerializeScriptCode_spec by done. done.
  - destruct (_ || _); done.
Qed.

Lemma SerializeInput_anyone i : fAnyoneCanPay nHashType = true →
  SerializeInput txTo scriptCode nIn nHashType i =
  Serialize (old_input (fHashSingle nHashType || fHashNone nHashType) (Z.to_nat nIn) (nth (Z.to_nat nIn) (vin txTo) null_txin)).
Proof using Hcode HnIn.
  intros Ha. unfold SerializeInput, old_input. rewrite Ha, Z2Nat.id, Z.eqb_refl by lia. cbn [negb andb].
  rewrite andb_false_r, SerializeScriptCode_spec by done. done.
Qed.

Lemma inputs_old :
  (let nInputs := if fAnyoneCanPay nHashType then 1 else u32 (size (vin txTo)) in
   WriteCompactSize nInputs ++ concat (map (SerializeInput txTo scriptCode nIn nHashType) (upto nInputs))) =
  (let vin2 := imap (old_input (fHashSingle nHashType || fHashNone nHashType)) (vin txTo) in
   Serialize_vector (if fAnyoneCanPay nHashType then [nth (Z.to_nat nIn) vin2 null_txin] else vin2)).
Proof using Hcode HnIn Hvin.
  cbv zeta. rewrite Serialize_vector_eq. destruct (fAnyoneCanPay nHashType) eqn:Ha.
  - change (upto 1) with [0]. cbn [map concat]. rewrite SerializeInput_anyone by done.
    rewrite (nth_imap _ _ _ null_txin null_txin) by (unfold size in HnIn; lia). done.
  - rewrite u32_small by (pose proof (size_nonneg (vin txTo)); unfold is_u32; lia).
    unfold size at 3. rewrite length_imap. fold (size (vin txTo)). f_equal. f_equal.
    unfold size. rewrite map_upto. rewrite <- (map_seq_nth _ (vin txTo) null_txin), map_map.
    apply map_ext. intros i. by apply SerializeInput_old.
Qed.

Lemma outputs_old : fHashSingle nHashType = false ∨ nIn < size (vout txTo) →
  (let nOutputs := if fHashNone nHashType then 0
                   else if fHashSingle nHashType then u32 (nIn + 1) else u32 (size (vout txTo)) in
   WriteCompactSize nOutputs ++ concat (map (SerializeOutput txTo nIn nHashType) (upto nOutputs))) =
  Serialize_vector (if fHashNone nHashType then [] else if fHashSingle nHashType
    then repeat CTxOut_SetNull (Z.to_nat nIn) ++ [nth (Z.to_nat nIn) (vout txTo) CTxOut_SetNull] else vout txTo).
Proof using HnIn Hvout.
  clear Hvin Hcode. cbv zeta. rewrite Serialize_vector_eq. destruct (fHashNone nHashType); [done|].
  unfold SerializeOutput. destruct (fHashSingle nHashType) eqn:Hs; cbn [andb].
  - intros [|Hlt]; [done|]. rewrite u32_small by (unfold is_u32; lia). 
    replace (nIn + 1) with (Z.of_nat (S (Z.to_nat nIn))) by lia. f_equal.
    + unfold size. rewrite length_app, repeat_length. cbn [length]. f_equal. lia.
    + f_equal. rewrite map_upto, seq_S, !map_app, map_repeat. cbn [map]. f_equal.
      * rewrite <- (length_seq (Z.to_nat nIn) 0) at 2. apply map_repeat_eq. intros i Hi%in_seq.
        by rewrite (proj2 (Z.eqb_neq _ _)) by lia.
      * cbn [Nat.add]. rewrite Z2Nat.id, Z.eqb_refl by lia. done.
  - intros _. rewrite u32_small by (pose proof (size_nonneg (vout txTo)); unfold is_u32; lia).
    f_equal. f_equal. unfold size. rewrite map_upto. rewrite <- (imap_const Serialize), <- (map_seq_nth _ _ CTxOut_SetNull).
    apply map_ext. intros i. by rewrite Nat2Z.id.
Qed.
End Equivalence.

(** C16: the serializer that hashes a transaction for a signature in place, without a copy, computes the
    hash of the earlier definition (test/sighash_tests.cpp), which blanks out a copy of the
    transaction: for every type of hash and every input, provided that the instructions of the script can be
    read to its end. *)
Theorem SignatureHash_Old mem scriptCode txTo nIn nHashType amount cache :
  complete scriptCode → 0 ≤ nIn < size (vin txTo) → size (vin txTo) < 2 ^ 32 → size (vout txTo) < 2 ^ 32 →
  SignatureHash mem scriptCode txTo nIn nHashType amount SIGVERSION_BASE cache =
  Some (SignatureHashOld mem scriptCode txTo nIn nHashType).
Proof.
  intros Hc Hn Hvin Hvout. unfold SignatureHash, SignatureHashOld. cbn [is_base negb].
  rewrite (proj2 (Z.ltb_lt _ _)), (proj2 (Z.leb_gt (size (vin txTo)) nIn)) by lia. cbn [negb].
  rewrite FindAndDelete_separators, (old_inputs_eq txTo scriptCode nIn Hn), old_inputs_zero.
  pose proof (inputs_old txTo scriptCode nIn nHashType Hc Hn Hvin) as Hi.
  pose proof (outputs_old txTo nIn nHashType Hn Hvout) as Ho. cbv zeta in Hi, Ho |- *.
  assert (Hser : fHashSingle nHashType = false ∨ nIn < size (vout txTo) →
    CTransactionSignatureSerializer_Serialize txTo scriptCode nIn nHashType =
    SerializeTransaction SERIALIZE_TRANSACTION_NO_WITNESS (mkCTransaction (tx_nVersion txTo)
      (let vin2 := imap (old_input scriptCode nIn (fHashSingle nHashType || fHashNone nHashType)) (vin txTo) in
       if fAnyoneCanPay nHashType then [nth (Z.to_nat nIn) vin2 null_txin] else vin2)
      (if fHashNone nHashType then [] else if fHashSingle nHashType
       then repeat CTxOut_SetNull (Z.to_nat nIn) ++ [nth (Z.to_nat nIn) (vout txTo) CTxOut_SetNull] else vout txTo)
      (nLockTime txTo))).
  { intros H. specialize (Ho H). rewrite SerializeTransaction_basic. cbv zeta.
    rewrite <- Hi, <- Ho. unfold CTransactionSignatureSerializer_Serialize. cbv zeta. by rewrite <- !app_assoc. }
  destruct (fHashSingle nHashType) eqn:Es; cbn [andb orb] in *.
  - assert (fHashNone nHashType = false) as En.
    { unfold fHashSingle, fHashNone in *. apply Z.eqb_eq in Es. by rewrite Es. }
    rewrite En in *. destruct (Z.leb_spec (size (vout txTo)) nIn); [done|]. by rewrite Hser by auto.
  - rewrite Hser by auto. by destruct (fHashNone nHashType).
Qed.

Lemma SignatureHash_Old_witness :
  complete [OP_CODESEPARATOR; 2; 7; 8; OP_CHECKSIG] ∧
  SignatureHash (repeat 0 64) [OP_CODESEPARATOR; 2; 7; 8; OP_CHECKSIG] (example_tx [[1]]) 0 SIGHASH_SINGLE 5 SIGVERSION_BASE None =
  Some (SignatureHashOld (repeat 0 64) [OP_CODESEPARATOR; 2; 7; 8; OP_CHECKSIG] (example_tx [[1]]) 0 SIGHASH_SINGLE).
Proof.
  assert (complete [OP_CODESEPARATOR; 2; 7; 8; OP_CHECKSIG]) as Hc by (vm_compute; reflexivity).
  split; [exact Hc|]. apply SignatureHash_Old; [exact Hc|vm_compute; split; congruence|vm_compute; reflexivity..].
Defined.

(** The condition on the script is needed: of an unfinished push the serializer announces all the bytes and
    writes only the first. *)
Lemma SerializeScriptCode_truncated : SerializeScriptCode [2; 7] = [2; 2] ∧ Serialize_bytes [2; 7] = [2; 2; 7].
Proof. vm_compute. done. Qed.

(** * What a signature covers *)

Lemma codec_inj {A} (w : A → bytes) r P a a' t t' : codec w r P → P a → P a' → w a ++ t = w a' ++ t' → a = a' ∧ t = t'.
Proof.
  intros C Ha Ha' E. pose proof (codec_read _ _ _ C a t Ha) as E1. rewrite E, (codec_read _ _ _ C a' t' Ha') in E1.
  by injection E1 as -> ->.
Qed.

Lemma codec_concat_inj {A} (w : A → bytes) r P l : codec w r P → (∀ a, P a → w a ≠ []) → ∀ l', Forall P l → Forall P l' →
  concat (map w l) = concat (map w l') → l = l'.
Proof.
  intros C Hne. assert (∀ a x, P a → [] = w a ++ x → False) as Hnil.
  { intros a x Ha E. symmetry in E. apply app_eq_nil in E as [E _]. by apply (Hne a). }
  induction l as [|a l IH]; intros [|a' l'] Hl Hl' E; cbn [map concat] in E; [done| | |].
  - apply Forall_cons_iff in Hl' as [Ha' _]. by apply Hnil in E.
  - apply Forall_cons_iff in Hl as [Ha _]. symmetry in E. by apply Hnil in E.
  - apply Forall_cons_iff in Hl as [Ha Hl], Hl' as [Ha' Hl'].
    apply (codec_inj w r P) in E as [-> E]; [|done..]. f_equal. by apply IH.
Qed.

(** Two of the messages have the same double hash without being equal. *)
Definition message_collision (l l' : list bytes) : Prop :=
  ∃ m m', m ∈ l ∧ m' ∈ l' ∧ m ≠ m' ∧ sha256 (sha256 m) = sha256 (sha256 m').

(** The messages hashed for a signature in a witness program. *)
Definition prevouts_message (tx : CTransaction) : bytes := concat (map (λ txin, Serialize (prevout txin)) (vin tx)).
Definition sequences_message (tx : CTransaction) : bytes := concat (map (λ txin, ser_writedata32 (nSequence txin)) (vin tx)).
Definition outputs_message (tx : CTransaction) : bytes := concat (map Serialize (vout tx)).
Definition output_message (tx : CTransaction) (nIn : Z) : bytes := Serialize (nth (Z.to_nat nIn) (vout tx) CTxOut_SetNull).
Definition signed_messages (mem : bytes) (scriptCode : CScript) (tx : CTransaction) (nIn nHashType amount : Z) : list bytes :=
  [concat (witness_preimage mem scriptCode tx nIn nHashType amount None);
   prevouts_message tx; sequences_message tx; outputs_message tx; output_message tx nIn].

#[local] Opaque Hash sha256.

Section Covers.
Context (mem : bytes) (Hmem : length mem = 64%nat).

Lemma Hash_collision l l' m m' : m ∈ l → m' ∈ l' → sha256 (sha256 m) = sha256 (sha256 m') → message_collision l l' ∨ m = m'.
Proof. intros. destruct (decide (m = m')); [by right|left]. by exists m, m'. Qed.

Lemma Hash_ok parts : uint256_ok (Hash mem parts).
Proof using Hmem. rewrite Hash_spec by exact Hmem. apply sha256_bytes. Qed.

Lemma uint256_null_ok : uint256_ok uint256_null.
Proof. split; [|done]. apply List.Forall_forall. intros x ->%repeat_spec. unfold_words. lia. Qed.

(** The cache of the transaction gives the hashes that are computed without. *)
Lemma witness_hashes_cached tx nIn nHashType :
  witness_hashes mem tx nIn nHashType (Some (PrecomputedTransactionData_init mem tx)) = witness_hashes mem tx nIn nHashType None.
Proof. unfold witness_hashes, PrecomputedTransactionData_init. by destruct (HasWitness tx). Qed.

Lemma witness_hashes_ok tx nIn nHashType cache : cache = None ∨ cache = Some (PrecomputedTransactionData_init mem tx) →
  let '(a, b, c) := witness_hashes mem tx nIn nHashType cache in uint256_ok a ∧ uint256_ok b ∧ uint256_ok c.
Proof using Hmem.
  intros H. assert (witness_hashes mem tx nIn nHashType cache = witness_hashes mem tx nIn nHashType None) as ->
    by (destruct H as [-> | ->]; [done|apply witness_hashes_cached]).
  unfold witness_hashes, GetPrevoutHash, GetSequenceHash, GetOutputsHash.
  pose proof Hash_ok. pose proof uint256_null_ok. split_and!; repeat case_match; auto.
Qed.

Definition input_of (tx : CTransaction) (nIn : Z) : CTxIn := nth (Z.to_nat nIn) (vin tx) null_txin.

(** The fields of a signed message that are of a machine type or of a fixed length. *)
Definition fields_ok (tx : CTransaction) (nIn nHashType amount : Z) (scriptCode : CScript) : Prop :=
  tx_ok tx ∧ 0 ≤ nIn < size (vin tx) ∧ is_i32 nHashType ∧ is_i64 amount ∧ is_vec scriptCode.

Lemma fields_ok_input tx nIn ht amount code : fields_ok tx nIn ht amount code →
  outpoint_ok (prevout (input_of tx nIn)) ∧ is_u32 (nSequence (input_of tx nIn)).
Proof.
  intros ((_ & [Hv _] & _) & Hn & _). unfold input_of, size in *.
  assert (txin_ok (strip (nth (Z.to_nat nIn) (vin tx) null_txin))) as (Ho & _ & Hs & _); [|done].
  rewrite <- map_nth. eapply List.Forall_forall; [exact Hv|]. apply nth_In. rewrite length_map. lia.
Qed.

Lemma inputs_ok tx : tx_ok tx → Forall outpoint_ok (map prevout (vin tx)) ∧ Forall is_u32 (map nSequence (vin tx)).
Proof.
  intros (_ & [Hv _] & _). rewrite !Forall_map. rewrite Forall_map in Hv.
  split; (eapply List.Forall_impl; [|exact Hv]); intros i (H1 & _ & H2 & _); [exact H1|exact H2].
Qed.

Lemma messages_inj tx tx' : tx_ok tx → tx_ok tx' →
  (prevouts_message tx = prevouts_message tx' → map prevout (vin tx) = map prevout (vin tx')) ∧
  (sequences_message tx = sequences_message tx' → map nSequence (vin tx) = map nSequence (vin tx')) ∧
  (outputs_message tx = outputs_message tx' → vout tx = vout tx').
Proof.
  intros T T'. destruct (inputs_ok _ T) as [To Ts], (inputs_ok _ T') as [To' Ts'].
  destruct T as (_ & _ & _ & [Tv _] & _), T' as (_ & _ & _ & [Tv' _] & _).
  unfold prevouts_message, sequences_message, outputs_message.
  rewrite <- (map_map prevout Serialize (vin tx)), <- (map_map prevout Serialize (vin tx')).
  rewrite <- (map_map nSequence ser_writedata32 (vin tx)), <- (map_map nSequence ser_writedata32 (vin tx')).
  split_and!.
  - apply (codec_concat_inj _ _ _ _ codec_COutPoint); [|done..]. intros [h n] _ E. by apply app_eq_nil in E as [_ E].
  - by apply (codec_concat_inj _ _ _ _ codec_u32).
  - by apply (codec_concat_inj _ _ _ _ CTxOut_codec).
Qed.

Lemma output_inj tx nIn tx' nIn' : tx_ok tx → tx_ok tx' → 0 ≤ nIn < size (vout tx) → 0 ≤ nIn' < size (vout tx') →
  output_message tx nIn = output_message tx' nIn' → vout tx !! Z.to_nat nIn = vout tx' !! Z.to_nat nIn'.
Proof.
  intros (_ & _ & _ & [Tv _] & _) (_ & _ & _ & [Tv' _] & _) Hn Hn' E. unfold output_message in E.
  destruct (nth_lookup_or_length (vout tx) (Z.to_nat nIn) CTxOut_SetNull) as [H|]; [|unfold size in *; lia].
  destruct (nth_lookup_or_length (vout tx') (Z.to_nat nIn') CTxOut_SetNull) as [H'|]; [|unfold size in *; lia].
  rewrite H, H'. f_equal. rewrite <- (app_nil_r (Serialize _)), <- (app_nil_r (Serialize (nth (Z.to_nat nIn') _ _))) in E.
  apply (codec_inj _ _ _ _ _ _ _ CTxOut_codec) in E as [E _]; [done| |];
    [eapply List.Forall_forall; [exact Tv|]|eapply List.Forall_forall; [exact Tv'|]]; apply nth_In; unfold size in *; lia.
Qed.

(** Equal hashes of two parts, unless the parts collide. *)
Lemma part_collision l l' parts parts' : concat parts ∈ l → concat parts' ∈ l' → Hash mem parts = Hash mem parts' →
  message_collision l l' ∨ concat parts = concat parts'.
Proof using Hmem. intros Hl Hl' E. rewrite !Hash_spec in E by exact Hmem. by apply Hash_collision. Qed.

Lemma preimage_inj tx nIn ht amount code tx' nIn' ht' amount' code' :
  fields_ok tx nIn ht amount code → fields_ok tx' nIn' ht' amount' code' →
  concat (witness_preimage mem code tx nIn ht amount None) = concat (witness_preimage mem code' tx' nIn' ht' amount' None) →
  tx_nVersion tx = tx_nVersion tx' ∧ witness_hashes mem tx nIn ht None = witness_hashes mem tx' nIn' ht' None ∧
  prevout (input_of tx nIn) = prevout (input_of tx' nIn') ∧ code = code' ∧ amount = amount' ∧
  nSequence (input_of tx nIn) = nSequence (input_of tx' nIn') ∧ nLockTime tx = nLockTime tx' ∧ ht = ht'.
Proof using Hmem.
  intros F F'. destruct (fields_ok_input _ _ _ _ _ F) as [Fo Fs], (fields_ok_input _ _ _ _ _ F') as [Fo' Fs'].
  destruct F as ((V & _ & _ & _ & L) & _ & Ft & Fa & Fc), F' as ((V' & _ & _ & _ & L') & _ & Ft' & Fa' & Fc').
  pose proof (witness_hashes_ok tx nIn ht None (or_introl eq_refl)) as W.
  pose proof (witness_hashes_ok tx' nIn' ht' None (or_introl eq_refl)) as W'.
  unfold witness_preimage. fold (input_of tx nIn) (input_of tx' nIn').
  destruct (witness_hashes mem tx nIn ht None) as [[a b] c], (witness_hashes mem tx' nIn' ht' None) as [[a' b'] c'].
  destruct W as (Wa & Wb & Wc), W' as (Wa' & Wb' & Wc'). cbn [concat]. intros E.
  apply (codec_inj _ _ _ _ _ _ _ codec_i32) in E as [Ev E]; [|done..].
  apply (codec_inj _ _ _ _ _ _ _ codec_uint256) in E as [-> E]; [|done..].
  apply (codec_inj _ _ _ _ _ _ _ codec_uint256) in E as [-> E]; [|done..].
  apply (codec_inj _ _ _ _ _ _ _ codec_COutPoint) in E as [Eo E]; [|done..].
  apply (codec_inj _ _ _ _ _ _ _ codec_byte_vector) in E as [-> E]; [|done..].
  apply (codec_inj _ _ _ _ _ _ _ codec_i64) in E as [-> E]; [|done..].
  apply (codec_inj _ _ _ _ _ _ _ codec_u32) in E as [Es E]; [|done..].
  apply (codec_inj _ _ _ _ _ _ _ codec_uint256) in E as [-> E]; [|done..].
  apply (codec_inj _ _ _ _ _ _ _ codec_u32) in E as [El E]; [|done..].
  apply (codec_inj _ _ _ _ _ _ _ codec_i32) in E as [-> _]; [|done..]. done.
Qed.

Lemma or_imp {C P Q : Prop} : (P → Q) → C ∨ P → C ∨ Q.
Proof. tauto. Qed.

Lemma covers_cases (C Q1 Q2 Q3 Q4 P P' : Prop) (a s n : bool) `{Decision P, Decision P'} :
  (a = false → C ∨ Q1) → (a = false → s = false → n = false → C ∨ Q2) → (s = false → n = false → C ∨ Q3) →
  (s = true → P → P' → C ∨ Q4) →
  C ∨ ((a = false → Q1) ∧ (a = false → s = false → n = false → Q2) ∧ (s = false → n = false → Q3) ∧ (s = true → P → P' → Q4)).
Proof. destruct a, s, n, (decide P), (decide P'); intuition congruence. Qed.

Lemma hashes_cover tx nIn ht tx' nIn' l l' : tx_ok tx → tx_ok tx' → 0 ≤ nIn → 0 ≤ nIn' →
  prevouts_message tx ∈ l → sequences_message tx ∈ l → outputs_message tx ∈ l → output_message tx nIn ∈ l →
  prevouts_message tx' ∈ l' → sequences_message tx' ∈ l' → outputs_message tx' ∈ l' → output_message tx' nIn' ∈ l' →
  witness_hashes mem tx nIn ht None = witness_hashes mem tx' nIn' ht None →
  message_collision l l' ∨
  ((fAnyoneCanPay ht = false → map prevout (vin tx) = map prevout (vin tx')) ∧
   (fAnyoneCanPay ht = false → fHashSingle ht = false → fHashNone ht = false →
    map nSequence (vin tx) = map nSequence (vin tx')) ∧
   (fHashSingle ht = false → fHashNone ht = false → vout tx = vout tx') ∧
   (fHashSingle ht = true → nIn < size (vout tx) → nIn' < size (vout tx') →
    vout tx !! Z.to_nat nIn = vout tx' !! Z.to_nat nIn')).
Proof using Hmem.
  intros T T' Hn Hn' M1 M2 M3 M4 M1' M2' M3' M4' E. unfold witness_hashes in E. injection E as E1 E2 E3.
  destruct (messages_inj tx tx' T T') as (I1 & I2 & I3).
  assert (G1 : fAnyoneCanPay ht = false → message_collision l l' ∨ prevouts_message tx = prevouts_message tx').
  { intros Ha. rewrite Ha in E1. by apply part_collision. }
  assert (G2 : fAnyoneCanPay ht = false → fHashSingle ht = false → fHashNone ht = false →
    message_collision l l' ∨ sequences_message tx = sequences_message tx').
  { intros Ha Hs Ho. rewrite Ha, Hs, Ho in E2. by apply part_collision. }
  assert (G3 : fHashSingle ht = false → fHashNone ht = false → message_collision l l' ∨ outputs_message tx = outputs_message tx').
  { intros Hs Ho. rewrite Hs, Ho in E3. by apply part_collision. }
  assert (G4 : fHashSingle ht = true → nIn < size (vout tx) → nIn' < size (vout tx') →
    message_collision l l' ∨ vout tx !! Z.to_nat nIn = vout tx' !! Z.to_nat nIn').
  { intros Hs L L'. rewrite Hs, !(proj2 (Z.ltb_lt _ _)) in E3 by lia. cbn [negb andb] in E3.
    apply (part_collision l l') in E3; cbn [concat] in *; rewrite !app_nil_r in *; [|done..].
    destruct E3; [by left|right]. by apply output_inj. }
  apply (covers_cases _ _ _ _ _ _ _ _ _ _); [exact (λ H, or_imp I1 (G1 H))|exact (λ Ha Hs Ho, or_imp I2 (G2 Ha Hs Ho))|
    exact (λ Hs Ho, or_imp I3 (G3 Hs Ho))|exact G4].
Qed.
End Covers.

(** C29: a signature in a version 0 witness program covers what its hash type says, whether the cache of the
    transaction is used or not. Equal hashes are hashes of the same version, lock time, hash type, amount and
    script, of the same spent output and sequence number of the input, and further of the same spent outputs
    (without ANYONECANPAY), of the same sequence numbers and outputs (ALL), or of the same output at the input's
    index (SINGLE); or two different messages among those hashed have the same double SHA-256. *)
Theorem SignatureHash_covers mem tx nIn ht amount code tx' nIn' ht' amount' code' h :
  length mem = 64%nat → fields_ok tx nIn ht amount code → fields_ok tx' nIn' ht' amount' code' →
  SignatureHash mem code tx nIn ht amount SIGVERSION_WITNESS_V0 (Some (PrecomputedTransactionData_init mem tx)) = Some h →
  SignatureHash mem code' tx' nIn' ht' amount' SIGVERSION_WITNESS_V0 None = Some h →
  message_collision (signed_messages mem code tx nIn ht amount) (signed_messages mem code' tx' nIn' ht' amount') ∨
  (tx_nVersion tx = tx_nVersion tx' ∧ nLockTime tx = nLockTime tx' ∧ ht = ht' ∧ amount = amount' ∧ code = code' ∧
   prevout (input_of tx nIn) = prevout (input_of tx' nIn') ∧ nSequence (input_of tx nIn) = nSequence (input_of tx' nIn') ∧
   (fAnyoneCanPay ht = false → map prevout (vin tx) = map prevout (vin tx')) ∧
   (fAnyoneCanPay ht = false → fHashSingle ht = false → fHashNone ht = false →
    map nSequence (vin tx) = map nSequence (vin tx')) ∧
   (fHashSingle ht = false → fHashNone ht = false → vout tx = vout tx') ∧
   (fHashSingle ht = true → nIn < size (vout tx) → nIn' < size (vout tx') →
    vout tx !! Z.to_nat nIn = vout tx' !! Z.to_nat nIn')).
Proof.
  intros Hm F F'. unfold SignatureHash. destruct (proj2 F) as [Hn _], (proj2 F') as [Hn' _].
  rewrite !(proj2 (Z.ltb_lt _ _)) by lia. cbn [negb is_base].
  unfold witness_preimage at 1. rewrite witness_hashes_cached. intros [= <-] [= E].
  fold (witness_preimage mem code tx nIn ht amount None) in E.
  set (l := signed_messages mem code tx nIn ht amount). set (l' := signed_messages mem code' tx' nIn' ht' amount').
  destruct (part_collision mem Hm l l' _ _ ltac:(left) ltac:(left) (eq_sym E)) as [|Ep]; [by left|].
  destruct (preimage_inj mem Hm _ _ _ _ _ _ _ _ _ _ F F' Ep) as (Ev & Ew & Eo & -> & -> & Es & El & ->).
  destruct (hashes_cover mem Hm tx nIn ht' tx' nIn' l l') as [|H]; [apply F|apply F'|lia|lia|repeat constructor..|done|by left|].
  right. tauto.
Qed.

(** Two copies of a transaction with different witnesses and input scripts. *)
Definition resigned_tx : CTransaction :=
  mkCTransaction 2 [mkCTxIn (mkCOutPoint uint256_null 3) [] SEQUENCE_FINAL []] (vout (example_tx [])) 17.

Lemma example_fields_ok tx : tx = example_tx [[1]] ∨ tx = resigned_tx → fields_ok tx 0 SIGHASH_ALL 7 [OP_CHECKSIG].
Proof.
  intros H. assert (tx_ok tx) as Ht.
  { destruct H as [-> | ->]; [apply example_tx_ok; repeat constructor; unfold_words; cbn; unfold MAX_SIZE; lia|].
    destruct (example_tx_ok []) as (H1 & [Hi _] & _ & H4 & H5); [repeat constructor; cbn; unfold MAX_SIZE; lia|].
    apply Forall_cons_iff in Hi as [(Ho & _ & Hs & _) _]. split_and!; [exact H1| | |exact H4|exact H5].
    - repeat constructor; try apply Ho; try apply Hs; cbn; unfold MAX_SIZE; lia.
    - repeat constructor; cbn; unfold MAX_SIZE; lia. }
  refine (conj Ht (conj _ (conj _ (conj _ _)))); [destruct H as [-> | ->]; vm_compute; split; congruence|unfold_words; lia..|].
  repeat constructor; unfold_words; cbn; unfold MAX_SIZE; lia.
Qed.

Lemma SignatureHash_covers_witness :
  message_collision (signed_messages (repeat 0 64) [OP_CHECKSIG] (example_tx [[1]]) 0 SIGHASH_ALL 7)
    (signed_messages (repeat 0 64) [OP_CHECKSIG] resigned_tx 0 SIGHASH_ALL 7) ∨
  vout (example_tx [[1]]) = vout resigned_tx.
Proof.
  edestruct (SignatureHash_covers (repeat 0 64) (example_tx [[1]]) 0 SIGHASH_ALL 7 [OP_CHECKSIG]
    resigned_tx 0 SIGHASH_ALL 7 [OP_CHECKSIG]) as [H|H].
  - reflexivity.
  - apply example_fields_ok. by left.
  - apply example_fields_ok. by right.
  - vm_compute. reflexivity.
  - vm_compute. reflexivity.
  - left. exact H.
  - right. destruct H as (_ & _ & _ & _ & _ & _ & _ & _ & _ & H & _). apply H; reflexivity.
Defined.
