(* ===== verification/Standard.v ===== *)
(** Standard scripts (script/standard.cpp): the templates that [Solver] recognises, the destinations of
    outputs, and the scripts that pay to them. *)
From stdpp Require Import base list option.
From Stdlib Require Import ZArith Lia.
From S2P Require Import Prelude ArithUint256 Serialize Chain Transaction Ripemd160 Hash Text Base58 Script Interpreter SigHash.
Open Scope Z_scope.

(** * Solver *)

Definition mTemplates : list (txnouttype * CScript) :=
  [(TX_PUBKEY, [OP_PUBKEY; OP_CHECKSIG]);
   (TX_PUBKEYHASH, [OP_DUP; OP_HASH160; OP_PUBKEYHASH; OP_EQUALVERIFY; OP_CHECKSIG]);
   (TX_MULTISIG, [OP_SMALLINTEGER; OP_PUBKEYS; OP_SMALLINTEGER; OP_CHECKMULTISIG])].

Definition key_size (vch : valtype) : bool := (33 <=? size vch) && (size vch <=? 65).

(** The inner loop of [OP_PUBKEYS]: the iterator, the opcode and the data after it, and the solutions. *)
Fixpoint pubkeys_loop (fuel : nat) (pc1 : bytes) (opcode1 : Z) (vch1 : valtype) (vSolutions : list valtype) : bytes * Z * valtype * list valtype :=
  match fuel with
  | O => (pc1, opcode1, vch1, vSolutions)
  | S fuel' =>
      if key_size vch1 then
        let vSolutions := vSolutions ++ [vch1] in
        let '(ok, pc1, opcode1, vch1) := GetOp pc1 in
        if (ok : bool) then pubkeys_loop fuel' pc1 opcode1 vch1 vSolutions else (pc1, opcode1, vch1, vSolutions)
      else (pc1, opcode1, vch1, vSolutions)
  end.

(** The comparison of one instruction with the one of the template: the solutions, or [None] where the code breaks out. *)
Definition match_op (opcode1 : Z) (vch1 : valtype) (opcode2 : Z) (vch2 : valtype) (vSolutions : list valtype) : option (list valtype) :=
  if opcode2 =? OP_PUBKEY then if key_size vch1 then Some (vSolutions ++ [vch1]) else None
  else if opcode2 =? OP_PUBKEYHASH then if size vch1 =? 20 then Some (vSolutions ++ [vch1]) else None
  else if opcode2 =? OP_SMALLINTEGER then
    if (opcode1 =? OP_0) || ((OP_1 <=? opcode1) && (opcode1 <=? OP_16)) then n ← DecodeOP_N opcode1; Some (vSolutions ++ [[n]]) else None
  else if negb (opcode1 =? opcode2) || negb (text_eqb vch1 vch2) then None
  else Some vSolutions.

(** The comparison with one template; every turn reads an instruction of both scripts. *)
Fixpoint match_template (fuel : nat) (pc1 pc2 : bytes) (vSolutions : list valtype) : option (list valtype) :=
  match pc1, pc2, fuel with
  | [], [], _ => Some vSolutions
  | _, _, O => None
  | _, _, S fuel' =>
      let '(ok1, pc1, opcode1, vch1) := GetOp pc1 in
      if negb ok1 then None
      else
        let '(ok2, pc2, opcode2, vch2) := GetOp pc2 in
        if negb ok2 then None
        else if opcode2 =? OP_PUBKEYS then
          let '(pc1, opcode1, vch1, vSolutions) := pubkeys_loop (S (length pc1)) pc1 opcode1 vch1 vSolutions in
          let '(ok2, pc2, opcode2, vch2) := GetOp pc2 in
          if negb ok2 then None
          else vSolutions ← match_op opcode1 vch1 opcode2 vch2 vSolutions; match_template fuel' pc1 pc2 vSolutions
        else vSolutions ← match_op opcode1 vch1 opcode2 vch2 vSolutions; match_template fuel' pc1 pc2 vSolutions
  end.

(** The scan over the templates: [None] is [false]. *)
Fixpoint scan_templates (script1 : CScript) (templates : list (txnouttype * CScript)) : option (txnouttype * list valtype) :=
  match templates with
  | [] => None
  | (type, script2) :: templates' =>
      match match_template (S (length script1)) script1 script2 [] with
      | Some vSolutions =>
          match type with
          | TX_MULTISIG =>
              let m := byte_at (hd [] vSolutions) 0 in
              let n := byte_at (List.last vSolutions []) 0 in
              if (m <? 1) || (n <? 1) || (n <? m) || negb (size vSolutions - 2 =? n) then None else Some (type, vSolutions)
          | _ => Some (type, vSolutions)
          end
      | None => scan_templates script1 templates'
      end
  end.

Definition Solver (scriptPubKey : CScript) : option (txnouttype * list valtype) :=
  if IsPayToScriptHash scriptPubKey then Some (TX_SCRIPTHASH, [take 20 (drop 2 scriptPubKey)])
  else
    match IsAssetScript3 scriptPubKey with
    | Some (nType, _, _) => Some (nType, [take 20 (drop 3 scriptPubKey)])
    | None =>
        match IsWitnessProgram scriptPubKey with
        | Some (witnessversion, witnessprogram) =>
            if (witnessversion =? 0) && (size witnessprogram =? 20) then Some (TX_WITNESS_V0_KEYHASH, [witnessprogram])
            else if (witnessversion =? 0) && (size witnessprogram =? 32) then Some (TX_WITNESS_V0_SCRIPTHASH, [witnessprogram])
            else None
        | None =>
            if (1 <=? size scriptPubKey) && (byte_at scriptPubKey 0 =? OP_RETURN) && IsPushOnly (drop 1 scriptPubKey) then Some (TX_NULL_DATA, [])
            else if (1 <=? size scriptPubKey) && (byte_at scriptPubKey 0 =? OP_cmusicai_ASSET) && IsPushOnly (drop 1 scriptPubKey) then
              Some (TX_RESTRICTED_ASSET_DATA,
                    if (23 <=? size scriptPubKey) && negb (byte_at scriptPubKey 1 =? OP_RESERVED) then [take 20 (drop 2 scriptPubKey)] else [])
            else scan_templates scriptPubKey mTemplates
        end
    end.

(** * Destinations *)

(** [CPubKey::GetID] *)
Definition GetID (key : bytes) : bytes := Hash160 hash_mem hash_mem (take (Z.to_nat (GetLen (byte_at key 0))) key).

(** [None] is [false]. *)
Definition ExtractDestination (scriptPubKey : CScript) : option CTxDestination :=
  '(whichType, vSolutions) ← Solver scriptPubKey;
  match whichType with
  | TX_PUBKEY =>
      let pubKey := CPubKey_Set (hd [] vSolutions) in if CPubKey_IsValid pubKey then Some (CKeyID (GetID pubKey)) else None
  | TX_PUBKEYHASH => Some (CKeyID (hd [] vSolutions))
  | TX_SCRIPTHASH => Some (CScriptID (hd [] vSolutions))
  | TX_NEW_ASSET | TX_REISSUE_ASSET | TX_TRANSFER_ASSET => Some (CKeyID (hd [] vSolutions))
  | TX_RESTRICTED_ASSET_DATA => match vSolutions with h :: _ => Some (CKeyID h) | [] => None end
  | _ => None
  end.

(** The type, the destinations and the number of signatures. *)
Definition ExtractDestinations (scriptPubKey : CScript) : option (txnouttype * list CTxDestination * Z) :=
  '(typeRet, vSolutions) ← Solver scriptPubKey;
  match typeRet with
  | TX_NULL_DATA => None
  | TX_MULTISIG =>
      let nRequiredRet := byte_at (hd [] vSolutions) 0 in
      let keys := map CPubKey_Set (take (length vSolutions - 2) (drop 1 vSolutions)) in
      match map (λ key, CKeyID (GetID key)) (filter (λ key, CPubKey_IsValid key = true) keys) with
      | [] => None
      | addressRet => Some (typeRet, addressRet, nRequiredRet)
      end
  | _ => address ← ExtractDestination scriptPubKey; Some (typeRet, [address], 1)
  end.

(** * Scripts for destinations *)

Definition GetScriptForDestination (dest : CTxDestination) : CScript :=
  match dest with
  | CNoDestination => []
  | CKeyID keyID => [OP_DUP; OP_HASH160] ++ push_data keyID ++ [OP_EQUALVERIFY; OP_CHECKSIG]
  | CScriptID scriptID => [OP_HASH160] ++ push_data scriptID ++ [OP_EQUAL]
  end.

Definition GetScriptForNullAssetDataDestination (dest : CTxDestination) : CScript :=
  match dest with CNoDestination => [] | CKeyID id | CScriptID id => [OP_cmusicai_ASSET] ++ push_data id end.

Definition GetScriptForRawPubKey (pubKey : bytes) : CScript := push_data pubKey ++ [OP_CHECKSIG].

(** [None] is a failed assertion. *)
Definition GetScriptForMultisig (nRequired : Z) (keys : list valtype) : option CScript :=
  m ← EncodeOP_N nRequired; n ← EncodeOP_N (size keys);
  Some ([m] ++ concat (map push_data keys) ++ [n; OP_CHECKMULTISIG]).

Definition GetScriptForWitness (redeemscript : CScript) : CScript :=
  match Solver redeemscript with
  | Some (TX_PUBKEY, vSolutions) => [OP_0] ++ push_data (Hash160 hash_mem hash_mem (hd [] vSolutions))
  | Some (TX_PUBKEYHASH, vSolutions) => [OP_0] ++ push_data (hd [] vSolutions)
  | _ => [OP_0] ++ push_data (Sha256.CSHA256_Finalize (Sha256.CSHA256_Write (Sha256.CSHA256_init hash_mem) redeemscript))
  end.

(** * Matching *)

Lemma match_template_step fuel pc1 pc2 sols pc1' o1 v1 pc2' o2 v2 :
  GetOp pc1 = (true, pc1', o1, v1) → GetOp pc2 = (true, pc2', o2, v2) → o2 ≠ OP_PUBKEYS →
  match_template (S fuel) pc1 pc2 sols = match_op o1 v1 o2 v2 sols ≫= match_template fuel pc1' pc2'.
Proof.
  intros E1 E2 Hn. destruct pc1 as [|x pc1]; [done|]. cbn [match_template]. rewrite E1, E2. cbn [negb]. by rewrite (proj2 (Z.eqb_neq _ _) Hn).
Qed.

Lemma match_template_keys fuel pc1 pc2 sols pc1' o1 v1 pc2' v2 pc1'' o1' v1' sols' pc2'' o2' v2' :
  GetOp pc1 = (true, pc1', o1, v1) → GetOp pc2 = (true, pc2', OP_PUBKEYS, v2) →
  pubkeys_loop (S (length pc1')) pc1' o1 v1 sols = (pc1'', o1', v1', sols') → GetOp pc2' = (true, pc2'', o2', v2') →
  match_template (S fuel) pc1 pc2 sols = match_op o1' v1' o2' v2' sols' ≫= match_template fuel pc1'' pc2''.
Proof. intros E1 E2 E3 E4. destruct pc1 as [|x pc1]; [done|]. cbn [match_template]. rewrite E1, E2. cbn [negb]. change (OP_PUBKEYS =? OP_PUBKEYS) with true. cbn iota. rewrite E3, E4. done. Qed.

Lemma match_template_fail fuel pc1 pc2 sols pc1' o1 v1 pc2' o2 v2 :
  GetOp pc1 = (true, pc1', o1, v1) → GetOp pc2 = (true, pc2', o2, v2) → o2 ≠ OP_PUBKEYS → match_op o1 v1 o2 v2 sols = None →
  match_template (S fuel) pc1 pc2 sols = None.
Proof. intros E1 E2 Hn E. by rewrite (match_template_step _ _ _ _ _ _ _ _ _ _ E1 E2 Hn), E. Qed.

Ltac opcode := apply GetOp_opcode; lia.

(** An opcode of the template that stands for itself. *)
Lemma match_exact fuel o rest1 rest2 sols :
  OP_PUSHDATA4 < o < OP_SMALLINTEGER → o ≠ OP_cmusicai_ASSET → match_template (S fuel) (o :: rest1) (o :: rest2) sols = match_template fuel rest1 rest2 sols.
Proof.
  intros Ho Ha. erewrite match_template_step; [|opcode|opcode|lia]. unfold match_op.
  rewrite !(proj2 (Z.eqb_neq o _)), Z.eqb_refl by lia. done.
Qed.

(** Keys are collected up to the first data of another size. *)
Lemma pubkeys_loop_keys keys : ∀ fuel vch1 o1 sols pc1 o vch,
  Forall (λ k, key_size k = true) (vch1 :: keys) → (length keys < fuel)%nat → key_size vch = false →
  ∀ rest, (∀ k, k ∈ keys → size k + size (concat (map push_data keys) ++ pc1) < 2 ^ 32) → GetOp pc1 = (true, rest, o, vch) →
  pubkeys_loop (S fuel) (concat (map push_data keys) ++ pc1) o1 vch1 sols = (rest, o, vch, sols ++ vch1 :: keys).
Proof.
  induction keys as [|k keys IH]; intros fuel vch1 o1 sols pc1 o vch Hk Hf Hv rest Hs Hg; inversion Hk as [|?? Hk1 Hks]; subst.
  - cbn [map concat app]. cbn [pubkeys_loop]. rewrite Hk1, Hg. destruct fuel as [|fuel]; cbn [pubkeys_loop]; [done|]. by rewrite Hv.
  - cbn [map concat]. rewrite <- app_assoc. cbn [pubkeys_loop]. rewrite Hk1. rewrite GetOp_push_data.
    2:{ specialize (Hs k ltac:(left)). cbn [map concat] in Hs. rewrite <- app_assoc, size_app in Hs. pose proof (size_nonneg (push_data k)). lia. }
    cbn [length] in Hf. destruct fuel as [|fuel]; [lia|]. rewrite (IH fuel k _ _ pc1 o vch Hks ltac:(lia) Hv rest); [|intros k' Hk'|done].
    + by rewrite <- app_assoc.
    + specialize (Hs k' ltac:(by right)). cbn [map concat] in Hs. rewrite <- app_assoc, size_app in Hs. pose proof (size_nonneg (push_data k)). lia.
Qed.

Lemma Solver_scan x s :
  IsPayToScriptHash (x :: s) = false → IsAssetScript3 (x :: s) = None → IsWitnessProgram (x :: s) = None → x ≠ OP_RETURN → x ≠ OP_cmusicai_ASSET →
  Solver (x :: s) = scan_templates (x :: s) mTemplates.
Proof.
  intros H1 H2 H3 H4 H5. unfold Solver. rewrite H1, H2, H3. change (byte_at (x :: s) 0) with x.
  rewrite (proj2 (Z.eqb_neq _ _) H4), (proj2 (Z.eqb_neq _ _) H5). by rewrite !andb_false_r.
Qed.

Lemma no_witness_program x s : x ≠ OP_0 → (x < OP_1 ∨ OP_16 < x) → IsWitnessProgram (x :: s) = None.
Proof.
  intros H0 H. unfold IsWitnessProgram. change (byte_at (x :: s) 0) with x. rewrite (proj2 (Z.eqb_neq _ _) H0). destruct (_ || _); [done|].
  cbn [negb andb]. by rewrite orb_true_intro by (rewrite !Z.ltb_lt; done).
Qed.

Lemma no_script_hash x s : x ≠ OP_HASH160 → IsPayToScriptHash (x :: s) = false.
Proof.
  intros H. unfold IsPayToScriptHash. change (byte_at (x :: s) 0) with x. rewrite (proj2 (Z.eqb_neq _ _) H). rewrite andb_false_r. done.
Qed.

Lemma push_hash (h : bytes) : length h = 20%nat → push_data h = 20 :: h.
Proof. intros Hh. unfold push_data, size. by rewrite Hh. Qed.

Lemma size_hash (h : bytes) : length h = 20%nat → size h = 20.
Proof. intros Hh. unfold size. by rewrite Hh. Qed.

Lemma Solver_keyhash id : length id = 20%nat → Solver (GetScriptForDestination (CKeyID id)) = Some (TX_PUBKEYHASH, [id]).
Proof.
  intros Hl. unfold GetScriptForDestination. assert (Hs : size ([OP_DUP; OP_HASH160] ++ push_data id ++ [OP_EQUALVERIFY; OP_CHECKSIG]) = 25).
  { rewrite push_hash by done. unfold size. rewrite !length_app. cbn [length]. rewrite Hl. done. }
  cbn [app] in *. rewrite Solver_scan; try done.
  2:{ by apply no_script_hash. }
  2:{ unfold IsAssetScript3. rewrite Hs. done. }
  2:{ apply no_witness_program; lia. }
  unfold scan_templates, mTemplates.
  erewrite (match_template_fail _ _ [OP_PUBKEY; OP_CHECKSIG]); [|opcode|opcode|lia|done].
  cbn [length]. rewrite !match_exact by lia.
  rewrite length_app. destruct (length (push_data id) + _)%nat as [|[|[|n]]] eqn:E; rewrite push_hash in E by done; cbn in E; try lia.
  erewrite match_template_step; [|apply GetOp_push_data; rewrite size_hash by done; by vm_compute|opcode|lia].
  unfold match_op. change (OP_PUBKEYHASH =? OP_PUBKEY) with false. change (OP_PUBKEYHASH =? OP_PUBKEYHASH) with true. cbn iota.
  rewrite size_hash by done. change (20 =? 20) with true. cbn [mbind option_bind]. rewrite !match_exact by lia. by destruct n.
Qed.

Lemma Solver_scripthash id : length id = 20%nat → Solver (GetScriptForDestination (CScriptID id)) = Some (TX_SCRIPTHASH, [id]).
Proof.
  intros Hl. unfold Solver, GetScriptForDestination. rewrite push_hash by done. cbn [app].
  assert (E : IsPayToScriptHash (OP_HASH160 :: 20 :: id ++ [OP_EQUAL]) = true).
  { unfold IsPayToScriptHash, size, byte_at. cbn [length nth]. rewrite length_app, Hl, app_nth2 by lia. by rewrite Hl. }
  rewrite E. change (drop 2 (OP_HASH160 :: 20 :: id ++ [OP_EQUAL])) with (id ++ [OP_EQUAL]). rewrite <- Hl at 1. by rewrite take_app_length.
Qed.

(** A payment to a key hash with an asset behind it. *)
Lemma Solver_asset id tail t own i :
  length id = 20%nat → IsAssetScript3 (GetScriptForDestination (CKeyID id) ++ tail) = Some (t, own, i) →
  Solver (GetScriptForDestination (CKeyID id) ++ tail) = Some (t, [id]).
Proof.
  intros Hl E. unfold Solver. rewrite E. assert (Es : GetScriptForDestination (CKeyID id) ++ tail = OP_DUP :: OP_HASH160 :: 20 :: id ++ [OP_EQUALVERIFY; OP_CHECKSIG] ++ tail).
  { unfold GetScriptForDestination. rewrite push_hash by done. cbn [app]. by rewrite <- app_assoc. }
  rewrite Es, no_script_hash by done. change (drop 3 (OP_DUP :: OP_HASH160 :: 20 :: id ++ ?l)) with (id ++ l).
  rewrite <- Hl at 1. by rewrite take_app_length.
Qed.

Lemma push_op_le b : push_op b ≤ OP_16.
Proof. unfold push_op. repeat case_match; lia. Qed.

Lemma IsPushOnly_data ds : size (concat (map push_data ds)) < 2 ^ 32 → IsPushOnly (concat (map push_data ds)) = true.
Proof.
  intros Hs. unfold IsPushOnly. rewrite <- (app_nil_r (concat _)) in *. 
  assert (E : ∀ ds, size (concat (map push_data ds)) < 2 ^ 32 → ops (concat (map push_data ds)) = (map (λ d, (push_op d, d)) ds, true)).
  { clear. induction ds as [|d ds IH]; cbn [map concat]; intros Hs; [done|]. rewrite size_app in Hs. pose proof (size_nonneg (push_data d)).
    pose proof (size_push_data d). erewrite ops_cons by (apply GetOp_push_data; lia). rewrite IH by lia. done. }
  rewrite app_nil_r in *. rewrite E by done. rewrite andb_true_r. clear. induction ds as [|d ds IH]; [done|]. cbn [map forallb].
  rewrite IH, (proj2 (Z.leb_le _ _)) by apply push_op_le. done.
Qed.

Lemma size_push_data_le b : size (push_data b) ≤ size b + 5.
Proof. unfold push_data. rewrite size_app. repeat case_match; unfold size; cbn [length]; rewrite ?length_le_bytes; lia. Qed.

(** Data of an asset for an address. *)
Lemma Solver_null_data id d :
  length id = 20%nat → d ≠ [] → size d < 2 ^ 16 → byte_at (GetScriptForNullAssetDataDestination (CKeyID id) ++ push_data d) 25 ≠ OP_cmusicai_ASSET →
  Solver (GetScriptForNullAssetDataDestination (CKeyID id) ++ push_data d) = Some (TX_RESTRICTED_ASSET_DATA, [id]).
Proof.
  intros Hl Hd Hs Ha. assert (Ep : IsPushOnly (push_data id ++ push_data d) = true).
  { pose proof (IsPushOnly_data [id; d]) as H. cbn [map concat] in H. rewrite app_nil_r in H. apply H. rewrite size_app, push_hash by done.
    change (size (20 :: id)) with (size ([20] ++ id)). rewrite size_app, (size_hash id) by done. pose proof (size_push_data_le d).
    change (size [20]) with 1. lia. }
  unfold GetScriptForNullAssetDataDestination in *. rewrite <- app_assoc in *. cbn [app] in *. unfold Solver. rewrite no_script_hash by done.
  assert (En : IsAssetScript3 (OP_cmusicai_ASSET :: push_data id ++ push_data d) = None).
  { unfold IsAssetScript3. by rewrite (proj2 (Z.eqb_neq _ _) Ha), andb_false_r. }
  rewrite En, no_witness_program by lia. change (byte_at (OP_cmusicai_ASSET :: _) 0) with OP_cmusicai_ASSET.
  change (drop 1 (OP_cmusicai_ASSET :: ?l)) with l. rewrite Ep. rewrite push_hash by done. cbn [app].
  assert (Esz : 23 ≤ size (OP_cmusicai_ASSET :: 20 :: id ++ push_data d)).
  { unfold size. cbn [length]. rewrite length_app, Hl. assert (push_data d ≠ []) by (unfold push_data; repeat case_match; done).
    destruct (push_data d); [done|cbn; lia]. }
  rewrite (proj2 (Z.leb_le 1 _)), (proj2 (Z.leb_le 23 _)) by lia. cbn [andb Z.eqb Pos.eqb negb byte_at nth].
  change (drop 2 (OP_cmusicai_ASSET :: 20 :: id ++ ?l)) with (id ++ l). rewrite <- Hl at 1. by rewrite take_app_length.
Qed.

Lemma size_concat_push keys : Forall (λ k, key_size k = true) keys → 34 * size keys ≤ size (concat (map push_data keys)) ≤ 70 * size keys.
Proof.
  induction 1 as [|k keys Hk _ IH]; [unfold size; cbn [map concat length]; lia|]. cbn [map concat]. rewrite size_app. change (size (k :: keys)) with (size ([k] ++ keys)). rewrite size_app.
  change (size [k]) with 1. pose proof (size_push_data_le k). unfold key_size in Hk.
  assert (size k + 1 ≤ size (push_data k)).
  { unfold push_data. rewrite size_app. repeat case_match; unfold size; cbn [length]; rewrite ?length_le_bytes; lia. }
  lia.
Qed.

Lemma Solver_pubkey key :
  key_size key = true → IsAssetScript3 (GetScriptForRawPubKey key) = None → Solver (GetScriptForRawPubKey key) = Some (TX_PUBKEY, [key]).
Proof.
  unfold GetScriptForRawPubKey, key_size. intros Hk Ha. assert (Ep : push_data key = size key :: key).
  { unfold push_data. rewrite (proj2 (Z.ltb_lt _ _)) by lia. rewrite u8_small by (red; lia). done. }
  rewrite Ep in *. cbn [app] in *. rewrite Solver_scan; try lia; [|apply no_script_hash; lia|done|apply no_witness_program; lia].
  unfold scan_templates, mTemplates. erewrite match_template_step; [|change (size key :: key ++ ?l) with ((size key :: key) ++ l); rewrite <- Ep; apply GetOp_push_data;
    change (size [OP_CHECKSIG]) with 1; lia|opcode|lia].
  unfold match_op, key_size. change (OP_PUBKEY =? OP_PUBKEY) with true. cbn iota. rewrite Hk. cbn [mbind option_bind length].
  rewrite match_exact by lia. by destruct (length _).
Qed.

Lemma key_push k : key_size k = true → push_data k = size k :: k.
Proof. unfold key_size. intros Hk. unfold push_data. rewrite (proj2 (Z.ltb_lt _ _)) by lia. rewrite u8_small by (red; lia). done. Qed.

(** The bytes of a multisignature script with the opcodes of [m] and [n]. *)
Definition multisig (om on : Z) (keys : list valtype) : CScript := om :: concat (map push_data keys) ++ [on; OP_CHECKMULTISIG].

Lemma size_multisig om on keys : size (multisig om on keys) = 3 + size (concat (map push_data keys)).
Proof. unfold multisig, size. cbn [length]. rewrite length_app. cbn [length]. lia. Qed.

Lemma multisig_no_witness om on keys : keys ≠ [] → Forall (λ k, key_size k = true) keys → IsWitnessProgram (multisig om on keys) = None.
Proof.
  intros Hne Hk. pose proof (size_multisig om on keys) as Es. pose proof (size_concat_push keys Hk) as Hsz. unfold IsWitnessProgram.
  destruct (_ || _) eqn:E1; [done|]. destruct (_ && _) eqn:E2; [done|]. destruct keys as [|k [|k' keys]]; [done| |].
  - inversion Hk as [|?? Hk1 _]; subst. cbn [map concat] in Es. rewrite app_nil_r, key_push in Es by done.
    change (size (size k :: k)) with (size ([size k] ++ k)) in Es. rewrite size_app in Es. change (size [size k]) with 1 in Es.
    assert (Eb : byte_at (multisig om on [k]) 1 = size k) by (unfold multisig; cbn [map concat]; rewrite app_nil_r, key_push by done; done).
    rewrite Eb, (proj2 (Z.eqb_neq _ _)) by lia. done.
  - unfold size in *. cbn [length] in *. lia.
Qed.

Lemma match_small x sols : 1 ≤ x ≤ 16 → match_op (OP_1 + x - 1) [] OP_SMALLINTEGER [] sols = Some (sols ++ [[x]]).
Proof.
  intros Hx. unfold match_op, DecodeOP_N. change (OP_SMALLINTEGER =? OP_PUBKEY) with false. change (OP_SMALLINTEGER =? OP_PUBKEYHASH) with false.
  change (OP_SMALLINTEGER =? OP_SMALLINTEGER) with true. cbn iota. rewrite (proj2 (Z.eqb_neq _ _)), !(proj2 (Z.leb_le _ _)) by lia.
  cbn [orb andb mbind option_bind]. do 4 f_equal. lia.
Qed.

Lemma multisig_match fuel m n keys :
  1 ≤ m ≤ 16 → 1 ≤ n ≤ 16 → keys ≠ [] → size keys ≤ 16 → Forall (λ k, key_size k = true) keys →
  match_template (S (S (S fuel))) (multisig (OP_1 + m - 1) (OP_1 + n - 1) keys) [OP_SMALLINTEGER; OP_PUBKEYS; OP_SMALLINTEGER; OP_CHECKMULTISIG] [] =
  Some ([m] :: keys ++ [[n]]).
Proof.
  intros Hm Hn Hne Hl Hk. pose proof (size_concat_push keys Hk) as Hsz. destruct keys as [|k keys]; [done|]. inversion Hk as [|?? Hk1 Hks]; subst.
  unfold multisig. erewrite match_template_step; [|opcode|opcode|lia]. rewrite match_small by done. cbn [mbind option_bind app].
  set (tail := [OP_1 + n - 1; OP_CHECKMULTISIG]). change (concat (map push_data (k :: keys))) with (push_data k ++ concat (map push_data keys)) in *.
  rewrite <- app_assoc. rewrite size_app in Hsz. pose proof (size_push_data k). assert (Hs2 : size (concat (map push_data keys) ++ tail) < 2 ^ 31).
  { rewrite size_app. change (size tail) with 2. pose proof (size_nonneg (push_data k)). unfold size in Hsz, Hl |- *. cbn [length] in Hsz, Hl. lia. }
  unfold key_size in Hk1. erewrite match_template_keys; [|apply GetOp_push_data; lia|opcode| |opcode].
  2:{ apply (pubkeys_loop_keys keys _ k _ _ tail (OP_1 + n - 1) []); [done| |done| |opcode].
      - rewrite length_app. pose proof (size_concat_push keys Hks) as H'. unfold size in H'. cbn [length tail]. lia.
      - intros k' Hk'. assert (key_size k' = true) as Hkk by (eapply Forall_forall in Hks; [exact Hks|by apply list_elem_of_In]). unfold key_size in Hkk. lia. }
  rewrite match_small by done. cbn [mbind option_bind]. rewrite match_exact by lia. by destruct fuel.
Qed.

Lemma Solver_multisig m keys s :
  1 ≤ m ≤ size keys → size keys ≤ 16 → Forall (λ k, key_size k = true) keys → GetScriptForMultisig m keys = Some s → IsAssetScript3 s = None →
  Solver s = Some (TX_MULTISIG, [m] :: keys ++ [[size keys]]).
Proof.
  intros Hm Hn Hk. unfold GetScriptForMultisig, EncodeOP_N. rewrite !(proj2 (Z.leb_le _ _)) by lia. cbn [andb mbind option_bind].
  rewrite !(proj2 (Z.eqb_neq _ 0)) by lia. intros [= <-] Ha. assert (Hne : keys ≠ []) by (intros ->; unfold size in Hm; cbn [length] in Hm; lia).
  fold (multisig (OP_1 + m - 1) (OP_1 + size keys - 1) keys) in Ha |- *.
  pose proof (multisig_no_witness (OP_1 + m - 1) (OP_1 + size keys - 1) keys Hne Hk) as Hw.
  assert (Es : Solver (multisig (OP_1 + m - 1) (OP_1 + size keys - 1) keys) = scan_templates (multisig (OP_1 + m - 1) (OP_1 + size keys - 1) keys) mTemplates).
  { apply Solver_scan; [apply no_script_hash; lia|done|done|lia|lia]. }
  rewrite Es. unfold scan_templates, mTemplates. erewrite (match_template_fail _ _ [OP_PUBKEY; OP_CHECKSIG]); [|opcode|opcode|lia|done].
  erewrite (match_template_fail _ _ [OP_DUP; _; _; _; _]); [|opcode|opcode|lia|change (match_op (OP_1 + m - 1) [] OP_DUP [] []) with (if negb (OP_1 + m - 1 =? OP_DUP) || false then None else Some ([] : list valtype));
    rewrite (proj2 (Z.eqb_neq (OP_1 + m - 1) _)) by lia; done].
  assert (El : ∃ f, S (length (multisig (OP_1 + m - 1) (OP_1 + size keys - 1) keys)) = S (S (S f))) by
    (unfold multisig; cbn [length]; rewrite length_app; eexists; cbn [length]; by rewrite !Nat.add_succ_r).
  destruct El as [f ->]. rewrite multisig_match by (done || lia). cbn [hd]. rewrite app_comm_cons, last_last. cbn [byte_at nth].
  match goal with |- context [size ?l - 2] => replace (size l) with (size keys + 2) by
    (unfold size, valtype, bytes in *; rewrite length_app; cbn [length]; lia) end.
  rewrite !(proj2 (Z.ltb_ge _ _)), Z.add_simpl_r, Z.eqb_refl by lia. done.
Qed.

(** * Destinations of any script *)

Lemma match_template_inv fuel pc1 o2 pc2 sols r :
  GetOp (o2 :: pc2) = (true, pc2, o2, []) → (o2 =? OP_PUBKEYS) = false → match_template fuel pc1 (o2 :: pc2) sols = Some r →
  ∃ fuel' pc1' o1 v1 sols', GetOp pc1 = (true, pc1', o1, v1) ∧ match_op o1 v1 o2 [] sols = Some sols' ∧ match_template fuel' pc1' pc2 sols' = Some r.
Proof.
  intros E2 Hk H. destruct fuel as [|fuel]; [by destruct pc1|].
  assert (H' : (let '(ok1, pc1, o1, v1) := GetOp pc1 in
    if negb ok1 then None else sols' ← match_op o1 v1 o2 [] sols; match_template fuel pc1 pc2 sols') = Some r).
  { rewrite <- H. destruct pc1; cbn [match_template]; rewrite E2, Hk; by destruct (GetOp _) as [[[[] ?] ?] ?]. }
  destruct (GetOp pc1) as [[[[] pc1'] o1] v1]; [|done]. cbn [negb] in H'. destruct (match_op _ _ _ _ _) as [sols'|] eqn:Em; [|done]. eauto 10.
Qed.

Lemma match_template_end fuel pc1 sols r : match_template fuel pc1 [] sols = Some r → r = sols.
Proof. destruct pc1, fuel; cbn [match_template]; try congruence. by destruct (GetOp _) as [[[[] ?] ?] ?]. Qed.

Ltac template H := apply match_template_inv in H as (? & ? & ? & ? & ? & ? & ? & H); [|done..].

Lemma match_op_literal o1 v1 o2 sols r :
  ((o2 =? OP_PUBKEY) || (o2 =? OP_PUBKEYHASH) || (o2 =? OP_SMALLINTEGER)) = false → match_op o1 v1 o2 [] sols = Some r → r = sols.
Proof. unfold match_op. intros [[-> ->]%orb_false_iff ->]%orb_false_iff. destruct (_ || _); congruence. Qed.

Lemma match_pubkeyhash fuel s r : is_bytes s →
  match_template fuel s [OP_DUP; OP_HASH160; OP_PUBKEYHASH; OP_EQUALVERIFY; OP_CHECKSIG] [] = Some r →
  ∃ h, r = [h] ∧ is_bytes h ∧ length h = 20%nat.
Proof.
  intros Hb H. do 5 template H. apply match_template_end in H as ->.
  repeat match goal with G : GetOp ?p = _, B : is_bytes ?p |- _ => apply GetOp_bytes in G as (_ & ? & ?); [|exact B] end.
  repeat match goal with M : match_op _ _ _ _ _ = Some _ |- _ => apply match_op_literal in M; [subst|reflexivity] end.
  match goal with M : match_op _ ?v _ _ _ = Some _ |- _ => unfold match_op in M; change (OP_PUBKEYHASH =? OP_PUBKEY) with false in M; destruct (size v =? 20) eqn:E; [|done] end.
  simplify_eq/=. eexists. split_and!; [done|done|]. apply Z.eqb_eq in E. unfold size in E. lia.
Qed.

(** The destination of any script is that of a hash of twenty bytes. *)
Lemma ExtractDestination_ok s d : is_bytes s → ExtractDestination s = Some d → dest_ok d.
Proof.
  intros Hb H. assert (Hsub : ∀ k, (k + 20 ≤ length s)%nat → is_bytes (take 20 (drop k s)) ∧ length (take 20 (drop k s)) = 20%nat).
  { intros k Hk. split; [by apply Forall_firstn, Forall_skipn|]. rewrite length_firstn, length_skipn. lia. }
  unfold ExtractDestination, Solver in H. destruct (IsPayToScriptHash s) eqn:Esh.
  { unfold IsPayToScriptHash in Esh. rewrite !andb_true_iff, Z.eqb_eq in Esh. destruct Esh as [[[E _] _] _]. injection H as <-. apply Hsub. unfold size in E. lia. }
  destruct (IsAssetScript3 s) as [[[t own] i]|] eqn:Ea.
  { assert (31 < size s). { unfold IsAssetScript3 in Ea. destruct (31 <? size s) eqn:E; [lia|done]. }
    assert (dest_ok (CKeyID (take 20 (drop 3 s)))) by (apply Hsub; unfold size in *; lia).
    cbn [mbind option_bind hd] in H. unfold IsAssetScript3 in Ea. repeat case_match; simplify_eq; done. }
  destruct (IsWitnessProgram s) as [[wv wp]|]; [by repeat (case_match; simplify_eq/=)|].
  destruct (_ && _ && IsPushOnly _); [done|]. destruct (_ && _ && IsPushOnly _).
  { cbn [mbind option_bind] in H. destruct (_ && _) eqn:E; [|done]. injection H as <-. apply andb_true_iff in E as [E _]. apply Hsub. unfold size in E. lia. }
  cbn [scan_templates mTemplates] in H. destruct (match_template _ _ [OP_PUBKEY; _] _).
  { cbn [mbind option_bind] in H. case_match; [|done]. injection H as <-. unfold dest_ok, GetID. rewrite Hash160_spec by done. apply ripemd160_bytes. }
  destruct (match_template _ _ (OP_DUP :: _) _) eqn:E.
  { apply match_pubkeyhash in E as (h & -> & ? & ?); [|done]. by injection H as <-. }
  by repeat (case_match; simplify_eq/=).
Qed.

(** * Properties *)

(** the scripts that pay to a destination are solved to it: an output for a key hash, for a script hash, for a
    key hash with an asset of any kind behind it, and the data output of an address give back the destination they were
    made for, and a multisignature script of up to sixteen keys its keys and its threshold. *)
Theorem standard_roundtrip id tail d m keys s :
  length id = 20%nat → IsAssetScript (GetScriptForDestination (CKeyID id) ++ tail) = true →
  d ≠ [] → size d < 2 ^ 16 → byte_at (GetScriptForNullAssetDataDestination (CKeyID id) ++ push_data d) 25 ≠ OP_cmusicai_ASSET →
  1 ≤ m ≤ size keys → size keys ≤ 16 → Forall (λ k, key_size k = true) keys → GetScriptForMultisig m keys = Some s → IsAssetScript s = false →
  ExtractDestination (GetScriptForDestination (CKeyID id)) = Some (CKeyID id) ∧
  ExtractDestination (GetScriptForDestination (CScriptID id)) = Some (CScriptID id) ∧
  ExtractDestination (GetScriptForDestination (CKeyID id) ++ tail) = Some (CKeyID id) ∧
  ExtractDestination (GetScriptForNullAssetDataDestination (CKeyID id) ++ push_data d) = Some (CKeyID id) ∧
  Solver s = Some (TX_MULTISIG, [m] :: keys ++ [[size keys]]).
Proof.
  unfold IsAssetScript. intros Hl Ha Hd Hs Hb Hm Hn Hk Em Hna. unfold ExtractDestination.
  rewrite Solver_keyhash, Solver_scripthash, Solver_null_data by done. split_and!; [done|done| |done|].
  - apply bool_decide_eq_true in Ha as [[[t own] i] E]. rewrite (Solver_asset _ _ _ _ _ Hl E). cbn [mbind option_bind hd].
    unfold IsAssetScript3 in E. repeat case_match; simplify_eq; done.
  - apply (Solver_multisig m keys s); try done. apply bool_decide_eq_false in Hna. by destruct (IsAssetScript3 s); [destruct Hna; eauto|].
Qed.

Lemma standard_roundtrip_witness :
  ExtractDestination (GetScriptForDestination (CKeyID (repeat 7 20)) ++ [OP_cmusicai_ASSET; 9; 114; 118; 110; 116; 3; 65; 66; 67; 1; OP_DROP]) =
  Some (CKeyID (repeat 7 20)).
Proof.
  refine (proj1 (proj2 (proj2 (standard_roundtrip (repeat 7 20) _ [3; 65; 66; 67; 1] 1 [2 :: repeat 1 32] _ _ _ _ _ _ _ _ _ _ _)))).
  - reflexivity.
  - vm_compute. reflexivity.
  - discriminate.
  - vm_compute. reflexivity.
  - vm_compute. discriminate.
  - vm_compute. split; discriminate.
  - vm_compute. discriminate.
  - constructor; [vm_compute; reflexivity|constructor].
  - vm_compute. reflexivity.
  - vm_compute. reflexivity.
Defined.
