(* ===== verification/AssetData.v ===== *)
(** The data of assets in scripts (assets/assettypes.h, assets/assets.cpp): the records that scripts carry, their
    serialization, the scripts that are built from them and read back. *)
From stdpp Require Import base list option.
From Stdlib Require Import ZArith Lia.
From Stdlib Require String.
From S2P Require Import Prelude ArithUint256 Serialize Chain Transaction Text AssetNames Base58 Script Standard.
Import String.StringSyntax.
Open Scope Z_scope.

(** * Records *)

Definition i8 (z : Z) : Z := (z + 2 ^ 7) mod 2 ^ 8 - 2 ^ 7.
Definition is_i8 (z : Z) : Prop := - 2 ^ 7 ≤ z < 2 ^ 7.

Record CNewAsset := mkCNewAsset {
  na_strName : text; na_nAmount : Z; na_units : Z; na_nReissuable : Z; na_nHasIPFS : Z; na_strIPFSHash : text }.
Definition CNewAsset_SetNull : CNewAsset := mkCNewAsset [] 0 8 0 0 [].
Definition CNewAsset_IsNull (a : CNewAsset) : bool := text_eqb (na_strName a) [].

Record CAssetTransfer := mkCAssetTransfer { at_strName : text; at_nAmount : Z; at_message : text; at_nExpireTime : Z }.

Record CReissueAsset := mkCReissueAsset {
  ra_strName : text; ra_nAmount : Z; ra_nUnits : Z; ra_nReissuable : Z; ra_strIPFSHash : text }.
Definition CReissueAsset_IsNull (r : CReissueAsset) : bool := text_eqb (ra_strName r) [] || (ra_nAmount r <? 0).

Record CNullAssetTxData := mkCNullAssetTxData { nd_asset_name : text; nd_flag : Z }.
Record CNullAssetTxVerifierString := mkVerifierString { verifier_string : text }.

(** * Serialization *)

Open Scope reader_scope.

Definition ser_write_i8 (n : Z) : bytes := ser_writedata8 n.
Definition ser_read_i8 : reader Z := let* n := ser_readdata8 in rret (i8 n).

Abbreviation IPFS_SHA2_256 := 0x12%Z.
Abbreviation TXID_NOTIFIER := 0x54%Z.
Abbreviation IPFS_SHA2_256_LEN := 0x20%Z.

(** Writing a hash: what is written and the returned value. *)
Definition WriteAssetHash (strIPFSHash : text) : bytes * bool :=
  if (length strIPFSHash =? 34)%nat then (ser_writedata8 IPFS_SHA2_256 ++ Serialize_string (drop 2 strIPFSHash), true)
  else if (length strIPFSHash =? 32)%nat then (ser_writedata8 TXID_NOTIFIER ++ Serialize_string strIPFSHash, true)
  else ([], false).

(** Reading a hash, if enough of the stream is left. *)
Definition ReadAssetHash : reader (text * bool) := λ s,
  if (33 <=? length s)%nat then
    (let* sha2_256 := ser_readdata8 in
     let* hash := Unserialize_string in
     rret ((if sha2_256 =? IPFS_SHA2_256 then [IPFS_SHA2_256; IPFS_SHA2_256_LEN] else []) ++ take 32 hash, true)) s
  else rret ([], false) s.

Definition CNewAsset_Serialize (a : CNewAsset) : bytes :=
  Serialize_string (na_strName a) ++ ser_write_i64 (na_nAmount a) ++ ser_write_i8 (na_units a) ++ ser_write_i8 (na_nReissuable a) ++
  ser_write_i8 (na_nHasIPFS a) ++ (if na_nHasIPFS a =? 1 then (WriteAssetHash (na_strIPFSHash a)).1 else []).

(** Into an object whose hash is empty. *)
Definition CNewAsset_Unserialize : reader CNewAsset :=
  let* strName := Unserialize_string in
  let* nAmount := ser_read_i64 in
  let* units := ser_read_i8 in
  let* nReissuable := ser_read_i8 in
  let* nHasIPFS := ser_read_i8 in
  if nHasIPFS =? 1 then let* h := ReadAssetHash in rret (mkCNewAsset strName nAmount units nReissuable nHasIPFS h.1)
  else rret (mkCNewAsset strName nAmount units nReissuable nHasIPFS []).

Definition CAssetTransfer_Serialize (t : CAssetTransfer) : bytes :=
  let '(hash, validIPFS) := WriteAssetHash (at_message t) in
  Serialize_string (at_strName t) ++ ser_write_i64 (at_nAmount t) ++ hash ++
  (if validIPFS && negb (at_nExpireTime t =? 0) then ser_write_i64 (at_nExpireTime t) else []).

(** Into an object whose time is zero. *)
Definition CAssetTransfer_Unserialize : reader CAssetTransfer :=
  let* strName := Unserialize_string in
  let* nAmount := ser_read_i64 in
  let* h := ReadAssetHash in
  if h.2 then λ s,
    if (8 <=? length s)%nat then (let* nExpireTime := ser_read_i64 in rret (mkCAssetTransfer strName nAmount h.1 nExpireTime)) s
    else rret (mkCAssetTransfer strName nAmount h.1 0) s
  else rret (mkCAssetTransfer strName nAmount h.1 0).

Definition CReissueAsset_Serialize (r : CReissueAsset) : bytes :=
  Serialize_string (ra_strName r) ++ ser_write_i64 (ra_nAmount r) ++ ser_write_i8 (ra_nUnits r) ++ ser_write_i8 (ra_nReissuable r) ++
  (WriteAssetHash (ra_strIPFSHash r)).1.
Definition CReissueAsset_Unserialize : reader CReissueAsset :=
  let* strName := Unserialize_string in
  let* nAmount := ser_read_i64 in
  let* nUnits := ser_read_i8 in
  let* nReissuable := ser_read_i8 in
  let* h := ReadAssetHash in
  rret (mkCReissueAsset strName nAmount nUnits nReissuable h.1).

Definition CNullAssetTxData_Serialize (d : CNullAssetTxData) : bytes := Serialize_string (nd_asset_name d) ++ ser_write_i8 (nd_flag d).
Definition CNullAssetTxData_Unserialize : reader CNullAssetTxData :=
  let* asset_name := Unserialize_string in let* flag := ser_read_i8 in rret (mkCNullAssetTxData asset_name flag).

Definition VerifierString_Serialize (v : CNullAssetTxVerifierString) : bytes := Serialize_string (verifier_string v).
Definition VerifierString_Unserialize : reader CNullAssetTxVerifierString :=
  let* verifier_string := Unserialize_string in rret (mkVerifierString verifier_string).

Close Scope reader_scope.

(** * Building scripts *)

(** [script << OP_cmusicai_ASSET << vchMessage << OP_DROP] with the letters of the marker in front of the data. *)
Definition asset_push (letter : Z) (data : bytes) : bytes :=
  [OP_cmusicai_ASSET] ++ push_data ([cmusicai_N; cmusicai_E; cmusicai_X; letter] ++ data) ++ [OP_DROP].

Definition CNewAsset_ConstructTransaction (a : CNewAsset) (script : CScript) : CScript :=
  script ++ asset_push cmusicai_Q (CNewAsset_Serialize a).
Definition ConstructOwnerTransaction (a : CNewAsset) (script : CScript) : CScript :=
  script ++ asset_push cmusicai_O (Serialize_string (na_strName a ++ OWNER_TAG)).
Definition CAssetTransfer_ConstructTransaction (t : CAssetTransfer) (script : CScript) : CScript :=
  script ++ asset_push cmusicai_T (CAssetTransfer_Serialize t).
Definition CReissueAsset_ConstructTransaction (r : CReissueAsset) (script : CScript) : CScript :=
  script ++ asset_push cmusicai_N (CReissueAsset_Serialize r).
Definition CNullAssetTxData_ConstructTransaction (d : CNullAssetTxData) (script : CScript) : CScript :=
  script ++ push_data (CNullAssetTxData_Serialize d).
Definition ConstructGlobalRestrictionTransaction (d : CNullAssetTxData) (script : CScript) : CScript :=
  script ++ [OP_cmusicai_ASSET; OP_RESERVED; OP_RESERVED] ++ push_data (CNullAssetTxData_Serialize d).
Definition VerifierString_ConstructTransaction (v : CNullAssetTxVerifierString) (script : CScript) : CScript :=
  script ++ [OP_cmusicai_ASSET; OP_RESERVED] ++ push_data (VerifierString_Serialize v).

(** * Reading scripts *)

(** The starting index where the function returns [true]. *)
Definition IsScriptNewAsset (s : CScript) : option Z :=
  match IsAssetScript3 s with Some (TX_NEW_ASSET, false, i) => Some i | _ => None end.
Definition IsScriptOwnerAsset (s : CScript) : option Z :=
  match IsAssetScript3 s with Some (TX_NEW_ASSET, true, i) => Some i | _ => None end.
Definition IsScriptReissueAsset (s : CScript) : option Z :=
  match IsAssetScript3 s with Some (TX_REISSUE_ASSET, _, i) => Some i | _ => None end.
Definition IsScriptTransferAsset (s : CScript) : option Z :=
  match IsAssetScript3 s with Some (TX_TRANSFER_ASSET, _, i) => Some i | _ => None end.

(** [ssAsset >> obj] on the bytes of the script from an index on; what is left of the stream is dropped. *)
Definition from_stream {A} (r : reader A) (index : Z) (s : CScript) : option A := fst <$> r (drop (Z.to_nat index) s).

(** The base58 prefixes of the network, and [AreTransferScriptsSizeDeployed()]. *)
Section reading.
Context (params : Base58Prefixes) (fTransferScriptsSize : bool).

(** [EncodeDestination] of the destination, which stays empty when it cannot be extracted. *)
Definition script_address (s : CScript) : text := default [] (EncodeDestination params (default CNoDestination (ExtractDestination s))).

Definition AssetFromScript (s : CScript) : option (CNewAsset * text) :=
  i ← IsScriptNewAsset s; a ← from_stream CNewAsset_Unserialize i s; Some (a, script_address s).
Definition OwnerAssetFromScript (s : CScript) : option (text * text) :=
  i ← IsScriptOwnerAsset s; a ← from_stream Unserialize_string i s; Some (a, script_address s).
Definition ReissueAssetFromScript (s : CScript) : option (CReissueAsset * text) :=
  i ← IsScriptReissueAsset s; r ← from_stream CReissueAsset_Unserialize i s; Some (r, script_address s).
Definition TransferAssetFromScript (s : CScript) : option (CAssetTransfer * text) :=
  i ← IsScriptTransferAsset s;
  t ← from_stream CAssetTransfer_Unserialize (if fTransferScriptsSize then i else 31) s; Some (t, script_address s).

Definition AssetNullDataFromScript (s : CScript) : option (CNullAssetTxData * text) :=
  if IsNullAssetTxDataScript s then d ← from_stream CNullAssetTxData_Unserialize 23 s; Some (d, script_address s) else None.
Definition GlobalAssetNullDataFromScript (s : CScript) : option CNullAssetTxData :=
  if IsNullGlobalRestrictionAssetTxDataScript s then from_stream CNullAssetTxData_Unserialize 4 s else None.
Definition AssetNullVerifierDataFromScript (s : CScript) : option CNullAssetTxVerifierString :=
  if IsNullAssetVerifierTxDataScript s then from_stream VerifierString_Unserialize 3 s else None.

(** A script of a new asset whose name has the given type. *)
Definition IsScriptNewTyped (is_type : AssetType → bool) (s : CScript) : option Z :=
  match IsAssetScript3 s with
  | None => None
  | Some (_, _, i) =>
      match AssetFromScript s with
      | None => None
      | Some (asset, _) => match IsAssetNameValid (na_strName asset) with (true, Some type) => if is_type type then Some i else None | _ => None end
      end
  end.
Definition IsScriptNewUniqueAsset : CScript → option Z := IsScriptNewTyped (λ t, bool_decide (t = UNIQUE)).
Definition IsScriptNewMsgChannelAsset : CScript → option Z := IsScriptNewTyped (λ t, bool_decide (t = MSGCHANNEL)).
Definition IsScriptNewQualifierAsset : CScript → option Z := IsScriptNewTyped (λ t, bool_decide (t = QUALIFIER) || bool_decide (t = SUB_QUALIFIER)).
Definition IsScriptNewRestrictedAsset : CScript → option Z := IsScriptNewTyped (λ t, bool_decide (t = RESTRICTED)).

Definition MsgChannelAssetFromScript (s : CScript) : option (CNewAsset * text) :=
  i ← IsScriptNewMsgChannelAsset s; a ← from_stream CNewAsset_Unserialize i s; Some (a, script_address s).
Definition QualifierAssetFromScript (s : CScript) : option (CNewAsset * text) :=
  i ← IsScriptNewQualifierAsset s; a ← from_stream CNewAsset_Unserialize i s; Some (a, script_address s).
Definition RestrictedAssetFromScript (s : CScript) : option (CNewAsset * text) :=
  i ← IsScriptNewRestrictedAsset s; a ← from_stream CNewAsset_Unserialize i s; Some (a, script_address s).

(** [CAssetOutputEntry] *)
Record CAssetOutputEntry := mkAssetEntry {
  e_type : txnouttype; e_assetName : text; e_destination : CTxDestination; e_nAmount : Z; e_message : text; e_expireTime : Z }.

(** [DecodeDestination(address)] *)
Definition entry_destination (address : text) : CTxDestination := default CNoDestination (DecodeDestination params address).

(** The branches that follow the failure of [AssetFromScript] return [false] whatever they find. *)
Definition GetAssetData (script : CScript) : option CAssetOutputEntry :=
  match IsAssetScript3 script with
  | Some (TX_NEW_ASSET, false, _) =>
      '(asset, address) ← AssetFromScript script;
      Some (mkAssetEntry TX_NEW_ASSET (na_strName asset) (entry_destination address) (na_nAmount asset) [] 0)
  | Some (TX_TRANSFER_ASSET, _, _) =>
      '(transfer, address) ← TransferAssetFromScript script;
      Some (mkAssetEntry TX_TRANSFER_ASSET (at_strName transfer) (entry_destination address) (at_nAmount transfer) (at_message transfer) (at_nExpireTime transfer))
  | Some (TX_NEW_ASSET, true, _) =>
      '(assetName, address) ← OwnerAssetFromScript script;
      Some (mkAssetEntry TX_NEW_ASSET assetName (entry_destination address) (1 * COIN) [] 0)
  | Some (TX_REISSUE_ASSET, _, _) =>
      '(reissue, address) ← ReissueAssetFromScript script;
      Some (mkAssetEntry TX_REISSUE_ASSET (ra_strName reissue) (entry_destination address) (ra_nAmount reissue) [] 0)
  | _ => None
  end.
End reading.

(** [flag] is an [int8_t]; the check of existence comes from the cache of assets. The result is the error. *)
Definition CNullAssetTxData_IsValid (d : CNullAssetTxData) (exists_asset : text → bool) (fForceCheckPrimaryAssetExists : bool) : option text :=
  match IsAssetNameValid (nd_asset_name d) with
  | (true, Some type) =>
      if negb (bool_decide (type = QUALIFIER)) && negb (bool_decide (type = SUB_QUALIFIER)) && negb (bool_decide (type = RESTRICTED)) then
        Some (str "Asset must be a qualifier, sub qualifier, or a restricted asset")
      else if negb (nd_flag d =? 0) || negb (nd_flag d =? 1) then Some (str "Flag must be 1 or 0")
      else if fForceCheckPrimaryAssetExists && negb (exists_asset (nd_asset_name d)) then Some (str "Asset doesn't exist: " ++ nd_asset_name d)
      else None
  | _ => Some (str "Asset name is not valid")
  end.

(** * Round trips of the data *)

Lemma codec_i8 : codec ser_write_i8 ser_read_i8 is_i8.
Proof.
  apply (codec_ext (λ b, ser_writedata8 (u8 b))).
  - intros b _. unfold ser_write_i8, ser_writedata8. f_equal. unfold u8. apply Z.mod_mod. lia.
  - apply (codec_map _ _ _ i8 u8 is_i8 codec_u8); unfold is_i8, i8, is_u8, u8; intros x Hx; (split; [pose proof (Z.mod_pos_bound (x + 2 ^ 7) (2 ^ 8) ltac:(lia)); pose proof (Z.mod_pos_bound x (2 ^ 8) ltac:(lia)); lia|]).
    + destruct (Z.ltb_spec x 0).
      * rewrite <- (Z.mod_add x 1), (Z.mod_small (x + 1 * 2 ^ 8)) by lia. rewrite <- (Z.mod_add _ (-1)), Z.mod_small by lia. lia.
      * rewrite (Z.mod_small x), Z.mod_small by lia. lia.
    + destruct (Z.ltb_spec x (2 ^ 7)).
      * rewrite (Z.mod_small (x + 2 ^ 7)), Z.mod_small by lia. lia.
      * rewrite <- (Z.mod_add (x + 2 ^ 7) (-1)), (Z.mod_small (x + 2 ^ 7 + -1 * 2 ^ 8)) by lia. rewrite <- (Z.mod_add _ 1), Z.mod_small by lia. lia.
Qed.
#[export] Hint Resolve codec_i8 : codec.

(** A hash as it is stored: 32 bytes, or the two bytes of IPFS and 32 bytes. *)
Definition hash_ok (h : text) : Prop :=
  is_bytes h ∧ (length h = 32%nat ∨ (length h = 34%nat ∧ take 2 h = [IPFS_SHA2_256; IPFS_SHA2_256_LEN])).

Lemma vec_ok v : is_bytes v → (length v ≤ 40)%nat → is_vec v.
Proof. intros Hv Hl. split; [done|]. split; [lia|]. unfold MAX_SIZE. lia. Qed.

Lemma Serialize_string_short v : (length v < 253)%nat → Serialize_string v = Z.of_nat (length v) :: v.
Proof.
  intros Hl. unfold Serialize_string, WriteCompactSize. rewrite (proj2 (Z.ltb_lt _ _)) by lia. unfold ser_writedata8.
  rewrite u8_small by (red; lia). cbn. rewrite Z.mod_small by lia. done.
Qed.

Lemma WriteAssetHash_length h : hash_ok h → (WriteAssetHash h).2 = true ∧ length (WriteAssetHash h).1 = 34%nat.
Proof.
  intros [Hb [Hl|[Hl Ht]]]; unfold WriteAssetHash; rewrite Hl; cbn [Nat.eqb fst snd]; (split; [done|]);
    rewrite length_app, Serialize_string_short by (rewrite ?length_drop; lia); cbn [length]; rewrite ?length_drop, Hl; done.
Qed.

Lemma ReadAssetHash_write h rest : hash_ok h → ReadAssetHash ((WriteAssetHash h).1 ++ rest) = Some ((h, true), rest).
Proof.
  intros Hh. unfold ReadAssetHash. destruct (WriteAssetHash_length h Hh) as [_ Hlw]. rewrite length_app, Hlw. cbn [Nat.leb Nat.add].
  destruct Hh as [Hb [Hl|[Hl Ht]]]; unfold WriteAssetHash; rewrite Hl; cbn [Nat.eqb fst].
  - assert (is_vec h) by (apply vec_ok; [done|lia]). assert (is_u8 TXID_NOTIFIER) by (red; lia). rread. rread. unfold rret. cbn [Z.eqb Pos.eqb app].
    by rewrite take_ge by lia.
  - assert (is_vec (drop 2 h)) by (apply vec_ok; [by apply Forall_drop|rewrite length_drop; lia]). assert (is_u8 IPFS_SHA2_256) by (red; lia).
    rread. rread. unfold rret. cbn [Z.eqb Pos.eqb]. rewrite (take_ge (drop 2 h)) by (rewrite length_drop; lia). rewrite <- Ht, take_drop. done.
Qed.

Lemma ReadAssetHash_short s : (length s < 33)%nat → ReadAssetHash s = Some (([], false), s).
Proof. intros H. unfold ReadAssetHash. by rewrite (proj2 (Nat.leb_gt _ _)). Qed.

Definition name_ok (n : text) : Prop := is_bytes n ∧ (length n ≤ 40)%nat.

Definition new_asset_ok (a : CNewAsset) : Prop :=
  name_ok (na_strName a) ∧ is_i64 (na_nAmount a) ∧ is_i8 (na_units a) ∧ is_i8 (na_nReissuable a) ∧ is_i8 (na_nHasIPFS a) ∧
  (if na_nHasIPFS a =? 1 then hash_ok (na_strIPFSHash a) else na_strIPFSHash a = []).
Definition transfer_ok (t : CAssetTransfer) : Prop :=
  name_ok (at_strName t) ∧ is_i64 (at_nAmount t) ∧ is_i64 (at_nExpireTime t) ∧ (hash_ok (at_message t) ∨ (at_message t = [] ∧ at_nExpireTime t = 0)).
Definition reissue_ok (r : CReissueAsset) : Prop :=
  name_ok (ra_strName r) ∧ is_i64 (ra_nAmount r) ∧ is_i8 (ra_nUnits r) ∧ is_i8 (ra_nReissuable r) ∧
  (hash_ok (ra_strIPFSHash r) ∨ ra_strIPFSHash r = []).
Definition null_data_ok (d : CNullAssetTxData) : Prop := name_ok (nd_asset_name d) ∧ is_i8 (nd_flag d).

Lemma name_vec n : name_ok n → is_vec n.
Proof. intros [? ?]. by apply vec_ok. Qed.
#[export] Hint Resolve name_vec : codec.

(** What is read back when fewer bytes than a hash, or than a time, follow. *)
Lemma CNewAsset_read a rest : new_asset_ok a → CNewAsset_Unserialize (CNewAsset_Serialize a ++ rest) = Some (a, rest).
Proof.
  intros (Hn & Ha & Hu & Hr & Hi & Hh). unfold CNewAsset_Serialize, CNewAsset_Unserialize. do 5 rread.
  destruct (na_nHasIPFS a =? 1).
  - unfold rbind. rewrite ReadAssetHash_write by done. cbn. by destruct a.
  - unfold rret. cbn. destruct a; cbn in *; by subst.
Qed.

Lemma CAssetTransfer_read t rest :
  transfer_ok t → (length rest < 8)%nat → CAssetTransfer_Unserialize (CAssetTransfer_Serialize t ++ rest) = Some (t, rest).
Proof.
  intros (Hn & Ha & He & Hm) Hl. unfold CAssetTransfer_Serialize, CAssetTransfer_Unserialize.
  destruct Hm as [Hh|[Em Ee]].
  - destruct (WriteAssetHash_length _ Hh) as [Hv Hlen]. pose proof (ReadAssetHash_write (at_message t)) as Hread. destruct (WriteAssetHash (at_message t)) as [w b].
    cbn [snd fst] in *. subst b. do 2 rread. unfold rbind at 1. rewrite <- ?app_assoc, Hread by done. cbn [snd fst andb].
    destruct (Z.eqb_spec (at_nExpireTime t) 0) as [E|E]; cbn [negb].
    + cbn [app]. rewrite (proj2 (Nat.leb_gt _ _)) by lia. unfold rret. rewrite <- E. by destruct t.
    + rewrite length_app. assert (El : length (ser_write_i64 (at_nExpireTime t)) = 8%nat) by apply length_le_bytes. rewrite El. cbn [Nat.leb Nat.add].
      rread. unfold rret. by destruct t.
  - rewrite Em. cbn [WriteAssetHash length Nat.eqb andb]. do 2 rread. unfold rbind. cbn [app]. rewrite ReadAssetHash_short by lia. cbn.
    unfold rret. destruct t; cbn in *. by subst.
Qed.

Lemma CReissueAsset_read r rest :
  reissue_ok r → (length rest < 33)%nat → CReissueAsset_Unserialize (CReissueAsset_Serialize r ++ rest) = Some (r, rest).
Proof.
  intros (Hn & Ha & Hu & Hr & Hh) Hl. unfold CReissueAsset_Serialize, CReissueAsset_Unserialize. do 4 rread. unfold rbind.
  destruct Hh as [Hh|Hh]; [rewrite ReadAssetHash_write by done|rewrite Hh; cbn [WriteAssetHash length Nat.eqb fst app]; rewrite ReadAssetHash_short by lia];
    unfold rret; cbn; destruct r; cbn in *; by subst.
Qed.

Lemma CNullAssetTxData_read d rest : null_data_ok d → CNullAssetTxData_Unserialize (CNullAssetTxData_Serialize d ++ rest) = Some (d, rest).
Proof. intros [Hn Hf]. unfold CNullAssetTxData_Serialize, CNullAssetTxData_Unserialize. do 2 rread. unfold rret. by destruct d. Qed.

(** * Round trips of the scripts *)

Abbreviation pay_to id := (GetScriptForDestination (CKeyID id)).

(** Where the marker and the data are in the script of a payment with an asset. *)
Lemma asset_push_index id letter data :
  length id = 20%nat → size data + 4 < 114 →
  let s := pay_to id ++ asset_push letter data in
  ∃ i, (i = 30 ∨ i = 31) ∧ (i = 30 ↔ size data + 4 < 76) ∧ asset_index s = i ∧ byte_at s (Z.to_nat i) = letter ∧
    drop (Z.to_nat (i + 1)) s = data ++ [OP_DROP] ∧ byte_at s 25 = OP_cmusicai_ASSET ∧ size s = i + 2 + size data.
Proof.
  intros Hl Hs. pose proof (size_nonneg data) as H0. unfold GetScriptForDestination. rewrite push_hash by done. unfold asset_push, push_data.
  do 20 (destruct id as [|? id]; [discriminate Hl|]). destruct id; [|discriminate Hl]. cbn [app] in *.
  assert (Es : size (cmusicai_N :: cmusicai_E :: cmusicai_X :: letter :: data) = 4 + size data) by (unfold size; cbn [length]; lia). rewrite Es.
  destruct (Z.ltb_spec (4 + size data) OP_PUSHDATA1).
  - exists 30. rewrite u8_small by (red; lia). cbn [app]. split_and!; try done; [by left|lia|unfold size; cbn [length]; rewrite length_app; cbn [length]; lia].
  - rewrite (proj2 (Z.leb_le _ _)) by lia. rewrite u8_small by (red; lia). exists 31. cbn [app]. split_and!; try done; [by right|lia| |unfold size; cbn [length]; rewrite length_app; cbn [length]; lia].
    unfold asset_index. cbn [byte_at nth]. rewrite (proj2 (Z.eqb_neq _ _)) by lia. done.
Qed.

Definition letter_type (letter : Z) : option (txnouttype * bool) :=
  if letter =? cmusicai_T then Some (TX_TRANSFER_ASSET, false) else if letter =? cmusicai_Q then Some (TX_NEW_ASSET, false)
  else if letter =? cmusicai_O then Some (TX_NEW_ASSET, true) else if letter =? cmusicai_N then Some (TX_REISSUE_ASSET, false) else None.

Lemma asset_push_script id letter data type own :
  length id = 20%nat → (letter = cmusicai_Q → 8 ≤ size data) → size data + 4 < 114 → letter_type letter = Some (type, own) →
  ∃ i, IsAssetScript3 (pay_to id ++ asset_push letter data) = Some (type, own, i) ∧ (i = 31 ∨ 72 ≤ size data) ∧
    ∀ A (r : reader A) x, r (data ++ [OP_DROP]) = Some (x, [OP_DROP]) → from_stream r i (pay_to id ++ asset_push letter data) = Some x.
Proof.
  intros Hl H0 Hs Ht. destruct (asset_push_index id letter data Hl Hs) as (i & Hi & Hi' & Ei & Eb & Ed & E25 & Esz).
  pose proof (size_nonneg data). exists (i + 1). unfold IsAssetScript3. rewrite (proj2 (Z.ltb_lt 31 _)), E25, Ei, (proj2 (Z.ltb_lt 0 _)), Eb by lia. cbn [Z.eqb Pos.eqb andb].
  unfold letter_type in Ht. split_and!.
  - destruct (Z.eqb_spec letter cmusicai_T); [by simplify_eq|]. destruct (Z.eqb_spec letter cmusicai_Q) as [HQ|HQ].
    + rewrite (proj2 (Z.ltb_lt 39 _)) by (specialize (H0 HQ); lia). by simplify_eq.
    + cbn [andb]. destruct (letter =? cmusicai_O); [by simplify_eq|]. destruct (letter =? cmusicai_N); by simplify_eq.
  - lia.
  - intros A r x Hr. unfold from_stream. by rewrite Ed, Hr.
Qed.

Lemma script_address_key params id tail :
  length id = 20%nat → IsAssetScript (pay_to id ++ tail) = true → script_address params (pay_to id ++ tail) = default [] (EncodeDestination params (CKeyID id)).
Proof.
  intros Hl Ha. unfold script_address, ExtractDestination. apply bool_decide_eq_true in Ha as [[[t own] i] E].
  rewrite (Solver_asset _ _ _ _ _ Hl E). cbn [mbind option_bind hd]. unfold IsAssetScript3 in E. repeat case_match; simplify_eq; done.
Qed.

Lemma IsAssetScript_some s x : IsAssetScript3 s = Some x → IsAssetScript s = true.
Proof. intros E. apply bool_decide_eq_true. rewrite E. eauto. Qed.

Lemma size_string v : (length v < 253)%nat → size (Serialize_string v) = 1 + size v.
Proof. intros H. rewrite Serialize_string_short by done. unfold size. cbn [length]. lia. Qed.

Lemma size_i64 n : size (ser_write_i64 n) = 8.
Proof. unfold size, ser_write_i64, ser_writedata64. by rewrite length_le_bytes. Qed.

Lemma size_i8 n : size (ser_write_i8 n) = 1.
Proof. done. Qed.

Lemma size_hash_write h : hash_ok h ∨ h = [] → 0 ≤ size (WriteAssetHash h).1 ≤ 34.
Proof. intros [H | ->]; [destruct (WriteAssetHash_length h H) as [_ E]; unfold size; rewrite E; lia|done]. Qed.

Lemma CNewAsset_size a : new_asset_ok a → 8 ≤ size (CNewAsset_Serialize a) < 110.
Proof.
  intros ((_ & Hn) & _ & _ & _ & _ & Hh). unfold CNewAsset_Serialize. rewrite !size_app, size_string, size_i64, !size_i8 by lia.
  pose proof (size_nonneg (na_strName a)). assert (size (na_strName a) ≤ 40) by (unfold size; lia). destruct (na_nHasIPFS a =? 1).
  - pose proof (size_hash_write (na_strIPFSHash a) ltac:(by left)). lia.
  - change (size []) with 0. lia.
Qed.

Lemma CAssetTransfer_size t : transfer_ok t → 8 ≤ size (CAssetTransfer_Serialize t) < 110.
Proof.
  intros ((_ & Hn) & _ & _ & Hm). unfold CAssetTransfer_Serialize. pose proof (size_hash_write (at_message t)) as Hw.
  destruct (WriteAssetHash (at_message t)) as [w b]. cbn [fst] in Hw. rewrite !size_app, size_string, size_i64 by lia.
  pose proof (size_nonneg (at_strName t)). assert (size (at_strName t) ≤ 40) by (unfold size; lia).
  assert (0 ≤ size w ≤ 34) by (apply Hw; tauto). destruct (b && _); rewrite ?size_i64; change (size []) with 0; lia.
Qed.

Lemma CReissueAsset_size r : reissue_ok r → 8 ≤ size (CReissueAsset_Serialize r) < 110.
Proof.
  intros ((_ & Hn) & _ & _ & _ & Hh). unfold CReissueAsset_Serialize. rewrite !size_app, size_string, size_i64, !size_i8 by lia.
  pose proof (size_nonneg (ra_strName r)). assert (size (ra_strName r) ≤ 40) by (unfold size; lia). pose proof (size_hash_write _ Hh). lia.
Qed.

(** Scripts with data of a qualifier or restriction for an address. *)
Lemma null_data_script params id d :
  length id = 20%nat → null_data_ok d → (2 ≤ length (nd_asset_name d))%nat → nth 1 (nd_asset_name d) 0 < 128 →
  AssetNullDataFromScript params (CNullAssetTxData_ConstructTransaction d (GetScriptForNullAssetDataDestination (CKeyID id))) =
  Some (d, default [] (EncodeDestination params (CKeyID id))).
Proof.
  intros Hl Hd H2 H1. pose proof Hd as [[_ Hn] _]. pose proof (CNullAssetTxData_read d [] Hd) as Hr. rewrite app_nil_r in Hr.
  unfold CNullAssetTxData_ConstructTransaction, AssetNullDataFromScript. set (data := CNullAssetTxData_Serialize d) in *.
  assert (Ed : data = Z.of_nat (length (nd_asset_name d)) :: nd_asset_name d ++ ser_write_i8 (nd_flag d)).
  { unfold data, CNullAssetTxData_Serialize. by rewrite Serialize_string_short by lia. }
  assert (Hsz : size data < 76). { rewrite Ed. unfold size. cbn [length]. rewrite length_app. change (length (ser_write_i8 (nd_flag d))) with 1%nat. lia. }
  assert (Ep : push_data data = size data :: data). { pose proof (size_nonneg data). unfold push_data. rewrite (proj2 (Z.ltb_lt _ _)) by lia. rewrite u8_small by (red; lia). done. }
  assert (Ha : script_address params (GetScriptForNullAssetDataDestination (CKeyID id) ++ push_data data) = default [] (EncodeDestination params (CKeyID id))).
  { unfold script_address, ExtractDestination. rewrite Solver_null_data; [done|done|by rewrite Ed|lia|].
    rewrite Ep, Ed. unfold GetScriptForNullAssetDataDestination. rewrite push_hash by done.
    do 20 (destruct id as [|? id]; [discriminate Hl|]). destruct id; [|discriminate Hl].
    destruct (nd_asset_name d) as [|x [|y n]]; cbn [length] in H2; try lia. cbn [nth] in H1. cbn [app byte_at nth]. lia. }
  rewrite Ha. unfold GetScriptForNullAssetDataDestination. rewrite push_hash, Ep by done.
  do 20 (destruct id as [|? id]; [discriminate Hl|]). destruct id; [|discriminate Hl]. cbn [app]. unfold IsNullAssetTxDataScript.
  assert (Hlen : 23 < size (OP_cmusicai_ASSET :: 20 :: z :: z0 :: z1 :: z2 :: z3 :: z4 :: z5 :: z6 :: z7 :: z8 :: z9 :: z10 :: z11 :: z12 :: z13 :: z14 ::
    z15 :: z16 :: z17 :: z18 :: size data :: data)) by (rewrite Ed; unfold size; cbn [length]; lia).
  rewrite (proj2 (Z.ltb_lt _ _) Hlen). cbn [byte_at nth Z.eqb Pos.eqb andb]. unfold from_stream. change (Z.to_nat 23) with 23%nat. cbn [skipn].
  by rewrite drop_0, Hr.
Qed.

Lemma global_data_script d :
  null_data_ok d → (2 ≤ length (nd_asset_name d))%nat → GlobalAssetNullDataFromScript (ConstructGlobalRestrictionTransaction d []) = Some d.
Proof.
  intros Hd H2. pose proof Hd as [[_ Hn] _]. pose proof (CNullAssetTxData_read d [] Hd) as Hr. rewrite app_nil_r in Hr.
  unfold ConstructGlobalRestrictionTransaction, GlobalAssetNullDataFromScript, IsNullGlobalRestrictionAssetTxDataScript. set (data := CNullAssetTxData_Serialize d) in *.
  assert (Hsz : 4 ≤ size data < 76). { unfold data, CNullAssetTxData_Serialize. rewrite size_app, size_string, size_i8 by lia. unfold size. lia. }
  assert (Ep : push_data data = size data :: data). { unfold push_data. rewrite (proj2 (Z.ltb_lt _ _)) by lia. rewrite u8_small by (red; lia). done. }
  rewrite Ep. cbn [app]. rewrite (proj2 (Z.ltb_lt _ _)) by (unfold size in *; cbn [length]; lia). cbn [byte_at nth Z.eqb Pos.eqb andb].
  unfold from_stream. change (Z.to_nat 4) with 4%nat. cbn [skipn]. by rewrite drop_0, Hr.
Qed.

(** A verifier is read from the fourth byte on, which is right for a push of one byte. *)
Lemma verifier_script v :
  is_bytes v → (length v ≤ 74)%nat → AssetNullVerifierDataFromScript (VerifierString_ConstructTransaction (mkVerifierString v) []) = Some (mkVerifierString v).
Proof.
  intros Hv Hl. unfold VerifierString_ConstructTransaction, AssetNullVerifierDataFromScript, VerifierString_Serialize. cbn [verifier_string app].
  pose proof (size_string v ltac:(lia)) as Hs. pose proof (size_nonneg v).
  assert (Hlv : size v ≤ 74) by (unfold size; lia).
  assert (Ep : push_data (Serialize_string v) = size (Serialize_string v) :: Serialize_string v).
  { unfold push_data. rewrite (proj2 (Z.ltb_lt _ _)) by lia. rewrite u8_small by (red; lia). done. }
  rewrite Ep. unfold IsNullAssetVerifierTxDataScript. rewrite (proj2 (Z.ltb_lt _ _)) by (unfold size in *; cbn [length]; lia).
  cbn [byte_at nth Z.eqb Pos.eqb andb]. rewrite (proj2 (Z.eqb_neq _ _)) by lia. cbn [negb]. unfold from_stream. change (Z.to_nat 3) with 3%nat. cbn [skipn]. rewrite drop_0.
  unfold VerifierString_Unserialize, rbind. rewrite <- (app_nil_r (Serialize_string v)).
  rewrite (codec_read _ _ _ codec_string) by (split; [done|unfold is_size, MAX_SIZE; lia]). done.
Qed.

(** * Properties *)

(** C19: what the code writes into scripts it reads back. The script of an issuance, of an owner token, of a transfer,
    of a reissuance, of a tag or a freeze of an address, of a global freeze and of a verifier of up to 74 characters
    gives the data and the address it was built from; transfers with up to 71 bytes of data also under the
    fixed offset that is used before the deployment of larger transfer scripts. *)
Theorem asset_scripts_roundtrip params deployed id a t r d v :
  length id = 20%nat → new_asset_ok a → name_ok (na_strName a ++ OWNER_TAG) →
  transfer_ok t → (deployed = true ∨ size (CAssetTransfer_Serialize t) < 72) → reissue_ok r →
  null_data_ok d → (2 ≤ length (nd_asset_name d))%nat → nth 1 (nd_asset_name d) 0 < 128 → is_bytes v → (length v ≤ 74)%nat →
  let address := default [] (EncodeDestination params (CKeyID id)) in
  AssetFromScript params (CNewAsset_ConstructTransaction a (pay_to id)) = Some (a, address) ∧
  OwnerAssetFromScript params (ConstructOwnerTransaction a (pay_to id)) = Some (na_strName a ++ OWNER_TAG, address) ∧
  TransferAssetFromScript params deployed (CAssetTransfer_ConstructTransaction t (pay_to id)) = Some (t, address) ∧
  ReissueAssetFromScript params (CReissueAsset_ConstructTransaction r (pay_to id)) = Some (r, address) ∧
  AssetNullDataFromScript params (CNullAssetTxData_ConstructTransaction d (GetScriptForNullAssetDataDestination (CKeyID id))) = Some (d, address) ∧
  GlobalAssetNullDataFromScript (ConstructGlobalRestrictionTransaction d []) = Some d ∧
  AssetNullVerifierDataFromScript (VerifierString_ConstructTransaction (mkVerifierString v) []) = Some (mkVerifierString v).
Proof.
  intros Hl Ha Ho Ht Hdep Hr Hd H2 H1 Hv Hlv. cbv zeta. split_and!; [| | | |by apply null_data_script|by apply global_data_script|by apply verifier_script].
  - destruct (asset_push_script id cmusicai_Q (CNewAsset_Serialize a) TX_NEW_ASSET false Hl) as (i & E & _ & Hf);
      [pose proof (CNewAsset_size a Ha); lia..|done|]. unfold AssetFromScript, IsScriptNewAsset, CNewAsset_ConstructTransaction. rewrite E. cbn [mbind option_bind].
    rewrite (Hf _ _ a) by (by apply CNewAsset_read). cbn [mbind option_bind]. by rewrite script_address_key by (done || by eapply IsAssetScript_some).
  - destruct (asset_push_script id cmusicai_O (Serialize_string (na_strName a ++ OWNER_TAG)) TX_NEW_ASSET true Hl) as (i & E & _ & Hf);
      [done|destruct Ho as [_ Ho]; rewrite size_string by lia; unfold size; rewrite length_app in *; change (length OWNER_TAG) with 1%nat in *; lia|done|].
    unfold OwnerAssetFromScript, IsScriptOwnerAsset, ConstructOwnerTransaction. rewrite E. cbn [mbind option_bind].
    rewrite (Hf _ _ (na_strName a ++ OWNER_TAG)) by (apply (codec_read _ _ _ codec_string); by apply name_vec). cbn [mbind option_bind].
    by rewrite script_address_key by (done || by eapply IsAssetScript_some).
  - destruct (asset_push_script id cmusicai_T (CAssetTransfer_Serialize t) TX_TRANSFER_ASSET false Hl) as (i & E & Hi & Hf);
      [pose proof (CAssetTransfer_size t Ht); lia..|done|]. unfold TransferAssetFromScript, IsScriptTransferAsset, CAssetTransfer_ConstructTransaction. rewrite E. cbn [mbind option_bind].
    assert ((if deployed then i else 31) = i) as -> by (destruct deployed; [done|]; destruct Hdep, Hi; (done || lia)).
    rewrite (Hf _ _ t) by (apply CAssetTransfer_read; [done|cbn; lia]). cbn [mbind option_bind]. by rewrite script_address_key by (done || by eapply IsAssetScript_some).
  - destruct (asset_push_script id cmusicai_N (CReissueAsset_Serialize r) TX_REISSUE_ASSET false Hl) as (i & E & _ & Hf);
      [pose proof (CReissueAsset_size r Hr); lia..|done|]. unfold ReissueAssetFromScript, IsScriptReissueAsset, CReissueAsset_ConstructTransaction. rewrite E. cbn [mbind option_bind].
    rewrite (Hf _ _ r) by (apply CReissueAsset_read; [done|cbn; lia]). cbn [mbind option_bind]. by rewrite script_address_key by (done || by eapply IsAssetScript_some).
Qed.

Lemma asset_scripts_roundtrip_witness :
  TransferAssetFromScript main_prefixes true (CAssetTransfer_ConstructTransaction (mkCAssetTransfer (str "MUSIC") 500000000 (repeat 9 32) 1700000000) (pay_to (repeat 7 20))) =
  Some (mkCAssetTransfer (str "MUSIC") 500000000 (repeat 9 32) 1700000000, default [] (EncodeDestination main_prefixes (CKeyID (repeat 7 20)))).
Proof.
  refine (proj1 (proj2 (proj2 (asset_scripts_roundtrip main_prefixes true (repeat 7 20) (mkCNewAsset (str "MUSIC") 100 0 1 0 [])
    (mkCAssetTransfer (str "MUSIC") 500000000 (repeat 9 32) 1700000000) (mkCReissueAsset (str "MUSIC") 100 0 1 []) (mkCNullAssetTxData (str "#KYC") 1) (str "KYC")
    _ _ _ _ _ _ _ _ _ _ _)))).
  - reflexivity.
  - split_and!; (done || (split; [repeat constructor; done|vm_compute; lia])).
  - split; [repeat constructor; done|vm_compute; lia].
  - split_and!; try (done || (split; [repeat constructor; done|vm_compute; lia])). left. split; [repeat constructor; done|by left].
  - by left.
  - split_and!; try (done || (split; [repeat constructor; done|vm_compute; lia])). by right.
  - split; [split; [repeat constructor; done|vm_compute; lia]|done].
  - vm_compute. lia.
  - reflexivity.
  - repeat constructor; done.
  - vm_compute. lia.
Defined.

(** C36: a verifier of 75 characters or more is not read back. Its script needs a push with two bytes of header, but the
    data is taken from a fixed offset behind a header of one byte, so that the length of the verifier becomes its first
    character: 75 is the letter K, 80 the letter P. The limit for verifiers is 80 characters. *)
Theorem verifier_misread v :
  is_bytes v → (75 ≤ length v ≤ 251)%nat →
  AssetNullVerifierDataFromScript (VerifierString_ConstructTransaction (mkVerifierString v) []) = Some (mkVerifierString (Z.of_nat (length v) :: v)).
Proof.
  intros Hv Hl. unfold VerifierString_ConstructTransaction, AssetNullVerifierDataFromScript, VerifierString_Serialize. cbn [verifier_string app].
  pose proof (size_string v ltac:(lia)) as Hs. assert (Hsv : size v = Z.of_nat (length v)) by done.
  assert (Ep : push_data (Serialize_string v) = OP_PUSHDATA1 :: size (Serialize_string v) :: Serialize_string v).
  { unfold push_data. rewrite (proj2 (Z.ltb_ge _ _)) by lia. rewrite (proj2 (Z.leb_le _ _)) by lia. rewrite u8_small by (red; lia). done. }
  rewrite Ep. unfold IsNullAssetVerifierTxDataScript. rewrite (proj2 (Z.ltb_lt _ _)) by (unfold size in *; cbn [length]; lia).
  cbn [byte_at nth Z.eqb Pos.eqb andb negb]. unfold from_stream. change (Z.to_nat 3) with 3%nat. cbn [skipn].
  rewrite Serialize_string_short in * by lia. rewrite Hs.
  replace (1 + size v) with (Z.of_nat (length (Z.of_nat (length v) :: v))) by (cbn [length]; lia).
  rewrite <- Serialize_string_short by (cbn [length]; lia). unfold VerifierString_Unserialize, rbind. rewrite <- (app_nil_r (Serialize_string _)).
  rewrite (codec_read _ _ _ codec_string); [done|]. split; [constructor; [red; lia|done]|]. unfold is_size, MAX_SIZE. cbn [length]. lia.
Qed.

Lemma verifier_misread_witness :
  AssetNullVerifierDataFromScript (VerifierString_ConstructTransaction (mkVerifierString (repeat (chr "A") 75)) []) =
  Some (mkVerifierString (str "K" ++ repeat (chr "A") 75)).
Proof. apply (verifier_misread (repeat (chr "A") 75)); [|vm_compute; lia]. repeat constructor; done. Defined.

(** The test of the flag of qualifier and restriction data rejects every flag. *)
Lemma CNullAssetTxData_never_valid d exists_asset force : CNullAssetTxData_IsValid d exists_asset force ≠ None.
Proof.
  unfold CNullAssetTxData_IsValid. destruct (IsAssetNameValid (nd_asset_name d)) as [[] [t|]]; try done. destruct (_ && _ && _); [done|].
  destruct (Z.eqb_spec (nd_flag d) 0) as [->|?]; done.
Qed.
