(* ===== verification/AssetChecks.v ===== *)
(** The rules for assets (assets/assets.cpp): fees that are burnt, the form of transactions that issue and reissue
    assets, verifier strings, and the checks against what the chain knows about assets. *)
From stdpp Require Import base list option gmap sorting.
From Stdlib Require Import ZArith Lia.
From Stdlib Require String.
From S2P Require Import Prelude ArithUint256 Serialize Chain Transaction Text LibBoolEE AssetNames Hash Base58 Script Standard AssetData.
Import String.StringSyntax.
Open Scope Z_scope.

(** * Verdicts *)

(** A check that returns [true], that returns [false] with [strError], or that is undefined. *)
Inductive verdict := Accept | Reject (strError : text) | Crash.

Definition reject_if (c : bool) (strError : text) : verdict := if c then Reject strError else Accept.

Declare Scope check_scope.
Delimit Scope check_scope with check.
Notation "'check' a ; b" := (match a with Accept => b | Reject strError => Reject strError | Crash => Crash end) (at level 10, a at level 100, b at level 200) : check_scope.
Notation "'get' x 'from' o 'or' e ; b" := (match o with Some x => b | None => Reject e end)
  (at level 10, x pattern, o at level 100, e at level 100, b at level 200) : check_scope.
Open Scope check_scope.

(** Every element passes; the first that does not decides. *)
Fixpoint check_all {A} (f : A → verdict) (l : list A) : verdict := match l with [] => Accept | x :: l' => check f x; check_all f l' end.

(** The order of [std::string], that of sets and maps of names. *)
Fixpoint text_leb (a b : text) : bool :=
  match a, b with
  | [], _ => true
  | _, [] => false
  | x :: a', y :: b' => if x =? y then text_leb a' b' else x <? y
  end.
Definition text_le (a b : text) : Prop := text_leb a b = true.
#[export] Instance text_le_dec a b : Decision (text_le a b) := decide (text_leb a b = true).

Definition in_order (s : gset text) : list text := merge_sort text_le (elements s).

(** * Parameters (chainparams.cpp, validation.cpp) *)

Record BurnParams := mkBurn { burn_amount : Z; burn_address : text }.
Record ChainParams := mkParams {
  prefixes : Base58Prefixes; is_testnet : bool;
  issue_burn : BurnParams; reissue_burn : BurnParams; sub_burn : BurnParams; unique_burn : BurnParams; msgchannel_burn : BurnParams;
  qualifier_burn : BurnParams; sub_qualifier_burn : BurnParams; restricted_burn : BurnParams; add_tag_burn : BurnParams }.

Definition main_params : ChainParams :=
  mkParams main_prefixes false
    (mkBurn (50 * COIN) (str "CcmKXqWrFrbDnywuY8F3orEnNR5L1g2mZQ"))
    (mkBurn (10 * COIN) (str "CX61EFYjZdXKWAY5UsBt5sLxHkWaqjBL59"))
    (mkBurn (10 * COIN) (str "CNgg3bLoGocLD9iU2W1gw3McHipzfZ8R13"))
    (mkBurn (COIN / 2) (str "CKXyGTyzibPLhPpTpvqqBK3SJBz8gp7Kfa"))
    (mkBurn (10 * COIN) (str "CMm13zRL8eGjZxYXfiCN1zCJFHiL5HkMYa"))
    (mkBurn (100 * COIN) (str "CZW36RFFgRWcCQ3cN1qWJGC6z4EAqgt7M6"))
    (mkBurn (10 * COIN) (str "CcDdxyK7JCuQfg83SxFHRpD8QHFivbdYjZ"))
    (mkBurn (150 * COIN) (str "CcDdxyK7JCuQfg83SxFHRpD8QHFivbdYjZ"))
    (mkBurn (COIN / 100) (str "CTfS34Z3CrzXSPEmGx9xpjw7PShUC93YFi")).

Definition testnet_params : ChainParams :=
  mkParams testnet_prefixes true
    (mkBurn (50 * COIN) (str "c1VQJKLSLVZ4syiCAx5hEPq8BrkFaxAXAi"))
    (mkBurn (10 * COIN) (str "c2yh4DiLETuVVDvpvBNSq3QCmHcdMmNEdp"))
    (mkBurn (10 * COIN) (str "c3PE3FsHqfszvz7nhwK2Gc32wykrc7pNMA"))
    (mkBurn (COIN / 2) (str "c4yKRTYF2nRryYEnupsNnQQmRKsQhdspYB"))
    (mkBurn (10 * COIN) (str "c58ndjHjLYKHMszr4ehUg9YMWPAiXNEepa"))
    (mkBurn (100 * COIN) (str "c68wpmVvdE6bMSkiCEDQWCHCKZs4VVdE2G"))
    (mkBurn (10 * COIN) (str "c7MSidYgNJrPE15ouEsXPYXFYH2AAPXmhr"))
    (mkBurn (150 * COIN) (str "c8uX8jfZn14P1VNzh6YjSzLaRTQAdoFSHn"))
    (mkBurn (COIN / 100) (str "c9CrKy8m548AvSbcv1mcn7tyJQkgcwVfj6")).

Definition regtest_params : ChainParams :=
  mkParams regtest_prefixes false
    (mkBurn (50 * COIN) (str "n1issueAssetXXXXXXXXXXXXXXXXWdnemQ"))
    (mkBurn (10 * COIN) (str "n1ReissueAssetXXXXXXXXXXXXXXWG9NLd"))
    (mkBurn (10 * COIN) (str "n1issueSubAssetXXXXXXXXXXXXXbNiH6v"))
    (mkBurn (COIN / 2) (str "n1issueUniqueAssetXXXXXXXXXXS4695i"))
    (mkBurn (10 * COIN) (str "n1issueMsgChanneLAssetXXXXXXT2PBdD"))
    (mkBurn (100 * COIN) (str "n1issueQuaLifierXXXXXXXXXXXXUysLTj"))
    (mkBurn (10 * COIN) (str "n1issueSubQuaLifierXXXXXXXXXYffPLh"))
    (mkBurn (150 * COIN) (str "n1issueRestrictedXXXXXXXXXXXXZVT9V"))
    (mkBurn (COIN / 100) (str "n1addTagBurnXXXXXXXXXXXXXXXXX5oLMH")).

(** The rules that are active at the tip; messages and restricted assets are one deployment. *)
Record Deployments := mkDeployments {
  AreAssetsDeployed : bool; IsRip5Active : bool; AreTransferScriptsSizeDeployed : bool; AreEnforcedValuesDeployed : bool;
  AreCoinbaseCheckAssetsDeployed : bool }.
Abbreviation AreMessagesDeployed := IsRip5Active.
Abbreviation AreRestrictedAssetsDeployed := IsRip5Active.

Abbreviation OWNER_ASSET_AMOUNT := (1 * COIN).
Abbreviation UNIQUE_ASSET_AMOUNT := (1 * COIN).
Abbreviation QUALIFIER_ASSET_MIN_AMOUNT := (1 * COIN).
Abbreviation QUALIFIER_ASSET_MAX_AMOUNT := (10 * COIN).

(** The queries of [CAssetsCache] that the checks make. *)
Class AssetsView := {
  CheckIfAssetExists : text → bool;
  GetAssetMetaDataIfExists : text → option CNewAsset;
  CheckForAddressQualifier : text → text → bool;
  CheckForAddressRestriction : text → text → bool;
  CheckForGlobalRestriction : text → bool;
  GetAssetVerifierStringIfExists : text → bool → option text }.

(** [HexStr] and [uint256::GetHex] *)
Definition hexmap : text := str "0123456789abcdef".
Definition HexStr (v : bytes) : text := concat (map (λ val, [nth (Z.to_nat (Z.shiftr val 4)) hexmap 0; nth (Z.to_nat (Z.land val 15)) hexmap 0]) v).
Definition GetHex (h : uint256) : text := HexStr (rev h).
Abbreviation BAD_HASH := (str "e6cdd54445e6bf69710d54e4340a6486167f866575a878eaedecbb345da056ae").
Abbreviation BAD_HASH2 := (str "3ba63518dc12599f9b83449c8b5338e224caf363d0327f5156fa4b6efeca5724").

Section checks.
Context (params : ChainParams) (dep : Deployments).
(** What a variable holds that was not initialised. *)
Context (uninit : AssetType).

(** The type a caller sees after [IsAssetNameValid(name, type)]. *)
Definition asset_type_of (name : text) : AssetType := default uninit (IsAssetNameValid name).2.

(** * Burnt fees *)

Definition GetBurn (type : AssetType) : BurnParams :=
  match type with
  | ROOT => issue_burn params | SUB => sub_burn params | MSGCHANNEL => msgchannel_burn params | UNIQUE => unique_burn params
  | REISSUE => reissue_burn params | QUALIFIER => qualifier_burn params | SUB_QUALIFIER => sub_qualifier_burn params
  | RESTRICTED => restricted_burn params | NULL_ADD_QUALIFIER => add_tag_burn params | OWNER | VOTE | INVALID => mkBurn 0 []
  end.

(** The output pays to the address. *)
Definition pays_to (o : CTxOut) (address : text) : bool :=
  match ExtractDestination (scriptPubKey o) with
  | None => false
  | Some destination => IsValidDestination destination && text_eqb (default [] (EncodeDestination (prefixes params) destination)) address
  end.

Definition CheckIssueBurnTx (o : CTxOut) (type : AssetType) (numberIssued : Z) : bool :=
  match type with
  | REISSUE | VOTE | OWNER | INVALID => false
  | _ => (nValue o =? i64 (burn_amount (GetBurn type) * numberIssued)) && pays_to o (burn_address (GetBurn type))
  end.

Definition CheckReissueBurnTx (o : CTxOut) : bool :=
  (nValue o =? burn_amount (reissue_burn params)) && pays_to o (burn_address (reissue_burn params)).

(** * The outputs of a transaction *)

Abbreviation AssetFromScript' := (AssetFromScript (prefixes params)).
Abbreviation TransferAssetFromScript' := (TransferAssetFromScript (prefixes params) (AreTransferScriptsSizeDeployed dep)).

Definition is_some {A} (x : option A) : bool := match x with Some _ => true | None => false end.
Definition null_out : CTxOut := mkCTxOut 0 [].
(** [vout[vout.size() - 1]] and [vout[vout.size() - 2]] *)
Definition last_out (vout : list CTxOut) : CTxOut := List.last vout null_out.
Definition last_out2 (vout : list CTxOut) : CTxOut := nth (length vout - 2) vout null_out.

Definition CheckIssueDataTx (o : CTxOut) : bool := is_some (IsScriptNewAsset (scriptPubKey o)).
Definition CheckReissueDataTx (o : CTxOut) : bool := is_some (IsScriptReissueAsset (scriptPubKey o)).
Definition CheckOwnerDataTx (o : CTxOut) : bool := is_some (IsScriptOwnerAsset (scriptPubKey o)).

(** Issues, reissues, transfers and owners. *)
Definition GetTxOutAssetTypes (vout : list CTxOut) : Z * Z * Z * Z :=
  fold_left (λ '(issues, reissues, transfers, owners) o,
    match IsAssetScript3 (scriptPubKey o) with
    | Some (TX_NEW_ASSET, false, _) => (issues + 1, reissues, transfers, owners)
    | Some (TX_NEW_ASSET, true, _) => (issues, reissues, transfers, owners + 1)
    | Some (TX_TRANSFER_ASSET, _, _) => (issues, reissues, transfers + 1, owners)
    | Some (TX_REISSUE_ASSET, _, _) => (issues, reissues + 1, transfers, owners)
    | _ => (issues, reissues, transfers, owners)
    end) vout (0, 0, 0, 0).

Definition tx_IsNewAsset (tx : CTransaction) : bool :=
  (3 <=? length (vout tx))%nat && CheckIssueDataTx (last_out (vout tx)) && CheckOwnerDataTx (last_out2 (vout tx)) &&
  negb (is_some (IsScriptNewUniqueAsset (prefixes params) (scriptPubKey (last_out (vout tx)))) ||
        is_some (IsScriptNewRestrictedAsset (prefixes params) (scriptPubKey (last_out (vout tx))))).
Definition IsNewUniqueAsset (tx : CTransaction) : bool :=
  CheckIssueDataTx (last_out (vout tx)) && is_some (IsScriptNewUniqueAsset (prefixes params) (scriptPubKey (last_out (vout tx)))).
Definition IsNewMsgChannelAsset (tx : CTransaction) : bool :=
  CheckIssueDataTx (last_out (vout tx)) && is_some (IsScriptNewMsgChannelAsset (prefixes params) (scriptPubKey (last_out (vout tx)))).
Definition IsNewQualifierAsset (tx : CTransaction) : bool :=
  CheckIssueDataTx (last_out (vout tx)) && is_some (IsScriptNewQualifierAsset (prefixes params) (scriptPubKey (last_out (vout tx)))).
Definition IsNewRestrictedAsset (tx : CTransaction) : bool :=
  CheckIssueDataTx (last_out (vout tx)) && is_some (IsScriptNewRestrictedAsset (prefixes params) (scriptPubKey (last_out (vout tx)))).
Definition tx_IsReissueAsset (tx : CTransaction) : bool := CheckReissueDataTx (last_out (vout tx)).

Definition AssetFromTransaction (tx : CTransaction) : option (CNewAsset * text) :=
  if negb (tx_IsNewAsset tx) then None else AssetFromScript' (scriptPubKey (last_out (vout tx))).
Definition MsgChannelAssetFromTransaction (tx : CTransaction) : option (CNewAsset * text) :=
  if negb (IsNewMsgChannelAsset tx) then None else MsgChannelAssetFromScript (prefixes params) (scriptPubKey (last_out (vout tx))).
Definition QualifierAssetFromTransaction (tx : CTransaction) : option (CNewAsset * text) :=
  if negb (IsNewQualifierAsset tx) then None else QualifierAssetFromScript (prefixes params) (scriptPubKey (last_out (vout tx))).
Definition RestrictedAssetFromTransaction (tx : CTransaction) : option (CNewAsset * text) :=
  if negb (IsNewRestrictedAsset tx) then None else RestrictedAssetFromScript (prefixes params) (scriptPubKey (last_out (vout tx))).
Definition ReissueAssetFromTransaction (tx : CTransaction) : option (CReissueAsset * text) :=
  if negb (tx_IsReissueAsset tx) then None else ReissueAssetFromScript (prefixes params) (scriptPubKey (last_out (vout tx))).
Definition OwnerFromTransaction (tx : CTransaction) : option (text * text) :=
  if negb (tx_IsNewAsset tx) then None else OwnerAssetFromScript (prefixes params) (scriptPubKey (last_out2 (vout tx))).

Definition IsNewOwnerTxValid (tx : CTransaction) (assetName address : text) : verdict :=
  get (ownerName, ownerAddress) from OwnerFromTransaction tx or str "bad-txns-bad-owner";
  check reject_if (negb (text_eqb ownerAddress address)) (str "bad-txns-owner-address-mismatch");
  check reject_if (length ownerName <? 1 + MIN_ASSET_LENGTH)%nat (str "bad-txns-owner-asset-length");
  check reject_if (negb (text_eqb ownerName (assetName ++ OWNER_TAG))) (str "bad-txns-owner-name-mismatch");
  Accept.

(** A transfer of the given asset is among the outputs. *)
Definition has_transfer (vout : list CTxOut) (name : text) : bool :=
  existsb (λ o, match TransferAssetFromScript' (scriptPubKey o) with Some (transfer, _) => text_eqb name (at_strName transfer) | None => false end) vout.

(** * The form of transactions *)

(** The verifier with the error of a failure, and [fNotFound]. *)
Fixpoint verifier_loop (vout : list CTxOut) (found : option CNullAssetTxVerifierString) : (option CNullAssetTxVerifierString * text) * bool :=
  match vout with
  | [] => match found with Some v => (Some v, [], false) | None => (None, str "Verifier string not found", true) end
  | o :: vout' =>
      if IsNullAssetVerifierTxDataScript (scriptPubKey o) then
        match found with
        | Some _ => (None, str "Multiple verifier strings found in transaction", false)
        | None =>
            match AssetNullVerifierDataFromScript (scriptPubKey o) with
            | None => (None, str "Failed to get verifier string from output: ", false)
            | Some v => verifier_loop vout' (Some v)
            end
        end
      else verifier_loop vout' found
  end.
Definition GetVerifierStringFromTx (tx : CTransaction) : (option CNullAssetTxVerifierString * text) * bool := verifier_loop (vout tx) None.

(** The loop over new unique assets: the names, their root and their number. *)
Fixpoint unique_loop (vout : list CTxOut) (names : gset text) (assetRoot : text) (count : Z) : verdict * (text * Z) :=
  match vout with
  | [] => (Accept, (assetRoot, count))
  | o :: vout' =>
      if is_some (IsScriptNewUniqueAsset (prefixes params) (scriptPubKey o)) then
        match AssetFromScript' (scriptPubKey o) with
        | None => (Reject (str "bad-txns-issue-unique-asset-from-script"), (assetRoot, count))
        | Some (asset, _) =>
            let root := GetParentName (na_strName asset) in
            let assetRoot := if text_eqb assetRoot [] then root else assetRoot in
            if negb (text_eqb assetRoot root) then (Reject (str "bad-txns-issue-unique-asset-compare-failed"), (assetRoot, count))
            else if bool_decide (na_strName asset ∈ names) then (Reject (str "bad-txns-issue-unique-duplicate-name-in-same-tx"), (assetRoot, count))
            else unique_loop vout' ({[na_strName asset]} ∪ names) assetRoot (count + 1)
        end
      else unique_loop vout' names assetRoot count
  end.

Definition VerifyNewUniqueAsset (tx : CTransaction) : verdict :=
  check reject_if (length (vout tx) <? 3)%nat (str "bad-txns-unique-vout-size-to-small");
  let '(v, (assetRoot, assetOutpointCount)) := unique_loop (vout tx) ∅ [] 0 in
  check v;
  check reject_if (assetOutpointCount =? 0) (str "bad-txns-issue-unique-asset-bad-outpoint-count");
  check reject_if (negb (existsb (λ o, CheckIssueBurnTx o UNIQUE assetOutpointCount) (vout tx))) (str "bad-txns-issue-unique-asset-burn-outpoints-not-found");
  check reject_if (negb (has_transfer (vout tx) (assetRoot ++ OWNER_TAG))) (str "bad-txns-issue-unique-asset-missing-owner-asset");
  let '(nIssues, nReissues, nTransfers, nOwners) := GetTxOutAssetTypes (vout tx) in
  reject_if ((0 <? nOwners) || (0 <? nReissues) || negb (nIssues =? assetOutpointCount)) (str "bad-txns-failed-unique-asset-formatting-check").

(** The transactions that are let through without a fee. *)
Definition is_bad_hash (tx : CTransaction) : bool :=
  let hex := GetHex (CTransaction_ComputeHash hash_mem tx) in text_eqb hex BAD_HASH || text_eqb hex BAD_HASH2.

Definition VerifyNewAsset (tx : CTransaction) : verdict :=
  check reject_if (length (vout tx) <? 3)%nat (str "bad-txns-issue-vout-size-to-small");
  check reject_if (negb (CheckIssueDataTx (last_out (vout tx)))) (str "bad-txns-issue-data-not-found");
  check reject_if (negb (CheckOwnerDataTx (last_out2 (vout tx)))) (str "bad-txns-issue-owner-data-not-found");
  get (asset, _) from AssetFromScript' (scriptPubKey (last_out (vout tx))) or str "bad-txns-issue-serialzation-failed";
  let assetType := asset_type_of (na_strName asset) in
  get (strOwnerName, _) from OwnerAssetFromScript (prefixes params) (scriptPubKey (last_out2 (vout tx))) or str "bad-txns-issue-owner-serialzation-failed";
  check reject_if (negb (text_eqb strOwnerName (na_strName asset ++ OWNER_TAG))) (str "bad-txns-issue-owner-name-doesn't-match");
  check reject_if (negb (existsb (λ o, is_bad_hash tx || CheckIssueBurnTx o assetType 1) (vout tx))) (str "bad-txns-issue-burn-not-found");
  check reject_if (bool_decide (assetType = SUB) && negb (has_transfer (vout tx) (GetParentName (na_strName asset) ++ OWNER_TAG)))
    (str "bad-txns-issue-new-asset-missing-owner-asset");
  let '(nIssues, nReissues, nTransfers, nOwners) := GetTxOutAssetTypes (vout tx) in
  reject_if (negb (nOwners =? 1) || negb (nIssues =? 1) || (0 <? nReissues)) (str "bad-txns-failed-issue-asset-formatting-check").

Definition VerifyNewMsgChannelAsset (tx : CTransaction) : verdict :=
  check reject_if (length (vout tx) <? 3)%nat (str "bad-txns-issue-msgchannel-vout-size-to-small");
  check reject_if (negb (CheckIssueDataTx (last_out (vout tx)))) (str "bad-txns-issue-data-not-found");
  get (asset, _) from MsgChannelAssetFromScript (prefixes params) (scriptPubKey (last_out (vout tx))) or str "bad-txns-issue-msgchannel-serialzation-failed";
  check reject_if (negb (existsb (λ o, CheckIssueBurnTx o MSGCHANNEL 1) (vout tx))) (str "bad-txns-issue-msgchannel-burn-not-found");
  check reject_if (negb (has_transfer (vout tx) (GetParentName (na_strName asset) ++ OWNER_TAG))) (str "bad-txns-issue-msg-channel-asset-bad-owner-asset");
  let '(nIssues, nReissues, nTransfers, nOwners) := GetTxOutAssetTypes (vout tx) in
  reject_if (negb (nOwners =? 0) || negb (nIssues =? 1) || (0 <? nReissues)) (str "bad-txns-failed-issue-msgchannel-asset-formatting-check").

Definition VerifyNewQualfierAsset (tx : CTransaction) : verdict :=
  check reject_if (length (vout tx) <? 2)%nat (str "bad-txns-issue-qualifier-vout-size-to-small");
  check reject_if (negb (CheckIssueDataTx (last_out (vout tx)))) (str "bad-txns-issue-qualifider-data-not-found");
  get (asset, _) from QualifierAssetFromScript (prefixes params) (scriptPubKey (last_out (vout tx))) or str "bad-txns-issue-qualifier-serialzation-failed";
  let assetType := asset_type_of (na_strName asset) in
  check reject_if (negb (existsb (λ o, CheckIssueBurnTx o assetType 1) (vout tx))) (str "bad-txns-issue-qualifier-burn-not-found");
  check reject_if (bool_decide (assetType = SUB_QUALIFIER) && negb (has_transfer (vout tx) (GetParentName (na_strName asset))))
    (str "bad-txns-issue-sub-qualifier-parent-outpoint-not-found");
  let '(nIssues, nReissues, nTransfers, nOwners) := GetTxOutAssetTypes (vout tx) in
  reject_if (negb (nOwners =? 0) || negb (nIssues =? 1) || (0 <? nReissues)) (str "bad-txns-failed-issue-asset-formatting-check").

Definition VerifyNewRestrictedAsset (tx : CTransaction) : verdict :=
  check reject_if (length (vout tx) <? 4)%nat (str "bad-txns-issue-restricted-vout-size-to-small");
  check reject_if (negb (CheckIssueDataTx (last_out (vout tx)))) (str "bad-txns-issue-restricted-data-not-found");
  get (asset, _) from RestrictedAssetFromScript (prefixes params) (scriptPubKey (last_out (vout tx))) or str "bad-txns-issue-restricted-serialization-failed";
  let assetType := asset_type_of (na_strName asset) in
  check reject_if (negb (existsb (λ o, CheckIssueBurnTx o assetType 1) (vout tx))) (str "bad-txns-issue-restricted-burn-not-found");
  let strippedRoot := drop 1 (GetParentName (na_strName asset)) ++ OWNER_TAG in
  check reject_if (negb (has_transfer (vout tx) strippedRoot)) (str "bad-txns-issue-restricted-root-owner-token-outpoint-not-found");
  match GetVerifierStringFromTx tx with
  | (None, strError, _) => Reject strError
  | (Some _, _, _) =>
      let '(nIssues, nReissues, nTransfers, nOwners) := GetTxOutAssetTypes (vout tx) in
      reject_if (negb (nOwners =? 0) || negb (nIssues =? 1) || (0 <? nReissues)) (str "bad-txns-failed-issue-asset-formatting-check")
  end.

Definition VerifyReissueAsset (tx : CTransaction) : verdict :=
  check reject_if (length (vout tx) <? 3)%nat (str "bad-txns-vout-size-to-small");
  check reject_if (negb (CheckReissueDataTx (last_out (vout tx)))) (str "bad-txns-reissue-data-not-found");
  get (reissue, _) from ReissueAssetFromScript (prefixes params) (scriptPubKey (last_out (vout tx))) or str "bad-txns-reissue-serialization-failed";
  let asset_name_to_check := if asset_type_is RESTRICTED (ra_strName reissue) then drop 1 (ra_strName reissue) else ra_strName reissue in
  check reject_if (negb (has_transfer (vout tx) (asset_name_to_check ++ OWNER_TAG))) (str "bad-txns-reissue-owner-outpoint-not-found");
  check reject_if (negb (existsb CheckReissueBurnTx (vout tx))) (str "bad-txns-reissue-burn-outpoint-not-found");
  let '(nIssues, nReissues, nTransfers, nOwners) := GetTxOutAssetTypes (vout tx) in
  reject_if ((0 <? nOwners) || negb (nReissues =? 1) || (0 <? nIssues)) (str "bad-txns-failed-reissue-asset-formatting-check").

Definition CheckAddingTagBurnFee (tx : CTransaction) (count : Z) : bool := existsb (λ o, CheckIssueBurnTx o NULL_ADD_QUALIFIER count) (vout tx).

(** * Amounts and data *)

(** The remainder by [int64_t(pow(10, 8 - nUnits))]: undefined when the divisor is zero or does not fit. *)
Definition CheckAmountWithUnits (nAmount nUnits : Z) : option bool :=
  if (-10 <=? nUnits) && (nUnits <=? 8) then Some (nAmount %c 10 ^ (8 - nUnits) =? 0) else None.

Definition check_units (nAmount nUnits : Z) (strError : text) : verdict :=
  match CheckAmountWithUnits nAmount nUnits with None => Crash | Some b => reject_if (negb b) strError end.

Definition EncodeAssetData (decoded : text) : text :=
  if (length decoded =? 34)%nat then default [] (EncodeBase58 decoded) else if (length decoded =? 32)%nat then HexStr decoded else [].

Definition IsHex (s : text) : bool :=
  forallb (λ c, is_digit c || in_range (chr "a") (chr "f") c || in_range (chr "A") (chr "F") c) s && (0 <? length s)%nat && Nat.even (length s).

Definition CheckEncoded (hash : text) : verdict :=
  let encodedStr := EncodeAssetData hash in
  if text_eqb (take 2 encodedStr) (str "Qm") && (length encodedStr =? 46)%nat then Accept
  else if AreMessagesDeployed dep && IsHex encodedStr && (length encodedStr =? 64)%nat then Accept
  else Reject (str "Invalid parameter: ipfs_hash is not valid, or txid hash is not the right length").

Definition CheckNewAsset (asset : CNewAsset) : verdict :=
  match IsAssetNameValid (na_strName asset) with
  | (true, Some assetType) =>
      check (if bool_decide (assetType = UNIQUE) || bool_decide (assetType = MSGCHANNEL) then
               check reject_if (negb (na_units asset =? 0)) (str "Invalid parameter: units must be 0");
               check reject_if (negb (na_nAmount asset =? UNIQUE_ASSET_AMOUNT)) (str "Invalid parameter: amount must be 100000000");
               reject_if (negb (na_nReissuable asset =? 0)) (str "Invalid parameter: reissuable must be 0")
             else Accept);
      check (if bool_decide (assetType = QUALIFIER) || bool_decide (assetType = SUB_QUALIFIER) then
               check reject_if (negb (na_units asset =? 0)) (str "Invalid parameter: units must be 0");
               check reject_if ((na_nAmount asset <? QUALIFIER_ASSET_MIN_AMOUNT) || (QUALIFIER_ASSET_MAX_AMOUNT <? na_nAmount asset))
                 (str "Invalid parameter: amount must be between 100000000 - 1000000000");
               reject_if (negb (na_nReissuable asset =? 0)) (str "Invalid parameter: reissuable must be 0")
             else Accept);
      check reject_if (IsAssetNameAnOwner (na_strName asset)) (str "Invalid parameters: asset_name can't have a '!' at the end of it. See help for more details.");
      check reject_if (na_nAmount asset <=? 0) (str "Invalid parameter: asset amount can't be equal to or less than zero.");
      check reject_if (MAX_MONEY <? na_nAmount asset) (str "Invalid parameter: asset amount greater than max money: 175000000");
      check reject_if ((na_units asset <? 0) || (8 <? na_units asset)) (str "Invalid parameter: units must be between 0-8.");
      check check_units (na_nAmount asset) (na_units asset) (str "Invalid parameter: amount must be divisible by the smaller unit assigned to the asset");
      check reject_if (negb (na_nReissuable asset =? 0) && negb (na_nReissuable asset =? 1)) (str "Invalid parameter: reissuable must be 0 or 1");
      reject_if (negb (na_nHasIPFS asset =? 0) && negb (na_nHasIPFS asset =? 1)) (str "Invalid parameter: has_ipfs must be 0 or 1.")
  | _ => Reject (str "Invalid parameter: asset_name must only consist of valid characters and have a size between 3 and 30 characters. See help for more details.")
  end.

Definition CheckReissueAsset (asset : CReissueAsset) : verdict :=
  check reject_if ((ra_nAmount asset <? 0) || (MAX_MONEY <=? ra_nAmount asset)) (str "Unable to reissue asset: amount must be 0 or larger");
  check reject_if ((8 <? ra_nUnits asset) || (ra_nUnits asset <? -1)) (str "Unable to reissue asset: unit must be between 8 and -1");
  let fSkip := is_testnet params && ((text_eqb (ra_strName asset) (str "GAMINGWEB") && (ra_nReissuable asset =? 109)) ||
                                     (text_eqb (ra_strName asset) (str "UINT8") && (ra_nReissuable asset =? -47))) in
  reject_if (negb fSkip && negb (ra_nReissuable asset =? 0) && negb (ra_nReissuable asset =? 1)) (str "Unable to reissue asset: reissuable must be 0 or 1").

(** * Verifier strings *)

(** The matches of [[A-Z0-9_.]+], the maximal runs of characters of names; [run] is the one being read. *)
Fixpoint runs (run s : text) : list text :=
  let flush := match run with [] => [] | _ => [run] end in
  match s with
  | [] => flush
  | c :: s' => if name_char c then runs (run ++ [c]) s' else flush ++ runs [] s'
  end.
Definition ExtractVerifierStringQualifiers (verifier : text) : gset text := list_to_set (runs [] verifier).

Definition GetStrippedVerifierString (verifier : text) : text := removeCharacter (removeWhitespaces verifier) (chr "#").

(** The qualifiers that were found, also when the check fails. *)
Definition CheckVerifierString (verifier : text) : verdict * gset text :=
  if text_eqb verifier (str "true") then (Accept, ∅)
  else if text_eqb verifier [] then (Reject (str "Verifier string can not be empty. To default to true, use " ++ [34] ++ str "true" ++ [34]), ∅)
  else
    let strippedVerifier := GetStrippedVerifierString verifier in
    if (80 <? length strippedVerifier)%nat then
      (Reject (str "Verifier string has length greater than 80 after whitespaces and '#' are removed"), ∅)
    else
      let setFoundQualifiers := ExtractVerifierStringQualifiers strippedVerifier in
      (check check_all (λ qualifier, reject_if (negb (IsQualifierNameValid (str "#" ++ qualifier))) (str "bad-txns-null-verifier-invalid-asset-name-" ++ qualifier))
         (in_order setFoundQualifiers);
       match resolve verifier (list_to_map (map (λ q, (q, true)) (elements setFoundQualifiers))) with
       | Some _ => Accept
       | None => Reject (str "bad-txns-null-verifier-failed-syntax-check")
       end, setFoundQualifiers).

Definition CheckVerifierAssetTxOut (o : CTxOut) : verdict :=
  get verifier from AssetNullVerifierDataFromScript (scriptPubKey o) or str "bad-txns-null-verifier-data-serialization";
  check reject_if (existsb (Z.eqb (chr " ")) (verifier_string verifier)) (str "bad-txns-null-verifier-data-contained-whitespaces");
  check reject_if (existsb (Z.eqb (chr "#")) (verifier_string verifier)) (str "bad-txns-null-verifier-data-contained-qualifier-character-#");
  (CheckVerifierString (verifier_string verifier)).1.

Definition VerifyNullAssetDataFlag (flag : Z) : verdict := reject_if (negb (flag =? 0) && negb (flag =? 1)) (str "bad-txns-null-data-flag-must-be-0-or-1").

(** * Checks against the state of assets *)

Section contextual.
Context `{cache : AssetsView}.

Definition VerifyQualifierChange (data : CNullAssetTxData) (address : text) : verdict :=
  check VerifyNullAssetDataFlag (nd_flag data);
  let fHasQualifier := CheckForAddressQualifier (nd_asset_name data) address in
  if negb (nd_flag data =? 0) then reject_if fHasQualifier (str "bad-txns-null-data-add-qualifier-when-already-assigned")
  else reject_if (negb fHasQualifier) (str "bad-txns-null-data-removing-qualifier-when-not-assigned").

Definition VerifyRestrictedAddressChange (data : CNullAssetTxData) (address : text) : verdict :=
  check VerifyNullAssetDataFlag (nd_flag data);
  let fIsFrozen := CheckForAddressRestriction (nd_asset_name data) address in
  if negb (nd_flag data =? 0) then reject_if fIsFrozen (str "bad-txns-null-data-freeze-address-when-already-frozen")
  else reject_if (negb fIsFrozen) (str "bad-txns-null-data-unfreeze-address-when-not-frozen").

Definition VerifyGlobalRestrictedChange (data : CNullAssetTxData) : verdict :=
  check VerifyNullAssetDataFlag (nd_flag data);
  let fIsGloballyFrozen := CheckForGlobalRestriction (nd_asset_name data) in
  if negb (nd_flag data =? 0) then reject_if fIsGloballyFrozen (str "bad-txns-null-data-global-freeze-when-already-frozen")
  else reject_if (negb fIsGloballyFrozen) (str "bad-txns-null-data-global-unfreeze-when-not-frozen").

Definition ContextualCheckVerifierString (verifier check_address : text) : verdict :=
  if text_eqb verifier (str "true") then Accept
  else
    let '(v, setFoundQualifiers) := CheckVerifierString verifier in
    check v;
    check check_all (λ qualifier, reject_if (negb (CheckIfAssetExists (str "#" ++ qualifier))) (str "bad-txns-null-verifier-contains-non-issued-qualifier"))
      (in_order setFoundQualifiers);
    if text_eqb check_address [] then Accept
    else
      match resolve verifier (list_to_map (map (λ q, (q, CheckForAddressQualifier (str "#" ++ q) check_address)) (elements setFoundQualifiers))) with
      | Some true => Accept
      | Some false => Reject (str "bad-txns-null-verifier-address-failed-verification")
      | None => Reject (str "bad-txns-null-verifier-failed-contexual-syntax-check")
      end.

Definition ContextualCheckAgainstVerifyString (transfer : CAssetTransfer) (address : text) : verdict :=
  get verifier from GetAssetVerifierStringIfExists (at_strName transfer) true or (str "Verifier String doesn't exist for asset: " ++ at_strName transfer);
  ContextualCheckVerifierString verifier address.

(** The checks of a reissue against the asset as it was. *)
Definition check_previous (reissue_asset : CReissueAsset) : verdict :=
  get prev_asset from GetAssetMetaDataIfExists (ra_strName reissue_asset) or
    (str "Unable to reissue asset: asset_name '" ++ ra_strName reissue_asset ++ str "' doesn't exist in the database");
  check reject_if (na_nReissuable prev_asset =? 0) (str "Unable to reissue asset: reissuable is set to false");
  check reject_if (MAX_MONEY <? i64 (na_nAmount prev_asset + ra_nAmount reissue_asset))
    (str "Unable to reissue asset: asset_name '" ++ ra_strName reissue_asset ++ str "' the amount trying to reissue is to large");
  check check_units (ra_nAmount reissue_asset) (na_units prev_asset)
    (str "Unable to reissue asset: amount must be divisible by the smaller unit assigned to the asset");
  reject_if ((ra_nUnits reissue_asset <? na_units prev_asset) && negb (ra_nUnits reissue_asset =? -1))
    (str "Unable to reissue asset: unit must be larger than current unit selection").

(** A reissue of a restricted asset is sent to an address that the verifier string, new or current, accepts. *)
Definition check_reissue_verifier (reissue_asset : CReissueAsset) (strAddress : text) (tx : CTransaction) : verdict :=
  match GetVerifierStringFromTx tx with
  | (None, strError, false) => Reject strError
  | (new_verifier, _, fNotFound) =>
      if 0 <? ra_nAmount reissue_asset then
        if fNotFound then
          get current_verifier from GetAssetVerifierStringIfExists (ra_strName reissue_asset) false or
            str "failed to get verifier string from a restricted asset, database is out of sync. Reindex required. Please report this is to development team";
          ContextualCheckVerifierString current_verifier strAddress
        else match new_verifier with Some v => ContextualCheckVerifierString (verifier_string v) strAddress | None => Crash end
      else Accept
  end.
End contextual.

(** A cache the caller may leave out, used under a test and without one. *)
Definition if_cache (assetCache : option AssetsView) (k : AssetsView → verdict) : verdict := match assetCache with Some c => k c | None => Accept end.
Definition deref (assetCache : option AssetsView) (k : AssetsView → verdict) : verdict := match assetCache with Some c => k c | None => Crash end.

(** The error of an inner check that stays in a variable which shadows the one of the caller. *)
Definition without_error (v : verdict) : verdict := match v with Reject _ => Reject [] | _ => v end.

Definition ContextualCheckNullAssetTxOut (o : CTxOut) (assetCache : option AssetsView) : verdict :=
  get (data, address) from AssetNullDataFromScript (prefixes params) (scriptPubKey o) or str "bad-txns-null-asset-data-serialization";
  if_cache assetCache (λ c,
    if IsAssetNameAQualifier (nd_asset_name data) false then VerifyQualifierChange data address
    else if IsAssetNameAnRestricted (nd_asset_name data) then VerifyRestrictedAddressChange data address
    else Reject (str "bad-txns-null-asset-data-on-non-restricted-or-qualifier-asset")).

Definition ContextualCheckGlobalAssetTxOut (o : CTxOut) (assetCache : option AssetsView) : verdict :=
  get data from GlobalAssetNullDataFromScript (scriptPubKey o) or str "bad-txns-null-global-asset-data-serialization";
  if_cache assetCache (λ c, VerifyGlobalRestrictedChange data).

Definition ContextualCheckVerifierAssetTxOut (o : CTxOut) (assetCache : option AssetsView) : verdict :=
  get verifier from AssetNullVerifierDataFromScript (scriptPubKey o) or str "bad-txns-null-verifier-data-serialization";
  if_cache assetCache (λ c, without_error (ContextualCheckVerifierString (verifier_string verifier) [])).

Definition ContextualCheckTransferAsset (assetCache : option AssetsView) (transfer : CAssetTransfer) (address : text) : verdict :=
  check reject_if (negb (asset_name_valid (at_strName transfer)))
    (str "Invalid parameter: asset_name must only consist of valid characters and have a size between 3 and 30 characters. See help for more details.");
  let assetType := asset_type_of (at_strName transfer) in
  check reject_if (at_nAmount transfer <=? 0) (str "Invalid parameter: asset amount can't be equal to or less than zero.");
  check (if AreMessagesDeployed dep then
           check reject_if (text_eqb (at_message transfer) [] && (0 <? at_nExpireTime transfer))
             (str "Invalid parameter: asset transfer expiration time requires a message to be attached to the transfer");
           check reject_if (at_nExpireTime transfer <? 0) (str "Invalid parameter: expiration time must be a positive value");
           if negb (text_eqb (at_message transfer) []) then CheckEncoded (at_message transfer) else Accept
         else Accept);
  check reject_if (bool_decide (assetType = MSGCHANNEL) && negb (AreMessagesDeployed dep)) (str "bad-txns-transfer-msgchannel-before-messaging-is-active");
  check (if bool_decide (assetType = RESTRICTED) then
           check reject_if (negb (AreRestrictedAssetsDeployed dep)) (str "bad-txns-transfer-restricted-before-it-is-active");
           check if_cache assetCache (λ c,
             reject_if (CheckForGlobalRestriction (at_strName transfer)) (str "bad-txns-transfer-restricted-asset-that-is-globally-restricted"));
           deref assetCache (λ c, without_error (ContextualCheckAgainstVerifyString transfer address))
         else Accept);
  reject_if ((bool_decide (assetType = QUALIFIER) || bool_decide (assetType = SUB_QUALIFIER)) && negb (AreRestrictedAssetsDeployed dep))
    (str "bad-txns-transfer-qualifier-before-it-is-active").

(** [in_mempool] is [mempool.mapAssetToHash.count], when the memory pool is to be checked. *)
Definition ContextualCheckNewAsset (assetCache : option AssetsView) (asset : CNewAsset) (in_mempool : option (text → bool)) : verdict :=
  check reject_if (negb (AreAssetsDeployed dep)) (str "bad-txns-new-asset-when-assets-is-not-active");
  check CheckNewAsset asset;
  check deref assetCache (λ c, reject_if (CheckIfAssetExists (na_strName asset))
    (str "Invalid parameter: asset_name '" ++ na_strName asset ++ str "' has already been used"));
  check reject_if (match in_mempool with Some f => f (na_strName asset) | None => false end) (str "Asset with this name is already in the mempool");
  let has_ipfs := negb (na_nHasIPFS asset =? 0) in
  check reject_if (has_ipfs && negb (length (na_strIPFSHash asset) =? 34)%nat &&
                   (negb (AreMessagesDeployed dep) || negb (length (na_strIPFSHash asset) =? 32)%nat))
    (str "Invalid parameter: ipfs_hash must be 46 characters. Txid must be valid 64 character hash");
  if has_ipfs then CheckEncoded (na_strIPFSHash asset) else Accept.

(** The end of both [ContextualCheckReissueAsset]. *)
Definition check_reissue_hash (hash : text) : verdict :=
  check reject_if (negb (text_eqb hash []) && negb (length hash =? 34)%nat && (AreMessagesDeployed dep && negb (length hash =? 32)%nat))
    (str "Invalid parameter: ipfs_hash must be 34 bytes, Txid must be 32 bytes");
  if negb (text_eqb hash []) then CheckEncoded hash else Accept.

Definition ContextualCheckReissueAsset_tx (assetCache : option AssetsView) (reissue_asset : CReissueAsset) (tx : CTransaction) : verdict :=
  get (_, strAddress) from ReissueAssetFromTransaction tx or str "bad-txns-reissue-asset-contextual-check";
  check CheckReissueAsset reissue_asset;
  check deref assetCache (λ c, check_previous reissue_asset);
  check check_reissue_hash (ra_strIPFSHash reissue_asset);
  if IsAssetNameAnRestricted (ra_strName reissue_asset) then deref assetCache (λ c, check_reissue_verifier reissue_asset strAddress tx) else Accept.

Definition ContextualCheckReissueAsset (assetCache : option AssetsView) (reissue_asset : CReissueAsset) : verdict :=
  check CheckReissueAsset reissue_asset;
  check if_cache assetCache (λ c, check_previous reissue_asset);
  check_reissue_hash (ra_strIPFSHash reissue_asset).

Definition ContextualCheckUniqueAsset (assetCache : option AssetsView) (unique_asset : CNewAsset) : verdict := ContextualCheckNewAsset assetCache unique_asset None.
Definition ContextualCheckUniqueAssetTx (assetCache : option AssetsView) (tx : CTransaction) : verdict :=
  check_all (λ o,
    if is_some (IsScriptNewUniqueAsset (prefixes params) (scriptPubKey o)) then
      get (asset, _) from AssetFromScript (prefixes params) (scriptPubKey o) or str "bad-txns-issue-unique-serialization-failed";
      ContextualCheckUniqueAsset assetCache asset
    else Accept) (vout tx).

(** The update of an asset by a reissue, in [CAssetsCache::AddReissueAsset]. *)
Definition reissued (asset : CNewAsset) (reissue : CReissueAsset) : CNewAsset :=
  let hash := ra_strIPFSHash reissue in
  mkCNewAsset (na_strName asset) (i64 (na_nAmount asset + ra_nAmount reissue)) (if negb (ra_nUnits reissue =? -1) then ra_nUnits reissue else na_units asset)
    (ra_nReissuable reissue) (if text_eqb hash [] then na_nHasIPFS asset else 1) (if text_eqb hash [] then na_strIPFSHash asset else hash).

(** [CAssetTransfer::IsValid], for transactions made by users. *)
Definition CAssetTransfer_IsValid (transfer : CAssetTransfer) : verdict :=
  check reject_if (negb (asset_name_valid (at_strName transfer)))
    (str "Invalid parameter: asset_name must only consist of valid characters and have a size between 3 and 30 characters. See help for more details.");
  check reject_if (at_nAmount transfer <=? 0) (str "Invalid parameter: asset amount can't be equal to or less than zero.");
  check reject_if (text_eqb (at_message transfer) [] && (0 <? at_nExpireTime transfer))
    (str "Invalid parameter: asset transfer expiration time requires a message to be attached to the transfer");
  check reject_if (at_nExpireTime transfer <? 0) (str "Invalid parameter: expiration time must be a positive value");
  if negb (text_eqb (at_message transfer) []) then CheckEncoded (at_message transfer) else Accept.
End checks.

(** * Burnt fees: proofs *)

Lemma pays_to_spec params o address : prefixes_ok (prefixes params) → is_bytes (scriptPubKey o) →
  pays_to params o address = true ↔ ∃ d, ExtractDestination (scriptPubKey o) = Some d ∧ DecodeDestination (prefixes params) address = Some d ∧
    EncodeDestination (prefixes params) d = Some address.
Proof.
  intros Hp Hb. unfold pays_to. destruct (ExtractDestination (scriptPubKey o)) as [d|] eqn:E; [|split; [done|naive_solver]].
  pose proof (ExtractDestination_ok _ _ Hb E) as Hd. destruct (EncodeDestination_roundtrip _ d Hp Hd) as (s & Es & Ds & _).
  rewrite Es. cbn [from_option]. assert (IsValidDestination d = true) as -> by (by destruct d). cbn [andb]. rewrite text_eqb_spec.
  split; [intros <-; eauto|]. intros (d' & [= <-] & _ & E'). rewrite E' in Es. by injection Es.
Qed.

(** The parameters of a network whose addresses for fees are not valid. *)
Definition burn_types : list AssetType := [ROOT; SUB; MSGCHANNEL; UNIQUE; REISSUE; QUALIFIER; SUB_QUALIFIER; RESTRICTED; NULL_ADD_QUALIFIER].
Definition no_burn_address (params : ChainParams) : bool :=
  forallb (λ t, match DecodeDestination (prefixes params) (burn_address (GetBurn params t)) with Some d => negb (IsValidDestination d) | None => false end)
    burn_types.

Lemma main_no_burn_address : no_burn_address main_params = true.
Proof. vm_compute. reflexivity. Qed.
Lemma testnet_no_burn_address : no_burn_address testnet_params = true.
Proof. vm_compute. reflexivity. Qed.

Definition scripts_ok (tx : CTransaction) : Prop := Forall (λ o, is_bytes (scriptPubKey o)) (vout tx).

Lemma no_pays_to params o t : prefixes_ok (prefixes params) → no_burn_address params = true → is_bytes (scriptPubKey o) → t ∈ burn_types →
  pays_to params o (burn_address (GetBurn params t)) = false.
Proof.
  intros Hp Hn Hb Ht. apply not_true_iff_false. rewrite pays_to_spec by done. intros (d & E & D & _).
  unfold no_burn_address in Hn. rewrite forallb_forall in Hn. specialize (Hn t). rewrite <- list_elem_of_In, D in Hn. specialize (Hn Ht).
  apply ExtractDestination_ok in E; [|done]. by destruct d.
Qed.

Lemma no_issue_burn params o t n : prefixes_ok (prefixes params) → no_burn_address params = true → is_bytes (scriptPubKey o) →
  CheckIssueBurnTx params o t n = false ∧ CheckReissueBurnTx params o = false.
Proof.
  intros Hp Hn Hb. split; [|unfold CheckReissueBurnTx; change (reissue_burn params) with (GetBurn params REISSUE); rewrite no_pays_to by (done || set_solver); apply andb_false_r].
  unfold CheckIssueBurnTx. destruct t; try done; rewrite no_pays_to by (done || set_solver); apply andb_false_r.
Qed.

Lemma existsb_none {A} (f : A → bool) l : Forall (λ x, f x = false) l → existsb f l = false.
Proof. induction 1 as [|x l E _ IH]; [done|]. cbn [existsb]. by rewrite E. Qed.

Lemma no_burn_outputs params tx t n : prefixes_ok (prefixes params) → no_burn_address params = true → scripts_ok tx →
  existsb (λ o, CheckIssueBurnTx params o t n) (vout tx) = false ∧ existsb (CheckReissueBurnTx params) (vout tx) = false.
Proof. intros Hp Hn Hs. split; apply existsb_none; (eapply Forall_impl; [exact Hs|]); intros o Ho; by apply (no_issue_burn params o t n). Qed.

Lemma check_inv (a b : verdict) : (check a; b) = Accept → a = Accept ∧ b = Accept.
Proof. by destruct a. Qed.
Lemma get_inv {A} (o : option A) e (b : A → verdict) : (get x from o or e; b x) = Accept → ∃ x, o = Some x ∧ b x = Accept.
Proof. destruct o; [eauto|done]. Qed.
Lemma reject_inv c e : reject_if c e = Accept ↔ c = false.
Proof. by destruct c. Qed.

(** The parts of a check that has accepted. *)
Ltac accepted H :=
  cbv zeta in H;
  repeat first
    [ apply check_inv in H as [?%reject_inv H]
    | apply check_inv in H as [? H]
    | apply get_inv in H as ([? ?] & ? & H)
    | apply reject_inv in H ].

Ltac absurd_by HI := match goal with E : negb _ = false |- _ => rewrite HI in E; discriminate E end.

Lemma no_fee_no_issue params dep uninit tx : prefixes_ok (prefixes params) → no_burn_address params = true → scripts_ok tx →
  VerifyNewUniqueAsset params dep tx ≠ Accept ∧ VerifyNewMsgChannelAsset params dep tx ≠ Accept ∧ VerifyNewQualfierAsset params dep uninit tx ≠ Accept ∧
  VerifyNewRestrictedAsset params dep uninit tx ≠ Accept ∧ VerifyReissueAsset params dep tx ≠ Accept ∧
  (VerifyNewAsset params dep uninit tx = Accept → is_bad_hash tx = true) ∧ ∀ n, CheckAddingTagBurnFee params tx n = false.
Proof.
  intros Hp Hn Hs. pose proof (λ t n, proj1 (no_burn_outputs params tx t n Hp Hn Hs)) as HI.
  pose proof (proj2 (no_burn_outputs params tx ROOT 0 Hp Hn Hs)) as HR. split_and!; [intros H..|intros H|intros n; apply HI].
  - unfold VerifyNewUniqueAsset in H. destruct (unique_loop _ _ _ _ _) as [v [root count]]. accepted H. absurd_by HI.
  - unfold VerifyNewMsgChannelAsset in H. accepted H. absurd_by HI.
  - unfold VerifyNewQualfierAsset in H. accepted H. absurd_by HI.
  - unfold VerifyNewRestrictedAsset in H. accepted H. absurd_by HI.
  - unfold VerifyReissueAsset in H. accepted H. absurd_by HR.
  - unfold VerifyNewAsset in H. accepted H. destruct (is_bad_hash tx); [done|]. cbn [orb] in *. absurd_by HI.
Qed.

Lemma regtest_burn : Forall (λ t, ∃ d, DecodeDestination regtest_prefixes (burn_address (GetBurn regtest_params t)) = Some d ∧ ∀ n,
  t ≠ REISSUE → CheckIssueBurnTx regtest_params (mkCTxOut (i64 (burn_amount (GetBurn regtest_params t) * n)) (GetScriptForDestination d)) t n = true) burn_types.
Proof.
  assert (H : ∀ t, (match DecodeDestination regtest_prefixes (burn_address (GetBurn regtest_params t)) with
    | Some d => pays_to regtest_params (mkCTxOut 0 (GetScriptForDestination d)) (burn_address (GetBurn regtest_params t)) | None => false end) = true → t ∈ burn_types →
    ∃ d, DecodeDestination regtest_prefixes (burn_address (GetBurn regtest_params t)) = Some d ∧ ∀ n,
    t ≠ REISSUE → CheckIssueBurnTx regtest_params (mkCTxOut (i64 (burn_amount (GetBurn regtest_params t) * n)) (GetScriptForDestination d)) t n = true).
  { intros t H Hin. destruct (DecodeDestination _ _) as [d|]; [|done]. exists d. split; [done|]. intros n Hne. unfold pays_to in *. cbn [scriptPubKey] in H.
    unfold CheckIssueBurnTx. destruct t; try done; try (exfalso; clear -Hin; set_solver); cbn [nValue]; rewrite Z.eqb_refl; exact H. }
  apply Forall_forall. intros t Ht. apply H; [|done]. unfold burn_types in Ht. rewrite !elem_of_cons, elem_of_nil in Ht.
  repeat (destruct Ht as [-> | Ht]; [vm_compute; reflexivity|]). done.
Qed.

(** * Verifier strings: proofs *)

(** The names in a formula, with its constants, and its value. *)
Fixpoint names (f : formula) : list text :=
  match f with
  | FTrue => [str "1"]
  | FFalse => [str "0"]
  | FVar x => [x]
  | FNot f => names f
  | FAnd f g | FOr f g => names f ++ names g
  end.
Fixpoint holds (h : text → bool) (f : formula) : bool :=
  match f with
  | FTrue => true
  | FFalse => false
  | FVar x => h x
  | FNot f => negb (holds h f)
  | FAnd f g => holds h f && holds h g
  | FOr f g => holds h f || holds h g
  end.

Definition flush (run : text) : list text := match run with [] => [] | _ => [run] end.

Lemma runs_sep c b a : name_char c = false → ∀ run, runs run (a ++ c :: b) = runs run a ++ runs [] b.
Proof.
  intros Hc. induction a as [|x a IH]; intros run; cbn [app runs]; [by rewrite Hc|]. destruct (name_char x); [apply IH|].
  rewrite IH. by destruct run.
Qed.

Lemma runs_name a : forallb name_char a = true → ∀ run, runs run a = flush (run ++ a).
Proof.
  induction a as [|x a IH]; intros H run; [by rewrite app_nil_r|]. cbn [forallb] in H. apply andb_true_iff in H as [Hx H].
  cbn [runs]. rewrite Hx, IH, <- app_assoc by done. done.
Qed.

Lemma runs_parens b s : runs [] (parens b s) = runs [] s.
Proof. destruct b; [|done]. change (parens true s) with (chr "(" :: s ++ chr ")" :: []). cbn [runs]. change (name_char (chr "(")) with false. cbn [app]. by rewrite runs_sep, app_nil_r. Qed.

(** Every name consists of characters of names of assets. *)
Definition plain (f : formula) : Prop := Forall (λ x, x ≠ [] ∧ forallb name_char x = true) (names f).

Lemma plain_app f g : Forall (λ x, x ≠ [] ∧ forallb name_char x = true) (names f ++ names g) → plain f ∧ plain g.
Proof. by rewrite Forall_app. Qed.

Lemma runs_print f : plain f → ∀ p, runs [] (print p f) = names f.
Proof.
  induction f as [| |x|f IH|f IHf g IHg|f IHf g IHg]; intros H p; cbn [print names] in *; try done.
  - apply Forall_singleton in H as [Hx H]. rewrite runs_name by done. by destruct x.
  - change (str "!" ++ print 2 f) with (chr "!" :: print 2 f). cbn [runs]. change (name_char (chr "!")) with false. by apply IH.
  - apply plain_app in H as [Hf Hg]. rewrite runs_parens. cbn [app]. by rewrite runs_sep, IHf, IHg.
  - apply plain_app in H as [Hf Hg]. rewrite runs_parens. cbn [app]. by rewrite runs_sep, IHf, IHg.
Qed.

Definition qualifier_ok (x : text) : Prop := IsQualifierNameValid (str "#" ++ x) = true.

Lemma qualifier_name_ok x : qualifier_ok x → LibBoolEE.name_ok x = true.
Proof.
  unfold qualifier_ok. change (str "#" ++ x) with (chr "#" :: x). rewrite IsQualifierNameValid_word. intros H.
  rewrite !andb_true_iff in H. destruct H as [[_ H] _]. apply word_chars in H as [Hl H]. unfold LibBoolEE.name_ok. rewrite !andb_true_iff, !negb_true_iff.
  assert (forallb belongsToName x = true).
  { apply (forallb_impl name_char); [|done]. intros c. unfold belongsToName. class. }
  unfold text_eqb. split_and!; [|done|..]; apply bool_decide_eq_false; intros ->; cbn in Hl; lia.
Qed.

Lemma qualifiers_names_ok f : Forall qualifier_ok (names f) → names_ok f = true.
Proof.
  induction f as [| |x|f IH|f IHf g IHg|f IHf g IHg]; cbn [names names_ok]; try done.
  - rewrite Forall_singleton. apply qualifier_name_ok.
  - rewrite Forall_app, andb_true_iff. naive_solver.
  - rewrite Forall_app, andb_true_iff. naive_solver.
Qed.

Lemma filter_forallb {A} (p : A → bool) l : forallb p l = true → List.filter p l = l.
Proof. induction l as [|x l IH]; cbn [forallb List.filter]; [done|]. intros [-> H]%andb_true_iff. by rewrite IH. Qed.

Lemma stripped s f : plain f → removeWhitespaces s = print 0 f → GetStrippedVerifierString s = print 0 f.
Proof.
  intros Hf E. unfold GetStrippedVerifierString. rewrite E. unfold removeCharacter.
  assert (H : ∀ p, forallb (λ c, negb (chr "#" =? c)) (print p f) = true).
  { clear E. induction f as [| |x|f IH|f IHf g IHg|f IHf g IHg]; intros p; cbn [print]; try done.
    - apply (proj1 (Forall_singleton _ _)) in Hf as [_ Hx]. apply (forallb_impl name_char); [|done]. intros c. class.
    - apply IH. done.
    - apply plain_app in Hf as [Hf Hg]. unfold parens. destruct (_ <? _)%nat; rewrite ?forallb_app, IHf, IHg by done; done.
    - apply plain_app in Hf as [Hf Hg]. unfold parens. destruct (_ <? _)%nat; rewrite ?forallb_app, IHf, IHg by done; done. }
  apply filter_forallb, H.
Qed.

Lemma check_all_accept {A} (f : A → verdict) l : check_all f l = Accept ↔ Forall (λ x, f x = Accept) l.
Proof.
  induction l as [|x l IH]; [done|]. cbn [check_all]. rewrite Forall_cons, <- IH. destruct (f x); intuition done.
Qed.

Lemma in_order_Forall P (l : list text) : Forall P (in_order (list_to_set l)) ↔ Forall P l.
Proof.
  unfold in_order. rewrite merge_sort_Permutation, !Forall_forall. set_solver.
Qed.

Lemma value_holds (h : text → bool) (S : gset text) f : (∀ x, x ∈ names f → x ∈ S) → Forall qualifier_ok (names f) →
  LibBoolEE.value (list_to_map (map (λ q, (q, h q)) (elements S))) f = Some (holds h f).
Proof.
  induction f as [| |x|f IH|f IHf g IHg|f IHf g IHg]; cbn [names LibBoolEE.value holds]; intros HS H.
  - by rewrite Forall_singleton in H.
  - by rewrite Forall_singleton in H.
  - apply elem_of_list_to_map_1; [|apply list_elem_of_fmap; exists x; split; [done|apply elem_of_elements; set_solver]].
    rewrite <- list_fmap_compose. rewrite (list_fmap_ext _ id), list_fmap_id by done. apply NoDup_elements.
  - by rewrite IH.
  - apply Forall_app in H as [Hf Hg]. by rewrite IHf, IHg by set_solver.
  - apply Forall_app in H as [Hf Hg]. by rewrite IHf, IHg by set_solver.
Qed.

(** The outcome of [CheckVerifierString] on the text of a formula. *)
Lemma CheckVerifierString_formula f s : plain f → removeWhitespaces s = print 0 f →
  text_eqb s (str "true") = false ∧
  ((CheckVerifierString s).1 = Accept ↔ (length (print 0 f) ≤ 80)%nat ∧ Forall qualifier_ok (names f)) ∧
  ((CheckVerifierString s).1 = Accept → (CheckVerifierString s).2 = list_to_set (names f)).
Proof.
  intros Hf E. assert (Hn : names f ≠ []).
  { clear. induction f as [| |x|f IH|f IHf g IHg|f IHf g IHg]; cbn [names]; try done; by destruct (names f). }
  assert (Ht : text_eqb s (str "true") = false).
  { apply not_true_iff_false. intros ->%text_eqb_spec. apply Hn. rewrite <- (runs_print f Hf 0), <- E. reflexivity. }
  assert (He : text_eqb s [] = false).
  { apply not_true_iff_false. intros ->%text_eqb_spec. apply Hn. rewrite <- (runs_print f Hf 0), <- E. reflexivity. }
  split; [done|]. unfold CheckVerifierString, ExtractVerifierStringQualifiers. rewrite Ht, He, (stripped _ f), runs_print by done. cbv zeta.
  destruct (Nat.ltb_spec 80 (length (print 0 f))) as [Hl|Hl]; [split; [split; [done|lia]|done]|]. cbn [fst snd]. split; [|done].
  transitivity (Forall qualifier_ok (names f)); [|intuition lia]. split.
  - intros [H _]%check_inv. rewrite check_all_accept, in_order_Forall in H. eapply Forall_impl; [exact H|].
    intros x Hx%reject_inv. by apply negb_false_iff.
  - intros H. assert (check_all (λ x, reject_if (negb (IsQualifierNameValid (str "#" ++ x))) (str "bad-txns-null-verifier-invalid-asset-name-" ++ x))
      (in_order (list_to_set (names f))) = Accept) as ->.
    { apply check_all_accept, in_order_Forall. eapply Forall_impl; [exact H|]. intros x Hx. by rewrite Hx. }
    rewrite (resolve_spec f) by (done || by apply qualifiers_names_ok). rewrite (value_holds (λ _, true)); [done| |done]. intros x. by rewrite elem_of_list_to_set.
Qed.

Lemma ContextualCheckVerifierString_formula `{AssetsView} f s address : plain f → removeWhitespaces s = print 0 f →
  ContextualCheckVerifierString s address = Accept ↔
    (length (print 0 f) ≤ 80)%nat ∧ Forall (λ x, qualifier_ok x ∧ CheckIfAssetExists (str "#" ++ x) = true) (names f) ∧
    (address = [] ∨ holds (λ x, CheckForAddressQualifier (str "#" ++ x) address) f = true).
Proof.
  intros Hf E. destruct (CheckVerifierString_formula f s Hf E) as (Ht & Hc & Hq). unfold ContextualCheckVerifierString. rewrite Ht, Forall_and.
  destruct (CheckVerifierString s) as [v S]. cbn [fst snd] in *. destruct v as [|e|]; [|intuition done..].
  rewrite (Hq eq_refl) in *. destruct (proj1 Hc eq_refl) as [Hl HF]. clear Hc Hq.
  assert (HA : check_all (λ x, reject_if (negb (CheckIfAssetExists (str "#" ++ x))) (str "bad-txns-null-verifier-contains-non-issued-qualifier"))
    (in_order (list_to_set (names f))) = Accept ↔ Forall (λ x, CheckIfAssetExists (str "#" ++ x) = true) (names f)).
  { rewrite check_all_accept, in_order_Forall. apply Forall_proper; [|done]. intros x. rewrite reject_inv. apply negb_false_iff. }
  assert (Hh : ∀ h : text → bool, resolve s (list_to_map (map (λ q, (q, h q)) (elements (list_to_set (C := gset text) (names f))))) = Some (holds h f)).
  { intros h. rewrite (resolve_spec f) by (done || by apply qualifiers_names_ok). apply value_holds; [|done]. intros x. by rewrite elem_of_list_to_set. }
  rewrite <- HA. destruct (check_all _ _); [|intuition done..]. rewrite Hh. pose proof (text_eqb_spec address []) as Ha.
  destruct (text_eqb address []); [intuition done|]. destruct (holds _ f); intuition done.
Qed.

(** * Assets *)

(** What holds of an asset that may be issued. *)
Definition issuable (a : CNewAsset) (T : AssetType) : Prop :=
  asset_name T (na_strName a) ∧ T ≠ OWNER ∧ 0 < na_nAmount a ≤ MAX_MONEY ∧ 0 ≤ na_units a ≤ 8 ∧ (10 ^ (8 - na_units a) | na_nAmount a) ∧
  (na_nReissuable a = 0 ∨ na_nReissuable a = 1) ∧ (na_nHasIPFS a = 0 ∨ na_nHasIPFS a = 1) ∧
  (T = UNIQUE ∨ T = MSGCHANNEL → na_units a = 0 ∧ na_nAmount a = COIN ∧ na_nReissuable a = 0) ∧
  (T = QUALIFIER ∨ T = SUB_QUALIFIER → na_units a = 0 ∧ COIN ≤ na_nAmount a ≤ 10 * COIN ∧ na_nReissuable a = 0).

Lemma check_units_spec n u e : 0 ≤ u ≤ 8 → check_units n u e = Accept ↔ (10 ^ (8 - u) | n).
Proof.
  intros Hu. unfold check_units, CheckAmountWithUnits. destruct (Z.leb_spec (-10) u), (Z.leb_spec u 8); try lia. cbn [andb].
  rewrite reject_inv, negb_false_iff, Z.eqb_eq. apply Z.rem_divide. apply Z.pow_nonzero; lia.
Qed.

Lemma check_accept (a b : verdict) : (check a; b) = Accept ↔ a = Accept ∧ b = Accept.
Proof. destruct a; intuition done. Qed.
Lemma if_accept (c : bool) (v : verdict) : (if c then v else Accept) = Accept ↔ (c = true → v = Accept).
Proof. destruct c; intuition done. Qed.

Ltac verdicts :=
  rewrite ?check_accept, ?reject_inv; repeat setoid_rewrite if_accept; repeat setoid_rewrite check_accept; repeat setoid_rewrite reject_inv;
  repeat setoid_rewrite andb_false_iff; repeat setoid_rewrite orb_false_iff; repeat setoid_rewrite orb_true_iff; repeat setoid_rewrite bool_decide_eq_true;
  repeat setoid_rewrite negb_false_iff; repeat setoid_rewrite Z.eqb_eq; repeat setoid_rewrite Z.leb_gt; repeat setoid_rewrite Z.ltb_ge.

Lemma CheckNewAsset_spec a : CheckNewAsset a = Accept ↔ ∃ T, issuable a T.
Proof.
  unfold CheckNewAsset. destruct (IsAssetNameValid (na_strName a)) as [valid T] eqn:E.
  assert (Hno : (∀ T, IsAssetNameValid (na_strName a) ≠ (true, Some T)) → ¬ ∃ T, issuable a T).
  { intros H [T' [HT _]]. by apply (H T'), IsAssetNameValid_spec. }
  rewrite E in Hno. destruct valid; [destruct T as [T|]|]; [|split; [done|intros []%Hno; by intros ? [=]]..].
  transitivity (issuable a T); [|split; [eauto|]; intros [T' HT']; assert (T' = T) as <-; [|done]; destruct HT' as [HT' _];
    apply IsAssetNameValid_spec in HT'; congruence].
  apply IsAssetNameValid_spec in E. unfold issuable. assert (Ho : IsAssetNameAnOwner (na_strName a) = false ↔ T ≠ OWNER).
  { rewrite <- not_true_iff_false, owner_names. split; [intros H ->; done|]. intros H HO. by apply H, (asset_name_unique _ _ _ E HO). }
  generalize dependent (IsAssetNameAnOwner (na_strName a)). intros owner Ho. verdicts. rewrite Ho. split.
  - intros (Hu & Hq & Hon & ? & ? & Hun & Hd & ? & ?). rewrite check_units_spec in Hd by lia. intuition lia.
  - intros (_ & Hon & Hamt & Hun & Hd & Hr & Hi & Hu & Hq). rewrite check_units_spec by lia. intuition lia.
Qed.

Lemma reissued_issuable params dep (cache : AssetsView) a r T :
  is_testnet params = false → GetAssetMetaDataIfExists (ra_strName r) = Some a → issuable a T →
  ContextualCheckReissueAsset params dep (Some cache) r = Accept → issuable (reissued a r) T ∧ na_nAmount (reissued a r) = na_nAmount a + ra_nAmount r.
Proof.
  intros Hnet Ea (HT & Hon & Hamt & Hun & Hd & Hr & Hi & Hu & Hq) H. unfold ContextualCheckReissueAsset, CheckReissueAsset, check_previous in H.
  cbn [if_cache] in H. rewrite Hnet, Ea in H. cbn [andb negb] in H. revert H. verdicts. rewrite check_units_spec by done.
  intros ((Hn & [Hv1 Hv2] & Hre) & (Hre0 & Hmax & Hdr & Hnu) & _). apply Z.eqb_neq in Hre0.
  assert (Ei : i64 (na_nAmount a + ra_nAmount r) = na_nAmount a + ra_nAmount r) by (apply i64_small; unfold is_i64, MAX_MONEY, COIN in *; lia).
  unfold issuable, reissued. cbn [na_strName na_nAmount na_units na_nReissuable na_nHasIPFS na_strIPFSHash]. rewrite Ei in *.
  assert (Hsum : (10 ^ (8 - na_units a) | na_nAmount a + ra_nAmount r)) by (by apply Z.divide_add_r).
  split; [|done]. split_and!; try done; try lia; try (intros Hc; exfalso; intuition lia); try (case_match; lia).
  destruct (Z.eqb_spec (ra_nUnits r) (-1)); cbn [negb]; [done|]. transitivity (10 ^ (8 - na_units a)); [|done].
    exists (10 ^ (ra_nUnits r - na_units a)). rewrite <- Z.pow_add_r by lia. f_equal. lia.
Qed.

(** * Properties *)

(** C35: no fee can be burnt on the main network and on the test network: their addresses for fees, compared with
    the address of an output, fail their checksum, so that they are the address of nothing. No output passes as a
    fee, whatever it pays and however much, and every transaction that issues a unique asset, a message channel, a
    qualifier or a restricted asset, that reissues an asset or that tags an address is rejected, as is one that issues a
    root or a sub asset unless it is one of two transactions singled out by their hash. On the network for
    regression tests an output that pays the fee to the address is accepted. *)
Theorem fees_cannot_be_burnt params dep uninit tx o :
  params = main_params ∨ params = testnet_params → scripts_ok tx → is_bytes (scriptPubKey o) →
  (∀ t n, CheckIssueBurnTx params o t n = false) ∧ CheckReissueBurnTx params o = false ∧
  VerifyNewUniqueAsset params dep tx ≠ Accept ∧ VerifyNewMsgChannelAsset params dep tx ≠ Accept ∧ VerifyNewQualfierAsset params dep uninit tx ≠ Accept ∧
  VerifyNewRestrictedAsset params dep uninit tx ≠ Accept ∧ VerifyReissueAsset params dep tx ≠ Accept ∧
  (VerifyNewAsset params dep uninit tx = Accept → is_bad_hash tx = true) ∧ (∀ n, CheckAddingTagBurnFee params tx n = false) ∧
  Forall (λ t, ∃ d, DecodeDestination regtest_prefixes (burn_address (GetBurn regtest_params t)) = Some d ∧ ∀ n,
    t ≠ REISSUE → CheckIssueBurnTx regtest_params (mkCTxOut (i64 (burn_amount (GetBurn regtest_params t) * n)) (GetScriptForDestination d)) t n = true) burn_types.
Proof.
  intros Hparams Hs Ho.
  assert (Hp : prefixes_ok (prefixes params) ∧ no_burn_address params = true).
  { destruct networks_prefixes_ok as (Hm & Ht & _). destruct Hparams as [-> | ->]; (split; [done|]); [apply main_no_burn_address|apply testnet_no_burn_address]. }
  destruct Hp as [Hp Hn]. split; [intros t n; by apply no_issue_burn|]. split; [by apply (no_issue_burn params o ROOT 0)|].
  destruct (no_fee_no_issue params dep uninit tx Hp Hn Hs) as (? & ? & ? & ? & ? & ? & ?). split_and!; try done.
  apply regtest_burn.
Qed.

(** A transaction that issues the asset [MUSIC] for a fee, which is paid to the hash in the text of the address. *)
Definition issue_example (params : ChainParams) : CTransaction :=
  let id := match DecodeBase58 (burn_address (issue_burn params)) with Some (Some v) => take 20 (drop 1 v) | _ => [] end in
  let asset := mkCNewAsset (str "MUSIC") (21 * COIN) 0 1 0 [] in
  let key := GetScriptForDestination (CKeyID (repeat 7 20)) in
  mkCTransaction 2 []
    [mkCTxOut (50 * COIN) (GetScriptForDestination (CKeyID id)); mkCTxOut 0 (ConstructOwnerTransaction asset key);
     mkCTxOut 0 (CNewAsset_ConstructTransaction asset key)] 0.

Lemma issue_example_hash : is_bad_hash (issue_example main_params) = false.
Proof. vm_compute. reflexivity. Qed.
Lemma issue_example_scripts : scripts_ok (issue_example main_params).
Proof.
  unfold scripts_ok. vm_compute. repeat (constructor; [repeat (constructor; [split; discriminate || reflexivity|]); constructor|]). constructor.
Qed.
Lemma issue_example_accepted : VerifyNewAsset regtest_params (mkDeployments true true true true true) ROOT (issue_example regtest_params) = Accept.
Proof. vm_compute. reflexivity. Qed.

Lemma fees_cannot_be_burnt_witness :
  let dep := mkDeployments true true true true true in
  VerifyNewAsset main_params dep ROOT (issue_example main_params) ≠ Accept ∧ VerifyNewAsset regtest_params dep ROOT (issue_example regtest_params) = Accept.
Proof.
  intros dep. split; [|exact issue_example_accepted]. intros H.
  destruct (fees_cannot_be_burnt main_params dep ROOT (issue_example main_params) (mkCTxOut 0 []) (or_introl eq_refl) issue_example_scripts (List.Forall_nil _))
    as (_ & _ & _ & _ & _ & _ & _ & Hn & _).
  exact (eq_true_false_abs _ (Hn H) issue_example_hash).
Defined.

(** C12: what may be issued, and that it stays so. A new asset passes the check iff its name has a type other than
    that of an owner token, its amount is positive, at most the limit and a multiple of its smallest unit, and it obeys the
    limits of its type: one unit for unique assets and message channels, one to ten for qualifiers. A reissue that
    passes the contextual check leads from such an asset to such an asset of the same type, and adds its
    amount without overflow. *)
Theorem assets_stay_valid params dep (cache : AssetsView) a r T :
  (CheckNewAsset a = Accept ↔ ∃ T, issuable a T) ∧
  (is_testnet params = false → GetAssetMetaDataIfExists (ra_strName r) = Some a → issuable a T →
   ContextualCheckReissueAsset params dep (Some cache) r = Accept →
   issuable (reissued a r) T ∧ na_nAmount (reissued a r) = na_nAmount a + ra_nAmount r).
Proof. split; [apply CheckNewAsset_spec|apply reissued_issuable]. Qed.

Definition example_view : AssetsView :=
  {| CheckIfAssetExists n := true; GetAssetMetaDataIfExists n := Some (mkCNewAsset n (5 * COIN) 0 1 0 []);
     CheckForAddressQualifier q a := text_eqb q (str "#KYC"); CheckForAddressRestriction n a := false; CheckForGlobalRestriction n := false;
     GetAssetVerifierStringIfExists n b := Some (str "KYC & !BANNED") |}.

Lemma assets_stay_valid_witness :
  let a := mkCNewAsset (str "MUSIC") (5 * COIN) 0 1 0 [] in let r := mkCReissueAsset (str "MUSIC") (2 * COIN) 2 1 [] in
  issuable a ROOT ∧ issuable (reissued a r) ROOT.
Proof.
  intros a r. assert (Ha : issuable a ROOT).
  { assert (asset_name ROOT (str "MUSIC")) by (apply IsAssetNameValid_spec; vm_compute; reflexivity). unfold issuable, a.
    cbn [na_strName na_nAmount na_units na_nReissuable na_nHasIPFS]. split_and!; try done; try lia; [by exists 5|intros [|]; done..]. }
  split; [exact Ha|]. refine (proj1 (proj2 (assets_stay_valid main_params (mkDeployments true true true true true) example_view a r ROOT) _ _ Ha _)).
  - reflexivity.
  - reflexivity.
  - vm_compute. reflexivity.
Defined.

(** C11: the rule for transfers of a restricted asset. When its verifier string is a formula over tags, up to whitespace,
    a transfer to an address is accepted iff its amount is positive, its message is well formed and has no
    expiry of its own, the asset is not frozen, the formula has at most 80 characters, every tag is the name of a qualifier that was
    issued, and the formula is true of the tags of the address. *)
Theorem restricted_transfers dep uninit (cache : AssetsView) t address f s :
  asset_name RESTRICTED (at_strName t) → IsRip5Active dep = true → GetAssetVerifierStringIfExists (at_strName t) true = Some s →
  plain f → removeWhitespaces s = print 0 f → address ≠ [] →
  ContextualCheckTransferAsset dep uninit (Some cache) t address = Accept ↔
    0 < at_nAmount t ∧ 0 ≤ at_nExpireTime t ∧
    (if text_eqb (at_message t) [] then at_nExpireTime t = 0 else CheckEncoded dep (at_message t) = Accept) ∧
    CheckForGlobalRestriction (at_strName t) = false ∧ (length (print 0 f) ≤ 80)%nat ∧
    Forall (λ x, qualifier_ok x ∧ CheckIfAssetExists (str "#" ++ x) = true) (names f) ∧
    holds (λ x, CheckForAddressQualifier (str "#" ++ x) address) f = true.
Proof.
  intros HT Hd Hv Hf E Ha. unfold ContextualCheckTransferAsset, asset_name_valid, asset_type_of. rewrite (proj2 (IsAssetNameValid_spec _ _) HT), Hd.
  cbn [fst snd from_option negb reject_if deref if_cache bool_decide]. rewrite !bool_decide_eq_false_2, !bool_decide_eq_true_2 by done. cbn [andb orb negb reject_if].
  unfold ContextualCheckAgainstVerifyString. rewrite Hv.
  assert (Hw : ∀ v, without_error v = Accept ↔ v = Accept) by (by intros []). verdicts. rewrite Hw, (ContextualCheckVerifierString_formula f) by done.
  destruct (text_eqb (at_message t) []); cbn [negb]; intuition (done || lia).
Qed.

(** To an address that is tagged [KYC] and not [BANNED]. *)
Lemma restricted_transfers_witness :
  ContextualCheckTransferAsset (mkDeployments true true true true true) ROOT (Some example_view) (mkCAssetTransfer (str "$MUSIC") 7 [] 0) (str "addr") = Accept.
Proof.
  apply (restricted_transfers _ _ example_view _ _ (FAnd (FVar (str "KYC")) (FNot (FVar (str "BANNED")))) (str "KYC & !BANNED")).
  - apply IsAssetNameValid_spec. vm_compute. reflexivity.
  - reflexivity.
  - reflexivity.
  - unfold plain. repeat constructor; discriminate.
  - vm_compute. reflexivity.
  - discriminate.
  - cbn [at_nAmount at_nExpireTime at_message at_strName]. split; [lia|]. split; [lia|]. split; [reflexivity|]. split; [reflexivity|].
    split; [vm_compute; lia|]. split; [repeat constructor; vm_compute; reflexivity|vm_compute; reflexivity].
Defined.
