(* ===== verification/ScriptTemplates.v ===== *)
(** What the scripts of wallets mean to the interpreter: who can spend an output paid
    to the hash of a public key, with an asset attached to it or not, and as a witness
    program. *)
From stdpp Require Import base list option.
From Stdlib Require Import ZArith Lia.
From S2P Require Import Prelude ArithUint256 Serialize Chain Transaction HashStream Sha256 Sha1 Ripemd160 Hash.
From S2P Require Import Script Interpreter ScriptLimits VerifyScript.
Open Scope Z_scope.

(** * The loop, instruction by instruction *)

Section Run.
Context (mem : bytes) (CheckLowS : bytes → bool).
Context (flags : Z) (checker : BaseSignatureChecker) (v : SigVersion).

Abbreviation loop := (EvalScript_loop mem CheckLowS flags checker v).
Abbreviation exec := (exec_instruction mem CheckLowS flags checker v).

(** The evaluation from [pc] on, with the fuel that is always enough. *)
Definition run (pc : bytes) (m : machine) : outcome machine := loop (length pc) pc m.

Lemma loop_fuel fuel pc m : (length pc ≤ fuel)%nat → loop fuel pc m = run pc m.
Proof.
  unfold run. assert (∀ k fuel pc m, (length pc ≤ k)%nat → (k ≤ fuel)%nat → loop fuel pc m = loop k pc m) as H.
  { induction k as [|k IH]; intros [|fuel'] [|x pc'] m' Hk Hf; cbn [EvalScript_loop]; try done; cbn [length] in Hk; try lia.
    destruct (GetOp (x :: pc')) as [[[[] pc1] op] d] eqn:E; cbn [negb]; [|done]. pose proof (GetOp_length _ _ _ _ E) as Hl.
    cbn [length] in Hl. destruct (exec op d pc1 m'); cbn [obind]; [|done..]. apply IH; lia. }
  intros Hf. by apply H.
Qed.

Lemma run_nil m : run [] m = Ok m.
Proof. done. Qed.

Lemma run_step pc pc' op d m : GetOp pc = (true, pc', op, d) → run pc m = let! m := exec op d pc' m in run pc' m.
Proof.
  intros E. pose proof (GetOp_length _ _ _ _ E) as Hl. unfold run. destruct pc as [|x pc]; [done|].
  cbn [length EvalScript_loop]. rewrite E. cbn [negb]. destruct (exec op d pc' m); cbn [obind]; [|done..].
  cbn [length] in Hl. apply loop_fuel. lia.
Qed.

Lemma EvalScript_run s script : size script ≤ MAX_SCRIPT_SIZE →
  EvalScript mem CheckLowS flags checker v s script =
  let! m := catch (run script (mkMachine s [] [] 0 script)) in
  match vfExec m with [] => Ok (stack m) | _ => Err SCRIPT_ERR_UNBALANCED_CONDITIONAL end.
Proof. intros H. unfold EvalScript. by rewrite (proj2 (Z.ltb_ge _ _)) by lia. Qed.

(** A push, of data that no shorter opcode could have pushed. *)
Lemma push_op_minimal d : 2 ≤ size d ≤ MAX_SCRIPT_ELEMENT_SIZE → CheckMinimalPush d (push_op d) = true.
Proof.
  intros Hd. unfold CheckMinimalPush, push_op. rewrite (proj2 (Z.eqb_neq (size d) 0)), (proj2 (Z.eqb_neq (size d) 1)) by lia.
  cbn [andb]. destruct (Z.ltb_spec (size d) OP_PUSHDATA1), (Z.leb_spec (size d) 75); try lia.
  destruct (Z.leb_spec (size d) 255); [done|]. by destruct (Z.leb_spec (size d) 65535).
Qed.

Lemma exec_push d pc m : CheckMinimalPush d (push_op d) = true → size d ≤ MAX_SCRIPT_ELEMENT_SIZE → vfExec m = [] →
  size (stack m) + size (altstack m) < MAX_STACK_SIZE → exec (push_op d) d pc m = Ok (with_stack m (d :: stack m)).
Proof.
  intros Hmin Hd Hv Hs. unfold exec_instruction. rewrite Hv. cbn [forallb andb].
  assert (Hop : 0 ≤ push_op d ≤ OP_PUSHDATA4).
  { unfold push_op. pose proof (size_nonneg d). repeat case_match; lia. }
  rewrite (proj2 (Z.ltb_ge MAX_SCRIPT_ELEMENT_SIZE _)), (proj2 (Z.ltb_ge OP_16 _)) by lia. cbn [andb].
  replace (is_disabled (push_op d)) with false.
  2:{ symmetry. unfold is_disabled, one_of. cbn [existsb]. rewrite !(proj2 (Z.eqb_neq (push_op d) _)) by lia. done. }
  rewrite (proj2 (Z.leb_le 0 _)), (proj2 (Z.leb_le _ OP_PUSHDATA4)), Hmin by lia. cbn [andb negb].
  rewrite andb_false_r. cbn [obind]. unfold with_stack at 1. cbn [stack altstack].
  rewrite (proj2 (Z.ltb_ge _ _)); [done|]. unfold with_stack. cbn [stack altstack]. unfold size in *. cbn [length]. lia.
Qed.

Lemma run_push d rest m : CheckMinimalPush d (push_op d) = true → size d ≤ MAX_SCRIPT_ELEMENT_SIZE →
  size d + size rest < 2 ^ 32 → vfExec m = [] →
  size (stack m) + size (altstack m) < MAX_STACK_SIZE → run (push_data d ++ rest) m = run rest (with_stack m (d :: stack m)).
Proof. intros Hm Hd Hr Hv Hs. rewrite (run_step _ _ _ _ _ (GetOp_push_data d rest Hr)), exec_push by done. done. Qed.

(** ** Pay to the hash of a public key *)

(** [OP_DUP OP_HASH160 <h> OP_EQUALVERIFY OP_CHECKSIG] *)
Definition p2pkh (h : bytes) : CScript := [OP_DUP; OP_HASH160] ++ push_data h ++ [OP_EQUALVERIFY; OP_CHECKSIG].

Lemma push_20 (h : bytes) : length h = 20%nat → push_data h = 20 :: h.
Proof. intros Hh. unfold push_data, size. by rewrite Hh. Qed.

Lemma p2pkh_bytes h : length h = 20%nat → p2pkh h = OP_DUP :: OP_HASH160 :: 20 :: h ++ [OP_EQUALVERIFY; OP_CHECKSIG].
Proof. intros Hh. unfold p2pkh. by rewrite push_20. Qed.

(** Nothing, or [OP_cmusicai_ASSET] and the data of an asset. *)
Definition asset_tail (tail : bytes) : Prop := tail = [] ∨ ∃ data, tail = OP_cmusicai_ASSET :: data ∧ size data ≤ MAX_SCRIPT_ELEMENT_SIZE.

Lemma exec_op op d pc m : OP_16 < op → is_disabled op = false → size d ≤ MAX_SCRIPT_ELEMENT_SIZE → vfExec m = [] →
  nOpCount m < MAX_OPS_PER_SCRIPT →
  exec op d pc m =
  let! m := exec_opcode mem CheckLowS flags checker v true op pc (with_nOpCount m (nOpCount m + 1)) in
  if MAX_STACK_SIZE <? size (stack m) + size (altstack m) then Err SCRIPT_ERR_STACK_SIZE else Ok m.
Proof.
  intros Ho Hdis Hd Hv Hn. unfold exec_instruction. rewrite Hv. cbn [forallb].
  rewrite (proj2 (Z.ltb_ge MAX_SCRIPT_ELEMENT_SIZE _)), (proj2 (Z.ltb_lt OP_16 _)), Hdis by lia. cbn [andb orb].
  unfold with_nOpCount at 1. cbn [nOpCount]. rewrite (proj2 (Z.ltb_ge MAX_OPS_PER_SCRIPT _)) by lia.
  destruct ((0 <=? op) && (op <=? OP_PUSHDATA4)) eqn:E; [|done]. lia.
Qed.

(** The turn of the loop for an opcode without data. *)
Lemma run_op op pc m : OP_16 < op → op ≠ OP_cmusicai_ASSET → is_disabled op = false → vfExec m = [] →
  nOpCount m < MAX_OPS_PER_SCRIPT →
  run (op :: pc) m =
  let! m := exec_opcode mem CheckLowS flags checker v true op pc (with_nOpCount m (nOpCount m + 1)) in
  let! m := if MAX_STACK_SIZE <? size (stack m) + size (altstack m) then Err SCRIPT_ERR_STACK_SIZE else Ok m in run pc m.
Proof.
  intros Ho Ha Hdis Hv Hn. rewrite (run_step _ pc op []) by (apply GetOp_opcode; lia).
  rewrite exec_op by done. by destruct (exec_opcode _ _ _ _ _ _ _ _ _).
Qed.

Lemma run_op_ok op pc m m' : OP_16 < op → op ≠ OP_cmusicai_ASSET → is_disabled op = false → vfExec m = [] →
  nOpCount m < MAX_OPS_PER_SCRIPT →
  exec_opcode mem CheckLowS flags checker v true op pc (with_nOpCount m (nOpCount m + 1)) = Ok m' →
  size (stack m') + size (altstack m') ≤ MAX_STACK_SIZE → run (op :: pc) m = run pc m'.
Proof. intros Ho Ha Hdis Hv Hn E Hs. rewrite run_op, E by done. cbn [obind]. by rewrite (proj2 (Z.ltb_ge _ _)) by lia. Qed.

Lemma run_tail tail m : asset_tail tail → vfExec m = [] → nOpCount m < MAX_OPS_PER_SCRIPT →
  size (stack m) + size (altstack m) ≤ MAX_STACK_SIZE → ∃ n, run tail m = Ok (with_nOpCount m n).
Proof.
  intros [-> | (data & -> & Hd)] Hv Hn Hs; [exists (nOpCount m); rewrite run_nil; by destruct m|].
  exists (nOpCount m + 1).
  rewrite (run_step _ [] OP_cmusicai_ASSET data).
  - assert (E : ∀ m, exec_opcode mem CheckLowS flags checker v true OP_cmusicai_ASSET [] m = Ok m) by reflexivity.
    rewrite exec_op by done. rewrite E. cbn [obind]. change (stack (with_nOpCount m _)) with (stack m). change (altstack (with_nOpCount m _)) with (altstack m).
    by rewrite (proj2 (Z.ltb_ge _ _)) by lia.
  - unfold GetOp. cbn [Z.leb Z.eqb Z.compare Pos.compare Pos.compare_cont Pos.eqb].
    pose proof (size_nonneg data). rewrite u32_small by (unfold is_u32, size in *; lia). unfold size. rewrite Nat2Z.id.
    by rewrite firstn_all, skipn_all.
Qed.

(** The stack before and after [OP_CHECKSIG]. *)
Definition checksig (sig pk : valtype) (code : CScript) : outcome bool :=
  let! _ := CheckSignatureEncoding CheckLowS sig flags in
  let! _ := CheckPubKeyEncoding pk flags v in
  let fSuccess := CheckSig checker sig pk (drop_signature v code sig) v in
  if negb fSuccess && has flags SCRIPT_VERIFY_NULLFAIL && negb (size sig =? 0) then Err SCRIPT_ERR_SIG_NULLFAIL else Ok fSuccess.

Lemma op_checksig_eq sig pk n code : op_checksig CheckLowS flags checker v OP_CHECKSIG (mkMachine [pk; sig] [] [] n code) =
  let! b := checksig sig pk code in Ok (mkMachine [of_bool b] [] [] n code).
Proof.
  unfold op_checksig, checksig. cbn -[CheckSignatureEncoding CheckPubKeyEncoding has drop_signature].
  change (size [pk; sig] <? 2) with false. change (stacktop [pk; sig] 2) with (Ok sig). change (stacktop [pk; sig] 1) with (Ok pk).
  cbn [obind]. destruct (CheckSignatureEncoding _ _ _); cbn [obind]; [|done..]. destruct (CheckPubKeyEncoding _ _ _); cbn [obind]; [|done..].
  by destruct (_ && _).
Qed.

Context (Hmem : length mem = 64%nat).
#[local] Opaque sha256 ripemd160.

Lemma run_p2pkh pk sig h tail code : length h = 20%nat → size tail < 1000 →
  run (p2pkh h ++ tail) (mkMachine [pk; sig] [] [] 0 code) =
  if bool_decide (ripemd160 (sha256 pk) = h)
  then let! b := checksig sig pk code in run tail (mkMachine [of_bool b] [] [] 4 code)
  else Err SCRIPT_ERR_EQUALVERIFY.
Proof using Hmem.
  intros Hh Ht. unfold p2pkh. rewrite <- !app_assoc. cbn [app].
  rewrite (run_op_ok OP_DUP _ _ (mkMachine [pk; pk; sig] [] [] 1 code)) by done.
  rewrite (run_op_ok OP_HASH160 _ _ (mkMachine [ripemd160 (sha256 pk); pk; sig] [] [] 2 code));
    [|done..| |done].
  2:{ change (op_hash mem OP_HASH160 (mkMachine [pk; pk; sig] [] [] 2 code) =
              Ok (mkMachine [ripemd160 (sha256 pk); pk; sig] [] [] 2 code)).
      unfold op_hash. change (size _ <? 1) with false. change (stacktop _ 1) with (Ok pk). cbn -[hash_op]. rewrite (hash_op_std mem Hmem). reflexivity. }
  rewrite run_push by (done || (try apply push_op_minimal); unfold size in *; rewrite ?Hh; cbn [length]; lia).
  unfold with_stack. cbn [stack altstack vfExec nOpCount pbegincodehash].
  assert (Eq : op_equal OP_EQUALVERIFY (mkMachine [h; ripemd160 (sha256 pk); pk; sig] [] [] 3 code) =
    if bool_decide (ripemd160 (sha256 pk) = h) then Ok (mkMachine [pk; sig] [] [] 3 code) else Err SCRIPT_ERR_EQUALVERIFY).
  { unfold op_equal. change (size _ <? 2) with false. change (stacktop _ 2) with (Ok (ripemd160 (sha256 pk))).
    change (stacktop _ 1) with (Ok h). cbn [obind popstack stack]. by destruct (bool_decide _). }
  destruct (bool_decide _).
  - rewrite (run_op_ok OP_EQUALVERIFY _ _ (mkMachine [pk; sig] [] [] 3 code)); [|done..|exact Eq|done].
    rewrite run_op by done. change (exec_opcode _ _ _ _ _ _ OP_CHECKSIG tail ?m)
      with (op_checksig CheckLowS flags checker v OP_CHECKSIG (mkMachine [pk; sig] [] [] 4 code)).
    rewrite op_checksig_eq. by destruct (checksig sig pk code).
  - rewrite run_op by done. change (exec_opcode _ _ _ _ _ _ OP_EQUALVERIFY ?pc ?m)
      with (op_equal OP_EQUALVERIFY (mkMachine [h; ripemd160 (sha256 pk); pk; sig] [] [] 3 code)).
    by rewrite Eq.
Qed.

(** The evaluation of the script on a signature and a key: an asset makes no difference. *)
Lemma eval_p2pkh pk sig h tail : length h = 20%nat → asset_tail tail →
  EvalScript mem CheckLowS flags checker v [pk; sig] (p2pkh h ++ tail) =
  if bool_decide (ripemd160 (sha256 pk) = h)
  then let! b := catch (checksig sig pk (p2pkh h ++ tail)) in Ok [of_bool b]
  else Err SCRIPT_ERR_EQUALVERIFY.
Proof using Hmem.
  intros Hh Ht. assert (size tail < 1000) as Hst.
  { destruct Ht as [-> | (data & -> & Hd)]; [done|]. unfold size in *. cbn [length]. lia. }
  assert (size (p2pkh h) = 25) as Hs.
  { rewrite p2pkh_bytes by done. unfold size. cbn [length]. rewrite length_app, Hh. done. }
  rewrite EvalScript_run by (rewrite size_app; lia). rewrite run_p2pkh by done.
  destruct (bool_decide _); [|done]. destruct (checksig sig pk _) as [b| | |]; cbn [obind catch]; [|done..].
  destruct (run_tail tail (mkMachine [of_bool b] [] [] 4 (p2pkh h ++ tail))) as [n ->]; done.
Qed.
End Run.

(** * Who can spend *)

Lemma size_push (b : bytes) : size b ≤ MAX_SCRIPT_ELEMENT_SIZE → size (push_data b) ≤ MAX_SCRIPT_ELEMENT_SIZE + 3.
Proof.
  intros Hb. unfold push_data. rewrite size_app. repeat case_match; unfold size in *; cbn [length]; rewrite ?length_le_bytes; lia.
Qed.

Lemma push_op_16 d : size d ≤ MAX_SCRIPT_ELEMENT_SIZE → (push_op d <=? OP_16) = true.
Proof. intros Hd. unfold push_op. apply Z.leb_le. repeat case_match; lia. Qed.

#[local] Opaque sha256 ripemd160.

Section Spend.
Context (mem : bytes) (CheckLowS : bytes → bool) (Hmem : length mem = 64%nat).
Context (flags : Z) (checker : BaseSignatureChecker) (Hflags : valid_flags flags).
Context (sig pk h : bytes) (Hsig : 2 ≤ size sig ≤ MAX_SCRIPT_ELEMENT_SIZE) (Hpk : 2 ≤ size pk ≤ MAX_SCRIPT_ELEMENT_SIZE).
Context (Hh : length h = 20%nat).

(** The key has the hash [h], the encodings are those that the flags ask for and the signature is the key's. *)
Definition signed_by (v : SigVersion) (code : CScript) : Prop :=
  ripemd160 (sha256 pk) = h ∧ CheckSignatureEncoding CheckLowS sig flags = Ok tt ∧ CheckPubKeyEncoding pk flags v = Ok tt ∧
  CheckSig checker sig pk (drop_signature v code sig) v = true.

Lemma checksig_true v code : catch (checksig CheckLowS flags checker v sig pk code) = Ok true ↔
  CheckSignatureEncoding CheckLowS sig flags = Ok tt ∧ CheckPubKeyEncoding pk flags v = Ok tt ∧
  CheckSig checker sig pk (drop_signature v code sig) v = true.
Proof.
  unfold checksig. destruct (CheckSignatureEncoding _ _ _) as [[]| | |]; cbn [obind catch]; [|intuition discriminate..].
  destruct (CheckPubKeyEncoding _ _ _) as [[]| | |]; cbn [obind catch]; [|intuition discriminate..].
  destruct (CheckSig _ _ _ _ _); cbn [negb andb]; [done|]. destruct (_ && _); cbn [catch]; intuition discriminate.
Qed.

Lemma verify_end_one s had w : size s = 1 → had = true ∨ w = [] → verify_end flags w s had = Ok tt.
Proof using Hflags.
  intros Hs Hw. destruct Hflags as [H1 H2]. unfold verify_end. rewrite Hs.
  replace (negb had && negb (witness_IsNull w)) with false by (destruct Hw as [-> | ->]; [done|by rewrite andb_false_r]).
  destruct (has flags SCRIPT_VERIFY_CLEANSTACK) eqn:Ec; [destruct (H2 eq_refl) as [-> ->]; done|].
  cbn [obind]. destruct (has flags SCRIPT_VERIFY_WITNESS); [rewrite (H1 eq_refl)|]; done.
Qed.

Lemma eval_signature : EvalScript mem CheckLowS flags checker SIGVERSION_BASE [] (push_data sig ++ push_data pk) = Ok [pk; sig].
Proof using Hsig Hpk.
  clear Hmem Hflags Hh. pose proof (size_push sig ltac:(lia)). pose proof (size_push pk ltac:(lia)).
  rewrite EvalScript_run by (rewrite size_app; lia).
  rewrite run_push; [|by apply push_op_minimal|lia|lia|done|done]. rewrite <- (app_nil_r (push_data pk)) at 1.
  rewrite run_push; [|by apply push_op_minimal|lia|change (size []) with 0; lia|done|done]. done.
Qed.

Lemma pushonly_signature : IsPushOnly (push_data sig ++ push_data pk) = true.
Proof using Hsig Hpk.
  clear Hmem Hflags Hh. pose proof (size_push sig ltac:(lia)). pose proof (size_push pk ltac:(lia)). unfold IsPushOnly.
  rewrite (ops_cons _ (push_data pk) (push_op sig) sig) by (apply GetOp_push_data; lia).
  rewrite (ops_cons _ [] (push_op pk) pk)
    by (rewrite <- (app_nil_r (push_data pk)); apply GetOp_push_data; change (size []) with 0; lia).
  rewrite ops_nil. cbn [forallb]. by rewrite !push_op_16 by lia.
Qed.

(** Neither a script hash nor a witness program. *)
Lemma p2pkh_plain tail : IsPayToScriptHash (p2pkh h ++ tail) = false ∧ IsWitnessProgram (p2pkh h ++ tail) = None.
Proof using Hh.
  rewrite p2pkh_bytes by exact Hh. cbn [app]. unfold IsPayToScriptHash, IsWitnessProgram. cbn [byte_at nth].
  rewrite andb_false_r. cbn [andb]. split; [done|]. by destruct (_ || _).
Qed.

Lemma verify_p2pkh tail : asset_tail tail →
  VerifyScript mem CheckLowS flags checker (push_data sig ++ push_data pk) (p2pkh h ++ tail) None = Ok tt ↔
  signed_by SIGVERSION_BASE (p2pkh h ++ tail).
Proof using Hmem Hflags Hsig Hpk Hh.
  intros Ht. unfold VerifyScript, signed_by. rewrite pushonly_signature, eval_signature, andb_false_r. cbn [obind default].
  rewrite eval_p2pkh by done. rewrite <- checksig_true. destruct (p2pkh_plain tail) as [-> Ew].
  unfold verify_bare_witness. rewrite Ew, andb_false_r. case_bool_decide as E; [|split; [discriminate|by intros [? _]]].
  destruct (catch (checksig _ _ _ _ _ _ _)) as [[]| | |]; cbn [obind]; [|intuition discriminate..].
  cbn -[verify_end has]. destruct (has flags SCRIPT_VERIFY_WITNESS); cbn [obind]; rewrite verify_end_one by auto; tauto.
Qed.

(** The witness program: version 0 and the hash. *)
Lemma eval_program :
  EvalScript mem CheckLowS flags checker SIGVERSION_BASE [] (OP_0 :: push_data h) = Ok [h; []].
Proof using Hh.
  clear Hmem. assert (Hs : size h = 20) by (unfold size; by rewrite Hh). pose proof (size_push h ltac:(lia)).
  rewrite EvalScript_run by (change (OP_0 :: push_data h) with ([OP_0] ++ push_data h); rewrite size_app; change (size [OP_0]) with 1; lia).
  change (OP_0 :: push_data h) with (push_data [] ++ push_data h).
  rewrite run_push; [|done|done|change (size []) with 0; lia|done|done]. rewrite <- (app_nil_r (push_data h)) at 1.
  rewrite run_push; [|apply push_op_minimal; lia|lia|change (size []) with 0; lia|done|done]. done.
Qed.

Lemma verify_p2wpkh : has flags SCRIPT_VERIFY_WITNESS = true → CastToBool h = true →
  VerifyScript mem CheckLowS flags checker [] (OP_0 :: push_data h) (Some [sig; pk]) = Ok tt ↔
  signed_by SIGVERSION_WITNESS_V0 (p2pkh h).
Proof using Hmem Hflags Hsig Hpk Hh.
  intros Hw Hb. unfold VerifyScript, signed_by. change (IsPushOnly []) with true.
  rewrite andb_false_r. change (EvalScript mem CheckLowS flags checker SIGVERSION_BASE [] []) with (Ok ([] : list valtype)).
  cbn [obind]. rewrite eval_program. cbn [obind default id top_true]. change (size [h; []] =? 0) with false. rewrite Hb. cbn [negb]. cbv iota.
  assert (Hp : IsWitnessProgram (OP_0 :: push_data h) = Some (0, h)).
  { rewrite push_20 by exact Hh. unfold IsWitnessProgram, size. cbn [length]. by rewrite Hh. }
  assert (Hs : IsPayToScriptHash (OP_0 :: push_data h) = false).
  { unfold IsPayToScriptHash. cbn [byte_at nth]. by rewrite andb_false_r. }
  rewrite Hs, andb_false_r. unfold verify_bare_witness. rewrite Hw, Hp. change (size [] =? 0) with true. cbn [negb].
  unfold VerifyWitnessProgram. change (0 =? 0) with true. cbv iota.
  replace (size h =? 32) with false by (unfold size; by rewrite Hh). replace (size h =? 20) with true by (unfold size; by rewrite Hh).
  change (size [sig; pk] =? 2) with true. cbn [negb rev app]. unfold run_witness. cbn [existsb].
  rewrite !(proj2 (Z.ltb_ge MAX_SCRIPT_ELEMENT_SIZE _)) by lia. cbn [orb].
  pose proof (eval_p2pkh mem CheckLowS flags checker SIGVERSION_WITNESS_V0 Hmem pk sig h [] Hh (or_introl eq_refl)) as Ee.
  rewrite app_nil_r in Ee. unfold p2pkh in Ee at 1. cbn [app] in Ee. rewrite Ee. rewrite <- checksig_true.
  case_bool_decide as E; [|split; [discriminate|by intros [? _]]].
  destruct (catch (checksig _ _ _ _ _ _ _)) as [[]| | |]; cbn [obind]; [|split; [discriminate|by intros [_ ?]]..].
  change (size [of_bool true] =? 1) with true. cbn -[verify_end has]. rewrite verify_end_one by auto. tauto.
Qed.
End Spend.

(** C17: an output paid to the hash of a public key can be spent exactly by the holder of a key with that
    hash: whatever the flags and the signature checker, [VerifyScript] accepts a signature and a key if and only if
    the key hashes to it, both are encoded as the flags ask and the checker accepts the signature, over a script
    code from which the signature has been removed. The same holds when an asset is attached to the output,
    and for the version 0 witness program of the hash with the signature and the key as its witness. *)
Theorem pay_to_pubkey_hash mem CheckLowS flags checker sig pk h tail : length mem = 64%nat → valid_flags flags →
  2 ≤ size sig ≤ MAX_SCRIPT_ELEMENT_SIZE → 2 ≤ size pk ≤ MAX_SCRIPT_ELEMENT_SIZE → length h = 20%nat → asset_tail tail →
  (VerifyScript mem CheckLowS flags checker (push_data sig ++ push_data pk) (p2pkh h ++ tail) None = Ok tt ↔
   signed_by CheckLowS flags checker sig pk h SIGVERSION_BASE (p2pkh h ++ tail)) ∧
  (has flags SCRIPT_VERIFY_WITNESS = true → CastToBool h = true →
   VerifyScript mem CheckLowS flags checker [] (OP_0 :: push_data h) (Some [sig; pk]) = Ok tt ↔
   signed_by CheckLowS flags checker sig pk h SIGVERSION_WITNESS_V0 (p2pkh h)).
Proof.
  intros Hm Hf Hs Hp Hh Ht. split; [by apply verify_p2pkh|]. intros Hw Hb. by apply verify_p2wpkh.
Qed.

(** A checker that accepts one signature. *)
Definition one_signature : BaseSignatureChecker := {|
  CheckSig s k c v := bool_decide (s = [3; 4]); CheckLockTime _ := false; CheckSequence _ := false |}.

Lemma pay_to_pubkey_hash_witness :
  VerifyScript (repeat 0 64) (λ _, true) 0 one_signature (push_data [3; 4] ++ push_data [5; 6])
    (p2pkh (ripemd160 (sha256 [5; 6])) ++ [OP_cmusicai_ASSET; 9]) None = Ok tt.
Proof.
  destruct (pay_to_pubkey_hash (repeat 0 64) (λ _, true) 0 one_signature [3; 4] [5; 6] (ripemd160 (sha256 [5; 6]))
    [OP_cmusicai_ASSET; 9]) as [H _].
  - reflexivity.
  - split; discriminate.
  - split; vm_compute; discriminate.
  - split; vm_compute; discriminate.
  - apply ripemd160_bytes.
  - right. exists [9]. split; [reflexivity|vm_compute; discriminate].
  - apply H. split; [reflexivity|]. split; [reflexivity|]. split; reflexivity.
Defined.
