(* ===== verification/Coins.v ===== *)
(** The set of unspent outputs (coins.h, coins.cpp) and its database (txdb.cpp): the
    interface of a view, the cache that is a view over another view, and the view that is
    stored in batches. *)
From stdpp Require Import base list option gmap fin_maps.
From Stdlib Require Import ZArith Lia.
From S2P Require Import Prelude ArithUint256 Serialize Chain Transaction Script.
Open Scope Z_scope.

(** * Coins *)

Record Coin := mkCoin { out : CTxOut; fCoinBase : bool; coin_nHeight : Z }.

(** The height is a field of 31 bits. *)
Definition Coin_init (outIn : CTxOut) (nHeightIn : Z) (fCoinBaseIn : bool) : Coin :=
  mkCoin outIn fCoinBaseIn (nHeightIn mod 2 ^ 31).
Definition coinEmpty : Coin := mkCoin CTxOut_SetNull false 0.
Definition IsSpent (coin : Coin) : bool := CTxOut_IsNull (out coin).

(** The bits of [flags]. *)
Record CCoinsCacheEntry := mkEntry { coin : Coin; DIRTY : bool; FRESH : bool }.

#[export] Instance COutPoint_countable : Countable COutPoint.
Proof.
  refine (inj_countable' (λ o, (out_hash o, out_n o)) (λ p, mkCOutPoint p.1 p.2) _). by intros [].
Defined.

Abbreviation CCoinsMap := (gmap COutPoint CCoinsCacheEntry).

(** The methods of [CCoinsView]. A [const] method may fill caches, so all return the view. [GetCoin] gives the coin
    when it returns true; [BatchWrite] takes the entries in the order of the iteration, and [None] is an exception
    or a failed assertion. *)
Class CCoinsView (S : Type) := {
  GetCoin : COutPoint → S → option Coin * S;
  GetBestBlock : S → uint256 * S;
  BatchWrite : list (COutPoint * CCoinsCacheEntry) → uint256 → S → option (bool * S) }.

(** * The cache *)

Record CCoinsViewCache (S : Type) := mkCache { base : S; cacheCoins : CCoinsMap; hashBlock : uint256 }.
Arguments mkCache {S} base cacheCoins hashBlock.
Arguments base {S} c : rename.
Arguments cacheCoins {S} c : rename.
Arguments hashBlock {S} c : rename.

Section Cache.
Context {S : Type} `{CCoinsView S}.

Definition with_coins (c : CCoinsViewCache S) (m : CCoinsMap) : CCoinsViewCache S := mkCache (base c) m (hashBlock c).

(** The entry that the returned iterator points to. *)
Definition FetchCoin (outpoint : COutPoint) (c : CCoinsViewCache S) : option CCoinsCacheEntry * CCoinsViewCache S :=
  match cacheCoins c !! outpoint with
  | Some e => (Some e, c)
  | None =>
      match GetCoin outpoint (base c) with
      | (None, b) => (None, mkCache b (cacheCoins c) (hashBlock c))
      | (Some tmp, b) =>
          let e := mkEntry tmp false (IsSpent tmp) in
          (Some e, mkCache b (<[outpoint := e]> (cacheCoins c)) (hashBlock c))
      end
  end.

Definition cache_GetCoin (outpoint : COutPoint) (c : CCoinsViewCache S) : option Coin * CCoinsViewCache S :=
  match FetchCoin outpoint c with
  | (Some e, c) => (if IsSpent (coin e) then None else Some (coin e), c)
  | (None, c) => (None, c)
  end.

Definition HaveCoin (outpoint : COutPoint) (c : CCoinsViewCache S) : bool * CCoinsViewCache S :=
  match FetchCoin outpoint c with
  | (Some e, c) => (negb (IsSpent (coin e)), c)
  | (None, c) => (false, c)
  end.

Definition AccessCoin (outpoint : COutPoint) (c : CCoinsViewCache S) : Coin * CCoinsViewCache S :=
  match FetchCoin outpoint c with
  | (Some e, c) => (coin e, c)
  | (None, c) => (coinEmpty, c)
  end.

Definition HaveCoinInCache (outpoint : COutPoint) (c : CCoinsViewCache S) : bool :=
  match cacheCoins c !! outpoint with Some e => negb (IsSpent (coin e)) | None => false end.

(** [None] is the failed assertion or the exception. *)
Definition AddCoin (IsUnspendable : CScript → bool) (outpoint : COutPoint) (new : Coin) (possible_overwrite : bool)
    (c : CCoinsViewCache S) : option (CCoinsViewCache S) :=
  if IsSpent new then None
  else if IsUnspendable (scriptPubKey (out new)) then Some c
  else
    let e := default (mkEntry coinEmpty false false) (cacheCoins c !! outpoint) in
    if negb possible_overwrite && negb (IsSpent (coin e)) then None
    else
      let fresh := if negb possible_overwrite then negb (DIRTY e) else false in
      Some (with_coins c (<[outpoint := mkEntry new true (FRESH e || fresh)]> (cacheCoins c))).

(** The returned value and the coin moved out; [TrySpendCoin] is the cache of assets, true when there is none. *)
Definition SpendCoin (TrySpendCoin : COutPoint → CTxOut → bool) (outpoint : COutPoint) (c : CCoinsViewCache S)
    : bool * Coin * CCoinsViewCache S :=
  match FetchCoin outpoint c with
  | (None, c) => (false, coinEmpty, c)
  | (Some e, c) =>
      let c := with_coins c (if FRESH e then delete outpoint (cacheCoins c)
                             else <[outpoint := mkEntry coinEmpty true (FRESH e)]> (cacheCoins c)) in
      (TrySpendCoin outpoint (out (coin e)), coin e, c)
  end.

Definition cache_GetBestBlock (c : CCoinsViewCache S) : uint256 * CCoinsViewCache S :=
  if uint256_IsNull (hashBlock c) then
    let '(h, b) := GetBestBlock (base c) in (h, mkCache b (cacheCoins c) h)
  else (hashBlock c, c).
Definition SetBestBlock (h : uint256) (c : CCoinsViewCache S) : CCoinsViewCache S := mkCache (base c) (cacheCoins c) h.

(** The turn of the loop of [BatchWrite] for the entry [e] of the child. *)
Definition write_entry (outpoint : COutPoint) (e : CCoinsCacheEntry) (m : CCoinsMap) : option CCoinsMap :=
  if negb (DIRTY e) then Some m
  else
    match m !! outpoint with
    | None =>
        if FRESH e && IsSpent (coin e) then Some m
        else Some (<[outpoint := mkEntry (coin e) true (FRESH e)]> m)
    | Some us =>
        if FRESH e && negb (IsSpent (coin us)) then None
        else if FRESH us && IsSpent (coin e) then Some (delete outpoint m)
        else Some (<[outpoint := mkEntry (coin e) true (FRESH us)]> m)
    end.

Fixpoint write_entries (l : list (COutPoint * CCoinsCacheEntry)) (m : CCoinsMap) : option CCoinsMap :=
  match l with
  | [] => Some m
  | (o, e) :: l' => m' ← write_entry o e m; write_entries l' m'
  end.

Definition cache_BatchWrite (l : list (COutPoint * CCoinsCacheEntry)) (h : uint256) (c : CCoinsViewCache S)
    : option (bool * CCoinsViewCache S) :=
  m ← write_entries l (cacheCoins c); Some (true, mkCache (base c) m h).

#[export] Instance cache_view : CCoinsView (CCoinsViewCache S) := {
  GetCoin := cache_GetCoin; GetBestBlock := cache_GetBestBlock; BatchWrite := cache_BatchWrite }.

(** [order] is the iteration over the map. *)
Definition Flush (order : CCoinsMap → list (COutPoint * CCoinsCacheEntry)) (c : CCoinsViewCache S)
    : option (bool * CCoinsViewCache S) :=
  '(fOk, b) ← BatchWrite (order (cacheCoins c)) (hashBlock c) (base c);
  Some (fOk, mkCache b ∅ (hashBlock c)).

Definition Uncache (outpoint : COutPoint) (c : CCoinsViewCache S) : CCoinsViewCache S :=
  match cacheCoins c !! outpoint with
  | Some e => if negb (DIRTY e) && negb (FRESH e) then with_coins c (delete outpoint (cacheCoins c)) else c
  | None => c
  end.

Definition GetCacheSize (c : CCoinsViewCache S) : Z := Z.of_nat (base.size (cacheCoins c)).

(** [nResult += AccessCoin(...).out.nValue]; [None] is an overflow. *)
Fixpoint GetValueIn_loop (l : list CTxIn) (nResult : Z) (c : CCoinsViewCache S) : option Z * CCoinsViewCache S :=
  match l with
  | [] => (Some nResult, c)
  | i :: l' =>
      let '(coin, c) := AccessCoin (prevout i) c in
      let r := nResult + nValue (out coin) in
      if (- 2 ^ 63 <=? r) && (r <? 2 ^ 63) then GetValueIn_loop l' r c else (None, c)
  end.
Definition GetValueIn (tx : CTransaction) (c : CCoinsViewCache S) : option Z * CCoinsViewCache S :=
  if IsCoinBase tx then (Some 0, c) else GetValueIn_loop (vin tx) 0 c.

Fixpoint HaveInputs_loop (l : list CTxIn) (c : CCoinsViewCache S) : bool * CCoinsViewCache S :=
  match l with
  | [] => (true, c)
  | i :: l' => let '(b, c) := HaveCoin (prevout i) c in if negb b then (false, c) else HaveInputs_loop l' c
  end.
Definition HaveInputs (tx : CTransaction) (c : CCoinsViewCache S) : bool * CCoinsViewCache S :=
  if IsCoinBase tx then (true, c) else HaveInputs_loop (vin tx) c.

(** The coins of [AddCoins]; the cache of assets is not given. *)
Fixpoint AddCoins_loop (IsUnspendable : CScript → bool) (txid : uint256) (nHeight : Z) (check fCoinbase : bool)
    (l : list CTxOut) (i : Z) (c : CCoinsViewCache S) : option (CCoinsViewCache S) :=
  match l with
  | [] => Some c
  | o :: l' =>
      let '(overwrite, c) := if check then HaveCoin (mkCOutPoint txid i) c else (fCoinbase, c) in
      c ← AddCoin IsUnspendable (mkCOutPoint txid i) (Coin_init o nHeight fCoinbase) overwrite c;
      AddCoins_loop IsUnspendable txid nHeight check fCoinbase l' (i + 1) c
  end.
Definition AddCoins (IsUnspendable : CScript → bool) (GetHash : CTransaction → uint256) (tx : CTransaction) (nHeight : Z)
    (check : bool) (c : CCoinsViewCache S) : option (CCoinsViewCache S) :=
  AddCoins_loop IsUnspendable (GetHash tx) nHeight check (IsCoinBase tx) (vout tx) 0 c.
End Cache.

(** * What a view promises *)

(** An entry as the state of its output. *)
Definition content (e : CCoinsCacheEntry) : option Coin := if IsSpent (coin e) then None else Some (coin e).

(** The outputs after the modified entries of a batch. *)
Definition overlay (l : list (COutPoint * CCoinsCacheEntry)) (f : COutPoint → option Coin) (o : COutPoint) : option Coin :=
  match list_to_map (M := CCoinsMap) l !! o with
  | Some e => if DIRTY e then content e else f o
  | None => f o
  end.

(** A batch whose entries marked fresh are not in the view. *)
Definition batch_ok (f : COutPoint → option Coin) (l : list (COutPoint * CCoinsCacheEntry)) : Prop :=
  NoDup l.*1 ∧ ∀ o e, (o, e) ∈ l → DIRTY e = true → FRESH e = true → f o = None.

(** The contract of [CCoinsView]: a view represents a set of unspent outputs at a block; reading does not change what
    it represents, and a batch changes the outputs of its modified entries and the block. *)
Class CoinsViewLaws (S : Type) `{CCoinsView S} := {
  view_ok : S → Prop;
  unspent : S → COutPoint → option Coin;
  best : S → uint256;
  unspent_not_spent s o coin : view_ok s → unspent s o = Some coin → IsSpent coin = false;
  GetCoin_law s o : view_ok s → ∃ s', GetCoin o s = (unspent s o, s') ∧ view_ok s' ∧
    (∀ o', unspent s' o' = unspent s o') ∧ best s' = best s;
  GetBestBlock_law s : view_ok s → ∃ s', GetBestBlock s = (best s, s') ∧ view_ok s' ∧
    (∀ o', unspent s' o' = unspent s o') ∧ best s' = best s;
  BatchWrite_law s l h : view_ok s → batch_ok (unspent s) l → uint256_IsNull h = false →
    ∃ s', BatchWrite l h s = Some (true, s') ∧ view_ok s' ∧ (∀ o, unspent s' o = overlay l (unspent s) o) ∧ best s' = h }.

(** ** The cache keeps the contract of its base *)

Section CacheLaws.
Context {S : Type} `{CoinsViewLaws S}.
Implicit Types c : CCoinsViewCache S.

(** The meaning of the flags: a fresh entry is not in the base, a clean one is what the base has. *)
Definition entry_ok (f : COutPoint → option Coin) (o : COutPoint) (e : CCoinsCacheEntry) : Prop :=
  (FRESH e = true → f o = None) ∧ (DIRTY e = false → content e = f o).
Definition cache_ok c : Prop := view_ok (base c) ∧ map_Forall (entry_ok (unspent (base c))) (cacheCoins c).
Definition cache_unspent c (o : COutPoint) : option Coin :=
  match cacheCoins c !! o with Some e => content e | None => unspent (base c) o end.
Definition cache_best c : uint256 := if uint256_IsNull (hashBlock c) then best (base c) else hashBlock c.

(** Two views that represent the same. *)
Definition same_view c c' : Prop := (∀ o, cache_unspent c' o = cache_unspent c o) ∧ cache_best c' = cache_best c.

Lemma entry_ok_ext f f' o e : (∀ o, f' o = f o) → entry_ok f o e → entry_ok f' o e.
Proof. intros E. unfold entry_ok. by rewrite E. Qed.

Lemma cache_base c b : cache_ok c → view_ok b → (∀ o, unspent b o = unspent (base c) o) → best b = best (base c) →
  cache_ok (mkCache b (cacheCoins c) (hashBlock c)) ∧ same_view c (mkCache b (cacheCoins c) (hashBlock c)).
Proof.
  intros [Hb Hm] Hb' Hu He. unfold cache_ok, same_view, cache_unspent, cache_best. cbn [base cacheCoins hashBlock]. split_and!.
  - done.
  - eapply map_Forall_impl; [exact Hm|]. intros o e. by apply entry_ok_ext.
  - intros o. destruct (_ !! _); [done|]. apply Hu.
  - by rewrite He.
Qed.

Lemma FetchCoin_spec o c : cache_ok c → ∃ r c', FetchCoin o c = (r, c') ∧ cache_ok c' ∧ same_view c c' ∧
  cacheCoins c' !! o = r ∧ cache_unspent c o = r ≫= content ∧ (r = None → unspent (base c') o = None).
Proof.
  intros Hc. unfold FetchCoin. destruct (cacheCoins c !! o) as [e|] eqn:E.
  { exists (Some e), c. split_and!; try done. cbn. unfold cache_unspent. by rewrite E. }
  destruct (GetCoin_law (base c) o (proj1 Hc)) as (b & -> & Hb & Hu & He).
  destruct (cache_base c b Hc Hb Hu He) as [Hc' [Hs1 Hs2]]. destruct (unspent (base c) o) as [tmp|] eqn:Et.
  - pose proof (unspent_not_spent _ _ _ (proj1 Hc) Et) as Hsp. rewrite Hsp. eexists _, _. split; [done|].
    assert (Hct : content (mkEntry tmp false false) = Some tmp) by (unfold content; cbn [coin]; by rewrite Hsp).
    split_and!.
    + split; [exact Hb|]. cbn [base cacheCoins]. apply map_Forall_insert_2; [|apply Hc']. split; [done|]. intros _. by rewrite Hct, Hu.
    + split; [|done]. intros o'. unfold cache_unspent. cbn [cacheCoins base]. destruct (decide (o' = o)) as [->|Hne].
      * rewrite lookup_insert_eq. rewrite E, Et. exact Hct.
      * rewrite lookup_insert_ne by done. apply Hs1.
    + cbn [cacheCoins]. by rewrite lookup_insert_eq.
    + unfold cache_unspent. rewrite E, Et. cbn. by rewrite Hct.
    + done.
  - eexists _, _. split; [done|]. split_and!; try apply Hc'; try done.
    + unfold cache_unspent. rewrite E, Et. done.
    + intros _. cbn [base]. by rewrite Hu.
Qed.

(** An entry is written: [m] is the map of the cache without it or with it. *)
Lemma put_entry c o (e : option CCoinsCacheEntry) : cache_ok c →
  match e with Some e => entry_ok (unspent (base c)) o e | None => True end →
  let c' := with_coins c (match e with Some e => <[o := e]> (cacheCoins c) | None => delete o (cacheCoins c) end) in
  cache_ok c' ∧ (∀ o', o' ≠ o → cache_unspent c' o' = cache_unspent c o') ∧
  cache_unspent c' o = match e with Some e => content e | None => unspent (base c) o end.
Proof.
  intros [Hb Hm] He. unfold cache_ok, cache_unspent, with_coins. destruct e as [e|]; cbn [base cacheCoins].
  - split_and!; [done|by apply map_Forall_insert_2| |by rewrite lookup_insert_eq]. intros o' Hne. by rewrite lookup_insert_ne.
  - split_and!; [done|by apply map_Forall_delete| |by rewrite lookup_delete_eq]. intros o' Hne. by rewrite lookup_delete_ne.
Qed.

Lemma cache_entry_ok c o e : cache_ok c → cacheCoins c !! o = Some e → entry_ok (unspent (base c)) o e.
Proof. intros [_ Hm] E. by apply (map_Forall_lookup_1 _ _ _ _ Hm). Qed.

Lemma write_entry_spec c o e : cache_ok c → (DIRTY e = true → FRESH e = true → cache_unspent c o = None) →
  ∃ m, write_entry o e (cacheCoins c) = Some m ∧ cache_ok (with_coins c m) ∧
    (∀ o', o' ≠ o → cache_unspent (with_coins c m) o' = cache_unspent c o') ∧
    cache_unspent (with_coins c m) o = if DIRTY e then content e else cache_unspent c o.
Proof.
  intros Hc Hf. unfold write_entry. destruct (DIRTY e); cbn [negb]; [|by exists (cacheCoins c); destruct c].
  specialize (Hf eq_refl). destruct (cacheCoins c !! o) as [us|] eqn:E.
  - pose proof (cache_entry_ok _ _ _ Hc E) as [Hu1 Hu2]. unfold cache_unspent in Hf. rewrite E in Hf. unfold content in Hf.
    replace (FRESH e && negb (IsSpent (coin us))) with false.
    2:{ destruct (FRESH e); [|done]. specialize (Hf eq_refl). by destruct (IsSpent (coin us)). }
    destruct (FRESH us && IsSpent (coin e)) eqn:Ed; (eexists; split; [done|]).
    + apply andb_true_iff in Ed as [Ef Es]. destruct (put_entry c o None Hc I) as (H1 & H2 & ->). split_and!; try done.
      unfold content. rewrite Es. by apply Hu1.
    + destruct (put_entry c o (Some (mkEntry (coin e) true (FRESH us))) Hc) as (H1 & H2 & H3); [split; [exact Hu1|done]|].
      by split_and!.
  - unfold cache_unspent in Hf. rewrite E in Hf.
    destruct (FRESH e && IsSpent (coin e)) eqn:Ed; (eexists; split; [done|]).
    + apply andb_true_iff in Ed as [Ef Es]. split_and!; [by destruct c|by destruct c|]. unfold cache_unspent, with_coins.
      cbn [base cacheCoins]. rewrite E. unfold content. rewrite Es. by apply Hf.
    + destruct (put_entry c o (Some (mkEntry (coin e) true (FRESH e))) Hc) as (H1 & H2 & H3); [split; [exact Hf|done]|].
      by split_and!.
Qed.

Lemma overlay_cons o e l f o' : overlay ((o, e) :: l) f o' =
  if decide (o' = o) then if DIRTY e then content e else f o' else overlay l f o'.
Proof.
  unfold overlay. cbn [list_to_map foldr fst snd]. destruct (decide (o' = o)) as [->|].
  - by rewrite lookup_insert_eq.
  - by rewrite lookup_insert_ne by done.
Qed.

Lemma overlay_notin l f o : o ∉ l.*1 → overlay l f o = f o.
Proof. intros Hn. unfold overlay. by rewrite not_elem_of_list_to_map_1. Qed.

Lemma overlay_ext l f f' o : f o = f' o → overlay l f o = overlay l f' o.
Proof. intros E. unfold overlay. by repeat case_match. Qed.

Lemma write_entries_spec l : ∀ c, cache_ok c → batch_ok (cache_unspent c) l →
  ∃ m, write_entries l (cacheCoins c) = Some m ∧ cache_ok (with_coins c m) ∧
    ∀ o, cache_unspent (with_coins c m) o = overlay l (cache_unspent c) o.
Proof.
  induction l as [|[o e] l IH]; intros c Hc [Hnd Hf]; cbn [write_entries].
  { exists (cacheCoins c). split_and!; by destruct c. }
  rewrite fmap_cons in Hnd. apply NoDup_cons in Hnd as [Hno Hnd].
  destruct (write_entry_spec c o e Hc) as (m1 & -> & Hc1 & Ho1 & Ho2); [intros; eapply Hf; [left|done..]|]. cbn [mbind option_bind].
  destruct (IH (with_coins c m1)) as (m & Em & Hc2 & Ho3); [done| |].
  { split; [done|]. intros o' e' Hin Hd Hfr. rewrite Ho1; [by eapply Hf; [right|..]|]. intros ->. apply Hno.
    apply list_elem_of_fmap. by exists (o, e'). }
  exists m. split; [exact Em|]. split; [exact Hc2|]. intros o'. rewrite overlay_cons.
  change (with_coins c m) with (with_coins (with_coins c m1) m). rewrite Ho3. destruct (decide (o' = o)) as [->|].
  - by rewrite overlay_notin.
  - apply overlay_ext. by apply Ho1.
Qed.

#[export] Instance cache_laws : CoinsViewLaws (CCoinsViewCache S).
Proof.
  refine {| view_ok := cache_ok; unspent := cache_unspent; best := cache_best |}.
  - intros c o k [Hb Hm] Hu. unfold cache_unspent in Hu. destruct (cacheCoins c !! o) as [e|].
    + unfold content in Hu. destruct (IsSpent (coin e)) eqn:E; [done|]. by injection Hu as <-.
    + by eapply unspent_not_spent.
  - intros c o Hc. destruct (FetchCoin_spec o c Hc) as (r & c' & E & Hc' & [Hs1 Hs2] & _ & Hr & _).
    exists c'. cbn [GetCoin cache_view]. unfold cache_GetCoin. rewrite E, Hr. destruct r as [e|]; done.
  - intros c Hc. cbn [GetBestBlock cache_view]. unfold cache_GetBestBlock, cache_best.
    destruct (uint256_IsNull (hashBlock c)) eqn:E; [|exists c; by rewrite E].
    destruct (GetBestBlock_law (base c) (proj1 Hc)) as (b & -> & Hb & Hu & He).
    eexists. split; [done|]. destruct (cache_base c b Hc Hb Hu He) as [[H1 H2] [H3 _]].
    split_and!; [split; [exact Hb|exact H2]|exact H3|]. cbn [hashBlock base]. rewrite He. by case (uint256_IsNull (best (base c))).
  - intros c l h Hc Hl Hh. cbn [BatchWrite cache_view]. unfold cache_BatchWrite.
    destruct (write_entries_spec l c Hc Hl) as (m & -> & Hm & Ho). cbn [mbind option_bind].
    eexists. split; [done|]. split_and!; [exact Hm|exact Ho|]. unfold cache_best. cbn [hashBlock]. by rewrite Hh.
Defined.

(** ** The operations of the cache *)

Context (IsUnspendable : CScript → bool).

Lemma HaveCoin_spec o c : cache_ok c → ∃ c', HaveCoin o c = (bool_decide (cache_unspent c o ≠ None), c') ∧ cache_ok c' ∧ same_view c c'.
Proof.
  intros Hc. destruct (FetchCoin_spec o c Hc) as (r & c' & E & Hc' & Hs & _ & Hr & _). exists c'. unfold HaveCoin. rewrite E, Hr.
  destruct r as [e|]; cbn; [|done]. unfold content. by destruct (IsSpent (coin e)).
Qed.

Lemma AddCoin_spec o k ow c : cache_ok c → IsSpent k = false → (ow = false → cache_unspent c o = None) →
  ∃ c', AddCoin IsUnspendable o k ow c = Some c' ∧ cache_ok c' ∧
    ∀ o', cache_unspent c' o' = if IsUnspendable (scriptPubKey (out k)) then cache_unspent c o'
                                else if decide (o' = o) then Some k else cache_unspent c o'.
Proof.
  intros Hc Hk Hw. unfold AddCoin. rewrite Hk. destruct (IsUnspendable _); [by exists c|].
  set (e := default (mkEntry coinEmpty false false) (cacheCoins c !! o)).
  assert (He : entry_ok (unspent (base c)) o e ∨ e = mkEntry coinEmpty false false ∧ cacheCoins c !! o = None).
  { unfold e. destruct (cacheCoins c !! o) as [e'|] eqn:E; [left; by eapply cache_entry_ok|by right]. }
  assert (Hsp : ow = false → IsSpent (coin e) = true).
  { intros Ho. specialize (Hw Ho). unfold cache_unspent in Hw. unfold e. destruct (cacheCoins c !! o) as [e'|]; [|done].
    cbn. unfold content in Hw. by destruct (IsSpent (coin e')). }
  replace (negb ow && negb (IsSpent (coin e))) with false by (destruct ow; [done|by rewrite Hsp]).
  eexists. split; [done|].
  destruct (put_entry c o (Some (mkEntry k true (FRESH e || (if negb ow then negb (DIRTY e) else false)))) Hc) as (H1 & H2 & H3).
  - split; [|done]. cbn [FRESH]. rewrite orb_true_iff. intros [Hf|Hf].
    + destruct He as [[He _]|[He _]]; [by apply He|by rewrite He in Hf].
    + destruct ow; [done|]. cbn [negb] in Hf. destruct He as [[_ He]|[_ He]].
      * rewrite <- He by (by destruct (DIRTY e)). unfold content. by rewrite Hsp.
      * specialize (Hw eq_refl). unfold cache_unspent in Hw. by rewrite He in Hw.
  - split; [exact H1|]. intros o'. destruct (decide (o' = o)) as [->|]; [|by apply H2]. rewrite H3. unfold content. cbn [coin].
    by rewrite Hk.
Qed.

(** The coin that is moved out, if it was there. The returned value alone does not tell: it is [true] also for an entry of the cache that
    was spent already, and [false] where neither the cache nor the view below has an entry. *)
Definition moved (r : bool * Coin) : option Coin := if r.1 && negb (IsSpent r.2) then Some r.2 else None.

Lemma SpendCoin_spec o c : cache_ok c → ∃ r c', SpendCoin (λ _ _, true) o c = (r, c') ∧ moved r = cache_unspent c o ∧ cache_ok c' ∧
  ∀ o', cache_unspent c' o' = if decide (o' = o) then None else cache_unspent c o'.
Proof.
  intros Hc. destruct (FetchCoin_spec o c Hc) as (r & c' & E & Hc' & [Hs _] & Hl & Hr & Hn). unfold SpendCoin. rewrite E.
  destruct r as [e|]; eexists _, _; (split; [done|]).
  - split; [rewrite Hr; unfold moved, content; cbn; by destruct (IsSpent (coin e))|].
    pose proof (cache_entry_ok _ _ _ Hc' Hl) as [He1 He2]. destruct (FRESH e) eqn:Ef.
    + destruct (put_entry c' o None Hc' I) as (H1 & H2 & H3). split; [exact H1|]. intros o'.
      destruct (decide (o' = o)) as [->|]; [rewrite H3; by apply He1|]. rewrite H2, Hs by done. done.
    + destruct (put_entry c' o (Some (mkEntry coinEmpty true false)) Hc') as (H1 & H2 & H3); [done|]. split; [exact H1|].
      intros o'. destruct (decide (o' = o)) as [->|]; [by rewrite H3|]. by rewrite H2, Hs by done.
  - split; [by rewrite Hr|]. split; [exact Hc'|]. intros o'. rewrite Hs. destruct (decide (o' = o)) as [->|]; [by rewrite Hr|done].
Qed.

Lemma Uncache_spec o c : cache_ok c → cache_ok (Uncache o c) ∧ ∀ o', cache_unspent (Uncache o c) o' = cache_unspent c o'.
Proof.
  intros Hc. unfold Uncache. destruct (cacheCoins c !! o) as [e|] eqn:E; [|done].
  destruct (negb (DIRTY e) && negb (FRESH e)) eqn:Ef; [|done]. apply andb_true_iff in Ef as [Ed _]. apply negb_true_iff in Ed.
  destruct (put_entry c o None Hc I) as (H1 & H2 & H3). split; [exact H1|]. intros o'.
  destruct (decide (o' = o)) as [->|]; [|by apply H2]. rewrite H3. unfold cache_unspent. rewrite E. symmetry.
  by apply (cache_entry_ok _ _ _ Hc E).
Qed.

Context (order : CCoinsMap → list (COutPoint * CCoinsCacheEntry)) (Horder : ∀ m, order m ≡ₚ map_to_list m).

Lemma overlay_cache c o : cache_ok c → overlay (order (cacheCoins c)) (unspent (base c)) o = cache_unspent c o.
Proof using Horder.
  intros Hc. unfold overlay, cache_unspent.
  rewrite (list_to_map_proper _ (map_to_list (cacheCoins c))), list_to_map_to_list; [| |done].
  - destruct (cacheCoins c !! o) as [e|] eqn:E; [|done]. destruct (DIRTY e) eqn:Ed; [done|]. symmetry. by apply (cache_entry_ok _ _ _ Hc E).
  - rewrite Horder. apply NoDup_fst_map_to_list.
Qed.

Lemma Flush_spec c : cache_ok c → uint256_IsNull (hashBlock c) = false →
  ∃ c', Flush order c = Some (true, c') ∧ cache_ok c' ∧ cacheCoins c' = ∅ ∧
    (∀ o, unspent (base c') o = cache_unspent c o) ∧ best (base c') = hashBlock c ∧
    (∀ o, cache_unspent c' o = cache_unspent c o).
Proof using Horder.
  intros Hc Hh. destruct (BatchWrite_law (base c) (order (cacheCoins c)) (hashBlock c)) as (b & E & Hb & Hu & He).
  - apply Hc.
  - split; [rewrite Horder; apply NoDup_fst_map_to_list|]. intros o e Hin _ Hf. rewrite Horder in Hin.
    apply elem_of_map_to_list in Hin. by apply (cache_entry_ok _ _ _ Hc Hin).
  - done.
  - unfold Flush. rewrite E. cbn [mbind option_bind]. eexists. split; [done|].
    assert (∀ o, unspent b o = cache_unspent c o) as Hu' by (intros o; by rewrite Hu, overlay_cache).
    by split_and!.
Qed.
End CacheLaws.

(** * The abstract set of unspent outputs *)

(** The operations that validation performs on a cache. *)
Inductive coin_op :=
  | OpAdd (o : COutPoint) (k : Coin) (overwrite : bool)
  | OpSpend (o : COutPoint)
  | OpHave (o : COutPoint)
  | OpHaveInputs (tx : CTransaction)
  | OpValueIn (tx : CTransaction)
  | OpAddCoins (tx : CTransaction) (nHeight : Z) (check : bool)
  | OpUncache (o : COutPoint)
  | OpFlush (h : uint256).
Inductive answer := NoAnswer | Have (b : bool) | Spent (k : option Coin) | Value (v : option Z).

Section Refinement.
Context (IsUnspendable : CScript → bool) (GetHash : CTransaction → uint256).

(** The set with one more coin; [None] where the caller breaks the contract: a coin that is null, or that is added over
    an unspent one without saying so. *)
Definition spec_add (o : COutPoint) (k : Coin) (ow : bool) (U : COutPoint → option Coin) : option (COutPoint → option Coin) :=
  if IsSpent k || (negb ow && bool_decide (U o ≠ None)) then None
  else Some (λ o', if IsUnspendable (scriptPubKey (out k)) then U o' else if decide (o' = o) then Some k else U o').

(** The outputs of a transaction, one after the other. *)
Fixpoint spec_outputs (txid : uint256) (nHeight : Z) (check fCoinbase : bool) (l : list CTxOut) (i : Z)
    (U : COutPoint → option Coin) : option (COutPoint → option Coin) :=
  match l with
  | [] => Some U
  | x :: l' =>
      U ← spec_add (mkCOutPoint txid i) (Coin_init x nHeight fCoinbase) (check || fCoinbase) U;
      spec_outputs txid nHeight check fCoinbase l' (i + 1) U
  end.

(** The sum of the values of inputs that exist, are not negative and do not overflow. *)
Definition spec_value (l : list CTxIn) (U : COutPoint → option Coin) : option Z :=
  ks ← mapM (λ i, U (prevout i)) l;
  let v := foldr Z.add 0 (map (λ k, nValue (out k)) ks) in
  if forallb (λ k, 0 <=? nValue (out k)) ks && (v <? 2 ^ 63) then Some v else None.

(** The operations on a set of unspent outputs; [None] where the caller breaks the contract, by a coin that cannot be added,
    a sum over inputs that do not exist or are out of range, or a flush without a block. *)
Definition spec_op (op : coin_op) (U : COutPoint → option Coin) : option (answer * (COutPoint → option Coin)) :=
  match op with
  | OpAdd o k ow => U ← spec_add o k ow U; Some (NoAnswer, U)
  | OpHaveInputs tx => Some (Have (IsCoinBase tx || forallb (λ i, bool_decide (U (prevout i) ≠ None)) (vin tx)), U)
  | OpValueIn tx => v ← (if IsCoinBase tx then Some 0 else spec_value (vin tx) U); Some (Value (Some v), U)
  | OpAddCoins tx nHeight check =>
      U ← spec_outputs (GetHash tx) nHeight check (IsCoinBase tx) (vout tx) 0 U; Some (NoAnswer, U)
  | OpSpend o => Some (Spent (U o), λ o', if decide (o' = o) then None else U o')
  | OpHave o => Some (Have (bool_decide (U o ≠ None)), U)
  | OpUncache _ => Some (NoAnswer, U)
  | OpFlush h => if uint256_IsNull h then None else Some (NoAnswer, U)
  end.

Fixpoint spec_run (l : list coin_op) (U : COutPoint → option Coin) : option (list answer * (COutPoint → option Coin)) :=
  match l with
  | [] => Some ([], U)
  | op :: l' => '(a, U) ← spec_op op U; '(r, U) ← spec_run l' U; Some (a :: r, U)
  end.

Context {S : Type} `{CoinsViewLaws S} (order : CCoinsMap → list (COutPoint * CCoinsCacheEntry)).
Context (Horder : ∀ m, order m ≡ₚ map_to_list m).

Definition cache_op (op : coin_op) (c : CCoinsViewCache S) : option (answer * CCoinsViewCache S) :=
  match op with
  | OpAdd o k ow => c ← AddCoin IsUnspendable o k ow c; Some (NoAnswer, c)
  | OpSpend o => let '(r, c) := SpendCoin (λ _ _, true) o c in Some (Spent (moved r), c)
  | OpHave o => let '(b, c) := HaveCoin o c in Some (Have b, c)
  | OpHaveInputs tx => let '(b, c) := HaveInputs tx c in Some (Have b, c)
  | OpValueIn tx => let '(v, c) := GetValueIn tx c in Some (Value v, c)
  | OpAddCoins tx nHeight check => c ← AddCoins IsUnspendable GetHash tx nHeight check c; Some (NoAnswer, c)
  | OpUncache o => Some (NoAnswer, Uncache o c)
  | OpFlush h => '(_, c) ← Flush order (SetBestBlock h c); Some (NoAnswer, c)
  end.

Fixpoint cache_run (l : list coin_op) (c : CCoinsViewCache S) : option (list answer * CCoinsViewCache S) :=
  match l with
  | [] => Some ([], c)
  | op :: l' => '(a, c) ← cache_op op c; '(r, c) ← cache_run l' c; Some (a :: r, c)
  end.

Lemma SetBestBlock_same h c : cache_ok c → cache_ok (SetBestBlock h c) ∧ ∀ o, cache_unspent (SetBestBlock h c) o = cache_unspent c o.
Proof. done. Qed.

(** A cache represents a set. *)
Definition represents c (U : COutPoint → option Coin) : Prop := cache_ok c ∧ ∀ o, cache_unspent c o = U o.

Lemma represents_same c c' U : represents c U → cache_ok c' → same_view c c' → represents c' U.
Proof using Type. intros [_ HU] Hc [Hs _]. split; [done|]. intros o. by rewrite Hs. Qed.

Lemma AddCoin_refines o k ow c U U' : represents c U → spec_add o k ow U = Some U' →
  ∃ c', AddCoin IsUnspendable o k ow c = Some c' ∧ represents c' U'.
Proof using Type.
  intros [Hc HU]. unfold spec_add. destruct (IsSpent k) eqn:Ek; [done|]. cbn [orb]. destruct (negb ow && _) eqn:Ew; [done|]. intros [= <-].
  destruct (AddCoin_spec IsUnspendable o k ow c Hc Ek) as (c' & E & Hc' & Ho).
  - intros ->. cbn [negb andb] in Ew. rewrite HU. by destruct (U o).
  - exists c'. split; [done|]. split; [done|]. intros o'. by rewrite Ho, !HU.
Qed.

Lemma HaveCoin_refines o c U : represents c U → ∃ c', HaveCoin o c = (bool_decide (U o ≠ None), c') ∧ represents c' U.
Proof using Type.
  intros HR. destruct (HaveCoin_spec o c (proj1 HR)) as (c' & E & Hc' & Hs). exists c'. rewrite E, (proj2 HR).
  split; [done|]. by apply (represents_same c).
Qed.

Lemma HaveInputs_loop_refines l : ∀ c U, represents c U →
  ∃ c', HaveInputs_loop l c = (forallb (λ i, bool_decide (U (prevout i) ≠ None)) l, c') ∧ represents c' U.
Proof using Type.
  induction l as [|i l IH]; intros c U HR; cbn [HaveInputs_loop forallb]; [eauto|].
  destruct (HaveCoin_refines (prevout i) c U HR) as (c' & -> & HR'). destruct (bool_decide _); cbn [negb andb]; [by apply IH|eauto].
Qed.

Lemma AccessCoin_refines o c U k : represents c U → U o = Some k → ∃ c', AccessCoin o c = (k, c') ∧ represents c' U.
Proof using Type.
  intros [Hc HU] Ek. destruct (FetchCoin_spec o c Hc) as (r & c' & E & Hc' & Hs & _ & Hr & _). exists c'. unfold AccessCoin. rewrite E.
  rewrite HU, Ek in Hr. destruct r as [e|]; [|done]. cbn in Hr. unfold content in Hr. destruct (IsSpent (coin e)); [done|].
  injection Hr as ->. split; [done|]. by apply (represents_same c).
Qed.

Lemma GetValueIn_loop_refines l : ∀ n c U v, represents c U → 0 ≤ n → spec_value l U = Some v → n + v < 2 ^ 63 →
  ∃ c', GetValueIn_loop l n c = (Some (n + v), c') ∧ represents c' U.
Proof using Type.
  induction l as [|i l IH]; intros n c U v HR Hn; unfold spec_value; cbn [mapM GetValueIn_loop].
  { intros [= <-] _. exists c. split; [|done]. f_equal. f_equal. cbn. lia. }
  destruct (U (prevout i)) as [k|] eqn:Ek; [|done]. cbn [mbind option_bind]. destruct (mapM _ l) as [ks|] eqn:Em; [|done].
  cbn [mbind option_bind mret option_ret map foldr forallb]. destruct (_ && _) eqn:Eb; [|done]. intros [= <-] Hlt.
  apply andb_true_iff in Eb as [Eb Es]. apply andb_true_iff in Eb as [Ek0 Eks].
  assert (Hpos : 0 ≤ foldr Z.add 0 (map (λ k, nValue (out k)) ks)).
  { clear -Eks. induction ks as [|k ks IH]; cbn [map foldr forallb] in *; [lia|]. apply andb_true_iff in Eks as [E Eks]. specialize (IH Eks). lia. }
  destruct (AccessCoin_refines (prevout i) c U k HR Ek) as (c' & -> & HR').
  replace ((- 2 ^ 63 <=? n + nValue (out k)) && (n + nValue (out k) <? 2 ^ 63)) with true by lia.
  rewrite Z.add_assoc. apply IH; [done|lia| |lia]. unfold spec_value. rewrite Em. cbn [mbind option_bind]. rewrite Eks.
  rewrite (proj2 (Z.ltb_lt _ _)) by lia. done.
Qed.

Lemma AddCoins_loop_refines txid nHeight check cb l : ∀ i c U U', represents c U →
  spec_outputs txid nHeight check cb l i U = Some U' → ∃ c', AddCoins_loop IsUnspendable txid nHeight check cb l i c = Some c' ∧ represents c' U'.
Proof using Type.
  induction l as [|x l IH]; intros i c U U' HR; cbn [spec_outputs AddCoins_loop]; [intros [= <-]; eauto|].
  destruct (spec_add _ _ _ U) as [U1|] eqn:E; [|done]. cbn [mbind option_bind]. intros E'.
  assert (∃ ow c0, (if check then HaveCoin (mkCOutPoint txid i) c else (cb, c)) = (ow, c0) ∧ represents c0 U ∧
    spec_add (mkCOutPoint txid i) (Coin_init x nHeight cb) ow U = Some U1) as (ow & c0 & -> & HR0 & E0).
  { destruct check; [|by exists cb, c]. destruct (HaveCoin_refines (mkCOutPoint txid i) c U HR) as (c0 & -> & HR0).
    eexists _, c0. split_and!; [done..|]. rewrite <- E. unfold spec_add. cbn [orb negb andb]. by destruct (bool_decide _). }
  destruct (AddCoin_refines _ _ _ _ _ _ HR0 E0) as (c1 & -> & HR1). cbn [mbind option_bind]. by eapply IH.
Qed.

Lemma cache_op_refines op c U a U' : represents c U → spec_op op U = Some (a, U') → ∃ c', cache_op op c = Some (a, c') ∧ represents c' U'.
Proof using Horder.
  intros HR. destruct op as [o k ow|o|o|tx|tx|tx nHeight check|o|h]; cbn [spec_op cache_op].
  - destruct (spec_add o k ow U) as [U1|] eqn:E; [|done]. cbn [mbind option_bind]. intros [= <- <-].
    destruct (AddCoin_refines o k ow c U U1 HR E) as (c' & -> & HR'). cbn [mbind option_bind]. eauto.
  - intros [= <- <-]. destruct (SpendCoin_spec o c (proj1 HR)) as (r & c' & -> & Hr & Hc' & Ho). exists c'. rewrite Hr, (proj2 HR).
    split; [done|]. split; [done|]. intros o'. by rewrite Ho, (proj2 HR).
  - intros [= <- <-]. destruct (HaveCoin_refines o c U HR) as (c' & -> & HR'). eauto.
  - intros [= <- <-]. unfold HaveInputs. destruct (IsCoinBase tx); cbn [orb]; [eauto|].
    destruct (HaveInputs_loop_refines (vin tx) c U HR) as (c' & -> & HR'). eauto.
  - unfold GetValueIn. destruct (IsCoinBase tx); cbn [mbind option_bind]; [intros [= <- <-]; eauto|].
    destruct (spec_value (vin tx) U) as [v|] eqn:E; [|done]. cbn [mbind option_bind]. intros [= <- <-].
    destruct (GetValueIn_loop_refines (vin tx) 0 c U v HR) as (c' & -> & HR'); [done..| |eauto].
    revert E. unfold spec_value. destruct (mapM _ _); [|done]. cbn [mbind option_bind]. destruct (_ && _) eqn:Eb; [|done]. intros [= <-]. lia.
  - unfold AddCoins. destruct (spec_outputs _ _ _ _ _ _ U) as [U1|] eqn:E; [|done]. cbn [mbind option_bind]. intros [= <- <-].
    destruct (AddCoins_loop_refines _ _ _ _ _ _ c U U1 HR E) as (c' & -> & HR'). cbn [mbind option_bind]. eauto.
  - intros [= <- <-]. destruct (Uncache_spec o c (proj1 HR)) as [Hc' Hs]. eexists. split; [done|]. split; [done|].
    intros o'. by rewrite Hs, (proj2 HR).
  - destruct (uint256_IsNull h) eqn:Eh; [done|]. intros [= <- <-].
    destruct (Flush_spec order Horder (SetBestBlock h c) (proj1 HR) Eh) as (c' & -> & Hc' & _ & _ & _ & Hs). cbn [mbind option_bind].
    exists c'. split; [done|]. split; [done|]. intros o. by rewrite Hs, <- (proj2 HR).
Qed.

Lemma cache_run_refines l : ∀ c U r U', represents c U → spec_run l U = Some (r, U') →
  ∃ c', cache_run l c = Some (r, c') ∧ represents c' U'.
Proof using Horder.
  induction l as [|op l IH]; intros c U r U' HR; cbn [spec_run cache_run]; [intros [= <- <-]; eauto|].
  destruct (spec_op op U) as [[a U1]|] eqn:E; [|done]. cbn [mbind option_bind].
  destruct (spec_run l U1) as [[r2 U2]|] eqn:E2; [|done]. cbn [mbind option_bind]. intros [= <- <-].
  destruct (cache_op_refines op c U a U1 HR E) as (c1 & -> & HR1). cbn [mbind option_bind].
  destruct (IH c1 U1 r2 U2 HR1 E2) as (c2 & -> & HR2). cbn [mbind option_bind]. eauto.
Qed.
End Refinement.

(** * The database (txdb.cpp) *)

(** What the keys [DB_COIN], [DB_BEST_BLOCK] and [DB_HEAD_BLOCKS] hold. *)
Record CCoinsViewDB := mkDB { db_coins : gmap COutPoint Coin; db_best : option uint256; db_heads : option (list uint256) }.

(** The operations of a [CDBBatch], which the database applies together. *)
Inductive db_write :=
  | WriteCoin (o : COutPoint) (k : Coin) | EraseCoin (o : COutPoint)
  | WriteBest (h : uint256) | EraseBest | WriteHeads (l : list uint256) | EraseHeads.
Definition db_apply (db : CCoinsViewDB) (w : db_write) : CCoinsViewDB :=
  match w with
  | WriteCoin o k => mkDB (<[o := k]> (db_coins db)) (db_best db) (db_heads db)
  | EraseCoin o => mkDB (delete o (db_coins db)) (db_best db) (db_heads db)
  | WriteBest h => mkDB (db_coins db) (Some h) (db_heads db)
  | EraseBest => mkDB (db_coins db) None (db_heads db)
  | WriteHeads l => mkDB (db_coins db) (db_best db) (Some l)
  | EraseHeads => mkDB (db_coins db) (db_best db) None
  end.
Definition WriteBatch (db : CCoinsViewDB) (batch : list db_write) : CCoinsViewDB := fold_left db_apply batch db.

Definition db_GetCoin (outpoint : COutPoint) (db : CCoinsViewDB) : option Coin * CCoinsViewDB := (db_coins db !! outpoint, db).
Definition db_GetBestBlock (db : CCoinsViewDB) : uint256 * CCoinsViewDB := (default uint256_null (db_best db), db).
Definition GetHeadBlocks (db : CCoinsViewDB) : list uint256 := default [] (db_heads db).

Section Database.
(** [batch.SizeEstimate() > batch_size] *)
Context (full : list db_write → bool).

(** The batches that the loop over the entries writes, and the last one that is not written yet. *)
Fixpoint entry_batches (l : list (COutPoint * CCoinsCacheEntry)) (batch : list db_write) : list (list db_write) * list db_write :=
  match l with
  | [] => ([], batch)
  | (o, e) :: l' =>
      let batch := if DIRTY e then batch ++ [if IsSpent (coin e) then EraseCoin o else WriteCoin o (coin e)] else batch in
      if full batch then let '(bs, last) := entry_batches l' [] in (batch :: bs, last)
      else entry_batches l' batch
  end.

(** The block that the coins belong to, also in the middle of an interrupted write; [None] is the failed
    assertion. *)
Definition old_tip (h : uint256) (db : CCoinsViewDB) : option uint256 :=
  let tip := (db_GetBestBlock db).1 in
  if uint256_IsNull tip then
    match GetHeadBlocks db with
    | [a; b] => if bool_decide (a = h) then Some b else None
    | _ => Some tip
    end
  else Some tip.

(** All the batches of [BatchWrite]. *)
Definition db_batches (l : list (COutPoint * CCoinsCacheEntry)) (h tip : uint256) : list (list db_write) :=
  let '(bs, last) := entry_batches l [EraseBest; WriteHeads [h; tip]] in
  bs ++ [last ++ [EraseHeads; WriteBest h]].

Definition db_BatchWrite (l : list (COutPoint * CCoinsCacheEntry)) (h : uint256) (db : CCoinsViewDB) : option (bool * CCoinsViewDB) :=
  if uint256_IsNull h then None
  else tip ← old_tip h db; Some (true, fold_left WriteBatch (db_batches l h tip) db).

#[export] Instance db_view : CCoinsView CCoinsViewDB := {
  GetCoin := db_GetCoin; GetBestBlock := db_GetBestBlock; BatchWrite := db_BatchWrite }.

(** ** Batches *)

Lemma WriteBatch_app db b b' : WriteBatch db (b ++ b') = WriteBatch (WriteBatch db b) b'.
Proof. apply fold_left_app. Qed.

(** The writes of an entry. *)
Definition entry_writes (e : COutPoint * CCoinsCacheEntry) : list db_write :=
  if DIRTY e.2 then [if IsSpent (coin e.2) then EraseCoin e.1 else WriteCoin e.1 (coin e.2)] else [].

(** However the entries are split into batches, the first [n] batches are the writes of some first entries. *)
Lemma entry_batches_prefix l : ∀ batch bs last n, entry_batches l batch = (bs, last) →
  concat bs ++ last = batch ++ concat (map entry_writes l) ∧
  ((n ≤ length bs)%nat → (0 < n)%nat → ∃ k, concat (take n bs) = batch ++ concat (map entry_writes (take k l))).
Proof.
  induction l as [|[o e] l IH]; intros batch bs last n; cbn [entry_batches map concat].
  { intros [= <- <-]. split; [by rewrite app_nil_r|]. cbn. lia. }
  set (batch' := if DIRTY e then _ else batch).
  assert (Hb : batch' = batch ++ entry_writes (o, e)) by (unfold batch', entry_writes; cbn; destruct (DIRTY e); by rewrite ?app_nil_r).
  destruct (full batch').
  - destruct (entry_batches l []) as [bs' last'] eqn:E. intros [= <- <-]. destruct (IH _ _ _ (n - 1)%nat E) as [H1 H2]. split.
    + cbn [concat]. by rewrite <- app_assoc, H1, Hb, <- app_assoc.
    + intros Hn Hn0. destruct n as [|[|n]]; [lia| |].
      * exists 1%nat. cbn [take concat]. rewrite take_0. cbn. by rewrite !app_nil_r.
      * destruct H2 as [k Hk]; [cbn [length] in Hn; lia|lia|]. exists (S k). cbn [take map concat].
        replace (S (S n) - 1)%nat with (S n) in Hk by lia. cbn [app] in Hk. by rewrite Hk, Hb, <- app_assoc.
  - intros E. destruct (IH _ _ _ n E) as [H1 H2]. rewrite Hb, <- app_assoc in H1. split; [done|]. intros Hn Hn0.
    destruct (H2 Hn Hn0) as [k Hk]. exists (S k). cbn [take map concat]. by rewrite Hk, Hb, <- app_assoc.
Qed.

Lemma fold_WriteBatch bs : ∀ db, fold_left WriteBatch bs db = WriteBatch db (concat bs).
Proof. induction bs as [|b bs IH]; intros db; cbn [fold_left concat]; [done|]. by rewrite IH, WriteBatch_app. Qed.

Lemma writes_spec l : ∀ db, NoDup l.*1 →
  let db' := WriteBatch db (concat (map entry_writes l)) in
  db_best db' = db_best db ∧ db_heads db' = db_heads db ∧ ∀ o, db_coins db' !! o = overlay l (λ o, db_coins db !! o) o.
Proof.
  induction l as [|[o e] l IH]; intros db Hnd; [done|]. rewrite fmap_cons in Hnd. apply NoDup_cons in Hnd as [Hno Hnd].
  cbn [map concat]. cbv zeta. rewrite WriteBatch_app. set (db1 := WriteBatch db (entry_writes (o, e))).
  assert (H1 : db_best db1 = db_best db ∧ db_heads db1 = db_heads db ∧
    ∀ o', db_coins db1 !! o' = if decide (o' = o) then if DIRTY e then content e else db_coins db !! o' else db_coins db !! o').
  { unfold db1, entry_writes, content. cbn [fst snd]. destruct (DIRTY e); [|split_and!; [done..|]; intros o'; by case_decide].
    destruct (IsSpent (coin e)); (split_and!; [done..|]); intros o'; cbn; case_decide as Ho; subst;
      by rewrite ?lookup_delete_eq, ?lookup_insert_eq, ?lookup_delete_ne, ?lookup_insert_ne by done. }
  destruct H1 as (E1 & E2 & E3). destruct (IH db1 Hnd) as (F1 & F2 & F3). split_and!; [congruence..|].
  intros o'. rewrite F3, overlay_cons. case_decide as Ho; [subst; rewrite overlay_notin by done; rewrite E3; by rewrite decide_True|].
  apply overlay_ext. rewrite E3. by rewrite decide_False.
Qed.

Lemma overlay_some l f o e : NoDup l.*1 → (o, e) ∈ l → overlay l f o = if DIRTY e then content e else f o.
Proof. intros Hnd Hin. unfold overlay. by rewrite (elem_of_list_to_map_1 _ _ e). Qed.

(** A part of the entries, and all of them after a part. *)
Lemma overlay_take l k f o : NoDup l.*1 →
  (overlay (take k l) f o = f o ∨ overlay (take k l) f o = overlay l f o) ∧ overlay l (overlay (take k l) f) o = overlay l f o.
Proof.
  intros Hnd. assert (Hnd' : NoDup (take k l).*1).
  { rewrite <- (take_drop k l), fmap_app in Hnd. by apply NoDup_app in Hnd as [? _]. }
  destruct (list_to_map (M := CCoinsMap) (take k l) !! o) as [e|] eqn:E.
  - apply elem_of_list_to_map_2 in E. assert (Hin : (o, e) ∈ l) by (rewrite <- (take_drop k l); apply elem_of_app; by left).
    rewrite !(overlay_some _ _ _ _ Hnd Hin), (overlay_some _ _ _ _ Hnd' E). destruct (DIRTY e); auto.
  - apply not_elem_of_list_to_map_2 in E. rewrite overlay_notin by done. split; [by left|]. apply overlay_ext. by apply overlay_notin.
Qed.

Definition db_ok (db : CCoinsViewDB) : Prop := db_heads db = None ∧ map_Forall (λ _ k, IsSpent k = false) (db_coins db).

(** The state that a complete write leaves. *)
Definition written (l : list (COutPoint * CCoinsCacheEntry)) (h : uint256) (db db' : CCoinsViewDB) : Prop :=
  db_best db' = Some h ∧ db_heads db' = None ∧ ∀ o, db_coins db' !! o = overlay l (λ o, db_coins db !! o) o.

Lemma batches_written l h tip db : NoDup l.*1 → written l h db (fold_left WriteBatch (db_batches l h tip) db).
Proof.
  intros Hnd. rewrite fold_WriteBatch. unfold db_batches.
  destruct (entry_batches l [EraseBest; WriteHeads [h; tip]]) as [bs last] eqn:E.
  destruct (entry_batches_prefix _ _ _ _ 0 E) as [Hc _]. rewrite concat_app. cbn [concat]. rewrite app_nil_r, app_assoc, Hc.
  rewrite !WriteBatch_app. set (db1 := WriteBatch db _). destruct (writes_spec l db1 Hnd) as (_ & _ & H3).
  unfold written. cbn. split_and!; [done..|]. exact H3.
Qed.

Lemma db_BatchWrite_written l h db : NoDup l.*1 → uint256_IsNull h = false → (old_tip h db ≠ None) →
  ∃ db', db_BatchWrite l h db = Some (true, db') ∧ written l h db db'.
Proof.
  intros Hnd Hh Ht. unfold db_BatchWrite. rewrite Hh. destruct (old_tip h db) as [tip|]; [|done]. cbn [mbind option_bind].
  eexists. split; [done|]. by apply batches_written.
Qed.

Lemma old_tip_ok h db : db_heads db = None → old_tip h db ≠ None.
Proof. intros H. unfold old_tip, GetHeadBlocks. rewrite H. cbn [from_option id]. by case_match. Qed.

#[export] Instance db_laws : CoinsViewLaws CCoinsViewDB.
Proof.
  refine {| view_ok := db_ok; unspent db o := db_coins db !! o; best db := default uint256_null (db_best db) |}.
  - intros db o k [_ Hm] E. by apply (map_Forall_lookup_1 _ _ _ _ Hm) in E.
  - intros db o Hdb. by exists db.
  - intros db Hdb. by exists db.
  - intros db l h [Hh Hm] [Hnd _] Hn. destruct (db_BatchWrite_written l h db Hnd Hn (old_tip_ok h db Hh)) as (db' & E & W1 & W2 & W3).
    exists db'. split_and!; [done| |exact W3|by rewrite W1]. split; [done|]. intros o k Ek. rewrite W3 in Ek. unfold overlay in Ek.
    destruct (list_to_map l !! o) as [e|]; [|by apply (map_Forall_lookup_1 _ _ _ _ Hm) in Ek].
    destruct (DIRTY e); [|by apply (map_Forall_lookup_1 _ _ _ _ Hm) in Ek].
    unfold content in Ek. destruct (IsSpent (coin e)) eqn:Es; [done|]. by injection Ek as <-.
Defined.

(** The first batches, but not the last: the database says that it is between two blocks, and the same entries
    complete it. *)
Lemma batches_interrupted l h tip db n : NoDup l.*1 → uint256_IsNull h = false → (0 < n < length (db_batches l h tip))%nat →
  let db_n := fold_left WriteBatch (take n (db_batches l h tip)) db in
  db_best db_n = None ∧ db_heads db_n = Some [h; tip] ∧
  (∀ o, db_coins db_n !! o = db_coins db !! o ∨ db_coins db_n !! o = overlay l (λ o, db_coins db !! o) o) ∧
  old_tip h db_n ≠ None ∧ ∀ o, overlay l (λ o, db_coins db_n !! o) o = overlay l (λ o, db_coins db !! o) o.
Proof.
  intros Hnd Hh. unfold db_batches. destruct (entry_batches l [EraseBest; WriteHeads [h; tip]]) as [bs last] eqn:E.
  rewrite length_app. cbn [length]. intros Hn. cbv zeta. rewrite take_app_le, fold_WriteBatch by lia.
  destruct (entry_batches_prefix _ _ _ _ n E) as [_ [k ->]]; [lia..|].
  rewrite WriteBatch_app. set (db1 := WriteBatch db [EraseBest; WriteHeads [h; tip]]).
  assert (Hnd' : NoDup (take k l).*1) by (rewrite <- (take_drop k l), fmap_app in Hnd; by apply NoDup_app in Hnd as [? _]).
  destruct (writes_spec (take k l) db1 Hnd') as (F1 & F2 & F3). set (db_n := WriteBatch db1 _) in *.
  split_and!; [done|done| | |].
  - intros o. rewrite F3. by apply overlay_take.
  - unfold old_tip, db_GetBestBlock, GetHeadBlocks. rewrite F1, F2. cbn. by rewrite bool_decide_true.
  - intros o. erewrite overlay_ext; [apply (overlay_take l k _ o Hnd)|]. apply F3.
Qed.
End Database.

(** * Properties *)

(** C4: the cache of unspent outputs implements the set that its base and the operations on it describe. Over any
    view that keeps the contract of [CCoinsView] and whatever the order in which its map is iterated, a sequence of
    additions of coins and of transactions, spendings, queries, sums of inputs, evictions and flushes that is allowed on the set runs without an exception
    or a failed assertion, gives the answers of the set and represents it afterwards; and a final flush leaves exactly this set and the
    given block in the base. A cache keeps the contract itself (the instance [cache_laws]), so the same holds for a
    cache over a cache. *)
Theorem CCoinsViewCache_refines S (V : CCoinsView S) (L : CoinsViewLaws S) IsUnspendable GetHash order c l U answers U' h :
  (∀ m, order m ≡ₚ map_to_list m) → view_ok c → (∀ o, unspent c o = U o) →
  spec_run IsUnspendable GetHash l U = Some (answers, U') → uint256_IsNull h = false →
  ∃ c' c'', cache_run IsUnspendable GetHash order l c = Some (answers, c') ∧ view_ok c' ∧ (∀ o, unspent c' o = U' o) ∧
    Flush order (SetBestBlock h c') = Some (true, c'') ∧ cacheCoins c'' = ∅ ∧
    (∀ o, unspent (base c'') o = U' o) ∧ best (base c'') = h.
Proof.
  intros Ho Hc HU Hs Hh. destruct (cache_run_refines IsUnspendable GetHash order Ho l c U answers U' (conj Hc HU) Hs) as (c' & E & Hc' & HU').
  destruct (Flush_spec order Ho (SetBestBlock h c') Hc' Hh) as (c'' & E2 & _ & He & Hb & Hbest & _).
  exists c', c''. split_and!; try done. intros o. by rewrite Hb, <- HU'.
Qed.

Definition out_a : COutPoint := mkCOutPoint (repeat 1 32) 0.
Definition out_b : COutPoint := mkCOutPoint (repeat 1 32) 1.
Definition coin_a : Coin := Coin_init (mkCTxOut 50 [OP_1]) 7 true.
Definition coin_b : Coin := Coin_init (mkCTxOut 60 [OP_1]) 8 false.
(** A database with the coin [coin_a], written in batches of one entry. *)
Definition example_db : CCoinsViewDB := mkDB {[out_a := coin_a]} (Some (repeat 2 32)) None.
Definition small_batches (b : list db_write) : bool := (2 <? length b)%nat.

(** Two caches over the database: [coin_a] is spent, [coin_b] is added and spent. *)
Lemma CCoinsViewCache_refines_witness : ∃ c' c'',
  let V := cache_view (H := db_view small_batches) in
  cache_run (H := V) (λ _, false) (λ _, repeat 5 32) map_to_list [OpHave out_a; OpSpend out_a; OpAdd out_b coin_b false; OpUncache out_a; OpSpend out_b]
    (mkCache (mkCache example_db ∅ uint256_null) ∅ uint256_null) = Some ([Have true; Spent (Some coin_a); NoAnswer; NoAnswer; Spent (Some coin_b)], c') ∧
  Flush (H := V) map_to_list (SetBestBlock (repeat 3 32) c') = Some (true, c'') ∧ cacheCoins c'' = ∅.
Proof.
  set (U := unspent (CoinsViewLaws := @cache_laws _ (db_view small_batches) (db_laws small_batches)) (mkCache example_db ∅ uint256_null)).
  destruct (CCoinsViewCache_refines (CCoinsViewCache CCoinsViewDB) (@cache_view _ (db_view small_batches))
    (@cache_laws _ (db_view small_batches) (db_laws small_batches)) (λ _, false) (λ _, repeat 5 32) map_to_list
    (mkCache (mkCache example_db ∅ uint256_null) ∅ uint256_null)
    [OpHave out_a; OpSpend out_a; OpAdd out_b coin_b false; OpUncache out_a; OpSpend out_b] U
    [Have true; Spent (Some coin_a); NoAnswer; NoAnswer; Spent (Some coin_b)]
    (λ o', if decide (o' = out_b) then None else
           if decide (o' = out_b) then Some coin_b else if decide (o' = out_a) then None else U o')
    (repeat 3 32)) as (c' & c'' & E1 & _ & _ & E2 & E3 & _).
  - reflexivity.
  - split; [|apply map_Forall_empty]. split; [|apply map_Forall_empty]. split; [reflexivity|]. by apply map_Forall_singleton.
  - reflexivity.
  - vm_compute. reflexivity.
  - reflexivity.
  - exists c', c''. split; [exact E1|]. split; [exact E2|exact E3].
Defined.

(** C31: a crash while the coins are written does not lose them. After any number of the batches of [BatchWrite],
    however the entries are split into batches, the database is as before, or is completely written, or says that it is between the old
    and the new block, with every output in its old or its new state; in this case writing the same entries
    for the same block again, with any other split, completes it. *)
Theorem CCoinsViewDB_crash full full' l h db n : db_ok db → NoDup l.*1 → uint256_IsNull h = false →
  let tip := default uint256_null (db_best db) in
  let db_n := fold_left WriteBatch (take n (db_batches full l h tip)) db in
  db_n = db ∨ written l h db db_n ∨
  (db_best db_n = None ∧ db_heads db_n = Some [h; tip] ∧
   (∀ o, db_coins db_n !! o = db_coins db !! o ∨ db_coins db_n !! o = overlay l (λ o, db_coins db !! o) o) ∧
   ∃ db', db_BatchWrite full' l h db_n = Some (true, db') ∧ written l h db db').
Proof.
  intros Hdb Hnd Hh tip db_n. destruct (decide (n = 0%nat)) as [->|Hn]; [by left|right].
  destruct (decide (n < length (db_batches full l h tip))%nat) as [Hlt|Hge].
  - right. destruct (batches_interrupted full l h tip db n Hnd Hh ltac:(lia)) as (H1 & H2 & H3 & H4 & H5).
    split_and!; [done..|]. destruct (db_BatchWrite_written full' l h db_n Hnd Hh H4) as (db' & E & W1 & W2 & W3).
    exists db'. split; [done|]. split_and!; [done..|]. intros o. by rewrite W3, H5.
  - left. unfold db_n. rewrite take_ge by lia. by apply batches_written.
Qed.

(** The write of two entries in three batches, interrupted after the first. *)
Lemma CCoinsViewDB_crash_witness :
  let l := [(out_a, mkEntry coinEmpty true false); (out_b, mkEntry coin_b true true)] in
  let db_1 := fold_left WriteBatch (take 1 (db_batches small_batches l (repeat 3 32) (repeat 2 32))) example_db in
  db_heads db_1 = Some [repeat 3 32; repeat 2 32] ∧
  ∃ db', db_BatchWrite (λ _, false) l (repeat 3 32) db_1 = Some (true, db') ∧ written l (repeat 3 32) example_db db'.
Proof.
  intros l db_1.
  destruct (CCoinsViewDB_crash small_batches (λ _, false) l (repeat 3 32) example_db 1) as [H|[H|(_ & H1 & _ & H2)]].
  - split; [reflexivity|]. by apply map_Forall_singleton.
  - apply NoDup_cons. split; [|apply NoDup_singleton]. cbn. rewrite list_elem_of_singleton. discriminate.
  - reflexivity.
  - apply (f_equal db_heads) in H. vm_compute in H. discriminate.
  - destruct H as [H _]. vm_compute in H. discriminate.
  - split; [exact H1|exact H2].
Defined.
