(* ===== verification/TxVerify.v ===== *)
(** Validity of transactions (consensus/tx_verify.cpp): finality, relative lock times, the count of signature
    operations, the checks without context, and the checks of values and assets against the outputs that are spent. *)
From stdpp Require Import base list option gmap sorting.
From Stdlib Require Import ZArith Lia.
From Stdlib Require String.
From S2P Require Import Prelude ArithUint256 Serialize Chain Transaction Text LibBoolEE AssetNames Hash Base58 Script Interpreter VerifyScript Standard AssetData AssetChecks Coins.
Import String.StringSyntax.
Open Scope Z_scope.

(** * Finality and lock times *)

Abbreviation LOCKTIME_VERIFY_SEQUENCE := 1.

Definition IsFinalTx (tx : CTransaction) (nBlockHeight nBlockTime : Z) : bool :=
  (nLockTime tx =? 0) || (nLockTime tx <? (if nLockTime tx <? LOCKTIME_THRESHOLD then nBlockHeight else nBlockTime)) ||
  forallb (λ txin, nSequence txin =? SEQUENCE_FINAL) (vin tx).

(** The loop over the inputs: the heights that are left, and the locks. [None] is the use of an ancestor that does not
    exist. *)
Fixpoint sequence_loop (m : blockmap) (block : ptr) (vin : list CTxIn) (prevHeights : list Z) (nMinHeight nMinTime : Z) : option (list Z * (Z * Z)) :=
  match vin, prevHeights with
  | txin :: vin', nCoinHeight :: rest =>
      if negb (Z.land (nSequence txin) SEQUENCE_LOCKTIME_DISABLE_FLAG =? 0) then
        '(hs, r) ← sequence_loop m block vin' rest nMinHeight nMinTime; Some (0 :: hs, r)
      else
        let lock := Z.land (nSequence txin) SEQUENCE_LOCKTIME_MASK in
        if negb (Z.land (nSequence txin) SEQUENCE_LOCKTIME_TYPE_FLAG =? 0) then
          a ← GetAncestor m block (Z.max (nCoinHeight - 1) 0);
          p ← a;
          let nCoinTime := GetMedianTimePast m p in
          '(hs, r) ← sequence_loop m block vin' rest nMinHeight (Z.max nMinTime (i64 (nCoinTime + Z.shiftl lock 9 - 1)));
          Some (nCoinHeight :: hs, r)
        else
          '(hs, r) ← sequence_loop m block vin' rest (Z.max nMinHeight (i32 (nCoinHeight + lock - 1))) nMinTime;
          Some (nCoinHeight :: hs, r)
  | _, _ => Some (prevHeights, (nMinHeight, nMinTime))
  end.

Definition CalculateSequenceLocks (m : blockmap) (tx : CTransaction) (flags : Z) (prevHeights : list Z) (block : ptr) : option (list Z * (Z * Z)) :=
  if negb (length prevHeights =? length (vin tx))%nat then None
  else if negb ((2 <=? u32 (tx_nVersion tx)) && negb (Z.land flags LOCKTIME_VERIFY_SEQUENCE =? 0)) then Some (prevHeights, (-1, -1))
  else sequence_loop m block (vin tx) prevHeights (-1) (-1).

Definition EvaluateSequenceLocks (m : blockmap) (block : ptr) (lockPair : Z * Z) : option bool :=
  b ← m !! block;
  p ← pprev b;
  let nBlockTime := GetMedianTimePast m p in
  Some (negb ((nHeight b <=? lockPair.1) || (nBlockTime <=? lockPair.2))).

Definition SequenceLocks (m : blockmap) (tx : CTransaction) (flags : Z) (prevHeights : list Z) (block : ptr) : option bool :=
  '(_, lockPair) ← CalculateSequenceLocks m tx flags prevHeights block; EvaluateSequenceLocks m block lockPair.

(** * Signature operations *)

Abbreviation WITNESS_SCALE_FACTOR := 4.
Abbreviation COINBASE_MATURITY := 50.
Abbreviation totals := (gmap text Z).

(** The coins as the cache answers for them: [None] is a coin that is missing or spent. *)
Abbreviation coins_view := (COutPoint → option Coin).
Definition view_AccessCoin (inputs : coins_view) (o : COutPoint) : option Coin := coin ← inputs o; if IsSpent coin then None else Some coin.
Definition view_HaveInputs (inputs : coins_view) (tx : CTransaction) : bool :=
  IsCoinBase tx || forallb (λ txin, is_some (view_AccessCoin inputs (prevout txin))) (vin tx).

Definition GetLegacySigOpCount (tx : CTransaction) : Z :=
  let nSigOps := fold_left (λ n txin, u32 (n + GetSigOpCount (scriptSig txin) false)) (vin tx) 0 in
  fold_left (λ n o, u32 (n + GetSigOpCount (scriptPubKey o) false)) (vout tx) nSigOps.

(** The sum over the inputs of a count that uses the output which is spent; [None] is the failed assertion. *)
Fixpoint sum_inputs (inputs : coins_view) (count : CTxIn → CTxOut → option Z) (wrap : Z → Z) (vin : list CTxIn) (n : Z) : option Z :=
  match vin with
  | [] => Some n
  | txin :: vin' => coin ← view_AccessCoin inputs (prevout txin); k ← count txin (out coin); sum_inputs inputs count wrap vin' (wrap (n + k))
  end.

Definition GetP2SHSigOpCount (tx : CTransaction) (inputs : coins_view) : option Z :=
  if IsCoinBase tx then Some 0
  else
    sum_inputs inputs (λ txin prevout,
      Some (if IsPayToScriptHash (scriptPubKey prevout) then GetSigOpCount_P2SH (scriptPubKey prevout) (scriptSig txin) else 0)) u32 (vin tx) 0.

Definition GetTransactionSigOpCost (tx : CTransaction) (inputs : coins_view) (flags : Z) : option Z :=
  let nSigOps := u32 (GetLegacySigOpCount tx * WITNESS_SCALE_FACTOR) in
  if IsCoinBase tx then Some nSigOps
  else
    p2sh ← (if has flags SCRIPT_VERIFY_P2SH then n ← GetP2SHSigOpCount tx inputs; Some (u32 (n * WITNESS_SCALE_FACTOR)) else Some 0);
    sum_inputs inputs (λ txin prevout, CountWitnessSigOps (scriptSig txin) (scriptPubKey prevout) (Some (scriptWitness txin)) flags) i64 (vin tx)
      (nSigOps + p2sh).

(** * The state of validation *)

(** The state is left valid, made invalid with a level of misbehaviour and a reason, or the call does not return. *)
Inductive validation := Valid | DoS (level : Z) (reason : text) | Abort.

Definition dos_if (level : Z) (c : bool) (reason : text) : validation := if c then DoS level reason else Valid.
Definition of_verdict (level : Z) (prefix : text) (v : verdict) : validation :=
  match v with Accept => Valid | Reject strError => DoS level (prefix ++ strError) | Crash => Abort end.

Declare Scope validation_scope.
Notation "'then_if' a ; b" := (match a with Valid => b | DoS level reason => DoS level reason | Abort => Abort end)
  (at level 10, a at level 100, b at level 200) : validation_scope.
Notation "'need' x 'from' o 'or' e ; b" := (match o with Some x => b | None => DoS 100 e end)
  (at level 10, x pattern, o at level 100, e at level 100, b at level 200) : validation_scope.
Open Scope validation_scope.

Fixpoint valid_all {A} (f : A → validation) (l : list A) : validation := match l with [] => Valid | x :: l' => then_if f x; valid_all f l' end.

(** * CheckTransaction *)

Section verify.
Context (params : ChainParams) (dep : Deployments) (uninit : AssetType).

Abbreviation MAX_BLOCK_WEIGHT := 8000000.
Definition stripped_size (tx : CTransaction) : Z := size (SerializeTransaction SERIALIZE_TRANSACTION_NO_WITNESS tx).

(** The variables of the loop over the outputs. Every count of [mapNullDataTxCount] that is kept is one. *)
Record scan := mkScan {
  nValueOut : Z; setAssetTransferNames : gset text; mapNullDataTxCount : gset (text * text); setNullGlobalAssetChanges : gset text;
  fContainsNullAssetVerifierTx : bool; nCountAddTagOuts : Z }.
Definition scan_init : scan := mkScan 0 ∅ ∅ ∅ false 0.

(** A turn that goes on with new values of the variables, or returns. *)
Definition turn : Type := validation + scan.
Definition continue_if (v : validation) (s : scan) : turn := match v with Valid => inr s | _ => inl v end.
Definition and_then (t : turn) (f : scan → turn) : turn := match t with inl v => inl v | inr s => f s end.

(** The data outputs of assets. *)
Definition scan_null_asset (o : CTxOut) (s : scan) : turn :=
  let script := scriptPubKey o in
  if IsNullAssetTxDataScript script then
    match AssetNullDataFromScript (prefixes params) script with
    | None => inl (DoS 100 (str "bad-txns-null-asset-data-serialization"))
    | Some (data, address) =>
        continue_if
          (then_if of_verdict 100 [] (VerifyNullAssetDataFlag (nd_flag data));
           dos_if 100 (bool_decide ((nd_asset_name data, address) ∈ mapNullDataTxCount s)) (str "bad-txns-null-data-only-one-change-per-asset-address"))
          (mkScan (nValueOut s) (setAssetTransferNames s) ({[(nd_asset_name data, address)]} ∪ mapNullDataTxCount s) (setNullGlobalAssetChanges s)
             (fContainsNullAssetVerifierTx s)
             (if IsAssetNameAQualifier (nd_asset_name data) false && (nd_flag data =? 1) then nCountAddTagOuts s + 1 else nCountAddTagOuts s))
    end
  else if IsNullGlobalRestrictionAssetTxDataScript script then
    match GlobalAssetNullDataFromScript script with
    | None => inl (DoS 100 (str "bad-txns-null-global-asset-data-serialization"))
    | Some data =>
        continue_if
          (then_if of_verdict 100 [] (VerifyNullAssetDataFlag (nd_flag data));
           dos_if 100 (bool_decide (nd_asset_name data ∈ setNullGlobalAssetChanges s)) (str "bad-txns-null-data-only-one-global-change-per-asset-name"))
          (mkScan (nValueOut s) (setAssetTransferNames s) (mapNullDataTxCount s) ({[nd_asset_name data]} ∪ setNullGlobalAssetChanges s)
             (fContainsNullAssetVerifierTx s) (nCountAddTagOuts s))
    end
  else if IsNullAssetVerifierTxDataScript script then
    continue_if
      (then_if of_verdict 100 [] (CheckVerifierAssetTxOut o);
       dos_if 100 (fContainsNullAssetVerifierTx s) (str "bad-txns-null-data-only-one-verifier-per-tx"))
      (mkScan (nValueOut s) (setAssetTransferNames s) (mapNullDataTxCount s) (setNullGlobalAssetChanges s) true (nCountAddTagOuts s))
  else inr s.

(** The amount and the value of a transfer. *)
Definition check_transfer (o : CTxOut) (transfer : CAssetTransfer) : validation :=
  then_if dos_if 100 (negb (asset_name_valid (at_strName transfer))) (str "bad-txns-transfer-asset-name-invalid");
  let assetType := asset_type_of uninit (at_strName transfer) in
  then_if dos_if 100 (IsAssetNameAnOwner (at_strName transfer) && negb (at_nAmount transfer =? OWNER_ASSET_AMOUNT)) (str "bad-txns-transfer-owner-amount-was-not-1");
  then_if dos_if 100 (bool_decide (assetType = UNIQUE) && negb (at_nAmount transfer =? UNIQUE_ASSET_AMOUNT)) (str "bad-txns-transfer-unique-amount-was-not-1");
  then_if dos_if 100 ((bool_decide (assetType = QUALIFIER) || bool_decide (assetType = SUB_QUALIFIER)) &&
                      ((at_nAmount transfer <? QUALIFIER_ASSET_MIN_AMOUNT) || (QUALIFIER_ASSET_MAX_AMOUNT <? at_nAmount transfer)))
    (str "bad-txns-transfer-qualifier-amount-must be between 1 - 100");
  dos_if 100 (negb (nValue o =? 0)) (str "bad-txns-asset-transfer-amount-isn't-zero").

(** The outputs that carry assets. *)
Definition scan_asset (fMempoolCheck fBlockCheck : bool) (o : CTxOut) (s : scan) : turn :=
  match IsAssetScript3 (scriptPubKey o) with
  | None => inr s
  | Some (TX_TRANSFER_ASSET, _, _) =>
      match TransferAssetFromScript (prefixes params) (AreTransferScriptsSizeDeployed dep) (scriptPubKey o) with
      | None => inl (DoS 100 (str "bad-txns-transfer-asset-bad-deserialize"))
      | Some (transfer, _) =>
          continue_if (check_transfer o transfer)
            (mkScan (nValueOut s) ({[at_strName transfer]} ∪ setAssetTransferNames s) (mapNullDataTxCount s) (setNullGlobalAssetChanges s)
               (fContainsNullAssetVerifierTx s) (nCountAddTagOuts s))
      end
  | Some (TX_NEW_ASSET, _, _) => continue_if (dos_if 100 (negb (nValue o =? 0)) (str "bad-txns-asset-issued-amount-isn't-zero")) s
  | Some (TX_REISSUE_ASSET, _, _) =>
      continue_if
        (then_if dos_if 0 (AreEnforcedValuesDeployed dep && fBlockCheck && negb (nValue o =? 0)) (str "bad-txns-asset-reissued-amount-isn't-zero");
         dos_if 0 (fMempoolCheck && negb (nValue o =? 0)) (str "bad-mempool-txns-asset-reissued-amount-isn't-zero")) s
  | Some _ => inl (DoS 0 (str "bad-asset-type-not-any-of-the-main-three"))
  end.

(** One turn of the loop. *)
Definition scan_output (fMempoolCheck fBlockCheck : bool) (s : scan) (o : CTxOut) : turn :=
  let total := i64 (nValueOut s + nValue o) in
  match
    then_if dos_if 100 (nValue o <? 0) (str "bad-txns-vout-negative");
    then_if dos_if 100 (MAX_MONEY <? nValue o) (str "bad-txns-vout-toolarge");
    dos_if 100 (negb (MoneyRange total)) (str "bad-txns-txouttotal-toolarge")
  with
  | Valid =>
      let s := mkScan total (setAssetTransferNames s) (mapNullDataTxCount s) (setNullGlobalAssetChanges s) (fContainsNullAssetVerifierTx s) (nCountAddTagOuts s) in
      and_then (if IsNullAsset (scriptPubKey o) then scan_null_asset o s else inr s) (scan_asset fMempoolCheck fBlockCheck o)
  | v => inl v
  end.
Fixpoint scan_outputs (fMempoolCheck fBlockCheck : bool) (vout : list CTxOut) (s : scan) : turn :=
  match vout with [] => inr s | o :: vout' => and_then (scan_output fMempoolCheck fBlockCheck s o) (scan_outputs fMempoolCheck fBlockCheck vout') end.

(** Changes of tags and restrictions move the token that authorises them. The first character of an empty name is
    undefined. *)
Definition check_null_data (s : scan) : validation :=
  then_if valid_all (λ name,
    match name with
    | [] => Abort
    | c :: ownerToken =>
        if c =? chr "$" then
          dos_if 100 (negb (bool_decide (ownerToken ++ OWNER_TAG ∈ setAssetTransferNames s)))
            (str "bad-txns-tx-contains-restricted-asset-null-tx-without-asset-transfer")
        else dos_if 100 (negb (bool_decide (name ∈ setAssetTransferNames s))) (str "bad-txns-tx-contains-qualifier-asset-null-tx-without-asset-transfer")
    end) (in_order (set_map fst (mapNullDataTxCount s)));
  valid_all (λ name,
    match name with
    | [] => DoS 100 (str "bad-txns-tx-contains-global-asset-null-tx-with-null-asset-name")
    | _ :: rootName =>
        dos_if 100 (negb (bool_decide (rootName ++ OWNER_TAG ∈ setAssetTransferNames s)))
          (str "bad-txns-tx-contains-global-asset-null-tx-without-asset-transfer")
    end) (in_order (setNullGlobalAssetChanges s)).

(** The inputs of a coinbase and of other transactions. *)
Definition check_inputs (fCheckDuplicateInputs : bool) (tx : CTransaction) : validation :=
  then_if dos_if 100 (fCheckDuplicateInputs && negb (bool_decide (NoDup (map prevout (vin tx))))) (str "bad-txns-inputs-duplicate");
  if IsCoinBase tx then
    let scriptSize := match vin tx with txin :: _ => size (scriptSig txin) | [] => 0 end in
    then_if dos_if 100 ((scriptSize <? 2) || (100 <? scriptSize)) (str "bad-cb-length");
    dos_if 0 (AreCoinbaseCheckAssetsDeployed dep && existsb (λ o, IsAssetScript (scriptPubKey o) || IsNullAsset (scriptPubKey o)) (vout tx))
      (str "bad-txns-coinbase-contains-asset-txes")
  else dos_if 10 (existsb (λ txin, COutPoint_IsNull (prevout txin)) (vin tx)) (str "bad-txns-prevout-null").

(** Transactions that issue or reissue assets: whether a restricted asset is issued, and whether one is reissued. *)
Definition check_issue (tx : CTransaction) : validation * (bool * bool) :=
  let invalid v := (v, (false, false)) in
  if tx_IsNewAsset params tx then
    invalid
      (then_if of_verdict 100 [] (VerifyNewAsset params dep uninit tx);
       need (asset, strAddress) from AssetFromTransaction params tx or str "bad-txns-issue-asset-from-transaction";
       then_if of_verdict 100 [] (IsNewOwnerTxValid params tx (na_strName asset) strAddress);
       of_verdict 100 [] (CheckNewAsset asset))
  else if tx_IsReissueAsset tx then
    match ReissueAssetFromTransaction params tx with
    | None => invalid (then_if of_verdict 100 [] (VerifyReissueAsset params dep tx); DoS 100 (str "bad-txns-reissue-asset"))
    | Some (reissue, _) =>
        let restricted := bool_decide (asset_type_of uninit (ra_strName reissue) = RESTRICTED) in
        (then_if of_verdict 100 [] (VerifyReissueAsset params dep tx);
         then_if of_verdict 100 [] (CheckReissueAsset params reissue);
         if restricted then
           match GetVerifierStringFromTx tx with
           | (None, strError, false) => DoS 100 (str "bad-txns-reissue-restricted-verifier-" ++ strError)
           | _ => Valid
           end
         else Valid, (false, restricted))
    end
  else if IsNewUniqueAsset params tx then
    invalid
      (then_if of_verdict 100 [] (VerifyNewUniqueAsset params dep tx);
       valid_all (λ o,
         if is_some (IsScriptNewUniqueAsset (prefixes params) (scriptPubKey o)) then
           need (asset, _) from AssetFromScript (prefixes params) (scriptPubKey o) or str "bad-txns-check-transaction-issue-unique-asset-serialization";
           of_verdict 100 (str "bad-txns-issue-unique") (CheckNewAsset asset)
         else Valid) (vout tx))
  else if IsNewMsgChannelAsset params tx then
    invalid
      (then_if of_verdict 100 [] (VerifyNewMsgChannelAsset params dep tx);
       need (asset, _) from MsgChannelAssetFromTransaction params tx or str "bad-txns-issue-msgchannel-from-transaction";
       of_verdict 100 (str "bad-txns-issue-msgchannel") (CheckNewAsset asset))
  else if IsNewQualifierAsset params tx then
    invalid
      (then_if of_verdict 100 [] (VerifyNewQualfierAsset params dep uninit tx);
       need (asset, _) from QualifierAssetFromTransaction params tx or str "bad-txns-issue-qualifier-from-transaction";
       of_verdict 100 (str "bad-txns-issue-qualfier") (CheckNewAsset asset))
  else if IsNewRestrictedAsset params tx then
    (then_if of_verdict 100 [] (VerifyNewRestrictedAsset params dep uninit tx);
     need (asset, _) from RestrictedAssetFromTransaction params tx or str "bad-txns-issue-restricted-from-transaction";
     then_if of_verdict 100 (str "bad-txns-issue-restricted") (CheckNewAsset asset);
     match GetVerifierStringFromTx tx with
     | (None, strError, _) => DoS 100 (str "bad-txns-issue-restricted-verifier-search-" ++ strError)
     | _ => Valid
     end, (true, false))
  else
    invalid (valid_all (λ o,
      match IsAssetScript3 (scriptPubKey o) with
      | Some (TX_TRANSFER_ASSET, _, _) => Valid
      | Some _ => DoS 100 (str "bad-txns-bad-asset-transaction")
      | None =>
          dos_if 100 (negb (Find (scriptPubKey o) OP_cmusicai_ASSET =? 0) && negb (byte_at (scriptPubKey o) 0 =? OP_cmusicai_ASSET))
            (str "bad-txns-op-neox-asset-not-in-right-script-location")
      end) (vout tx)).

Definition CheckTransaction (tx : CTransaction) (fCheckDuplicateInputs fMempoolCheck fBlockCheck : bool) : validation :=
  then_if dos_if 10 (length (vin tx) =? 0)%nat (str "bad-txns-vin-empty");
  then_if dos_if 10 (length (vout tx) =? 0)%nat (str "bad-txns-vout-empty");
  then_if dos_if 100 (MAX_BLOCK_WEIGHT <? stripped_size tx * WITNESS_SCALE_FACTOR) (str "bad-txns-oversize");
  match scan_outputs fMempoolCheck fBlockCheck (vout tx) scan_init with
  | inl v => v
  | inr s =>
      then_if dos_if 100 (negb (nCountAddTagOuts s =? 0) && negb (CheckAddingTagBurnFee params tx (nCountAddTagOuts s)))
        (str "bad-txns-tx-doesn't-contain-required-burn-fee-for-adding-tags");
      then_if check_null_data s;
      then_if check_inputs fCheckDuplicateInputs tx;
      let '(v, (fContainsNewRestrictedAsset, fContainsRestrictedAssetReissue)) := check_issue tx in
      then_if v;
      then_if dos_if 100 (fContainsNullAssetVerifierTx s && negb fContainsRestrictedAssetReissue && negb fContainsNewRestrictedAsset)
        (str "bad-txns-tx-cointains-verifier-string-without-restricted-asset-issuance-or-reissuance");
      dos_if 100 (fContainsNewRestrictedAsset && negb (fContainsNullAssetVerifierTx s))
        (str "bad-txns-tx-cointains-restricted-asset-issuance-without-verifier")
  end.

(** * Values *)

(** The loop over the inputs: their value. *)
Fixpoint value_in (inputs : coins_view) (nSpendHeight : Z) (vin : list CTxIn) (nValueIn : Z) : validation + Z :=
  match vin with
  | [] => inr nValueIn
  | txin :: vin' =>
      match view_AccessCoin inputs (prevout txin) with
      | None => inl Abort
      | Some coin =>
          if fCoinBase coin && (i32 (nSpendHeight - coin_nHeight coin) <? COINBASE_MATURITY) then inl (DoS 0 (str "bad-txns-premature-spend-of-coinbase"))
          else
            let nValueIn := i64 (nValueIn + nValue (out coin)) in
            if negb (MoneyRange (nValue (out coin))) || negb (MoneyRange nValueIn) then inl (DoS 100 (str "bad-txns-inputvalues-outofrange"))
            else value_in inputs nSpendHeight vin' nValueIn
      end
  end.

(** The fee, or the state of a failure. *)
Definition CheckTxInputs (tx : CTransaction) (inputs : coins_view) (nSpendHeight : Z) : validation + Z :=
  if negb (view_HaveInputs inputs tx) then inl (DoS 100 (str "bad-txns-inputs-missingorspent"))
  else
    match value_in inputs nSpendHeight (vin tx) 0 with
    | inl v => inl v
    | inr nValueIn =>
        match GetValueOut IsAssetScript (AreEnforcedValuesDeployed dep) tx with
        | None => inl Abort
        | Some value_out =>
            if nValueIn <? value_out then inl (DoS 100 (str "bad-txns-in-belowout"))
            else
              let txfee := i64 (nValueIn - value_out) in
              if negb (MoneyRange txfee) then inl (DoS 100 (str "bad-txns-fee-out-of-range")) else inr txfee
        end
    end.

(** * Assets *)

Definition add_total (name : text) (nAmount : Z) (m : totals) : totals :=
  match m !! name with Some total => <[name := i64 (total + nAmount)]> m | None => <[name := nAmount]> m end.

(** The loop over the inputs: the amounts of assets that are spent, and an address for each name. *)
Fixpoint asset_inputs (inputs : coins_view) (assetCache : option AssetsView) (vin : list CTxIn) (totalInputs : totals) (mapAddresses : gmap text text)
    : validation + (totals * gmap text text) :=
  match vin with
  | [] => inr (totalInputs, mapAddresses)
  | txin :: vin' =>
      match view_AccessCoin inputs (prevout txin) with
      | None => inl Abort
      | Some coin =>
          if IsAssetScript (scriptPubKey (out coin)) then
            match GetAssetData (prefixes params) (AreTransferScriptsSizeDeployed dep) (scriptPubKey (out coin)) with
            | None => inl (DoS 100 (str "bad-txns-failed-to-get-asset-from-script"))
            | Some data =>
                let address := default [] (EncodeDestination (prefixes params) (e_destination data)) in
                let mapAddresses :=
                  if AreMessagesDeployed dep then match mapAddresses !! e_assetName data with Some _ => mapAddresses | None => <[e_assetName data := address]> mapAddresses end
                  else mapAddresses in
                match
                  (if IsAssetNameAnRestricted (e_assetName data) then
                     match assetCache with
                     | None => Abort
                     | Some c => dos_if 100 (CheckForAddressRestriction (e_assetName data) address) (str "bad-txns-restricted-asset-transfer-from-frozen-address")
                     end
                   else Valid)
                with
                | Valid => asset_inputs inputs assetCache vin' (add_total (e_assetName data) (e_nAmount data) totalInputs) mapAddresses
                | v => inl v
                end
            end
          else asset_inputs inputs assetCache vin' totalInputs mapAddresses
      end
  end.

(** The data outputs of assets, against the cache. *)
Definition contextual_null_asset (assetCache : option AssetsView) (o : CTxOut) : validation :=
  then_if dos_if 100 (IsAssetScript (scriptPubKey o) && negb (AreAssetsDeployed dep)) (str "bad-txns-is-asset-and-asset-not-active");
  if IsNullAsset (scriptPubKey o) then
    then_if dos_if 100 (negb (AreRestrictedAssetsDeployed dep)) (str "bad-tx-null-asset-data-before-restricted-assets-activated");
    if IsNullAssetTxDataScript (scriptPubKey o) then of_verdict 100 [] (ContextualCheckNullAssetTxOut params o assetCache)
    else if IsNullGlobalRestrictionAssetTxDataScript (scriptPubKey o) then of_verdict 100 [] (ContextualCheckGlobalAssetTxOut o assetCache)
    else if IsNullAssetVerifierTxDataScript (scriptPubKey o) then of_verdict 100 [] (ContextualCheckVerifierAssetTxOut o assetCache)
    else DoS 100 (str "bad-tx-null-asset-data-unknown-type")
  else Valid.

(** The amount of a transfer, against the units of the asset. *)
Definition transfer_units (assetCache : option AssetsView) (transfer : CAssetTransfer) : validation :=
  if IsAssetNameAnOwner (at_strName transfer) then
    dos_if 100 (negb (at_nAmount transfer =? OWNER_ASSET_AMOUNT)) (str "bad-txns-transfer-owner-amount-was-not-1")
  else
    match assetCache with
    | None => Abort
    | Some c =>
        need asset from GetAssetMetaDataIfExists (at_strName transfer) or str "bad-txns-transfer-asset-not-exist";
        then_if dos_if 100 (negb (text_eqb (na_strName asset) (at_strName transfer))) (str "bad-txns-asset-database-corrupted");
        of_verdict 100 [] (check_units (at_nAmount transfer) (na_units asset) (str "bad-txns-transfer-asset-amount-not-match-units"))
    end.

(** Messages, with what the caller gives to collect them: the time, and that of the block. *)
Record CMessage := mkCMessage { msg_out : COutPoint; msg_strName : text; msg_ipfsHash : text; msg_nExpiredTime : Z; msg_time : Z }.

Definition get_message (collect : option (Z * Z)) (mapAddresses : gmap text text) (txid : uint256) (index : Z) (transfer : CAssetTransfer) (address : text)
    : list CMessage :=
  match collect with
  | Some (currentTime, nBlocktime) =>
      if AreMessagesDeployed dep && (IsAssetNameAnOwner (at_strName transfer) || IsAssetNameAnMsgChannel (at_strName transfer)) &&
         negb (text_eqb (at_message transfer) []) && ((at_nExpireTime transfer =? 0) || (currentTime <? at_nExpireTime transfer)) &&
         match mapAddresses !! at_strName transfer with Some a => text_eqb a address | None => false end
      then [mkCMessage (mkCOutPoint txid (u32 index)) (at_strName transfer) (at_message transfer) (at_nExpireTime transfer) nBlocktime] else []
  | None => []
  end.

(** What the loop over the outputs changes. *)
Record effects := mkEffects { totalOutputs : totals; vPairReissueAssets : list (text * uint256); setMessages : list CMessage }.

Section assets.
Context (assetCache : option AssetsView) (fRunningUnitTests : bool) (mapReissuedAssets : gmap text uint256) (collect : option (Z * Z))
  (in_mempool : option (text → bool)).

Definition asset_output (txid : uint256) (mapAddresses : gmap text text) (index : Z) (o : CTxOut) (e : effects) : validation * effects :=
  match (match assetCache with Some _ => contextual_null_asset assetCache o | None => Valid end) with
  | Valid =>
      match IsAssetScript3 (scriptPubKey o) with
      | Some (TX_TRANSFER_ASSET, _, _) =>
          match TransferAssetFromScript (prefixes params) (AreTransferScriptsSizeDeployed dep) (scriptPubKey o) with
          | None => (DoS 100 (str "bad-tx-asset-transfer-bad-deserialize"), e)
          | Some (transfer, address) =>
              match
                then_if of_verdict 100 [] (ContextualCheckTransferAsset dep uninit assetCache transfer address);
                if fRunningUnitTests then Valid else transfer_units assetCache transfer
              with
              | Valid =>
                  (Valid, mkEffects (add_total (at_strName transfer) (at_nAmount transfer) (totalOutputs e)) (vPairReissueAssets e)
                            (setMessages e ++ get_message collect mapAddresses txid index transfer address))
              | v => (v, e)
              end
          end
      | Some (TX_REISSUE_ASSET, _, _) =>
          match ReissueAssetFromScript (prefixes params) (scriptPubKey o) with
          | None => (DoS 100 (str "bad-tx-asset-reissue-bad-deserialize"), e)
          | Some (reissue, _) =>
              match mapReissuedAssets !! ra_strName reissue with
              | Some h => (dos_if 100 (negb (bool_decide (h = txid))) (str "bad-tx-reissue-chaining-not-allowed"), e)
              | None => (Valid, mkEffects (totalOutputs e) (vPairReissueAssets e ++ [(ra_strName reissue, txid)]) (setMessages e))
              end
          end
      | _ => (Valid, e)
      end
  | v => (v, e)
  end.

Fixpoint asset_outputs (txid : uint256) (mapAddresses : gmap text text) (index : Z) (vout : list CTxOut) (e : effects) : validation * effects :=
  match vout with
  | [] => (Valid, e)
  | o :: vout' =>
      match asset_output txid mapAddresses index o e with
      | (Valid, e') => asset_outputs txid mapAddresses (index + 1) vout' e'
      | r => r
      end
  end.

(** Issues and reissues, against the cache. *)
Definition contextual_issue (c : AssetsView) (tx : CTransaction) : validation :=
  if tx_IsNewAsset params tx then
    need (asset, _) from AssetFromScript (prefixes params) (scriptPubKey (last_out (vout tx))) or str "bad-txns-issue-serialzation-failed";
    of_verdict 100 [] (ContextualCheckNewAsset dep assetCache asset in_mempool)
  else if tx_IsReissueAsset tx then
    need (reissue_asset, _) from ReissueAssetFromScript (prefixes params) (scriptPubKey (last_out (vout tx))) or str "bad-txns-reissue-serialzation-failed";
    of_verdict 100 (str "bad-txns-reissue-contextual-") (ContextualCheckReissueAsset_tx params dep assetCache reissue_asset tx)
  else if IsNewUniqueAsset params tx then
    of_verdict 100 (str "bad-txns-issue-unique-contextual-") (ContextualCheckUniqueAssetTx params dep assetCache tx)
  else if IsNewMsgChannelAsset params tx then
    then_if dos_if 100 (negb (AreMessagesDeployed dep)) (str "bad-txns-issue-msgchannel-before-messaging-is-active");
    need (asset, _) from MsgChannelAssetFromTransaction params tx or str "bad-txns-issue-msgchannel-serialzation-failed";
    of_verdict 100 (str "bad-txns-issue-msgchannel-contextual-") (ContextualCheckNewAsset dep assetCache asset in_mempool)
  else if IsNewQualifierAsset params tx then
    then_if dos_if 100 (negb (AreRestrictedAssetsDeployed dep)) (str "bad-txns-issue-qualifier-before-it-is-active");
    need (asset, _) from QualifierAssetFromTransaction params tx or str "bad-txns-issue-qualifier-serialzation-failed";
    of_verdict 100 (str "bad-txns-issue-qualfier-contextual") (ContextualCheckNewAsset dep assetCache asset in_mempool)
  else if IsNewRestrictedAsset params tx then
    then_if dos_if 100 (negb (AreRestrictedAssetsDeployed dep)) (str "bad-txns-issue-restricted-before-it-is-active");
    need (asset, strAddress) from RestrictedAssetFromTransaction params tx or str "bad-txns-issue-restricted-serialzation-failed";
    then_if of_verdict 100 (str "bad-txns-issue-restricted-contextual") (ContextualCheckNewAsset dep assetCache asset in_mempool);
    match GetVerifierStringFromTx tx with
    | (Some verifier, _, _) => of_verdict 100 [] (ContextualCheckVerifierString (verifier_string verifier) strAddress)
    | (None, strError, _) => DoS 100 (str "bad-txns-issue-restricted-verifier-search-" ++ strError)
    end
  else
    valid_all (λ o,
      match IsAssetScript3 (scriptPubKey o) with
      | Some (TX_TRANSFER_ASSET, _, _) => Valid
      | Some _ => DoS 100 (str "bad-txns-bad-asset-transaction")
      | None =>
          if negb (Find (scriptPubKey o) OP_cmusicai_ASSET =? 0) then
            if AreRestrictedAssetsDeployed dep then
              dos_if 100 (negb (byte_at (scriptPubKey o) 0 =? OP_cmusicai_ASSET)) (str "bad-txns-op-neox-asset-not-in-right-script-location")
            else DoS 100 (str "bad-txns-bad-asset-script")
          else Valid
      end) (vout tx).

(** The comparison of what is spent with what is transferred. *)
Definition compare_totals (totalInputs totalOutputs : totals) : validation :=
  then_if valid_all (λ name,
    match totalInputs !! name with
    | None =>
        DoS 100 (str "bad-tx-inputs-outputs-mismatch Bad Transaction - Trying to create outpoint for asset that you don't have: " ++ name)
    | Some nIn =>
        dos_if 100 (negb (nIn =? default 0 (totalOutputs !! name))) (str "bad-tx-inputs-outputs-mismatch Bad Transaction - Assets would be burnt " ++ name)
    end) (in_order (dom totalOutputs));
  dos_if 100 (negb (base.size totalOutputs =? base.size totalInputs)%nat) (str "bad-tx-asset-inputs-size-does-not-match-outputs-size").

(** The state, the assets that are reissued and the messages. *)
Definition CheckTxAssets (tx : CTransaction) (inputs : coins_view) : validation * (list (text * uint256) * list CMessage) :=
  if negb (view_HaveInputs inputs tx) then (DoS 100 (str "bad-txns-inputs-missing-or-spent"), ([], []))
  else
    match asset_inputs inputs assetCache (vin tx) ∅ ∅ with
    | inl v => (v, ([], []))
    | inr (totalInputs, mapAddresses) =>
        let '(v, e) := asset_outputs (CTransaction_ComputeHash hash_mem tx) mapAddresses 0 (vout tx) (mkEffects ∅ [] []) in
        (then_if v;
         then_if match assetCache with Some c => contextual_issue c tx | None => Valid end;
         compare_totals totalInputs (totalOutputs e), (vPairReissueAssets e, setMessages e))
    end.
End assets.
End verify.

(** * Steps *)

Lemma then_valid (a b : validation) : (then_if a; b) = Valid ↔ a = Valid ∧ b = Valid.
Proof. destruct a; intuition done. Qed.
Lemma need_valid {A} (o : option A) e (b : A → validation) : (need x from o or e; b x) = Valid ↔ ∃ x, o = Some x ∧ b x = Valid.
Proof. destruct o; split; try done; [eauto|by intros (? & [= <-] & ?)|by intros (? & ? & ?)]. Qed.
Lemma dos_valid n c e : dos_if n c e = Valid ↔ c = false.
Proof. by destruct c. Qed.
Lemma verdict_valid n p v : of_verdict n p v = Valid ↔ v = Accept.
Proof. by destruct v. Qed.
Lemma valid_all_spec {A} (f : A → validation) l : valid_all f l = Valid ↔ Forall (λ x, f x = Valid) l.
Proof. induction l as [|x l IH]; [done|]. cbn [valid_all]. by rewrite then_valid, Forall_cons, IH. Qed.
Lemma continue_inv v s s' : continue_if v s = inr s' ↔ v = Valid ∧ s' = s.
Proof. destruct v; cbn [continue_if]; split; try done; try (by intros [? ?]); [by intros [= <-]|by intros [_ ->]]. Qed.
Lemma and_then_inv t f s' : and_then t f = inr s' ↔ ∃ s, t = inr s ∧ f s = inr s'.
Proof. destruct t as [v|s]; cbn [and_then]; [split; [done|by intros (? & ? & _)]|]. split; [eauto|by intros (? & [= <-] & ?)]. Qed.

(** * Outputs *)

Lemma scan_null_asset_value params o s s' : scan_null_asset params o s = inr s' → nValueOut s' = nValueOut s.
Proof.
  unfold scan_null_asset. intros H.
  repeat (case_match; try discriminate H); first [injection H as <-; done | apply continue_inv in H as [_ ->]; done].
Qed.
Lemma scan_asset_value params dep uninit m b o s s' : scan_asset params dep uninit m b o s = inr s' → nValueOut s' = nValueOut s.
Proof.
  unfold scan_asset. intros H. repeat (case_match; try discriminate H); simplify_eq; try done; apply continue_inv in H as [_ ->]; done.
Qed.

(** The values of a list of outputs that can follow a total. *)
Definition values_ok (total : Z) (vout : list CTxOut) : Prop := Forall (λ o, 0 ≤ nValue o) vout ∧ total + sum_values vout ≤ MAX_MONEY.

Lemma sum_values_cons o l : sum_values (o :: l) = nValue o + sum_values l.
Proof. done. Qed.

Lemma values_ok_cons total o vout : 0 ≤ total → values_ok total (o :: vout) ↔ 0 ≤ nValue o ∧ total + nValue o ≤ MAX_MONEY ∧ values_ok (total + nValue o) vout.
Proof.
  intros Ht. unfold values_ok. rewrite Forall_cons, sum_values_cons. pose proof (sum_values_nonneg vout). rewrite Z.add_assoc.
  intuition lia.
Qed.

Lemma scan_total total v : 0 ≤ total ≤ MAX_MONEY →
  (then_if dos_if 100 (v <? 0) (str "bad-txns-vout-negative"); then_if dos_if 100 (MAX_MONEY <? v) (str "bad-txns-vout-toolarge");
   dos_if 100 (negb (MoneyRange (i64 (total + v)))) (str "bad-txns-txouttotal-toolarge")) = Valid ↔ 0 ≤ v ∧ total + v ≤ MAX_MONEY.
Proof.
  intros Ht. rewrite !then_valid, !dos_valid, Z.ltb_ge, Z.ltb_ge, negb_false_iff, MoneyRange_spec. split.
  - intros (Hv & Hm & Hr). rewrite i64_small in Hr; [lia|]. unfold is_i64, MAX_MONEY, COIN in *. lia.
  - intros [Hv Hr]. rewrite i64_small; [lia|]. unfold is_i64, MAX_MONEY, COIN in *. lia.
Qed.

Lemma scan_output_inv params dep uninit m b s o s' : 0 ≤ nValueOut s ≤ MAX_MONEY → scan_output params dep uninit m b s o = inr s' →
  0 ≤ nValue o ∧ nValueOut s + nValue o ≤ MAX_MONEY ∧ nValueOut s' = nValueOut s + nValue o.
Proof.
  intros Hs H. unfold scan_output in H. cbv zeta in H. pose proof (scan_total (nValueOut s) (nValue o) Hs) as Ht.
  destruct (then_if _; _); try done. destruct (proj1 Ht eq_refl) as [H0 Hm]. split_and!; [done..|].
  apply and_then_inv in H as (s1 & H1 & H2). apply scan_asset_value in H2 as ->.
  assert (i64 (nValueOut s + nValue o) = nValueOut s + nValue o) as Ei by (apply i64_small; unfold is_i64, MAX_MONEY, COIN in *; lia).
  rewrite Ei in H1. destruct (IsNullAsset _); [by apply scan_null_asset_value in H1 as ->|by injection H1 as <-].
Qed.

Lemma scan_outputs_values params dep uninit m b vout : ∀ s s', 0 ≤ nValueOut s ≤ MAX_MONEY → scan_outputs params dep uninit m b vout s = inr s' →
  values_ok (nValueOut s) vout.
Proof.
  induction vout as [|o vout IH]; intros s s' Hs H; [split; [done|cbn; lia]|].
  cbn [scan_outputs] in H. apply and_then_inv in H as (s1 & H1 & H2). apply scan_output_inv in H1 as (? & ? & E1); [|done].
  apply values_ok_cons; [lia|]. split_and!; try done. rewrite <- E1. eapply IH; [lia|done].
Qed.

(** Outputs without assets. *)
Definition plain_output (o : CTxOut) : Prop :=
  IsAssetScript3 (scriptPubKey o) = None ∧ IsNullAsset (scriptPubKey o) = false ∧
  (Find (scriptPubKey o) OP_cmusicai_ASSET = 0 ∨ byte_at (scriptPubKey o) 0 = OP_cmusicai_ASSET).

Lemma scan_plain params dep uninit m b vout : Forall plain_output vout → ∀ total, 0 ≤ total → values_ok total vout →
  scan_outputs params dep uninit m b vout (mkScan total ∅ ∅ ∅ false 0) = inr (mkScan (total + sum_values vout) ∅ ∅ ∅ false 0).
Proof.
  induction 1 as [|o vout (Ha & Hn & _) _ IH]; intros total Ht Hv; [by cbn; rewrite Z.add_0_r|].
  apply values_ok_cons in Hv as (Ho & Hm & Hv); [|done]. cbn [scan_outputs]. unfold scan_output. cbv zeta. cbn [nValueOut].
  rewrite (proj2 (scan_total total (nValue o) ltac:(lia)) (conj Ho Hm)).
  cbn [setAssetTransferNames mapNullDataTxCount setNullGlobalAssetChanges fContainsNullAssetVerifierTx nCountAddTagOuts]. rewrite Hn. cbn [and_then].
  unfold scan_asset. rewrite Ha. cbn [and_then]. rewrite i64_small by (unfold is_i64, MAX_MONEY, COIN in *; lia).
  rewrite IH by (done || lia). by rewrite sum_values_cons, Z.add_assoc.
Qed.

(** * CheckTransaction *)

(** What holds of every transaction that passes. *)
Definition basic_ok (fCheckDuplicateInputs : bool) (tx : CTransaction) : Prop :=
  vin tx ≠ [] ∧ vout tx ≠ [] ∧ stripped_size tx * 4 ≤ 8000000 ∧ values_ok 0 (vout tx) ∧
  (fCheckDuplicateInputs = true → NoDup (map prevout (vin tx))) ∧
  match vin tx with
  | [i] => if COutPoint_IsNull (prevout i) then 2 ≤ size (scriptSig i) ≤ 100 else True
  | l => Forall (λ i, COutPoint_IsNull (prevout i) = false) l
  end.

Lemma check_inputs_inv dep dup tx : check_inputs dep dup tx = Valid →
  (dup = true → NoDup (map prevout (vin tx))) ∧
  match vin tx with
  | [i] => if COutPoint_IsNull (prevout i) then 2 ≤ size (scriptSig i) ≤ 100 else True
  | l => Forall (λ i, COutPoint_IsNull (prevout i) = false) l
  end.
Proof.
  unfold check_inputs, IsCoinBase. rewrite then_valid, dos_valid. intros [Hd H]. split.
  { intros ->. cbn [andb] in Hd. by apply negb_false_iff, bool_decide_eq_true in Hd. }
  destruct (vin tx) as [|i [|j l]]; [done|..].
  - destruct (COutPoint_IsNull (prevout i)); [|done]. apply then_valid in H as [H _]. rewrite dos_valid, orb_false_iff in H. lia.
  - rewrite dos_valid in H. apply Forall_forall. intros x Hx. apply not_true_iff_false. intros E. apply not_true_iff_false in H. apply H.
    apply existsb_exists. exists x. by rewrite <- list_elem_of_In.
Qed.

(** A turn that returns has failed. *)
Lemma continue_fails v s : continue_if v s ≠ inl Valid.
Proof. by destruct v. Qed.
Lemma scan_output_fails params dep uninit m b s o : scan_output params dep uninit m b s o ≠ inl Valid.
Proof.
  unfold scan_output. cbv zeta. destruct (then_if _; _); try done. unfold and_then.
  destruct (if IsNullAsset _ then _ else _) eqn:E; unfold scan_null_asset, scan_asset in *.
  - intros [= ->]. revert E. repeat case_match; try done; apply continue_fails.
  - clear E. repeat case_match; try done; apply continue_fails.
Qed.
Lemma scan_outputs_fails params dep uninit m b vout : ∀ s, scan_outputs params dep uninit m b vout s ≠ inl Valid.
Proof.
  induction vout as [|o vout IH]; intros s; [done|]. cbn [scan_outputs]. pose proof (scan_output_fails params dep uninit m b s o).
  unfold and_then. destruct (scan_output _ _ _ _ _ _ _); [congruence|apply IH].
Qed.

Lemma length_nil {A} (l : list A) : (length l =? 0)%nat = false ↔ l ≠ [].
Proof. by destruct l. Qed.

Lemma CheckTransaction_basic params dep uninit tx dup m b : CheckTransaction params dep uninit tx dup m b = Valid → basic_ok dup tx.
Proof.
  unfold CheckTransaction. rewrite !then_valid, !dos_valid, !length_nil, Z.ltb_ge. intros (Hi & Ho & Hs & H). unfold basic_ok.
  destruct (scan_outputs _ _ _ _ _ _ _) as [v|s] eqn:Es; [subst v; by apply scan_outputs_fails in Es|].
  rewrite !then_valid in H. destruct H as (_ & _ & Hin & _). apply check_inputs_inv in Hin as [Hd Hin].
  apply scan_outputs_values in Es; [|cbn; unfold MAX_MONEY, COIN; lia]. split_and!; done.
Qed.

(** Scripts that carry no asset issue none. *)
Lemma no_asset_script s : IsAssetScript3 s = None →
  IsScriptNewAsset s = None ∧ IsScriptOwnerAsset s = None ∧ IsScriptReissueAsset s = None.
Proof. intros E. unfold IsScriptNewAsset, IsScriptOwnerAsset, IsScriptReissueAsset. by rewrite E. Qed.

Lemma check_issue_plain params dep uninit tx : vout tx ≠ [] → Forall plain_output (vout tx) → check_issue params dep uninit tx = (Valid, (false, false)).
Proof.
  intros Hne Hp. assert (Hl : IsAssetScript3 (scriptPubKey (last_out (vout tx))) = None).
  { unfold last_out. destruct (vout tx) as [|o l] eqn:E using rev_ind; [done|]. rewrite List.last_last. apply Forall_app in Hp as [_ Hp].
    apply (proj1 (Forall_singleton _ _)) in Hp. apply Hp. }
  destruct (no_asset_script _ Hl) as (Hn & _ & Hr). unfold check_issue, tx_IsNewAsset, tx_IsReissueAsset, IsNewUniqueAsset, IsNewMsgChannelAsset,
    IsNewQualifierAsset, IsNewRestrictedAsset, CheckIssueDataTx, CheckReissueDataTx. rewrite Hn, Hr. cbn [is_some andb]. rewrite andb_false_r. cbn [andb].
  f_equal. apply valid_all_spec. eapply Forall_impl; [exact Hp|]. intros o (-> & _ & [-> | ->]); [done|]. by rewrite dos_valid, Z.eqb_refl, andb_false_r.
Qed.

Lemma CheckTransaction_plain params dep uninit tx dup m b : Forall plain_output (vout tx) → basic_ok dup tx → CheckTransaction params dep uninit tx dup m b = Valid.
Proof.
  intros Hp (Hi & Ho & Hs & Hv & Hd & Hin). unfold CheckTransaction. rewrite !then_valid, !dos_valid, !length_nil, Z.ltb_ge. split_and!; [done..|].
  unfold scan_init. rewrite scan_plain by (done || lia). rewrite check_issue_plain by done.
  cbn [nCountAddTagOuts fContainsNullAssetVerifierTx andb negb]. rewrite !then_valid, !dos_valid. split_and!; try done.
  unfold check_inputs, IsCoinBase. rewrite then_valid, dos_valid. split.
  { destruct dup; [|done]. cbn [andb]. rewrite negb_false_iff, bool_decide_eq_true. auto. }
  assert (Hc : existsb (λ o, IsAssetScript (scriptPubKey o) || IsNullAsset (scriptPubKey o)) (vout tx) = false).
  { apply existsb_none. eapply Forall_impl; [exact Hp|]. intros o (E & -> & _). unfold IsAssetScript. rewrite E. done. }
  assert (Hnull : Forall (λ i, COutPoint_IsNull (prevout i) = false) (vin tx) → existsb (λ txin, COutPoint_IsNull (prevout txin)) (vin tx) = false) by apply existsb_none.
  destruct (vin tx) as [|i [|j l]]; [done|..].
  - destruct (COutPoint_IsNull (prevout i)) eqn:E; [|rewrite Hnull; [done|by repeat constructor]].
    rewrite then_valid, !dos_valid, Hc, andb_false_r. split; [|done]. destruct (Z.ltb_spec (size (scriptSig i)) 2), (Z.ltb_spec 100 (size (scriptSig i))); (done || lia).
  - rewrite dos_valid. auto.
Qed.

(** * CheckTxInputs *)

(** The coins that the inputs spend. *)
Fixpoint spent_coins (inputs : coins_view) (vin : list CTxIn) : option (list Coin) :=
  match vin with [] => Some [] | i :: vin' => c ← view_AccessCoin inputs (prevout i); cs ← spent_coins inputs vin'; Some (c :: cs) end.
Definition coin_values (cs : list Coin) : Z := sum_values (map out cs).
Definition view_ok (inputs : coins_view) : Prop := ∀ o c, inputs o = Some c → is_i64 (nValue (out c)) ∧ 0 ≤ coin_nHeight c < 2 ^ 31.
Definition mature (nSpendHeight : Z) (c : Coin) : Prop := fCoinBase c = true → coin_nHeight c + COINBASE_MATURITY ≤ nSpendHeight.

Lemma i32_small z : is_i32 z → i32 z = z.
Proof. intros H. unfold i32, is_i32 in *. rewrite Z.mod_small; lia. Qed.

Lemma view_coin_ok inputs o c : view_ok inputs → view_AccessCoin inputs o = Some c → is_i64 (nValue (out c)) ∧ 0 ≤ coin_nHeight c < 2 ^ 31.
Proof. intros Hv. unfold view_AccessCoin. destruct (inputs o) eqn:E; [|done]. cbn. case_match; [done|]. intros [= <-]. by eapply Hv. Qed.

Lemma coin_values_cons c cs : coin_values (c :: cs) = nValue (out c) + coin_values cs.
Proof. done. Qed.

Lemma value_step inputs h i vin acc r : view_ok inputs → 0 ≤ h < 2 ^ 31 → 0 ≤ acc ≤ MAX_MONEY →
  value_in inputs h (i :: vin) acc = inr r ↔
  ∃ c, view_AccessCoin inputs (prevout i) = Some c ∧ mature h c ∧ 0 ≤ nValue (out c) ∧ acc + nValue (out c) ≤ MAX_MONEY ∧
    value_in inputs h vin (acc + nValue (out c)) = inr r.
Proof.
  intros Hv Hh Hacc. cbn [value_in]. destruct (view_AccessCoin inputs (prevout i)) as [c|] eqn:Ec; [|split; [done|by intros (? & ? & _)]].
  destruct (view_coin_ok _ _ _ Hv Ec) as [Hc Hhc].
  assert (Hm : (fCoinBase c && (i32 (h - coin_nHeight c) <? COINBASE_MATURITY)) = false ↔ mature h c).
  { unfold mature. rewrite i32_small by (unfold is_i32; lia). destruct (fCoinBase c); cbn [andb]; [rewrite Z.ltb_ge; intuition lia|intuition done]. }
  assert (Hr : negb (MoneyRange (nValue (out c))) || negb (MoneyRange (i64 (acc + nValue (out c)))) = false ↔ 0 ≤ nValue (out c) ∧ acc + nValue (out c) ≤ MAX_MONEY).
  { rewrite orb_false_iff, !negb_false_iff, !MoneyRange_spec. unfold MAX_MONEY, COIN in *.
    split; [intros [H1 H2]|intros [H1 H2]]; rewrite i64_small in * by (unfold is_i64; lia); lia. }
  assert (He : i64 (acc + nValue (out c)) = acc + nValue (out c) ∨ negb (MoneyRange (nValue (out c))) || negb (MoneyRange (i64 (acc + nValue (out c)))) = true).
  { destruct (_ || _); [by right|]. left. apply i64_small. unfold is_i64, MAX_MONEY, COIN in *. intuition lia. }
  destruct (fCoinBase c && _); [split; [done|]; intros (c' & [= <-] & HF & _); by apply Hm in HF|].
  destruct (_ || _); [split; [done|]; intros (c' & [= <-] & _ & H0 & H1 & _); discriminate (proj2 Hr (conj H0 H1))|].
  destruct He as [-> | ?]; [|done]. split; [intros H; exists c; intuition|]. by intros (c' & [= <-] & _ & _ & _ & ?).
Qed.

Lemma coin_values_nonneg h cs : Forall (λ c, mature h c ∧ 0 ≤ nValue (out c)) cs → 0 ≤ coin_values cs.
Proof. intros Hcs. apply sum_values_nonneg, Forall_map. eapply Forall_impl; [exact Hcs|]. by intros ? [_ ?]. Qed.

Lemma value_in_spec inputs h vin r : view_ok inputs → 0 ≤ h < 2 ^ 31 → ∀ acc, 0 ≤ acc ≤ MAX_MONEY →
  value_in inputs h vin acc = inr r ↔
  ∃ cs, spent_coins inputs vin = Some cs ∧ Forall (λ c, mature h c ∧ 0 ≤ nValue (out c)) cs ∧ r = acc + coin_values cs ∧ r ≤ MAX_MONEY.
Proof.
  intros Hv Hh. induction vin as [|i vin IH]; intros acc Hacc.
  { cbn [value_in spent_coins]. split; [intros [= <-]; exists []; split_and!; [done|done|unfold coin_values; cbn; lia|lia]|].
    intros (cs & [= <-] & _ & -> & _). f_equal. unfold coin_values. cbn. lia. }
  rewrite value_step by done. cbn [spent_coins]. split.
  - intros (c & Ec & Hm & H0 & H1 & H). apply IH in H as (cs & Ecs & HF & -> & Hr); [|lia]. exists (c :: cs). rewrite Ec, Ecs, coin_values_cons.
    split_and!; [done|by constructor|lia|lia].
  - intros (cs & E & HF & -> & Hr). destruct (view_AccessCoin _ _) as [c|]; [|done]. destruct (spent_coins inputs vin) as [cs'|]; [|done]. injection E as <-.
    apply Forall_cons in HF as [[Hm H0] HF]. rewrite coin_values_cons in *. pose proof (coin_values_nonneg _ _ HF). exists c.
    split_and!; [done|done|done|lia|]. apply IH; [lia|]. exists cs'. split_and!; [done|done|lia|lia].
Qed.

Lemma spent_coins_have inputs tx cs : spent_coins inputs (vin tx) = Some cs → view_HaveInputs inputs tx = true.
Proof.
  intros H. unfold view_HaveInputs. apply orb_true_intro. right. revert cs H. induction (vin tx) as [|i l IH]; intros cs H; [done|].
  cbn [spent_coins forallb] in *. destruct (view_AccessCoin _ _); [|done]. destruct (spent_coins inputs l); [|done]. by eapply IH.
Qed.

(** The value of the outputs that count. *)
Definition value_out (dep : Deployments) (tx : CTransaction) : Z := sum_values (counted IsAssetScript (AreEnforcedValuesDeployed dep) (vout tx)).

Lemma sum_counted isa enf l : Forall (λ o, 0 ≤ nValue o) l → Forall (λ o, 0 ≤ nValue o) (counted isa enf l) ∧ sum_values (counted isa enf l) ≤ sum_values l.
Proof.
  induction 1 as [|o l Ho _ [IH1 IH2]]; [done|]. unfold counted in *. cbn [List.filter]. rewrite sum_values_cons.
  destruct (negb (negb enf && isa (scriptPubKey o))); [|split; [done|lia]]. rewrite sum_values_cons. split; [by constructor|lia].
Qed.

Lemma values_ok_i64 vout : values_ok 0 vout → Forall (λ o, is_i64 (nValue o)) vout.
Proof.
  intros [Hv Hs]. induction Hv as [|o l Ho Hl IH]; [done|]. rewrite sum_values_cons in Hs. pose proof (sum_values_nonneg _ Hl).
  constructor; [unfold is_i64, MAX_MONEY, COIN in *; lia|apply IH; lia].
Qed.

(** The total of the outputs never throws after [CheckTransaction]. *)
Lemma GetValueOut_checked dep tx : values_ok 0 (vout tx) → GetValueOut IsAssetScript (AreEnforcedValuesDeployed dep) tx = Some (value_out dep tx) ∧ 0 ≤ value_out dep tx ≤ MAX_MONEY.
Proof.
  intros Hv. destruct (sum_counted IsAssetScript (AreEnforcedValuesDeployed dep) _ (proj1 Hv)) as [Hc Hs]. pose proof (sum_values_nonneg _ Hc). unfold value_out. destruct (id Hv) as [_ Hm].
  split; [|lia]. unfold GetValueOut. apply GetValueOut_loop_spec; [unfold MAX_MONEY, COIN; lia|by apply values_ok_i64|]. split_and!; [done|lia|lia].
Qed.

Lemma value_in_returns inputs h vin : forallb (λ i, is_some (view_AccessCoin inputs (prevout i))) vin = true → ∀ acc, value_in inputs h vin acc ≠ inl Abort.
Proof.
  induction vin as [|i vin IH]; intros H acc; [done|]. cbn [forallb value_in] in *. apply andb_true_iff in H as [Hi H].
  destruct (view_AccessCoin _ _); [|done]. destruct (_ && _); [done|]. destruct (_ || _); [done|]. by apply IH.
Qed.

Lemma CheckTxInputs_spec dep tx inputs h fee : values_ok 0 (vout tx) → view_ok inputs → 0 ≤ h < 2 ^ 31 →
  CheckTxInputs dep tx inputs h = inr fee ↔
  ∃ cs, spent_coins inputs (vin tx) = Some cs ∧ Forall (λ c, mature h c ∧ 0 ≤ nValue (out c)) cs ∧ coin_values cs ≤ MAX_MONEY ∧
    value_out dep tx ≤ coin_values cs ∧ fee = coin_values cs - value_out dep tx.
Proof.
  intros Hv Hi Hh. unfold CheckTxInputs. destruct (GetValueOut_checked dep tx Hv) as [-> Hout].
  assert (H0 : 0 ≤ 0 ≤ MAX_MONEY) by (unfold MAX_MONEY, COIN; lia). pose proof (λ r, value_in_spec inputs h (vin tx) r Hi Hh 0 H0) as Hin.
  destruct (view_HaveInputs inputs tx) eqn:Eh; cbn [negb].
  2:{ split; [done|]. intros (cs & Ecs & _). apply spent_coins_have in Ecs. congruence. }
  destruct (value_in inputs h (vin tx) 0) as [v|r].
  { split; [done|]. intros (cs & Ecs & HF & Hr & _). discriminate (proj2 (Hin (coin_values cs)) (ex_intro _ cs (conj Ecs (conj HF (conj eq_refl Hr))))). }
  destruct (proj1 (Hin r) eq_refl) as (cs & Ecs & HF & -> & Hr). rewrite Z.add_0_l in *.
  destruct (Z.ltb_spec (coin_values cs) (value_out dep tx)) as [Hlt|Hge].
  { split; [done|]. intros (cs' & E' & _ & _ & ? & _). assert (cs' = cs) by congruence. subst. lia. }
  rewrite i64_small by (unfold is_i64, MAX_MONEY, COIN in *; lia). rewrite (proj2 (MoneyRange_spec _)) by lia. cbn [negb].
  split; [intros [= <-]; eauto 10|]. intros (cs' & E' & _ & _ & _ & ->). assert (cs' = cs) by congruence. by subst.
Qed.

Lemma CheckTxInputs_returns dep tx inputs h : values_ok 0 (vout tx) → IsCoinBase tx = false → CheckTxInputs dep tx inputs h ≠ inl Abort.
Proof.
  intros Hv Hc. unfold CheckTxInputs. destruct (GetValueOut_checked dep tx Hv) as [-> _]. unfold view_HaveInputs. rewrite Hc. cbn [orb].
  destruct (forallb _ _) eqn:E; cbn [negb]; [|done]. pose proof (value_in_returns inputs h (vin tx) E 0) as H.
  destruct (value_in _ _ _ _); [congruence|]. by repeat case_match.
Qed.

(** * Totals of assets *)

(** Names with amounts. *)
Definition amounts (name : text) (l : list (text * Z)) : list Z := (filter (λ p, p.1 = name) l).*2.
Definition zsum (l : list Z) : Z := foldr Z.add 0 l.
Definition add_all (l : list (text * Z)) (m : totals) : totals := fold_left (λ m p, add_total p.1 p.2 m) l m.

(** A sum that wraps, of the amounts that follow a total. *)
Definition wrap_sum (t : option Z) (l : list Z) : option Z := fold_left (λ t a, Some (match t with Some t => i64 (t + a) | None => a end)) l t.

Lemma add_total_lookup n a m k : add_total n a m !! k = if decide (k = n) then Some (match m !! n with Some t => i64 (t + a) | None => a end) else m !! k.
Proof.
  unfold add_total. destruct (m !! n) eqn:E, (decide (k = n)) as [-> |]; by rewrite ?lookup_insert_eq, ?lookup_insert_ne.
Qed.

Lemma add_all_lookup l n : ∀ m, add_all l m !! n = wrap_sum (m !! n) (amounts n l).
Proof.
  induction l as [|[k a] l IH]; intros m; [done|]. unfold add_all. cbn [fold_left fst snd]. fold (add_all l (add_total k a m)). rewrite IH, add_total_lookup.
  unfold amounts. rewrite filter_cons. cbn [fst]. destruct (decide (n = k)) as [-> |Hne]; [by rewrite decide_True by done|by rewrite decide_False by done].
Qed.

Lemma i64_mod z : i64 z mod 2 ^ 64 = z mod 2 ^ 64.
Proof. destruct (i64_sub z) as [q ->]. replace (z - 2 ^ 64 * q) with (z + (- q) * 2 ^ 64) by lia. by rewrite Z.mod_add. Qed.

Lemma wrap_sum_some l : ∀ t, ∃ v, wrap_sum (Some t) l = Some v ∧ v mod 2 ^ 64 = (t + zsum l) mod 2 ^ 64.
Proof.
  induction l as [|a l IH]; intros t; [exists t; by rewrite Z.add_0_r|]. cbn [wrap_sum fold_left]. destruct (IH (i64 (t + a))) as (v & E & Hv).
  exists v. split; [exact E|]. rewrite Hv, <- Z.add_mod_idemp_l, i64_mod, Z.add_mod_idemp_l by lia. f_equal. cbn [zsum foldr]. fold (zsum l). lia.
Qed.

(** Equal wrapping sums. *)
Lemma wrap_sum_eq l l' : wrap_sum None l = wrap_sum None l' →
  (l = [] ↔ l' = []) ∧ zsum l mod 2 ^ 64 = zsum l' mod 2 ^ 64 ∧ (is_i64 (zsum l) → is_i64 (zsum l') → zsum l = zsum l').
Proof.
  assert (H : ∀ l, l ≠ [] → ∃ v, wrap_sum None l = Some v ∧ v mod 2 ^ 64 = zsum l mod 2 ^ 64).
  { intros [|a k] Hk; [done|]. apply (wrap_sum_some k a). }
  intros E. destruct (decide (l = [])) as [-> |Hl], (decide (l' = [])) as [-> |Hl']; [done|..].
  - destruct (H l' Hl') as (v & Ev & _). cbn in E. congruence.
  - destruct (H l Hl) as (v & Ev & _). cbn in E. congruence.
  - destruct (H l Hl) as (v & Ev & Hv), (H l' Hl') as (v' & Ev' & Hv'). assert (v' = v) as -> by congruence. rewrite <- Hv, <- Hv'. split_and!; try done.
    intros H1 H2. assert (Hm : zsum l mod 2 ^ 64 = zsum l' mod 2 ^ 64) by congruence. unfold is_i64 in *.
    pose proof (Z.div_mod (zsum l) (2 ^ 64) ltac:(lia)). pose proof (Z.div_mod (zsum l') (2 ^ 64) ltac:(lia)).
    set (q := zsum l / 2 ^ 64) in *. set (q' := zsum l' / 2 ^ 64) in *. assert (q = q') by lia. lia.
Qed.

(** * CheckTxAssets *)

Section conservation.
Context (params : ChainParams) (dep : Deployments) (uninit : AssetType) (inputs : coins_view) (assetCache : option AssetsView).

(** The assets that the inputs spend, and those that the outputs transfer. *)
Definition spent_asset (txin : CTxIn) : list (text * Z) :=
  match view_AccessCoin inputs (prevout txin) with
  | Some c =>
      if IsAssetScript (scriptPubKey (out c)) then
        match GetAssetData (prefixes params) (AreTransferScriptsSizeDeployed dep) (scriptPubKey (out c)) with
        | Some data => [(e_assetName data, e_nAmount data)]
        | None => []
        end
      else []
  | None => []
  end.
Definition transferred_asset (o : CTxOut) : list (text * Z) :=
  match IsAssetScript3 (scriptPubKey o) with
  | Some (TX_TRANSFER_ASSET, _, _) =>
      match TransferAssetFromScript (prefixes params) (AreTransferScriptsSizeDeployed dep) (scriptPubKey o) with
      | Some (transfer, _) => [(at_strName transfer, at_nAmount transfer)]
      | None => []
      end
  | _ => []
  end.
Definition spent_assets (tx : CTransaction) : list (text * Z) := concat (map spent_asset (vin tx)).
Definition transferred_assets (tx : CTransaction) : list (text * Z) := concat (map transferred_asset (vout tx)).

Lemma add_all_app l l' m : add_all (l ++ l') m = add_all l' (add_all l m).
Proof. apply fold_left_app. Qed.

Lemma asset_inputs_total l : ∀ t a t' a', asset_inputs params dep inputs assetCache l t a = inr (t', a') → t' = add_all (concat (map spent_asset l)) t.
Proof.
  induction l as [|i l IH]; intros t a t' a' H; cbn [asset_inputs map concat] in *; [by injection H as <- _|]. rewrite add_all_app. unfold spent_asset at 2.
  destruct (view_AccessCoin inputs (prevout i)) as [c|]; [|done]. destruct (IsAssetScript _); [|by apply IH in H].
  destruct (GetAssetData _ _ _) as [data|]; [|done]. cbv zeta in H. destruct (if IsAssetNameAnRestricted _ then _ else _); try done. by apply IH in H.
Qed.

Lemma asset_inputs_fails l : ∀ t a, asset_inputs params dep inputs assetCache l t a ≠ inl Valid.
Proof.
  induction l as [|i l IH]; intros t a; cbn [asset_inputs]; [done|]. repeat (case_match; try done); apply IH.
Qed.

Context (fRunningUnitTests : bool) (mapReissuedAssets : gmap text uint256) (collect : option (Z * Z)) (in_mempool : option (text → bool)).

Lemma asset_output_total txid addrs index o e e' :
  asset_output params dep uninit assetCache fRunningUnitTests mapReissuedAssets collect txid addrs index o e = (Valid, e') →
  totalOutputs e' = add_all (transferred_asset o) (totalOutputs e) ∧ Forall (λ p, 0 < p.2) (transferred_asset o).
Proof.
  unfold asset_output, transferred_asset. destruct (match assetCache with Some _ => _ | None => _ end); try done.
  destruct (IsAssetScript3 _) as [[[[] own] i]|]; try (by intros [= <-]).
  - destruct (ReissueAssetFromScript _ _) as [[r ?]|]; [|done]. destruct (mapReissuedAssets !! _); [|by intros [= <-]]. by intros [= _ <-].
  - destruct (TransferAssetFromScript _ _ _) as [[t address]|]; [|done].
    destruct (then_if _; _) eqn:E; try done. intros [= <-]. split; [done|]. constructor; [|done]. cbn [snd].
    apply then_valid in E as [E%verdict_valid _]. unfold ContextualCheckTransferAsset in E. accepted E. lia.
Qed.

Lemma asset_outputs_total txid addrs l : ∀ index e e',
  asset_outputs params dep uninit assetCache fRunningUnitTests mapReissuedAssets collect txid addrs index l e = (Valid, e') →
  totalOutputs e' = add_all (concat (map transferred_asset l)) (totalOutputs e) ∧ Forall (λ p, 0 < p.2) (concat (map transferred_asset l)).
Proof.
  induction l as [|o l IH]; intros index e e' H; cbn [asset_outputs map concat] in *; [by injection H as <-|].
  destruct (asset_output _ _ _ _ _ _ _ _ _ _ _ _) as [v e1] eqn:E. destruct v; [|done..]. apply asset_output_total in E as [E1 E2].
  apply IH in H as [H1 H2]. rewrite add_all_app, <- E1, Forall_app. done.
Qed.

Lemma compare_totals_eq tin tout : compare_totals tin tout = Valid → tin = tout.
Proof.
  unfold compare_totals. rewrite then_valid, valid_all_spec, dos_valid, negb_false_iff, Nat.eqb_eq. intros [H Hs].
  assert (Hsub : tout ⊆ tin).
  { apply map_subseteq_spec. intros n v Hn. unfold in_order in H. rewrite merge_sort_Permutation, Forall_forall in H. specialize (H n).
    rewrite elem_of_elements, elem_of_dom, Hn in H. specialize (H (ltac:(eauto))). destruct (tin !! n); [|done]. cbn [from_option] in H.
    apply dos_valid, negb_false_iff, Z.eqb_eq in H. by subst. }
  symmetry. apply map_subseteq_size_eq; [done|lia].
Qed.

Lemma CheckTxAssets_conserves tx :
  (CheckTxAssets params dep uninit assetCache fRunningUnitTests mapReissuedAssets collect in_mempool tx inputs).1 = Valid →
  Forall (λ p, 0 < p.2) (transferred_assets tx) ∧ ∀ name, wrap_sum None (amounts name (spent_assets tx)) = wrap_sum None (amounts name (transferred_assets tx)).
Proof.
  unfold CheckTxAssets. destruct (view_HaveInputs inputs tx); cbn [negb]; [|done].
  destruct (asset_inputs _ _ _ _ _ _ _) as [v|[tin addrs]] eqn:Ei; [cbn [fst]; intros ->; by apply asset_inputs_fails in Ei|].
  destruct (asset_outputs _ _ _ _ _ _ _ _ _ _ _ _) as [v e] eqn:Eo. cbn [fst]. rewrite !then_valid. intros (-> & _ & Hc).
  apply compare_totals_eq in Hc. apply asset_inputs_total in Ei. apply asset_outputs_total in Eo as [Eo Hp]. cbn [totalOutputs] in Eo.
  split; [done|]. intros name. pose proof (add_all_lookup (spent_assets tx) name ∅) as H1. pose proof (add_all_lookup (transferred_assets tx) name ∅) as H2.
  rewrite lookup_empty in H1, H2. rewrite <- H1, <- H2. unfold spent_assets, transferred_assets. by rewrite <- Ei, <- Eo, Hc.
Qed.
End conservation.

(** * Relative lock times *)

Definition times_u32 (m : blockmap) : Prop := ∀ p b, m !! p = Some b → is_u32 (nTime b).

Lemma median_time_bound m p : times_u32 m → 0 ≤ GetMedianTimePast m p < 2 ^ 32.
Proof.
  intros Ht. destruct (m !! p) as [b|] eqn:E.
  - destruct (GetMedianTimePast_spec m p b E) as [H _]. revert H. generalize (GetMedianTimePast m p). intros r H. unfold recent_times in H.
    apply list_elem_of_fmap in H as (c & -> & Hc). assert (∃ q, m !! q = Some c) as [q Hq].
    { clear -Hc. revert Hc. generalize (Some p). induction nMedianTimeSpan as [|n IH]; intros o H; cbn [recent_blocks] in H; [by apply elem_of_nil in H|].
      destruct o as [q|]; cbn [mbind option_bind] in H; [|by apply elem_of_nil in H]. destruct (m !! q) as [b|] eqn:E; [|by apply elem_of_nil in H].
      apply elem_of_cons in H as [-> |H]; [eauto|by apply IH in H]. }
    by apply Ht in Hq.
  - unfold GetMedianTimePast. change nMedianTimeSpan with 11%nat. cbn [past_times mbind option_bind]. rewrite E. cbn. lia.
Qed.

(** The relative lock of an input that spends an output of height [h], against a height and a time. *)
Definition lock_value (txin : CTxIn) : Z := Z.land (nSequence txin) SEQUENCE_LOCKTIME_MASK.
Definition unlocked (m : blockmap) (block : ptr) (height time : Z) (txin : CTxIn) (h : Z) : Prop :=
  Z.land (nSequence txin) SEQUENCE_LOCKTIME_DISABLE_FLAG = 0 →
  if Z.land (nSequence txin) SEQUENCE_LOCKTIME_TYPE_FLAG =? 0 then h + lock_value txin ≤ height
  else ∃ p, GetAncestor m block (Z.max (h - 1) 0) = Some (Some p) ∧ GetMedianTimePast m p + 512 * lock_value txin ≤ time.

Lemma lock_value_range txin : 0 ≤ lock_value txin < 2 ^ 16.
Proof. unfold lock_value. change SEQUENCE_LOCKTIME_MASK with (Z.ones 16). rewrite Z.land_ones by lia. apply Z.mod_pos_bound. lia. Qed.

Lemma sequence_loop_spec m block b vin height time : wf_index m → times_u32 m → m !! block = Some b → ∀ hs mh mt,
  length hs = length vin → Forall (λ h, 0 ≤ h ≤ nHeight b + 1 ∧ h < 2 ^ 31 - 2 ^ 16) hs →
  ∃ hs' mh' mt', sequence_loop m block vin hs mh mt = Some (hs', (mh', mt')) ∧
    (mh' < height ∧ mt' < time ↔ mh < height ∧ mt < time ∧ Forall2 (unlocked m block height time) vin hs).
Proof.
  intros Hwf Ht Hb. induction vin as [|i vin IH]; intros [|h hs] mh mt Hl HF; try done.
  { exists [], mh, mt. split; [done|]. intuition constructor. }
  apply Forall_cons in HF as [[Hh Hh31] HF]. injection Hl as Hl. pose proof (lock_value_range i) as Hlock. cbn [sequence_loop].
  assert (Hu : Forall2 (unlocked m block height time) (i :: vin) (h :: hs) ↔ unlocked m block height time i h ∧ Forall2 (unlocked m block height time) vin hs) by apply Forall2_cons.
  setoid_rewrite Hu. clear Hu. unfold unlocked at 1. destruct (Z.eqb_spec (Z.land (nSequence i) SEQUENCE_LOCKTIME_DISABLE_FLAG) 0) as [Ed|Ed]; cbn [negb].
  2:{ destruct (IH hs mh mt Hl HF) as (hs' & mh' & mt' & -> & H). exists (0 :: hs'), mh', mt'. split; [done|]. rewrite H. intuition. }
  fold (lock_value i). destruct (Z.eqb_spec (Z.land (nSequence i) SEQUENCE_LOCKTIME_TYPE_FLAG) 0) as [Et|Et]; cbn [negb].
  - rewrite i32_small by (unfold is_i32; lia). destruct (IH hs (Z.max mh (h + lock_value i - 1)) mt Hl HF) as (hs' & mh' & mt' & -> & H).
    exists (h :: hs'), mh', mt'. split; [done|]. rewrite H. intuition lia.
  - destruct (GetAncestor_some m Hwf block b (Z.max (h - 1) 0) Hb) as (q & c & Eq & _); [pose proof (Hwf _ _ Hb) as Hwe; apply wf_height in Hwe; lia|].
    rewrite Eq. cbn [mbind option_bind]. pose proof (median_time_bound m q Ht) as Hq. rewrite Z.shiftl_mul_pow2 by lia.
    rewrite i64_small by (unfold is_i64; change (2 ^ 9) with 512; lia).
    destruct (IH hs mh (Z.max mt (GetMedianTimePast m q + lock_value i * 2 ^ 9 - 1)) Hl HF) as (hs' & mh' & mt' & -> & H).
    exists (h :: hs'), mh', mt'. split; [done|]. rewrite H. change (2 ^ 9) with 512.
    assert (Hx : (∃ p, Some (Some q) = Some (Some p) ∧ GetMedianTimePast m p + 512 * lock_value i ≤ time) ↔ GetMedianTimePast m q + 512 * lock_value i ≤ time).
    { split; [by intros (? & [= <-] & ?)|eauto]. }
    rewrite Hx. intuition lia.
Qed.

(** * Properties *)

(** C25: [CheckTransaction] accepts what it should and no value out of range. A transaction that passes has inputs
    and outputs, fits in a block, creates no negative value and at most the limit in total, spends no output twice when
    this is checked, and has the null input exactly if it is a coinbase, with a script of 2 to 100 bytes; of a transaction without
    assets this is also enough, whatever the parameters and the rules in force. *)
Theorem CheckTransaction_exact params dep uninit tx dup m b :
  (CheckTransaction params dep uninit tx dup m b = Valid → basic_ok dup tx) ∧
  (Forall plain_output (vout tx) → CheckTransaction params dep uninit tx dup m b = Valid ↔ basic_ok dup tx).
Proof.
  split; [apply CheckTransaction_basic|]. intros Hp. split; [apply CheckTransaction_basic|by apply CheckTransaction_plain].
Qed.

(** A payment and its parts. *)
Definition key_script : CScript := GetScriptForDestination (CKeyID (repeat 7 20)).
Definition payment (values : list Z) : CTransaction :=
  mkCTransaction 2 [mkCTxIn (mkCOutPoint (repeat 9 32) 0) [] SEQUENCE_FINAL []] (map (λ v, mkCTxOut v key_script) values) 0.
Definition all_rules : Deployments := mkDeployments true true true true true.

Lemma payment_plain values : Forall plain_output (vout (payment values)).
Proof. apply Forall_map. induction values; constructor; [|done]. split_and!; [vm_compute; reflexivity..|left; vm_compute; reflexivity]. Qed.

Lemma CheckTransaction_exact_witness :
  CheckTransaction main_params all_rules ROOT (payment [3; 4]) true true true = Valid ∧ basic_ok true (payment [3; 4]).
Proof.
  assert (E : CheckTransaction main_params all_rules ROOT (payment [3; 4]) true true true = Valid) by (vm_compute; reflexivity).
  split; [exact E|]. exact (proj1 (proj2 (CheckTransaction_exact main_params all_rules ROOT (payment [3; 4]) true true true) (payment_plain _)) E).
Defined.


Definition one_coin (c : Coin) : coins_view := λ o, if bool_decide (o = mkCOutPoint (repeat 9 32) 0) then Some c else None.

Lemma one_coin_ok c : is_i64 (nValue (out c)) → 0 ≤ coin_nHeight c < 2 ^ 31 → view_ok (one_coin c).
Proof. intros Hv Hh o c'. unfold one_coin. case_bool_decide; [|done]. by intros [= <-]. Qed.


(** C3: assets are conserved by transfers, up to overflow. When [CheckTxAssets] accepts, every name occurs in the
    assets that are spent iff it occurs in the transfers, every amount that is transferred is positive, and the two totals
    of a name agree modulo 2^64, hence are equal if both fit in 64 bits. *)
Theorem assets_conserved params dep uninit assetCache fRunningUnitTests mapReissuedAssets collect in_mempool tx inputs name :
  (CheckTxAssets params dep uninit assetCache fRunningUnitTests mapReissuedAssets collect in_mempool tx inputs).1 = Valid →
  let spent := amounts name (spent_assets params dep inputs tx) in
  let transferred := amounts name (transferred_assets params dep tx) in
  (spent = [] ↔ transferred = []) ∧ zsum spent mod 2 ^ 64 = zsum transferred mod 2 ^ 64 ∧
  (is_i64 (zsum spent) → is_i64 (zsum transferred) → zsum spent = zsum transferred) ∧ Forall (λ a, 0 < a) transferred.
Proof.
  intros H. cbv zeta. apply CheckTxAssets_conserves in H as [Hp Hw]. destruct (wrap_sum_eq _ _ (Hw name)) as (H1 & H2 & H3). split_and!; try done.
  unfold amounts. apply Forall_fmap, Forall_forall. intros p [_ Hin]%list_elem_of_filter. rewrite Forall_forall in Hp. by apply Hp.
Qed.

(** A transfer of [MUSIC] in several outputs, and a coin that holds it. *)
Definition transfer_script (nAmount : Z) : CScript := CAssetTransfer_ConstructTransaction (mkCAssetTransfer (str "MUSIC") nAmount [] 0) key_script.
Definition transfer_tx (nAmounts : list Z) : CTransaction :=
  mkCTransaction 2 [mkCTxIn (mkCOutPoint (repeat 9 32) 0) [] SEQUENCE_FINAL []] (map (λ a, mkCTxOut 0 (transfer_script a)) nAmounts) 0.
Definition transfer_coin (nAmount : Z) : Coin := mkCoin (mkCTxOut 0 (transfer_script nAmount)) false 100.
Definition music_view : AssetsView :=
  {| CheckIfAssetExists n := true; GetAssetMetaDataIfExists n := Some (mkCNewAsset n COIN 8 1 0 []);
     CheckForAddressQualifier q a := false; CheckForAddressRestriction n a := false; CheckForGlobalRestriction n := false;
     GetAssetVerifierStringIfExists n b := None |}.
Definition check_assets (tx : CTransaction) (inputs : coins_view) : validation * (list (text * uint256) * list CMessage) :=
  CheckTxAssets main_params all_rules ROOT (Some music_view) false ∅ None None tx inputs.

Lemma assets_conserved_witness :
  (check_assets (transfer_tx [3; 4]) (one_coin (transfer_coin 7))).1 = Valid ∧
  zsum (amounts (str "MUSIC") (spent_assets main_params all_rules (one_coin (transfer_coin 7)) (transfer_tx [3; 4]))) mod 2 ^ 64 = 7.
Proof.
  assert (E : (check_assets (transfer_tx [3; 4]) (one_coin (transfer_coin 7))).1 = Valid) by (vm_compute; reflexivity). split; [exact E|].
  rewrite (proj1 (proj2 (assets_conserved _ _ _ _ _ _ _ _ _ _ (str "MUSIC") E))). vm_compute. reflexivity.
Defined.

(** A data output with an empty name makes [CheckTransaction] read the first character of an empty string. *)
Lemma empty_name_aborts :
  let script := CNullAssetTxData_ConstructTransaction (mkCNullAssetTxData [] 0) (GetScriptForNullAssetDataDestination (CKeyID (repeat 7 20))) in
  CheckTransaction main_params all_rules ROOT
    (mkCTransaction 2 [mkCTxIn (mkCOutPoint (repeat 9 32) 0) [] SEQUENCE_FINAL []] [mkCTxOut 0 script] 0) true true true = Abort.
Proof. vm_compute. reflexivity. Qed.

(** C26: relative lock times. In a well-formed block index, for heights of spent outputs that are no later than the block, the check
    always returns. It accepts transactions of version below 2, or when it is not enforced; otherwise it accepts iff every input whose
    sequence number does not disable it is unlocked: by height, the block is at least as many blocks above the
    output as the number says, or by time, the median time before the block is at least as many times 512 seconds above the median time
    before the block of the output. *)
Theorem relative_lock_times m tx flags heights block b p :
  wf_index m → times_u32 m → m !! block = Some b → pprev b = Some p → length heights = length (vin tx) →
  Forall (λ h, 0 ≤ h ≤ nHeight b + 1 ∧ h < 2 ^ 31 - 2 ^ 16) heights →
  ∃ r, SequenceLocks m tx flags heights block = Some r ∧
    (r = true ↔ (2 ≤ u32 (tx_nVersion tx) → Z.land flags LOCKTIME_VERIFY_SEQUENCE ≠ 0 →
       Forall2 (unlocked m block (nHeight b) (GetMedianTimePast m p)) (vin tx) heights)).
Proof.
  intros Hwf Ht Hb Hp Hl HF. unfold SequenceLocks, CalculateSequenceLocks, EvaluateSequenceLocks. rewrite Hl, Nat.eqb_refl, Hb. cbn [negb mbind option_bind]. rewrite Hp.
  pose proof (median_time_bound m p Ht) as Hm. pose proof (wf_height _ _ _ (Hwf _ _ Hb)) as Hh.
  assert (Hev : ∀ mh mt, negb ((nHeight b <=? mh) || (GetMedianTimePast m p <=? mt)) = true ↔ mh < nHeight b ∧ mt < GetMedianTimePast m p).
  { intros mh mt. rewrite negb_true_iff, orb_false_iff, !Z.leb_gt. done. }
  destruct (Z.leb_spec 2 (u32 (tx_nVersion tx))) as [Hver|Hver], (Z.eqb_spec (Z.land flags LOCKTIME_VERIFY_SEQUENCE) 0) as [Hf|Hf]; cbn [andb negb mbind option_bind fst snd].
  2:{ destruct (sequence_loop_spec m block b (vin tx) (nHeight b) (GetMedianTimePast m p) Hwf Ht Hb heights (-1) (-1) Hl HF) as (hs & mh & mt & -> & H).
      cbn [mbind option_bind fst snd]. eexists. split; [done|]. rewrite Hev, H. intuition lia. }
  all: eexists; split; [done|]; rewrite Hev; intuition lia.
Qed.

Definition times_u32b (m : blockmap) : bool := forallb (λ e, (0 <=? nTime e.2) && (nTime e.2 <? 2 ^ 32)) (map_to_list m).
Lemma times_u32b_sound m : times_u32b m = true → times_u32 m.
Proof.
  unfold times_u32b. rewrite forallb_forall. intros H p b Hp. specialize (H (p, b)). rewrite <- list_elem_of_In, elem_of_map_to_list in H.
  specialize (H Hp). cbn [snd] in H. unfold is_u32. lia.
Qed.

(** An output of height 30 that is locked for five blocks, in a block of height 39. *)
Lemma relative_lock_times_witness :
  let tx := mkCTransaction 2 [mkCTxIn (mkCOutPoint (repeat 9 32) 0) [] 5 []] [] 0 in
  SequenceLocks (example_chain 40 0 0 60) tx 1 [30] 40%positive = Some true.
Proof.
  intros tx. set (m := example_chain 40 0 0 60).
  assert (Hwf : wf_index m) by (apply wf_indexb_sound; vm_compute; reflexivity).
  assert (Ht : times_u32 m) by (apply times_u32b_sound; vm_compute; reflexivity).
  destruct (m !! 40%positive) as [b|] eqn:E; [|vm_compute in E; discriminate].
  assert (nHeight b = 39 ∧ pprev b = Some 39%positive) as [Hb Hp] by (vm_compute in E; injection E as <-; split; reflexivity).
  destruct (relative_lock_times m tx 1 [30] 40%positive b 39%positive Hwf Ht E Hp eq_refl) as (r & -> & H); [constructor; [lia|constructor]|].
  f_equal. apply H. intros _ _. constructor; [|constructor]. intros _. rewrite Hb. vm_compute. discriminate.
Defined.
