(* ===== verification/Versionbits.v ===== *)
(** The activation of rules by signals in block versions (versionbits.h, versionbits.cpp): the
    state of a deployment for a block, computed period by period with a cache. *)
From stdpp Require Import base list option gmap.
From Stdlib Require Import ZArith Lia.
From S2P Require Import Prelude ArithUint256 Chain.
Open Scope Z_scope.

Inductive ThresholdState :=
  | THRESHOLD_DEFINED | THRESHOLD_STARTED | THRESHOLD_LOCKED_IN | THRESHOLD_ACTIVE | THRESHOLD_FAILED.

#[export] Instance ThresholdState_eq_dec : EqDecision ThresholdState.
Proof. solve_decision. Defined.

(** The virtual methods of [AbstractThresholdConditionChecker], at some parameters. *)
Record ThresholdConditionChecker := mkChecker {
  Condition : CBlockIndex → bool; BeginTime : Z; EndTime : Z; Period : Z; Threshold : Z }.

(** Keys are blocks or [nullptr]. *)
Abbreviation ThresholdConditionCache := (gmap (option ptr) ThresholdState).

Section Checker.
Context (m : blockmap) (chk : ThresholdConditionChecker).

(** The last block of the period before the one of the block after [p]. *)
Definition period_parent (p : ptr) : option (option ptr) :=
  b ← m !! p; GetAncestor m p (nHeight b - ((nHeight b + 1) %c Period chk)).
(** [GetAncestor(nHeight - nPeriod)] *)
Definition previous_period (p : ptr) : option (option ptr) :=
  b ← m !! p; GetAncestor m p (nHeight b - Period chk).

(** The loop that counts; [None] dereferences [nullptr]. *)
Fixpoint count_signals (n : nat) (pindexCount : option ptr) (count : Z) : option Z :=
  match n with
  | O => Some count
  | S n' =>
      b ← pindexCount ≫= (m !!.);
      count_signals n' (pprev b) (if Condition chk b then count + 1 else count)
  end.

(** The [switch] of the forward walk: the state after the block [p]. *)
Definition next_state (state : ThresholdState) (p : ptr) : option ThresholdState :=
  match state with
  | THRESHOLD_DEFINED =>
      Some (if GetMedianTimePast m p >=? EndTime chk then THRESHOLD_FAILED
            else if GetMedianTimePast m p >=? BeginTime chk then THRESHOLD_STARTED else THRESHOLD_DEFINED)
  | THRESHOLD_STARTED =>
      if GetMedianTimePast m p >=? EndTime chk then Some THRESHOLD_FAILED
      else
        count ← count_signals (Z.to_nat (Period chk)) (Some p) 0;
        Some (if count >=? Threshold chk then THRESHOLD_LOCKED_IN else THRESHOLD_STARTED)
  | THRESHOLD_LOCKED_IN => Some THRESHOLD_ACTIVE
  | THRESHOLD_FAILED | THRESHOLD_ACTIVE => Some state
  end.

(** The walk backwards, with the stack of the blocks to compute. *)
Fixpoint walk_back (fuel : nat) (cache : ThresholdConditionCache) (pindexPrev : option ptr) (vToCompute : list ptr)
    : option (option ptr * list ptr * ThresholdConditionCache) :=
  match cache !! pindexPrev with
  | Some _ => Some (pindexPrev, vToCompute, cache)
  | None =>
      match pindexPrev, fuel with
      | None, _ => Some (None, vToCompute, <[None := THRESHOLD_DEFINED]> cache)
      | Some p, O => None
      | Some p, S fuel' =>
          if GetMedianTimePast m p <? BeginTime chk
          then Some (Some p, vToCompute, <[Some p := THRESHOLD_DEFINED]> cache)
          else prev ← previous_period p; walk_back fuel' cache prev (p :: vToCompute)
      end
  end.

Fixpoint walk_forward (vToCompute : list ptr) (state : ThresholdState) (cache : ThresholdConditionCache)
    : option (ThresholdState * ThresholdConditionCache) :=
  match vToCompute with
  | [] => Some (state, cache)
  | p :: l => state ← next_state state p; walk_forward l state (<[Some p := state]> cache)
  end.

(** Every turn of the backward walk goes to a lower height. *)
Definition GetStateFor (pindexPrev : option ptr) (cache : ThresholdConditionCache)
    : option (ThresholdState * ThresholdConditionCache) :=
  pindexPrev ← match pindexPrev with None => Some None | Some p => period_parent p end;
  let fuel := match pindexPrev ≫= (m !!.) with Some b => S (Z.to_nat (nHeight b)) | None => O end in
  '(pindexPrev, vToCompute, cache) ← walk_back fuel cache pindexPrev [];
  state ← cache !! pindexPrev;
  walk_forward vToCompute state cache.

Record BIP9Stats := mkStats { period : Z; threshold : Z; elapsed : Z; stats_count : Z; possible : bool }.

(** Counts from [pindex] down to the height of the end of the previous period. *)
Fixpoint count_period (fuel : nat) (height : Z) (currentIndex : option ptr) (count : Z) : option Z :=
  b ← currentIndex ≫= (m !!.);
  if nHeight b =? height then Some count
  else
    match fuel with
    | O => None
    | S fuel' => count_period fuel' height (pprev b) (if Condition chk b then count + 1 else count)
    end.

(** [None] dereferences [nullptr]. *)
Definition GetStateStatisticsFor (pindex : option ptr) : option BIP9Stats :=
  match pindex with
  | None => Some (mkStats (Period chk) (Threshold chk) 0 0 false)
  | Some p =>
      b ← m !! p;
      pindexEndOfPrevPeriod ← period_parent p;
      e ← pindexEndOfPrevPeriod ≫= (m !!.);
      let elapsed := nHeight b - nHeight e in
      count ← count_period (Z.to_nat elapsed) (nHeight e) (Some p) 0;
      Some (mkStats (Period chk) (Threshold chk) elapsed count (Period chk - Threshold chk >=? elapsed - count))
  end.

(** The loop of [GetStateSinceHeightFor]: the earliest period of the same state. *)
Fixpoint since_walk (fuel : nat) (initialState : ThresholdState) (pindexPrev : ptr) (cache : ThresholdConditionCache)
    : option (ptr * ThresholdConditionCache) :=
  previousPeriodParent ← previous_period pindexPrev;
  match previousPeriodParent with
  | None => Some (pindexPrev, cache)
  | Some q =>
      '(state, cache) ← GetStateFor (Some q) cache;
      if bool_decide (state = initialState) then
        match fuel with O => None | S fuel' => since_walk fuel' initialState q cache end
      else Some (pindexPrev, cache)
  end.

Definition GetStateSinceHeightFor (pindexPrev : option ptr) (cache : ThresholdConditionCache)
    : option (Z * ThresholdConditionCache) :=
  '(initialState, cache) ← GetStateFor pindexPrev cache;
  match initialState with
  | THRESHOLD_DEFINED => Some (0, cache)
  | _ =>
      p ← pindexPrev; parent ← period_parent p; q ← parent; b ← m !! q;
      '(r, cache) ← since_walk (Z.to_nat (nHeight b)) initialState q cache;
      c ← m !! r; Some (nHeight c + 1, cache)
  end.
End Checker.

(** * Deployments *)

Record BIP9Deployment := mkDeployment {
  bit : Z; nStartTime : Z; nTimeout : Z;
  nOverrideRuleChangeActivationThreshold : Z; nOverrideMinerConfirmationWindow : Z }.

Definition VersionBitsMask (d : BIP9Deployment) : Z := u32 (Z.shiftl 1 (bit d)).

(** The parameters [nRuleChangeActivationThreshold] and [nMinerConfirmationWindow] hold where the deployment
    does not override them. *)
Definition VersionBitsConditionChecker (nRuleChangeActivationThreshold nMinerConfirmationWindow : Z) (d : BIP9Deployment)
    : ThresholdConditionChecker := {|
  Condition b := negb (Z.land (nVersion b) (VersionBitsMask d) =? 0);
  BeginTime := nStartTime d;
  EndTime := nTimeout d;
  Period := if nOverrideMinerConfirmationWindow d >? 0 then nOverrideMinerConfirmationWindow d else nMinerConfirmationWindow;
  Threshold := if nOverrideRuleChangeActivationThreshold d >? 0 then nOverrideRuleChangeActivationThreshold d
               else nRuleChangeActivationThreshold |}.

(** [Consensus::Params], as far as deployments go. *)
Record DeploymentParams := mkDeploymentParams { nRuleChangeActivationThreshold : Z; nMinerConfirmationWindow : Z; vDeployments : list BIP9Deployment }.

Definition checker_at (params : DeploymentParams) (pos : nat) : option ThresholdConditionChecker :=
  d ← vDeployments params !! pos;
  Some (VersionBitsConditionChecker (nRuleChangeActivationThreshold params) (nMinerConfirmationWindow params) d).

(** One cache for each deployment. *)
Abbreviation VersionBitsCache := (list ThresholdConditionCache).

Definition VersionBitsState (m : blockmap) (params : DeploymentParams) (pindexPrev : option ptr) (pos : nat) (caches : VersionBitsCache)
    : option (ThresholdState * VersionBitsCache) :=
  chk ← checker_at params pos; cache ← caches !! pos;
  '(state, cache) ← GetStateFor m chk pindexPrev cache; Some (state, <[pos := cache]> caches).
Definition VersionBitsStatistics (m : blockmap) (params : DeploymentParams) (pindexPrev : option ptr) (pos : nat) : option BIP9Stats :=
  chk ← checker_at params pos; GetStateStatisticsFor m chk pindexPrev.
Definition VersionBitsStateSinceHeight (m : blockmap) (params : DeploymentParams) (pindexPrev : option ptr) (pos : nat) (caches : VersionBitsCache)
    : option (Z * VersionBitsCache) :=
  chk ← checker_at params pos; cache ← caches !! pos;
  '(height, cache) ← GetStateSinceHeightFor m chk pindexPrev cache; Some (height, <[pos := cache]> caches).
Definition VersionBitsCache_Clear (caches : VersionBitsCache) : VersionBitsCache := (λ _, ∅) <$> caches.

(** * The states by definition *)

Section States.
Context (m : blockmap) (chk : ThresholdConditionChecker).
Context (Hwf : wf_index m) (Hperiod : 0 < Period chk).

(** The state after a period, from the state after the period before: no cache and no shortcut. *)
Inductive state_of : option ptr → ThresholdState → Prop :=
  | state_genesis : state_of None THRESHOLD_DEFINED
  | state_next p k s s' : previous_period m chk p = Some k → state_of k s → next_state m chk s p = Some s' → state_of (Some p) s'.

Lemma state_of_fun k s : state_of k s → ∀ s', state_of k s' → s = s'.
Proof.
  induction 1 as [|p k s s1 E _ IH En]; intros s' H; inversion H as [|p' k' s2 s2' E' H2 En']; subst; [done|].
  rewrite E in E'. injection E' as <-. rewrite (IH _ H2) in En. congruence.
Qed.

(** The last block of a period, or none before the first. *)
Definition boundary (k : option ptr) : Prop :=
  match k with None => True | Some p => ∃ b, m !! p = Some b ∧ (nHeight b + 1) mod Period chk = 0 end.

Definition height_of (k : option ptr) : Z := match k ≫= (m !!.) with Some b => nHeight b | None => -1 end.

Lemma height_of_some q c : m !! q = Some c → height_of (Some q) = nHeight c.
Proof. intros Hq. unfold height_of. cbn [mbind option_bind]. by rewrite Hq. Qed.

Lemma period_parent_boundary p b : m !! p = Some b → ∃ k, period_parent m chk p = Some k ∧ boundary k ∧
  height_of k = nHeight b - (nHeight b + 1) mod Period chk ∧
  (∀ q, k = Some q → ancestor m p q) ∧ (boundary (Some p) → k = Some p).
Proof using Hwf Hperiod.
  intros Hp. destruct (Hwf p b Hp) as [Hh _ _]. unfold period_parent. rewrite Hp. cbn [mbind option_bind].
  rewrite Z.rem_mod_nonneg by lia. pose proof (Z.mod_pos_bound (nHeight b + 1) (Period chk) Hperiod) as Hr.
  pose proof (Z.mod_le (nHeight b + 1) (Period chk) ltac:(lia) Hperiod) as Hle. set (r := (nHeight b + 1) mod Period chk) in *.
  destruct (decide (nHeight b - r < 0)) as [L|L].
  - rewrite (GetAncestor_nth_prev m Hwf p b) by done. exists None. rewrite (proj2 (Z.ltb_lt (nHeight b - r) 0)) by lia.
    rewrite orb_true_r. split_and!; [done|done|cbn; lia|done|]. intros (b' & E & Hb). rewrite Hp in E. injection E as <-.
    fold r in Hb. lia.
  - destruct (GetAncestor_some m Hwf p b (nHeight b - r) Hp ltac:(lia)) as (q & c & E & Hq & Hc & Hn). exists (Some q).
    split_and!; [done| |by rewrite (height_of_some q c)| |].
    + exists c. split; [done|]. rewrite Hc. replace (nHeight b - r + 1) with (nHeight b + 1 - r) by lia. unfold r.
      rewrite Zminus_mod_idemp_r, Z.sub_diag. apply Z.mod_0_l. lia.
    + intros q' [= <-]. by eexists.
    + intros (b' & Eb & Hb). rewrite Hp in Eb. injection Eb as <-. fold r in Hb. rewrite Hb, Z.sub_0_r, Z.sub_diag in Hn. done.
Qed.

Lemma previous_period_boundary p b : m !! p = Some b → boundary (Some p) → ∃ k, previous_period m chk p = Some k ∧ boundary k ∧
  height_of k = nHeight b - Period chk ∧ Period chk ≤ nHeight b + 1 ∧ (∀ q, k = Some q → ancestor m p q).
Proof using Hwf Hperiod.
  intros Hp (b' & E & Hb). rewrite Hp in E. injection E as <-. destruct (Hwf p b Hp) as [Hh _ _]. unfold previous_period.
  rewrite Hp. cbn [mbind option_bind]. assert (Period chk ≤ nHeight b + 1).
  { apply Z.mod_divide in Hb; [|lia]. apply Z.divide_pos_le in Hb; lia. }
  destruct (decide (nHeight b - Period chk < 0)) as [L|L].
  - rewrite (GetAncestor_nth_prev m Hwf p b) by done. exists None. rewrite (proj2 (Z.ltb_lt (nHeight b - Period chk) 0)) by lia.
    rewrite orb_true_r. split_and!; [done|done|cbn; lia|lia|done].
  - destruct (GetAncestor_some m Hwf p b (nHeight b - Period chk) Hp ltac:(lia)) as (q & c & E & Hq & Hc & Hn). exists (Some q).
    split_and!; [done| |by rewrite (height_of_some q c)|lia|].
    + exists c. split; [done|]. rewrite Hc. replace (nHeight b - Period chk + 1) with (nHeight b + 1 + (-1) * Period chk) by lia.
      by rewrite Z.mod_add by lia.
    + intros q' [= <-]. by eexists.
Qed.

Lemma count_signals_total n : ∀ p b c, m !! p = Some b → Z.of_nat n ≤ nHeight b + 1 → ∃ r, count_signals m chk n (Some p) c = Some r.
Proof using Hwf.
  clear Hperiod. induction n as [|n IH]; intros p b c Hp Hn; [by eexists|]. cbn [count_signals]. cbn [mbind option_bind]. rewrite Hp.
  cbn [mbind option_bind]. destruct n as [|n]; [by eexists|]. destruct (Hwf p b Hp) as [Hh Hpp _].
  destruct (pprev b) as [q|]; [|lia]. destruct Hpp as (d & Hq & Hd). apply (IH q d); [done|lia].
Qed.

Lemma next_state_total s p : boundary (Some p) → ∃ s', next_state m chk s p = Some s'.
Proof using Hwf Hperiod.
  intros Hb. destruct (Hb) as (b & Hp & _). destruct (previous_period_boundary p b Hp Hb) as (_ & _ & _ & _ & Hle & _).
  destruct (count_signals_total (Z.to_nat (Period chk)) p b 0 Hp ltac:(lia)) as [r Hr].
  destruct s; cbn [next_state]; try by eexists. destruct (_ >=? _); [by eexists|]. rewrite Hr. by eexists.
Qed.

Lemma state_of_total k : boundary k → ∃ s, state_of k s.
Proof using Hwf Hperiod.
  remember (Z.to_nat (height_of k + 1)) as n eqn:Hn. revert k Hn. induction (lt_wf n) as [n _ IH]. intros [p|] Hn Hb; [|eexists; constructor].
  destruct (Hb) as (b & Hp & _). destruct (previous_period_boundary p b Hp Hb) as (k & E & Hk & Hh & Hle & _).
  destruct (IH (Z.to_nat (height_of k + 1)) ltac:(subst n; rewrite (height_of_some p b) by done; lia) k eq_refl Hk) as [s Hs].
  destruct (next_state_total s p Hb) as [s' Hs']. exists s'. by eapply state_next.
Qed.
End States.

(** * The median time does not decrease *)

(** The rule on block times that validation checks: a block is later than the median time of its predecessors. *)
Definition times_increase (m : blockmap) : Prop :=
  ∀ p b q, m !! p = Some b → pprev b = Some q → GetMedianTimePast m q < nTime b.

Lemma recent_times_S n m k : recent_times (S n) m k =
  match k ≫= (m !!.) with Some b => nTime b :: recent_times n m (pprev b) | None => [] end.
Proof. unfold recent_times. cbn [recent_blocks]. by destruct (k ≫= _). Qed.

Lemma recent_times_more n m : ∀ k, ∃ x, recent_times (S n) m k = recent_times n m k ++ x ∧ (length x ≤ 1)%nat.
Proof.
  induction n as [|n IH]; intros k.
  - rewrite recent_times_S. destruct (k ≫= _) as [b|]; [exists [nTime b]|exists []]; split; (done || cbn; lia).
  - rewrite (recent_times_S (S n)), (recent_times_S n). destruct (k ≫= _) as [b|]; [|exists []; split; [done|cbn; lia]].
    destruct (IH (pprev b)) as (x & -> & Hx). exists x. split; [done|exact Hx].
Qed.

Lemma filter_disjoint (P Q : Z → Prop) `{!∀ x, Decision (P x), !∀ x, Decision (Q x)} l : (∀ x, P x → Q x → False) →
  (length (filter P l) + length (filter Q l) ≤ length l)%nat.
Proof.
  intros Hd. induction l as [|x l IH]; [done|]. rewrite !filter_cons.
  destruct (decide (P x)), (decide (Q x)); cbn [length]; [exfalso; eauto|lia..].
Qed.

Lemma median_time_step m p b q : times_increase m → m !! p = Some b → pprev b = Some q → is_Some (m !! q) →
  GetMedianTimePast m q ≤ GetMedianTimePast m p.
Proof.
  intros Ht Hp Hq [c Hc]. specialize (Ht p b q Hp Hq).
  destruct (GetMedianTimePast_spec m q c Hc) as (_ & _ & Hge). destruct (GetMedianTimePast_spec m p b Hp) as (_ & Hle & _).
  set (r := GetMedianTimePast m q) in *. set (r' := GetMedianTimePast m p) in *. cbv zeta in *.
  change nMedianTimeSpan with 11%nat in *. rewrite (recent_times_S 10 m (Some p)) in Hle. cbn [mbind option_bind] in Hle.
  rewrite Hp, Hq in Hle. destruct (recent_times_more 10 m (Some q)) as (x & E & Hx). rewrite E in Hge.
  set (l := recent_times 10 m (Some q)) in *. destruct (Z.le_gt_cases r r') as [|Hlt]; [done|exfalso].
  rewrite filter_cons_False in Hle by lia. cbn [length] in Hle. rewrite filter_app, !length_app in Hge.
  pose proof (filter_disjoint (λ y, y ≤ r') (λ y, r ≤ y) l ltac:(cbv beta; intros y ? ?; lia)) as Hd.
  pose proof (length_filter (λ y, r ≤ y) x) as Hfx.
  set (A := length (filter _ l)) in *. set (B := length (filter (λ y, r ≤ y) l)) in *. set (X := length (filter _ x)) in *.
  pose proof (Nat.div_mod_eq (S (length l)) 2). pose proof (Nat.div_mod_eq (length l + length x) 2).
  pose proof (Nat.mod_upper_bound (S (length l)) 2). pose proof (Nat.mod_upper_bound (length l + length x) 2). lia.
Qed.

Lemma median_time_mono m : wf_index m → times_increase m → ∀ n p a, is_Some (m !! p) → nth_prev m n p = Some a →
  GetMedianTimePast m a ≤ GetMedianTimePast m p.
Proof.
  intros Hwf Ht. induction n as [|n IH]; intros p a [b Hp] E; cbn [nth_prev] in E; [injection E as <-; lia|].
  rewrite Hp in E. cbn [mbind option_bind] in E. destruct (pprev b) as [q|] eqn:Eq; [|done]. cbn [mbind option_bind] in E.
  destruct (Hwf p b Hp) as [_ Hpp _]. rewrite Eq in Hpp. destruct Hpp as (c & Hc & _).
  pose proof (IH q a ltac:(by eexists) E). pose proof (median_time_step m p b q Ht Hp Eq ltac:(by eexists)). lia.
Qed.

(** * The cached computation *)

Section Cached.
Context (m : blockmap) (chk : ThresholdConditionChecker).
Context (Hwf : wf_index m) (Hperiod : 0 < Period chk) (Hstart : BeginTime chk ≤ EndTime chk) (Htimes : times_increase m).

(** A cache holds states of ends of periods. *)
Definition sound (cache : ThresholdConditionCache) : Prop :=
  ∀ k s, cache !! k = Some s → boundary m chk k ∧ state_of m chk k s.

Lemma sound_insert cache k s : sound cache → boundary m chk k → state_of m chk k s → sound (<[k := s]> cache).
Proof. intros Hc Hb Hs k' s'. destruct (decide (k' = k)) as [->|]; [rewrite lookup_insert_eq; by intros [= <-]|]. rewrite lookup_insert_ne by done. apply Hc. Qed.

(** Before the start time nothing can have started: the shortcut of the backward walk. *)
Lemma state_before_start p : boundary m chk (Some p) → GetMedianTimePast m p < BeginTime chk → state_of m chk (Some p) THRESHOLD_DEFINED.
Proof using Hwf Hperiod Hstart Htimes.
  remember (Z.to_nat (height_of m (Some p))) as n eqn:Hn. revert p Hn. induction (lt_wf n) as [n _ IH]. intros p Hn Hb Hlt.
  destruct (Hb) as (b & Hp & _). destruct (Hwf p b Hp) as [Hh _ _]. rewrite (height_of_some m p b Hp) in Hn.
  destruct (previous_period_boundary m chk Hwf Hperiod p b Hp Hb) as (k & E & Hk & Hhk & Hle & Ha).
  assert (Hs : state_of m chk k THRESHOLD_DEFINED).
  { destruct k as [q|]; [|constructor]. destruct (Hk) as (c & Hq & _). rewrite (height_of_some m q c Hq) in Hhk.
    destruct (Hwf q c Hq) as [Hhq _ _]. apply (IH (Z.to_nat (nHeight c))); [lia|by rewrite (height_of_some m q c)|done|].
    destruct (Ha q eq_refl) as [j Hj]. pose proof (median_time_mono m Hwf Htimes j p q ltac:(by eexists) Hj). lia. }
  eapply state_next; [exact E|exact Hs|]. cbn [next_state]. do 2 (rewrite Z.geb_leb, (proj2 (Z.leb_gt _ _)) by lia). done.
Qed.

(** The blocks to compute, each one period after the one before, from [k] to [k']. *)
Fixpoint linked (k : option ptr) (v : list ptr) (k' : option ptr) : Prop :=
  match v with
  | [] => k = k'
  | p :: v' => previous_period m chk p = Some k ∧ boundary m chk (Some p) ∧ linked (Some p) v' k'
  end.

Lemma walk_back_spec fuel : ∀ cache k v k', sound cache → boundary m chk k → linked k v k' →
  (Z.to_nat (height_of m k + 1) ≤ fuel)%nat →
  ∃ k0 v0 cache0 s, walk_back m chk fuel cache k v = Some (k0, v0, cache0) ∧ sound cache0 ∧ cache0 !! k0 = Some s ∧
    state_of m chk k0 s ∧ linked k0 v0 k'.
Proof using Hwf Hperiod Hstart Htimes.
  assert (Hhit : ∀ fuel cache k v s, cache !! k = Some s → walk_back m chk fuel cache k v = Some (k, v, cache)).
  { intros f cache k v s E. destruct f; cbn [walk_back]; by rewrite E. }
  assert (Hnone : ∀ fuel cache v, cache !! None = None →
    walk_back m chk fuel cache None v = Some (None, v, <[None := THRESHOLD_DEFINED]> cache)).
  { intros f cache v E. destruct f; cbn [walk_back]; by rewrite E. }
  assert (Hg : state_of m chk None THRESHOLD_DEFINED) by constructor.
  induction fuel as [|fuel IH]; intros cache k v k' Hc Hb Hl Hf;
    (destruct (cache !! k) as [s|] eqn:E; [exists k, v, cache, s; split_and!; [by eapply Hhit|done..|by apply Hc|done]|]);
    (destruct k as [p|]; [|eexists None, v, _, THRESHOLD_DEFINED; split_and!;
       [by apply Hnone|by apply sound_insert|by rewrite lookup_insert_eq|done|done]]).
  - destruct (Hb) as (b & Hp & _). destruct (Hwf p b Hp) as [Hh _ _]. rewrite (height_of_some m p b Hp) in Hf. lia.
  - destruct (Hb) as (b & Hp & _). destruct (previous_period_boundary m chk Hwf Hperiod p b Hp Hb) as (k & Ek & Hk & Hhk & Hle & _).
    cbn [walk_back]. rewrite E. destruct (Z.ltb_spec (GetMedianTimePast m p) (BeginTime chk)) as [L|L].
    + pose proof (state_before_start p Hb L). eexists (Some p), v, _, THRESHOLD_DEFINED. split_and!; [done|by apply sound_insert|by rewrite lookup_insert_eq|done|done].
    + rewrite Ek. cbn [mbind option_bind]. rewrite (height_of_some m p b Hp) in Hf. destruct (Hwf p b Hp) as [Hh _ _].
      apply IH; [done|done|done|lia].
Qed.

Lemma walk_forward_spec v : ∀ cache k s k', sound cache → state_of m chk k s → linked k v k' →
  ∃ s' cache', walk_forward m chk v s cache = Some (s', cache') ∧ sound cache' ∧ state_of m chk k' s'.
Proof using Hwf Hperiod.
  induction v as [|p v IH]; intros cache k s k' Hc Hs Hl; cbn [linked walk_forward] in *; [subst; by eexists _, _|].
  destruct Hl as (Ep & Hb & Hl). destruct (next_state_total m chk Hwf Hperiod s p Hb) as [s1 E1]. rewrite E1. cbn [mbind option_bind].
  assert (state_of m chk (Some p) s1) as Hs1 by (by eapply state_next). by eapply IH; [apply sound_insert| |].
Qed.

(** The end of the period before the block after [k]. *)
Definition parent_of (k : option ptr) : option (option ptr) := match k with None => Some None | Some p => period_parent m chk p end.

Lemma GetStateFor_spec k cache : sound cache → (∀ p, k = Some p → is_Some (m !! p)) →
  ∃ k' s cache', parent_of k = Some k' ∧ boundary m chk k' ∧ GetStateFor m chk k cache = Some (s, cache') ∧ sound cache' ∧ state_of m chk k' s.
Proof using Hwf Hperiod Hstart Htimes.
  intros Hc Hk. assert (∃ k', parent_of k = Some k' ∧ boundary m chk k') as (k' & Ek & Hb).
  { destruct k as [p|]; [|by exists None]. destruct (Hk p eq_refl) as [b Hp].
    destruct (period_parent_boundary m chk Hwf Hperiod p b Hp) as (k' & E & Hb & _). by exists k'. }
  unfold GetStateFor. fold (parent_of k). rewrite Ek. cbn [mbind option_bind].
  set (fuel := match _ with Some b => _ | None => _ end).
  destruct (walk_back_spec fuel cache k' [] k' Hc Hb eq_refl) as (k0 & v0 & cache0 & s0 & -> & Hc0 & E0 & Hs0 & Hl0).
  { unfold fuel, height_of. destruct (k' ≫= _) as [b|] eqn:E; [|done]. destruct k' as [p|]; [|done].
    destruct (Hwf p b E) as [Hh _ _]. lia. }
  cbn [mbind option_bind]. rewrite E0. cbn [mbind option_bind].
  destruct (walk_forward_spec v0 cache0 k0 s0 k' Hc0 Hs0 Hl0) as (s' & cache' & E' & Hc' & Hs'). by exists k', s', cache'.
Qed.

(** * Progress along a branch *)

(** The state one period later of a state that signals no longer change. *)
Definition settled (s : ThresholdState) : option ThresholdState :=
  match s with
  | THRESHOLD_LOCKED_IN | THRESHOLD_ACTIVE => Some THRESHOLD_ACTIVE
  | THRESHOLD_FAILED => Some THRESHOLD_FAILED
  | _ => None
  end.

Lemma settled_next s s' p : settled s = Some s' → next_state m chk s p = Some s' ∧ settled s' = Some s'.
Proof. by destruct s; intros [= <-]. Qed.

(** Ancestors of a block are ordered by height. *)
Lemma ancestor_order q c a b a' b' : m !! q = Some c → m !! a = Some b → m !! a' = Some b' →
  ancestor m q a → ancestor m q a' → nHeight b' ≤ nHeight b → ancestor m a a' ∧ (nHeight b' = nHeight b → a = a').
Proof using Hwf.
  intros Hq Ha Ha' H H' Hle. destruct (ancestor_height m q c a b Hwf Hq Ha H) as [E L], (ancestor_height m q c a' b' Hwf Hq Ha' H') as [E' L'].
  split; [|intros Heq; rewrite Heq in E'; congruence]. exists (Z.to_nat (nHeight b - nHeight b')).
  replace (Z.to_nat (nHeight c - nHeight b')) with (Z.to_nat (nHeight c - nHeight b) + Z.to_nat (nHeight b - nHeight b'))%nat in E' by lia.
  rewrite nth_prev_add, E in E'. done.
Qed.

Lemma boundary_gap p b q c : boundary m chk (Some p) → boundary m chk (Some q) → m !! p = Some b → m !! q = Some c →
  nHeight b < nHeight c → nHeight b + Period chk ≤ nHeight c.
Proof using Hperiod.
  intros (b' & Hp & Hb) (c' & Hq & Hc) Hp' Hq' Hlt. rewrite Hp in Hp'. rewrite Hq in Hq'. injection Hp' as ->. injection Hq' as ->.
  apply Z.mod_divide in Hb, Hc; [|lia..]. destruct (Z.divide_sub_r _ _ _ Hc Hb) as [z Hz]. assert (1 ≤ z) by nia. nia.
Qed.

Lemma period_later a c : a + Period chk ≤ c → a - (a + 1) mod Period chk < c - (c + 1) mod Period chk.
Proof using Hperiod.
  intros H. rewrite !Z.mod_eq by lia. assert ((a + 1) / Period chk + 1 ≤ (c + 1) / Period chk); [|nia].
  rewrite <- (Z.div_add (a + 1) 1) by lia. apply Z.div_le_mono; lia.
Qed.

(** Once settled, a state is settled for every later period of the branch. *)
Lemma settled_later p b s s' : m !! p = Some b → boundary m chk (Some p) → state_of m chk (Some p) s → settled s = Some s' →
  ∀ q c, m !! q = Some c → boundary m chk (Some q) → ancestor m q p → nHeight b < nHeight c → state_of m chk (Some q) s'.
Proof using Hwf Hperiod.
  intros Hp Hbp Hs Hset q c. remember (Z.to_nat (nHeight c)) as n eqn:Hn. revert q c Hn.
  induction (lt_wf n) as [n _ IH]. intros q c Hn Hq Hbq Ha Hlt. pose proof (boundary_gap p b q c Hbp Hbq Hp Hq Hlt) as Hgap.
  destruct (Hwf p b Hp) as [Hh _ _]. destruct (previous_period_boundary m chk Hwf Hperiod q c Hq Hbq) as (k & E & Hk & Hhk & _ & Hak).
  destruct k as [r|]; [|cbn in Hhk; lia]. destruct (Hk) as (d & Hr & _). rewrite (height_of_some m r d Hr) in Hhk.
  specialize (Hak r eq_refl). destruct (settled_next s s' q Hset) as [Hn1 Hn2].
  destruct (ancestor_order q c r d p b Hq Hr Hp Hak Ha ltac:(lia)) as [Hrp Heq].
  destruct (decide (nHeight b = nHeight d)) as [Hd|Hd].
  - rewrite <- (Heq Hd) in Hs. by eapply state_next.
  - eapply state_next; [exact E| |exact (proj1 (settled_next s' s' q Hn2))].
    apply (IH (Z.to_nat (nHeight d)) ltac:(lia) r d eq_refl Hr Hk Hrp). lia.
Qed.
End Cached.

(** * Examples *)

(** A deployment with periods of three blocks, signalled by every block after the first period. *)
Definition example_checker : ThresholdConditionChecker := mkChecker (λ b, nHeight b >? 2) 60 100000 3 2.

Lemma times_increase_decide m :
  forallb (λ '(p, b), match pprev b with Some q => GetMedianTimePast m q <? nTime b | None => true end) (map_to_list m) = true → times_increase m.
Proof.
  rewrite forallb_forall. intros H p b q Hp Hq. specialize (H (p, b)). rewrite <- list_elem_of_In, elem_of_map_to_list in H.
  specialize (H Hp). cbv beta iota in H. rewrite Hq in H. by apply Z.ltb_lt in H.
Qed.

Lemma sound_empty m chk : sound m chk ∅.
Proof. by intros k s E. Qed.

(** * Properties *)

(** C33: the cached computation of a deployment's state gives the state that is defined period by period from the
    genesis block, with no cache and no shortcut. With a cache that holds right states (as the empty cache does), the
    computation ends for every block of the index and without dereferencing a null pointer, returns the state of the
    last period before the block, and leaves a cache that holds right states. So the state does not depend on the queries
    made before. The shortcut taken before the start time is right because block times are later than the
    median time of the blocks before them. *)
Theorem GetStateFor_cached m chk k cache cache1 : wf_index m → times_increase m → 0 < Period chk → BeginTime chk ≤ EndTime chk →
  (∀ p, k = Some p → is_Some (m !! p)) → sound m chk cache → sound m chk cache1 →
  ∃ k' s cache' cache1', parent_of m chk k = Some k' ∧ state_of m chk k' s ∧
    GetStateFor m chk k cache = Some (s, cache') ∧ sound m chk cache' ∧
    GetStateFor m chk k cache1 = Some (s, cache1') ∧ sound m chk ∅.
Proof.
  intros Hwf Ht Hp Hb Hk Hc Hc1. destruct (GetStateFor_spec m chk Hwf Hp Hb Ht k cache Hc Hk) as (k' & s & cache' & E & _ & E1 & Hc' & Hs).
  destruct (GetStateFor_spec m chk Hwf Hp Hb Ht k cache1 Hc1 Hk) as (k1 & s1 & cache1' & E' & _ & E1' & _ & Hs1).
  rewrite E in E'. injection E' as <-. rewrite (state_of_fun m chk _ _ Hs1 _ Hs) in E1'. by exists k', s, cache', cache1'.
Qed.

Lemma GetStateFor_cached_witness :
  let m := example_chain 12 0 0 60 in
  ∃ cache', GetStateFor m example_checker (Some 12%positive) ∅ = Some (THRESHOLD_ACTIVE, cache') ∧ state_of m example_checker (Some 12%positive) THRESHOLD_ACTIVE.
Proof.
  cbv zeta. set (m := example_chain 12 0 0 60). assert (Hwf : wf_index m) by (apply wf_indexb_sound; vm_compute; reflexivity).
  assert (Ht : times_increase m) by (apply times_increase_decide; vm_compute; reflexivity).
  assert (is_Some (m !! 12%positive)) as H12 by (vm_compute; eexists; reflexivity).
  assert (fst <$> GetStateFor m example_checker (Some 12%positive) ∅ = Some THRESHOLD_ACTIVE) as E1 by (vm_compute; reflexivity).
  assert (parent_of m example_checker (Some 12%positive) = Some (Some 12%positive)) as E2 by (vm_compute; reflexivity).
  clearbody m. destruct (GetStateFor_cached m example_checker (Some 12%positive) ∅ ∅ Hwf Ht) as (k & s & c & c1 & Ek & Hs & E & _);
    [reflexivity|discriminate|intros p [= <-]; exact H12|apply sound_empty|apply sound_empty|].
  rewrite E in E1. injection E1 as ->. rewrite E2 in Ek. injection Ek as <-. by exists c.
Defined.

(** deployments make progress. Once a block finds a deployment locked in, every descendant at least one period later
    finds it active, whatever the blocks between signal and whatever their times; a deployment that is active or has
    failed is still so for these descendants. *)
Theorem locked_in_activates m chk p b q c cache cache1 s cache1' s' : wf_index m → times_increase m → 0 < Period chk → BeginTime chk ≤ EndTime chk →
  m !! p = Some b → m !! q = Some c → ancestor m q p → nHeight b + Period chk ≤ nHeight c →
  sound m chk cache → sound m chk cache1 →
  GetStateFor m chk (Some p) cache1 = Some (s, cache1') → settled s = Some s' →
  ∃ cache', GetStateFor m chk (Some q) cache = Some (s', cache').
Proof.
  intros Hwf Ht Hper Hb Hp Hq Ha Hle Hc Hc1 E Hset.
  destruct (GetStateFor_spec m chk Hwf Hper Hb Ht (Some p) cache1 Hc1 ltac:(intros ? [= <-]; by eexists)) as (k & s0 & c0 & Ek & Hk & E0 & _ & Hs).
  rewrite E in E0. injection E0 as <- <-.
  destruct (GetStateFor_spec m chk Hwf Hper Hb Ht (Some q) cache Hc ltac:(intros ? [= <-]; by eexists)) as (k' & s1 & c1 & Ek' & Hk' & E1 & _ & Hs1).
  exists c1. rewrite E1. f_equal. f_equal. apply (state_of_fun m chk k' s1 Hs1).
  cbn [parent_of] in Ek, Ek'. destruct (period_parent_boundary m chk Hwf Hper p b Hp) as (k0 & Ek0 & _ & Hh & Hanc & _).
  destruct (period_parent_boundary m chk Hwf Hper q c Hq) as (k0' & Ek0' & _ & Hh' & Hanc' & _).
  rewrite Ek in Ek0. rewrite Ek' in Ek0'. injection Ek0 as <-. injection Ek0' as <-.
  destruct k as [x|]; [|inversion Hs; subst; discriminate]. destruct (Hk) as (bx & Hx & _). rewrite (height_of_some m x bx Hx) in Hh.
  destruct (Hwf x bx Hx) as [Hhx _ _]. pose proof (Z.mod_pos_bound (nHeight c + 1) (Period chk) Hper). pose proof (Z.mod_pos_bound (nHeight b + 1) (Period chk) Hper).
  destruct k' as [y|]; [|cbn in Hh'; lia]. destruct (Hk') as (byy & Hy & _). rewrite (height_of_some m y byy Hy) in Hh'.
  assert (nHeight bx < nHeight byy) by (rewrite Hh, Hh'; apply (period_later chk Hper); lia).
  apply (settled_later m chk Hwf Hper x bx s s' Hx Hk Hs Hset y byy Hy Hk'); [|done].
  apply (ancestor_order m Hwf q c y byy x bx Hq Hy Hx); [by apply Hanc'| |lia].
  apply (ancestor_trans m q p); [done|by apply Hanc].
Qed.

Lemma locked_in_activates_witness :
  let m := example_chain 12 0 0 60 in
  ∃ cache', GetStateFor m example_checker (Some 10%positive) ∅ = Some (THRESHOLD_ACTIVE, cache').
Proof.
  cbv zeta. set (m := example_chain 12 0 0 60). assert (Hwf : wf_index m) by (apply wf_indexb_sound; vm_compute; reflexivity).
  assert (Ht : times_increase m) by (apply times_increase_decide; vm_compute; reflexivity).
  assert (nHeight <$> m !! 6%positive = Some 5) as E6 by (vm_compute; reflexivity).
  assert (nHeight <$> m !! 10%positive = Some 9) as E10 by (vm_compute; reflexivity).
  assert (fst <$> GetStateFor m example_checker (Some 6%positive) ∅ = Some THRESHOLD_LOCKED_IN) as Es by (vm_compute; reflexivity).
  assert (ancestor m 10 6) as Ha by (exists 4%nat; vm_compute; reflexivity).
  clearbody m. destruct (m !! 6%positive) as [b|] eqn:Eb; [|discriminate]. destruct (m !! 10%positive) as [c|] eqn:Ec; [|discriminate].
  destruct (GetStateFor m example_checker (Some 6%positive) ∅) as [[s1 c1]|] eqn:E; [|discriminate].
  injection E6 as E6. injection E10 as E10. injection Es as ->.
  apply (locked_in_activates m example_checker 6 b 10 c ∅ ∅ THRESHOLD_LOCKED_IN c1 THRESHOLD_ACTIVE Hwf Ht); try done.
  rewrite E6, E10. done.
Defined.
