(* ===== verification/Pow.v ===== *)
(** Proof of work (pow.cpp, the work functions of chain.cpp): the two difficulty rules,
    the check of a block's hash and the work of a chain. *)
From stdpp Require Import gmap list.
From Stdlib Require Import ZArith Lia.
From S2P Require Import Prelude ArithUint256 Chain.
Open Scope Z_scope.

(** * Consensus parameters (consensus/params.h) *)

Record Params := mkParams {
  powLimit : uint256;
  kawpowLimit : uint256;
  fPowAllowMinDifficultyBlocks : bool;
  fPowNoRetargeting : bool;
  nPowTargetSpacing : Z;
  nPowTargetTimespan : Z;
  (** the globals [nKAWPOWActivationTime] and [GetParams().DGWActivationBlock()] *)
  nKAWPOWActivationTime : Z;
  DGWActivationBlock : Z }.

Definition DifficultyAdjustmentInterval (params : Params) : Z :=
  nPowTargetTimespan params /c nPowTargetSpacing params.

Definition IsDGWActive (params : Params) (nBlockNumber : Z) : bool :=
  u32 nBlockNumber >=? DGWActivationBlock params.

(** The target a compact word decodes to, flags dropped. *)
Definition target_of (nBits : Z) : base_uint := fst (fst (SetCompact nBits)).

(** The parameters of the main network. *)
Definition main_nKAWPOWActivationTime : Z := 1710119893.
Definition main_nDGWActivationBlock : Z := 1.
Definition CMainParams_pow : Params :=
  mkParams (repeat 255 31 ++ [0]) (repeat 255 28 ++ [15; 0; 0; 0]) true false (1 * 60) (20 * 60) main_nKAWPOWActivationTime main_nDGWActivationBlock.

(** * Difficulty (pow.cpp)

    Results are [None] where the code aborts: a failed assertion, a division
    by zero, or an entry that is not in memory. *)

(** [while (pindex->pprev && pindex->nHeight % interval != 0 && pindex->nBits == limit)
    pindex = pindex->pprev; return pindex->nBits] *)
Fixpoint last_nonspecial (fuel : nat) (m : blockmap) (params : Params) (limit : Z) (pindex : ptr)
    : option Z :=
  b ← m !! pindex;
  match pprev b with
  | Some q =>
      if negb (nHeight b %c DifficultyAdjustmentInterval params =? 0) && (nBits b =? limit)
      then match fuel with
           | O => None
           | S fuel' => last_nonspecial fuel' m params limit q
           end
      else Some (nBits b)
  | None => Some (nBits b)
  end.

Definition nPastBlocks : Z := 10.

(** The averaging loop of [DarkGravityWave]: [n] rounds from [nCountBlocks]. *)
Fixpoint dgw_loop (n : nat) (m : blockmap) (params : Params) (nCountBlocks : Z) (pindex : ptr)
    (bnPastTargetAvg : base_uint) (nKAWPOWBlocksFound : Z) : option (ptr * base_uint * Z) :=
  match n with
  | O => Some (pindex, bnPastTargetAvg, nKAWPOWBlocksFound)
  | S n' =>
      b ← m !! pindex;
      let bnTarget := target_of (nBits b) in
      avg ← (if nCountBlocks =? 1 then Some bnTarget
             else uint_div (uint_add (uint_mul32 bnPastTargetAvg nCountBlocks) bnTarget)
                           (uint_of_u64 (nCountBlocks + 1)));
      let found := if nTime b >=? nKAWPOWActivationTime params
                   then nKAWPOWBlocksFound + 1 else nKAWPOWBlocksFound in
      pindex ← (if nCountBlocks =? nPastBlocks then Some pindex else pprev b);
      dgw_loop n' m params (nCountBlocks + 1) pindex avg found
  end.

Definition clamp_timespan (nActualTimespan lo hi : Z) : Z :=
  let t := if nActualTimespan <? lo then lo else nActualTimespan in
  if t >? hi then hi else t.

(** [bnNew *= nActualTimespan; bnNew /= nTargetTimespan] and the cap: the
    factor is converted to [uint32_t], the divisor to [uint64_t]. *)
Definition retarget (bnNew bnPowLimit : base_uint) (nActualTimespan nTargetTimespan : Z)
    : option Z :=
  let bnNew := uint_mul32 bnNew (u32 nActualTimespan) in
  bnNew ← uint_div bnNew (uint_of_u64 (u64 nTargetTimespan));
  let bnNew := if uint_gt bnNew bnPowLimit then bnPowLimit else bnNew in
  Some (GetCompact bnNew false).

Definition DarkGravityWave (m : blockmap) (pindexLast : ptr) (pblock : CBlockHeader)
    (params : Params) : option Z :=
  last ← m !! pindexLast;
  let bnPowLimit := UintToArith256 (powLimit params) in
  let nProofOfWorkLimit := GetCompact bnPowLimit false in
  if nHeight last <? nPastBlocks then Some (GetCompact bnPowLimit false)
  else if fPowAllowMinDifficultyBlocks params && fPowNoRetargeting params then
    if hdr_nTime pblock >? GetBlockTime last + nPowTargetSpacing params * 2
    then Some nProofOfWorkLimit
    else last_nonspecial (Z.to_nat (nHeight last)) m params nProofOfWorkLimit pindexLast
  else
    '(pindex, bnPastTargetAvg, nKAWPOWBlocksFound) ←
      dgw_loop (Z.to_nat nPastBlocks) m params 1 pindexLast uint_zero 0;
    if (hdr_nTime pblock >=? nKAWPOWActivationTime params) &&
       negb (nKAWPOWBlocksFound =? nPastBlocks)
    then Some (GetCompact (UintToArith256 (kawpowLimit params)) false)
    else
      first ← m !! pindex;
      let nTargetTimespan := nPastBlocks * nPowTargetSpacing params in
      let nActualTimespan :=
        clamp_timespan (GetBlockTime last - GetBlockTime first)
          (nTargetTimespan /c 3) (nTargetTimespan * 3) in
      retarget bnPastTargetAvg bnPowLimit nActualTimespan nTargetTimespan.

Definition CalculateNextWorkRequired (m : blockmap) (pindexLast : ptr) (nFirstBlockTime : Z)
    (params : Params) : option Z :=
  last ← m !! pindexLast;
  if fPowNoRetargeting params then Some (nBits last)
  else
    let nActualTimespan :=
      clamp_timespan (GetBlockTime last - nFirstBlockTime)
        (nPowTargetTimespan params /c 4) (nPowTargetTimespan params * 4) in
    retarget (target_of (nBits last)) (UintToArith256 (powLimit params))
      nActualTimespan (nPowTargetTimespan params).

Definition GetNextWorkRequiredBTC (m : blockmap) (pindexLast : ptr) (pblock : CBlockHeader)
    (params : Params) : option Z :=
  last ← m !! pindexLast;
  let nProofOfWorkLimit := GetCompact (UintToArith256 (powLimit params)) false in
  if negb ((nHeight last + 1) %c DifficultyAdjustmentInterval params =? 0) then
    if fPowAllowMinDifficultyBlocks params then
      if hdr_nTime pblock >? GetBlockTime last + nPowTargetSpacing params * 2
      then Some nProofOfWorkLimit
      else last_nonspecial (Z.to_nat (nHeight last)) m params nProofOfWorkLimit pindexLast
    else Some (nBits last)
  else
    let nHeightFirst := nHeight last - (DifficultyAdjustmentInterval params - 1) in
    if nHeightFirst <? 0 then None
    else
      pindexFirst ← mjoin (GetAncestor m pindexLast nHeightFirst);
      first ← m !! pindexFirst;
      CalculateNextWorkRequired m pindexLast (GetBlockTime first) params.

Definition GetNextWorkRequired (m : blockmap) (pindexLast : ptr) (pblock : CBlockHeader)
    (params : Params) : option Z :=
  last ← m !! pindexLast;
  if IsDGWActive params (nHeight last + 1)
  then DarkGravityWave m pindexLast pblock params
  else GetNextWorkRequiredBTC m pindexLast pblock params.

Definition CheckProofOfWork (hash : uint256) (nBits : Z) (params : Params) : bool :=
  let '(bnTarget, fNegative, fOverflow) := SetCompact nBits in
  if fNegative || EqualTo bnTarget 0 || fOverflow ||
     uint_gt bnTarget (UintToArith256 (powLimit params))
  then false
  else if uint_gt (UintToArith256 hash) bnTarget then false
  else true.

(** * Chain work (chain.cpp) *)

Definition GetBlockProof (nBits : Z) : option base_uint :=
  let '(bnTarget, fNegative, fOverflow) := SetCompact nBits in
  if fNegative || fOverflow || EqualTo bnTarget 0 then Some (uint_of_u64 0)
  else
    q ← uint_div (uint_not bnTarget) (uint_add bnTarget (uint_of_u64 1));
    Some (uint_add q (uint_of_u64 1)).

Definition GetBlockProofEquivalentTime (to_work from_work : base_uint) (tip_nBits : Z)
    (params : Params) : option Z :=
  let '(r, sign) := if uint_gt to_work from_work
                    then (uint_sub to_work from_work, 1)
                    else (uint_sub from_work to_work, -1) in
  proof ← GetBlockProof tip_nBits;
  r ← uint_div (uint_mul r (uint_of_u64 (u64 (nPowTargetSpacing params)))) proof;
  if uint_bits r >? 63 then Some (sign * (2 ^ 63 - 1))
  else Some (i64 (u64 (sign * GetLow64 r))).

(** * Lemmas *)

(** A word and its decoded target. *)
Definition good_bits (L : Z) (c : Z) : Prop := is_u32 c ∧ compact_val c ≤ L.

Lemma compact_val_nonneg c : 0 ≤ compact_val c.
Proof.
  unfold compact_val, compact_mant. pose proof (Z.mod_pos_bound c (2 ^ 23) ltac:(lia)).
  destruct (compact_exp c <=? 3); [apply Z_div_nonneg_nonneg|apply Z.mul_nonneg_nonneg];
    (lia || apply Z.pow_nonneg; lia).
Qed.

Lemma target_of_spec L c : good_bits L c → L < M256 →
  wf (target_of c) ∧ limbs_val (target_of c) = compact_val c.
Proof.
  intros [Hc Hle] HL. unfold target_of. pose proof (SetCompact_spec c Hc) as S.
  destruct (SetCompact c) as [[t neg] ovf]. cbn. destruct S as (W & V & _).
  split; [done|]. rewrite V. apply Z.mod_small. pose proof (compact_val_nonneg c). lia.
Qed.

Lemma clamp_timespan_range t lo hi : lo ≤ hi → lo ≤ clamp_timespan t lo hi ≤ hi.
Proof.
  intros H. unfold clamp_timespan. destruct (Z.ltb_spec t lo); [destruct (Z.gtb_spec lo hi)|destruct (Z.gtb_spec t hi)]; lia.
Qed.

Definition limit_ok (l : uint256) : Prop := length l = 32%nat ∧ Forall is_u8 l.

(** The retarget step: the product is taken modulo 2^256. *)
Lemma retarget_spec a l ts tt : wf a → wf l → 0 ≤ ts < 2 ^ 32 → 0 < tt < 2 ^ 64 →
  ∃ r, retarget a l ts tt = Some (GetCompact r false) ∧ wf r ∧
       limbs_val r = Z.min (limbs_val l) ((limbs_val a * ts) mod M256 / tt).
Proof.
  intros Ha Hl Hts Htt. unfold retarget.
  rewrite u32_small, u64_small by (unfold_words; lia).
  destruct (uint_mul32_spec a ts Ha Hts) as [W V].
  destruct (uint_of_u64_small tt ltac:(lia)) as [Wt Vt].
  pose proof (uint_div_spec _ _ W Wt) as D. destruct (uint_div _ _) as [q|]; [|lia].
  destruct D as (_ & Wq & Vq). cbn [mbind option_bind]. rewrite uint_gt_spec by done.
  rewrite Vq, V, Vt in *. destruct (Z.gtb_spec ((limbs_val a * ts) mod M256 / tt) (limbs_val l)).
  - exists l. split_and!; [done..|lia].
  - exists q. split_and!; [done..|lia].
Qed.

(** Whatever the product does, the result never exceeds the limit. *)
Lemma retarget_le a l ts tt c : wf a → wf l → retarget a l ts tt = Some c →
  ∃ r, c = GetCompact r false ∧ wf r ∧ limbs_val r ≤ limbs_val l.
Proof.
  intros Ha Hl. unfold retarget.
  destruct (uint_mul32_spec a (u32 ts) Ha (u32_range _)) as [W V].
  pose proof (uint_div_spec _ _ W (wf_of_u64 (u64 tt))) as D.
  destruct (uint_div _ _) as [q|]; [|done]. destruct D as (_ & Wq & Vq). cbn [mbind option_bind].
  rewrite uint_gt_spec by done. intros [= <-].
  destruct (Z.gtb_spec (limbs_val q) (limbs_val l)); eexists; (split_and!; [done..|lia]).
Qed.

Lemma GetCompact_le r : wf r → is_u32 (GetCompact r false) ∧ compact_val (GetCompact r false) ≤ limbs_val r.
Proof.
  intros Hr. destruct (GetCompact_shape r Hr) as (m & n & -> & Hn & Hm & _ & Em).
  destruct (compact_parts m n Hm ltac:(lia)) as (E1 & E2 & _).
  split; [unfold_words; lia|]. unfold compact_val. rewrite E1, E2.
  pose proof (wf_val_range r Hr) as R. destruct (Z.leb_spec n 3); rewrite Em.
  - rewrite Z.div_mul by (apply Z.pow_nonzero; lia). lia.
  - rewrite Z.mul_comm. apply Z.mul_div_le, Z.pow_pos_nonneg; lia.
Qed.

(** ** The averaging loop *)

(** The average of [DarkGravityWave] on mathematical integers. *)
Fixpoint avg_targets (k avg : Z) (ts : list Z) : Z :=
  match ts with
  | [] => avg
  | t :: ts' => avg_targets (k + 1) (if k =? 1 then t else (avg * k + t) / (k + 1)) ts'
  end.

Lemma avg_targets_range lo hi ts : Forall (λ t, lo ≤ t ≤ hi) ts →
  ∀ k avg, 1 ≤ k → (k = 1 ∧ ts ≠ [] ∨ lo ≤ avg ≤ hi) → lo ≤ avg_targets k avg ts ≤ hi.
Proof.
  induction 1 as [|t ts Ht _ IH]; intros k avg Hk Havg; cbn [avg_targets].
  - destruct Havg as [[_ ?]|?]; [done|lia].
  - apply IH; [lia|right]. destruct (Z.eqb_spec k 1) as [->|]; [lia|].
    destruct Havg as [[? _]|?]; [done|].
    split; [apply Z.div_le_lower_bound|apply Z.div_le_upper_bound]; nia.
Qed.

Lemma avg_targets_nonneg ts k avg : Forall (λ t, 0 ≤ t) ts → 1 ≤ k → 0 ≤ avg → 0 ≤ avg_targets k avg ts.
Proof.
  intros H. revert k avg. induction H as [|t ts Ht _ IH]; intros k avg Hk Ha; cbn [avg_targets]; [done|].
  apply IH; [lia|]. destruct (k =? 1); [done|]. apply Z.div_pos; nia.
Qed.

Definition count_kawpow (params : Params) (bs : list CBlockIndex) : Z :=
  Z.of_nat (length (filter (λ b, nKAWPOWActivationTime params ≤ nTime b) bs)).

Lemma dgw_loop_spec m params L : wf_index m → 11 * L < M256 →
  ∀ n k p b avg found, m !! p = Some b → Z.of_nat n + k = 11 → 1 ≤ k → Z.of_nat n - 1 ≤ nHeight b →
  Forall (λ b, good_bits L (nBits b)) (recent_blocks n m (Some p)) → wf avg → limbs_val avg ≤ L →
  ∃ p' a', dgw_loop n m params k p avg found =
      Some (p', a', found + count_kawpow params (recent_blocks n m (Some p))) ∧
    wf a' ∧ limbs_val a' ≤ L ∧
    limbs_val a' = avg_targets k (limbs_val avg) ((λ b, compact_val (nBits b)) <$> recent_blocks n m (Some p)) ∧
    nth_prev m (n - 1) p = Some p'.
Proof.
  intros Hwf HL. induction n as [|n IH]; intros k p b avg found Hp Hnk Hk Hh Hg Wa La.
  { exists p, avg. cbn. unfold count_kawpow. cbn. rewrite Z.add_0_r. done. }
  cbn [dgw_loop recent_blocks] in *. cbn [mbind option_bind] in *. rewrite Hp in *.
  cbn [mbind option_bind].
  apply Forall_cons in Hg as [Hg Hgs]. destruct (target_of_spec L (nBits b) Hg ltac:(lia)) as [Wt Vt].
  pose proof (compact_val_nonneg (nBits b)) as Hnn. destruct Hg as [Hu Hle].
  pose proof (wf_val_range avg Wa) as Ra.
  (* the new average *)
  assert (Havg : ∃ a1, (if k =? 1 then Some (target_of (nBits b)) else
      uint_div (uint_add (uint_mul32 avg k) (target_of (nBits b))) (uint_of_u64 (k + 1))) = Some a1 ∧
      wf a1 ∧ limbs_val a1 = (if k =? 1 then compact_val (nBits b)
                              else (limbs_val avg * k + compact_val (nBits b)) / (k + 1)) ∧
      limbs_val a1 ≤ L).
  { destruct (Z.eqb_spec k 1) as [->|Hk1]; [eexists; split_and!; [done..|lia]|].
    destruct (uint_mul32_spec avg k Wa ltac:(unfold_words; lia)) as [Wm Vm].
    rewrite Z.mod_small in Vm by nia.
    destruct (uint_add_spec _ _ Wm Wt) as [Ws Vs]. rewrite Vm, Vt, Z.mod_small in Vs by nia.
    destruct (uint_of_u64_small (k + 1) ltac:(lia)) as [Wk Vk].
    pose proof (uint_div_spec _ _ Ws Wk) as D. destruct (uint_div _ _) as [q|]; [|lia].
    destruct D as (_ & Wq & Vq). rewrite Vs, Vk in Vq. exists q. split_and!; [done..|].
    rewrite Vq. apply Z.div_le_upper_bound; nia. }
  destruct Havg as (a1 & -> & Wa1 & Va1 & La1). cbn [mbind option_bind].
  assert (Hcount : ∀ bs, (if nTime b >=? nKAWPOWActivationTime params then found + 1 else found) +
            count_kawpow params bs = found + count_kawpow params (b :: bs)).
  { intros bs. unfold count_kawpow. rewrite filter_cons. unfold GetBlockTime in *.
    destruct (Z.geb_spec (nTime b) (nKAWPOWActivationTime params));
      case_decide; cbn [length]; lia. }
  unfold nPastBlocks. destruct (Z.eqb_spec k 10) as [->|Hk10]; cbn [mbind option_bind].
  - assert (n = 0)%nat as -> by lia. cbn [dgw_loop recent_blocks] in *. exists p, a1.
    rewrite <- Hcount. unfold count_kawpow at 1. cbn. rewrite Z.add_0_r. split_and!; done.
  - destruct (Hwf p b Hp) as [_ Hprev _]. destruct (pprev b) as [q|] eqn:Eq; [|lia].
    destruct Hprev as (c & Hq & E). cbn [mbind option_bind].
    destruct (IH (k + 1) q c a1 (if nTime b >=? nKAWPOWActivationTime params then found + 1 else found)
      Hq ltac:(lia) ltac:(lia) ltac:(lia) Hgs Wa1 La1) as (p' & a' & H1 & H2 & H3 & H4 & H5).
    exists p', a'. rewrite H1, Hcount. split_and!; [done..| |].
    + rewrite H4, Va1. done.
    + destruct n as [|n]; [lia|]. replace (S (S n) - 1)%nat with (S (S n - 1)) by lia.
      cbn [nth_prev]. rewrite Hp. cbn. by rewrite Eq.
Qed.

(** ** [DarkGravityWave] on mathematical integers *)

(** The average of the targets of some blocks, their clamped timespan and the target that follows
    from both. *)
Definition dgw_average (bs : list CBlockIndex) : Z := avg_targets 1 0 ((λ b, compact_val (nBits b)) <$> bs).
Definition dgw_timespan (spacing : Z) (bs : list CBlockIndex) : Z :=
  let span := match head bs, last bs with
              | Some l, Some f => nTime l - nTime f | _, _ => 0 end in
  clamp_timespan span (10 * spacing /c 3) (10 * spacing * 3).
Definition dgw_target (L spacing : Z) (bs : list CBlockIndex) : Z :=
  Z.min L (dgw_average bs * dgw_timespan spacing bs / (10 * spacing)).

Lemma dgw_timespan_range spacing bs : 0 < spacing → 3 * spacing ≤ dgw_timespan spacing bs ≤ 30 * spacing.
Proof.
  intros Hs. unfold dgw_timespan. set (span := match head bs with Some _ => _ | None => _ end).
  assert (Hq : 3 * spacing ≤ 10 * spacing /c 3 ≤ 10 * spacing * 3).
  { rewrite Z.quot_div_nonneg by lia. split; [apply Z.div_le_lower_bound|apply Z.div_le_upper_bound]; lia. }
  pose proof (clamp_timespan_range span (10 * spacing /c 3) (10 * spacing * 3) ltac:(lia)). lia.
Qed.
Lemma dgw_average_range lo hi bs : bs ≠ [] → Forall (λ b, lo ≤ compact_val (nBits b) ≤ hi) bs → lo ≤ dgw_average bs ≤ hi.
Proof.
  intros Hne Hr. apply avg_targets_range; [by apply Forall_fmap|lia|left; split; [done|by destruct bs]].
Qed.

Lemma recent_blocks_last m : wf_index m → ∀ n p b q, m !! p = Some b → Z.of_nat n ≤ nHeight b →
  nth_prev m n p = Some q → last (recent_blocks (S n) m (Some p)) = m !! q.
Proof.
  intros Hwf. induction n as [|n IH]; intros p b q Hp Hn Hq.
  - cbn in Hq. injection Hq as <-. cbn. rewrite Hp. done.
  - destruct (Hwf p b Hp) as [_ Hprev _]. cbn [nth_prev] in Hq. rewrite Hp in Hq. cbn in Hq.
    destruct (pprev b) as [r|] eqn:Er; [|done]. destruct Hprev as (c & Hr & E).
    rewrite <- (IH r c q) by (done || lia).
    change (recent_blocks (S (S n)) m (Some p)) with
      (match m !! p with None => [] | Some b => b :: recent_blocks (S n) m (pprev b) end).
    rewrite Hp, Er. cbn [recent_blocks]. cbn [mbind option_bind]. rewrite Hr. done.
Qed.

Lemma recent_blocks_length m : wf_index m → ∀ n p b, m !! p = Some b → Z.of_nat n ≤ nHeight b + 1 →
  length (recent_blocks n m (Some p)) = n.
Proof.
  intros Hwf. induction n as [|n IH]; intros p b Hp Hn; [done|].
  destruct (Hwf p b Hp) as [_ Hprev _]. cbn [recent_blocks]. cbn [mbind option_bind]. rewrite Hp.
  cbn [length]. f_equal. destruct (pprev b) as [r|].
  - destruct Hprev as (c & Hr & E). apply (IH r c); [done|lia].
  - assert (n = 0)%nat as -> by lia. done.
Qed.

Section Dgw.
Context (m : blockmap) (params : Params) (p : ptr) (b : CBlockIndex).
Context (Hwf : wf_index m) (Hp : m !! p = Some b) (Hh : nPastBlocks ≤ nHeight b).
Context (Hl : limit_ok (powLimit params)).

Lemma limit_spec : wf (UintToArith256 (powLimit params)) ∧
  limbs_val (UintToArith256 (powLimit params)) = le_val (powLimit params).
Proof. apply UintToArith256_spec; apply Hl. Qed.

Lemma DarkGravityWave_target pblock hi :
  let L := le_val (powLimit params) in
  let spacing := nPowTargetSpacing params in
  let bs := recent_blocks 10 m (Some p) in
  fPowAllowMinDifficultyBlocks params && fPowNoRetargeting params = false →
  Forall (λ b, good_bits hi (nBits b)) bs →
  (nKAWPOWActivationTime params ≤ hdr_nTime pblock →
   Forall (λ b, nKAWPOWActivationTime params ≤ nTime b) bs) →
  0 < spacing → 30 * spacing < 2 ^ 32 → 11 * hi < M256 →
  ∃ r, DarkGravityWave m p pblock params = Some (GetCompact r false) ∧ wf r ∧
       limbs_val r = Z.min L ((dgw_average bs * dgw_timespan spacing bs) mod M256 / (10 * spacing)).
Proof.
  intros L spacing bs Hmode Hg Hk Hs Hs32 HL. unfold DarkGravityWave. rewrite Hp. cbn [mbind option_bind].
  destruct limit_spec as [WL VL]. unfold nPastBlocks in *.
  rewrite (proj2 (Z.ltb_ge _ _)), Hmode by lia. cbv iota.
  destruct (dgw_loop_spec m params hi Hwf HL 10 1 p b uint_zero 0 Hp ltac:(lia) ltac:(lia) ltac:(lia) Hg
    wf_zero) as (p' & a' & E & Wa & La & Va & Hn).
  { change (limbs_val uint_zero) with 0. unfold bs in Hg. cbn [recent_blocks mbind option_bind] in Hg. rewrite Hp in Hg. apply Forall_cons in Hg as [[_ Hle] _].
    pose proof (compact_val_nonneg (nBits b)). lia. }
  change (Z.to_nat 10) with 10%nat. rewrite E. cbn [mbind option_bind]. fold bs in Va |- *.
  destruct (nth_prev_height m Hwf 9 p b Hp ltac:(lia)) as (p'' & c & E' & Hc & _).
  change (10 - 1)%nat with 9%nat in Hn. rewrite Hn in E'. injection E' as <-.
  assert (Hcond : (hdr_nTime pblock >=? nKAWPOWActivationTime params) &&
            negb (0 + count_kawpow params bs =? 10) = false).
  { destruct (Z.geb_spec (hdr_nTime pblock) (nKAWPOWActivationTime params)) as [G|G]; [|done].
    unfold count_kawpow. rewrite filter_all by (by apply Hk).
    unfold bs. by rewrite (recent_blocks_length m Hwf 10 p b Hp) by lia. }
  rewrite Hcond, Hc. cbn [mbind option_bind]. fold spacing.
  assert (Ets : clamp_timespan (GetBlockTime b - GetBlockTime c) (10 * spacing /c 3) (10 * spacing * 3) = dgw_timespan spacing bs).
  { unfold dgw_timespan. replace (head bs) with (Some b) by (unfold bs; cbn; by rewrite Hp).
    unfold bs. by rewrite (recent_blocks_last m Hwf 9 p b p'), Hc by (done || lia). }
  rewrite Ets. pose proof (dgw_timespan_range spacing bs Hs).
  destruct (retarget_spec a' (UintToArith256 (powLimit params)) (dgw_timespan spacing bs) (10 * spacing)
    Wa WL ltac:(lia) ltac:(lia)) as (r & E1 & Wr & Vr).
  exists r. split_and!; [done..|]. rewrite Vr, Va, VL. done.
Qed.

End Dgw.

(** ** Proof-of-work check and chain work *)

Lemma compact_val_not_max c : is_u32 c → compact_val c ≠ M256 - 1.
Proof.
  intros Hc E. unfold compact_val, compact_mant in E.
  pose proof (Z.mod_pos_bound c (2 ^ 23) ltac:(lia)) as Hm.
  destruct (Z.leb_spec (compact_exp c) 3) as [L|L].
  - assert (c mod 2 ^ 23 / 256 ^ (3 - compact_exp c) ≤ c mod 2 ^ 23).
    { apply Z.div_le_upper_bound; [apply Z.pow_pos_nonneg; unfold compact_exp in *; lia|].
      assert (0 < 256 ^ (3 - compact_exp c)) by (apply Z.pow_pos_nonneg; lia). nia. }
    lia.
  - replace (compact_exp c - 3) with (1 + (compact_exp c - 4)) in E by lia.
    rewrite Z.pow_add_r in E by lia. change (256 ^ 1) with 256 in E. lia.
Qed.

Lemma GetBlockProof_spec c : is_u32 c →
  ∃ r, GetBlockProof c = Some r ∧ wf r ∧
  limbs_val r = if (compact_val c =? 0) || Z.testbit c 23 || (M256 <=? compact_val c) then 0
                else M256 / (compact_val c + 1).
Proof.
  intros Hc. unfold GetBlockProof. pose proof (SetCompact_spec c Hc) as S.
  pose proof (compact_val_nonneg c) as Hnn. destruct (SetCompact c) as [[t neg] ovf].
  destruct S as (W & V & Sn & So). rewrite EqualTo_spec by (done || unfold_words; lia).
  destruct (uint_of_u64_small 0 ltac:(lia)) as [W0 V0].
  destruct (neg || ovf || (limbs_val t =? 0)) eqn:E.
  - exists (uint_of_u64 0). split_and!; [done..|]. rewrite V0.
    rewrite !orb_true_iff in E. destruct E as [[E|E]|E].
    + apply Sn in E as [_ ->]. by rewrite orb_true_r.
    + apply So in E. by rewrite (proj2 (Z.leb_le _ _) E), orb_true_r.
    + destruct (Z.leb_spec M256 (compact_val c)) as [|L]; [by rewrite orb_true_r|].
      rewrite V, Z.mod_small in E by lia. by rewrite E.
  - rewrite !orb_false_iff in E. destruct E as [[En Eo] Et].
    destruct (Z.leb_spec M256 (compact_val c)) as [L|L]; [destruct ovf; [done|]; by apply So in L|].
    rewrite Z.mod_small in V by lia. rewrite V in Et. rewrite Et. cbn [orb].
    destruct (Z.testbit c 23) eqn:T.
    { destruct neg; [done|]. assert (false = true) by (apply Sn; split; [lia|done]). done. }
    destruct (uint_not_spec t W) as [Wn Vn]. destruct (uint_of_u64_small 1 ltac:(lia)) as [W1 V1].
    destruct (uint_add_spec t _ W W1) as [Wa Va]. pose proof (uint_div_spec _ _ Wn Wa) as D.
    pose proof (wf_val_range t W) as R. rewrite V1, V in Va. rewrite V in Vn, R.
    pose proof (compact_val_not_max c Hc). set (T' := compact_val c) in *.
    rewrite Z.mod_small in Va by lia. destruct (uint_div _ _) as [q|]; [|lia].
    destruct D as (_ & Wq & Vq). cbn [mbind option_bind]. rewrite Vn, Va in Vq.
    destruct (uint_add_spec q _ Wq W1) as [Wr Vr]. eexists. split_and!; [done..|].
    rewrite Vr, V1, Vq, <- Z.div_add, Z.mul_1_l by lia.
    replace (M256 - 1 - T' + (T' + 1)) with M256 by lia. apply Z.mod_small.
    split; [apply Z.div_pos; lia|apply Z.div_lt; lia].
Qed.

Lemma CheckProofOfWork_spec hash c params :
  is_u32 c → limit_ok hash → limit_ok (powLimit params) →
  CheckProofOfWork hash c params = true ↔
  0 < compact_val c ≤ le_val (powLimit params) ∧ Z.testbit c 23 = false ∧
  le_val hash ≤ compact_val c.
Proof.
  intros Hc [Hh1 Hh2] [Hl1 Hl2]. unfold CheckProofOfWork. pose proof (SetCompact_spec c Hc) as S.
  pose proof (compact_val_nonneg c) as Hnn. destruct (SetCompact c) as [[t neg] ovf].
  destruct S as (W & V & Sn & So).
  destruct (UintToArith256_spec hash Hh1 Hh2) as [Wh Vh].
  destruct (UintToArith256_spec (powLimit params) Hl1 Hl2) as [Wl Vl].
  rewrite EqualTo_spec by (done || unfold_words; lia). rewrite !uint_gt_spec by done.
  rewrite Vh, Vl, V. pose proof (wf_val_range _ Wl) as R. rewrite Vl in R.
  destruct (Z.leb_spec M256 (compact_val c)) as [L|L].
  { rewrite (proj2 So L), orb_true_r. cbn. split; [done|lia]. }
  rewrite Z.mod_small by lia. destruct ovf; [pose proof (proj1 So eq_refl); lia|].
  rewrite orb_false_r. destruct neg.
  { destruct (proj1 Sn eq_refl) as [_ ->]. cbn. split; [done|]. intros (_ & ? & _). done. }
  assert (Hb : compact_val c ≠ 0 → Z.testbit c 23 = false).
  { intros. destruct (Z.testbit c 23) eqn:T; [|done]. assert (false = true) by (by apply Sn). done. }
  cbn [orb]. destruct (Z.eqb_spec (compact_val c) 0); [cbn; split; [done|lia]|]. cbn [orb].
  destruct (Z.gtb_spec (compact_val c) (le_val (powLimit params))); [split; [done|lia]|].
  destruct (Z.gtb_spec (le_val hash) (compact_val c)); [split; [done|lia]|].
  split; [|done]. intros _. split_and!; [lia..|by apply Hb|lia].
Qed.

(** ** Bounds on the next target *)

(** Some block of the branch carries these bits. *)
Definition branch_bits (m : blockmap) (p : ptr) (c : Z) : Prop :=
  ∃ n q b, nth_prev m n p = Some q ∧ m !! q = Some b ∧ nBits b = c.

Lemma last_nonspecial_spec m params limit : wf_index m → ∀ fuel p b,
  m !! p = Some b → nHeight b ≤ Z.of_nat fuel →
  ∃ c, last_nonspecial fuel m params limit p = Some c ∧ branch_bits m p c.
Proof.
  intros Hwf. induction fuel as [|fuel IH]; intros p b Hp Hf; destruct (Hwf p b Hp) as [Hh Hprev _];
    assert (Hself : branch_bits m p (nBits b)) by (by exists 0%nat, p, b);
    cbn [last_nonspecial]; rewrite Hp; cbn [mbind option_bind];
    (destruct (pprev b) as [q|] eqn:Eq; [destruct Hprev as (c & Hq & E)|eauto]);
    (destruct (_ && _); [|eauto]).
  - destruct (Hwf q c Hq). lia.
  - destruct (IH q c Hq ltac:(lia)) as (bits & -> & n & r & d & H1 & H2 & H3).
    exists bits. split; [done|]. exists (S n), r, d. split_and!; [|done..].
    cbn [nth_prev]. rewrite Hp. cbn. by rewrite Eq.
Qed.

(** The bits of every entry are a 32-bit word. *)
Definition bits_ok (m : blockmap) : Prop := ∀ p b, m !! p = Some b → is_u32 (nBits b).

Lemma target_of_wf c : is_u32 c → wf (target_of c).
Proof.
  intros Hc. pose proof (SetCompact_spec c Hc) as S. unfold target_of.
  destruct (SetCompact c) as [[t neg] ovf]. apply S.
Qed.

Lemma uint_div_total a b : wf a → wf b → limbs_val b ≠ 0 → ∃ q, uint_div a b = Some q ∧ wf q.
Proof.
  intros Ha Hb Hn. pose proof (uint_div_spec a b Ha Hb) as D.
  destruct (uint_div a b) as [q|]; [|done]. exists q. tauto.
Qed.

Lemma dgw_loop_total m params : wf_index m → bits_ok m →
  ∀ n k p b avg found, m !! p = Some b → Z.of_nat n + k = 11 → 1 ≤ k → Z.of_nat n ≤ nHeight b →
  wf avg → ∃ p' c a' f', dgw_loop n m params k p avg found = Some (p', a', f') ∧ m !! p' = Some c ∧ wf a'.
Proof.
  intros Hwf Hbits. induction n as [|n IH]; intros k p b avg found Hp Hk Hk1 Hn Wa.
  - exists p, b, avg, found. done.
  - cbn [dgw_loop]. rewrite Hp. cbn [mbind option_bind].
    pose proof (target_of_wf (nBits b) (Hbits p b Hp)) as W.
    assert (Havg : ∃ a1, (if k =? 1 then Some (target_of (nBits b)) else
      uint_div (uint_add (uint_mul32 avg k) (target_of (nBits b))) (uint_of_u64 (k + 1))) = Some a1 ∧ wf a1).
    { destruct (k =? 1); [eauto|].
      destruct (uint_mul32_spec avg k Wa ltac:(unfold_words; lia)) as [Wm _].
      destruct (uint_add_spec _ _ Wm W) as [Ws _].
      destruct (uint_of_u64_small (k + 1) ltac:(lia)) as [Wk Vk]. apply uint_div_total; [done..|lia]. }
    destruct Havg as (a1 & -> & Wa1). cbn [mbind option_bind].
    destruct (Hwf p b Hp) as [_ Hprev _]. destruct (pprev b) as [q|] eqn:Eq; [|lia].
    destruct Hprev as (c & Hq & E). unfold nPastBlocks. destruct (Z.eqb_spec k 10) as [->|].
    + assert (n = 0)%nat as -> by lia. cbn. eauto 10.
    + cbn [mbind option_bind]. apply (IH _ q c); [done|lia..|done].
Qed.

Lemma retarget_total a l ts tt : wf a → wf l → 0 < tt < 2 ^ 64 → ∃ c, retarget a l ts tt = Some c.
Proof.
  intros Ha Hl Ht. unfold retarget. rewrite (u64_small tt) by (unfold_words; lia).
  destruct (uint_mul32_spec a (u32 ts) Ha (u32_range _)) as [W _].
  destruct (uint_of_u64_small tt ltac:(lia)) as [Wt Vt].
  destruct (uint_div_total _ _ W Wt ltac:(lia)) as (q & -> & _). cbn. eauto.
Qed.

Section Bounded.
Context (m : blockmap) (params : Params) (p : ptr) (b : CBlockIndex).
Context (Hwf : wf_index m) (Hbits : bits_ok m) (Hp : m !! p = Some b).
Context (Hl : limit_ok (powLimit params)).
Context (Hs : 0 < nPowTargetSpacing params < 2 ^ 32).
Context (Ht : nPowTargetSpacing params ≤ nPowTargetTimespan params < 2 ^ 32).

(** What a computed word can be. *)
Definition next_bits (c : Z) : Prop :=
  compact_val c ≤ le_val (powLimit params) ∨
  c = GetCompact (UintToArith256 (kawpowLimit params)) false ∨ branch_bits m p c.

Lemma limit_bits : compact_val (GetCompact (UintToArith256 (powLimit params)) false) ≤ le_val (powLimit params).
Proof.
  destruct (UintToArith256_spec (powLimit params) (proj1 Hl) (proj2 Hl)) as [W V].
  rewrite <- V. by apply GetCompact_le.
Qed.

Lemma retarget_bits a ts tt : wf a → 0 < tt < 2 ^ 64 →
  ∃ c, retarget a (UintToArith256 (powLimit params)) ts tt = Some c ∧ next_bits c.
Proof.
  intros Ha Htt. destruct (UintToArith256_spec (powLimit params) (proj1 Hl) (proj2 Hl)) as [W V].
  destruct (retarget_total a _ ts tt Ha W Htt) as [c E]. exists c. split; [done|left].
  destruct (retarget_le a _ ts tt c Ha W E) as (r & -> & Wr & Hle). rewrite <- V.
  etrans; [by apply GetCompact_le|done].
Qed.

Lemma DarkGravityWave_bits pblock : ∃ c, DarkGravityWave m p pblock params = Some c ∧ next_bits c.
Proof.
  unfold DarkGravityWave. rewrite Hp. cbn [mbind option_bind]. pose proof limit_bits as HL.
  destruct (Z.ltb_spec (nHeight b) nPastBlocks) as [|Hh]; [eexists; split; [done|by left]|].
  destruct (fPowAllowMinDifficultyBlocks params && fPowNoRetargeting params).
  - destruct (hdr_nTime pblock >? _); [eexists; split; [done|by left]|].
    destruct (last_nonspecial_spec m params (GetCompact (UintToArith256 (powLimit params)) false)
      Hwf (Z.to_nat (nHeight b)) p b Hp ltac:(lia)) as (c & -> & Hc).
    exists c. split; [done|by right; right].
  - change (Z.to_nat nPastBlocks) with 10%nat.
    destruct (dgw_loop_total m params Hwf Hbits 10 1 p b uint_zero 0 Hp ltac:(lia) ltac:(lia)
      ltac:(unfold nPastBlocks in Hh; lia) wf_zero) as (p' & c & a' & f' & -> & Hc & Wa).
    cbn [mbind option_bind]. destruct (_ && _); [eexists; split; [done|by right; left]|].
    rewrite Hc. cbn [mbind option_bind]. apply retarget_bits; [done|unfold nPastBlocks; lia].
Qed.

Lemma GetNextWorkRequiredBTC_bits pblock :
  ∃ c, GetNextWorkRequiredBTC m p pblock params = Some c ∧ next_bits c.
Proof.
  unfold GetNextWorkRequiredBTC. rewrite Hp. cbn [mbind option_bind]. pose proof limit_bits as HL.
  destruct (Hwf p b Hp) as [Hh _ _].
  assert (Hself : branch_bits m p (nBits b)) by (by exists 0%nat, p, b).
  set (I := DifficultyAdjustmentInterval params).
  assert (HI : 0 < I) by (unfold I, DifficultyAdjustmentInterval; apply Z.quot_str_pos; lia).
  rewrite Z.rem_mod_nonneg by lia. destruct (Z.eqb_spec ((nHeight b + 1) mod I) 0) as [E|E]; cbn [negb].
  - apply Z.mod_divide in E as [k Hk]; [|lia]. assert (1 ≤ k) by nia.
    rewrite (proj2 (Z.ltb_ge _ _)) by nia.
    destruct (GetAncestor_some m Hwf p b (nHeight b - (I - 1)) Hp ltac:(nia)) as (q & c & -> & Hq & _).
    cbn [mjoin option_join mbind option_bind]. rewrite Hq. cbn [mbind option_bind].
    unfold CalculateNextWorkRequired. rewrite Hp. cbn [mbind option_bind].
    destruct (fPowNoRetargeting params); [eexists; split; [done|by right; right]|].
    apply retarget_bits; [apply target_of_wf; eauto|lia].
  - destruct (fPowAllowMinDifficultyBlocks params); [|eexists; split; [done|by right; right]].
    destruct (hdr_nTime pblock >? _); [eexists; split; [done|by left]|].
    destruct (last_nonspecial_spec m params (GetCompact (UintToArith256 (powLimit params)) false)
      Hwf (Z.to_nat (nHeight b)) p b Hp ltac:(lia)) as (c & -> & Hc).
    exists c. split; [done|by right; right].
Qed.

End Bounded.

(** The averaged target moves by at most a factor of three either way. *)
Lemma dgw_target_range L spacing lo hi bs : 0 < spacing → 0 ≤ lo →
  bs ≠ [] → Forall (λ b, lo ≤ compact_val (nBits b) ≤ hi) bs →
  Z.min L (3 * lo / 10) ≤ dgw_target L spacing bs ≤ Z.min L (3 * hi).
Proof.
  intros Hs Hlo Hne Hr. unfold dgw_target. pose proof (dgw_average_range lo hi bs Hne Hr) as Ha.
  pose proof (dgw_timespan_range spacing bs Hs) as Hc.
  set (avg := dgw_average bs) in *. set (ts := dgw_timespan spacing bs) in *.
  assert (3 * lo / 10 ≤ avg * ts / (10 * spacing)).
  { rewrite <- (Z.div_mul_cancel_r (3 * lo) 10 spacing) by lia. apply Z.div_le_mono; nia. }
  assert (avg * ts / (10 * spacing) ≤ 3 * hi) by (apply Z.div_le_upper_bound; nia). lia.
Qed.

(** A product taken modulo [M] that does not fit falls short of what is due. *)
Lemma wrapped_quotient x M L d : 0 < d ≤ M → M ≤ x → M ≤ L * d →
  d * Z.min L (x mod M / d) < M ∧ Z.min L (x mod M / d) < Z.min L (x / d).
Proof.
  intros Hd Hx HL. pose proof (Z.mod_pos_bound x M ltac:(lia)) as Hr.
  pose proof (Z.mul_div_le (x mod M) d ltac:(lia)).
  assert (x mod M ≤ x - M).
  { pose proof (Z.div_mod x M ltac:(lia)). assert (1 ≤ x / M) by (apply Z.div_le_lower_bound; lia). nia. }
  assert (x mod M / d + 1 ≤ x / d).
  { replace (x mod M / d + 1) with ((x mod M + 1 * d) / d) by (by rewrite Z.div_add by lia). apply Z.div_le_mono; lia. }
  assert (x mod M / d < L) by (apply Z.div_lt_upper_bound; lia). nia.
Qed.

Lemma bits_gt63 a : wf a → (uint_bits a >? 63) = (2 ^ 63 <=? limbs_val a).
Proof.
  intros Ha. rewrite uint_bits_spec by done. pose proof (wf_val_range a Ha).
  destruct (Z.eqb_spec (limbs_val a) 0) as [->|]; [done|].
  pose proof (Z.log2_le_pow2 (limbs_val a) 63 ltac:(lia)).
  destruct (Z.gtb_spec (Z.log2 (limbs_val a) + 1) 63), (Z.leb_spec (2 ^ 63) (limbs_val a)); lia.
Qed.

Lemma low64_sign a s : wf a → limbs_val a < 2 ^ 63 → s = 1 ∨ s = -1 →
  i64 (u64 (s * GetLow64 a)) = s * limbs_val a.
Proof.
  intros Ha Hl Hs. rewrite GetLow64_spec by done. pose proof (wf_val_range a Ha).
  rewrite (Z.mod_small (limbs_val a)) by lia. unfold_words. destruct Hs as [-> | ->].
  - rewrite Z.mul_1_l, (Z.mod_small (limbs_val a) (2 ^ 64)) by lia.
    rewrite Z.mod_small; lia.
  - destruct (Z.eq_dec (limbs_val a) 0) as [-> |]; [done|].
    replace (-1 * limbs_val a) with (2 ^ 64 - limbs_val a + (-1) * 2 ^ 64) by lia.
    rewrite Z.mod_add, (Z.mod_small (2 ^ 64 - _)) by lia.
    replace (2 ^ 64 - limbs_val a + 2 ^ 63) with (2 ^ 63 - limbs_val a + 1 * 2 ^ 64) by lia.
    rewrite Z.mod_add, Z.mod_small; lia.
Qed.

(** The work difference of two entries, as [GetBlockProofEquivalentTime] scales
    it, when nothing exceeds 256 bits. *)
Lemma GetBlockProofEquivalentTime_spec to_work from_work c params :
  wf to_work → wf from_work → is_u32 c →
  0 < compact_val c < M256 → Z.testbit c 23 = false →
  0 < nPowTargetSpacing params < 2 ^ 63 →
  Z.abs (limbs_val to_work - limbs_val from_work) * nPowTargetSpacing params < M256 →
  GetBlockProofEquivalentTime to_work from_work c params =
    Some (Z.sgn (limbs_val to_work - limbs_val from_work) *
          Z.min (2 ^ 63 - 1)
            (Z.abs (limbs_val to_work - limbs_val from_work) * nPowTargetSpacing params
             / (M256 / (compact_val c + 1)))).
Proof.
  intros Wt Wf Hc Hv Hsgn Hs Hov. unfold GetBlockProofEquivalentTime.
  rewrite uint_gt_spec by done.
  set (D := limbs_val to_work - limbs_val from_work) in *.
  pose proof (wf_val_range _ Wt). pose proof (wf_val_range _ Wf).
  assert (Hr : ∃ r s, (if limbs_val to_work >? limbs_val from_work
      then (uint_sub to_work from_work, 1) else (uint_sub from_work to_work, -1)) = (r, s) ∧
      wf r ∧ limbs_val r = Z.abs D ∧ (s = 1 ∨ s = -1) ∧ s * Z.abs D = D ∧ (D ≠ 0 → s = Z.sgn D)).
  { destruct (Z.gtb_spec (limbs_val to_work) (limbs_val from_work));
      [destruct (uint_sub_spec _ _ Wt Wf) as [W V]|destruct (uint_sub_spec _ _ Wf Wt) as [W V]];
      rewrite Z.mod_small in V by lia; do 2 eexists; (split_and!; [done..|lia|lia|lia|lia]). }
  destruct Hr as (r & s & -> & Wr & Vr & Hs1 & HsD & Hsgn').
  destruct (GetBlockProof_spec c Hc) as (q & -> & Wq & Vq). cbn [mbind option_bind].
  rewrite Hsgn, (proj2 (Z.eqb_neq _ _)), (proj2 (Z.leb_gt _ _)) in Vq by lia. cbn in Vq.
  rewrite (u64_small (nPowTargetSpacing params)) by (unfold_words; lia).
  destruct (uint_of_u64_small (nPowTargetSpacing params) ltac:(lia)) as [Wk Vk].
  destruct (uint_mul_spec r _ Wr Wk) as [Wm Vm]. rewrite Vk, Vr, Z.mod_small in Vm by nia.
  pose proof (uint_div_spec _ _ Wm Wq) as Hd.
  assert (1 ≤ M256 / (compact_val c + 1)) by (apply Z.div_le_lower_bound; lia).
  destruct (uint_div _ _) as [x|]; [|lia]. destruct Hd as (_ & Wx & Vx). rewrite Vm, Vq in Vx.
  cbn [mbind option_bind]. rewrite bits_gt63 by done.
  assert (Hz : D = 0 → limbs_val x = 0) by (intros ->; by rewrite Vx).
  rewrite <- Vx. destruct (Z.leb_spec (2 ^ 63) (limbs_val x)); f_equal.
  - rewrite Hsgn' by (intros ?; lia). lia.
  - rewrite low64_sign by done. rewrite Z.min_r by lia.
    destruct (Z.eq_dec D 0) as [E|]; [rewrite Hz by done; lia|by rewrite Hsgn'].
Qed.

(** * Properties *)

(** C1: [DarkGravityWave] computes, limb by limb, the average of the last ten targets times the
    clamped timespan, modulo 2^256, over the intended timespan, capped by the limit. While thirty
    times the spacing and the largest of the targets have a product below 2^256 (on the main network,
    targets up to 2^245, an eighth of the limit) nothing is lost, and the result is within a factor of
    3/10 below and 3 above the extreme targets averaged. *)
Theorem DarkGravityWave_refines m params p b pblock lo hi :
  let L := le_val (powLimit params) in
  let spacing := nPowTargetSpacing params in
  let bs := recent_blocks 10 m (Some p) in
  wf_index m → m !! p = Some b → nPastBlocks ≤ nHeight b → limit_ok (powLimit params) →
  fPowAllowMinDifficultyBlocks params && fPowNoRetargeting params = false →
  Forall (λ b, is_u32 (nBits b) ∧ lo ≤ compact_val (nBits b) ≤ hi) bs → 0 ≤ lo →
  (nKAWPOWActivationTime params ≤ hdr_nTime pblock →
   Forall (λ b, nKAWPOWActivationTime params ≤ nTime b) bs) →
  0 < spacing → 30 * spacing < 2 ^ 32 → 11 * hi < M256 →
  ∃ r, DarkGravityWave m p pblock params = Some (GetCompact r false) ∧
       limbs_val r = Z.min L ((dgw_average bs * dgw_timespan spacing bs) mod M256 / (10 * spacing)) ∧
       (hi * (30 * spacing) < M256 →
        limbs_val r = dgw_target L spacing bs ∧ Z.min L (3 * lo / 10) ≤ limbs_val r ≤ Z.min L (3 * hi)).
Proof.
  intros L spacing bs Hwf Hp Hh Hl Hm Hg Hlo Hk Hs Hs32 HL. apply Forall_and in Hg as [Hu Hr].
  assert (Hne : bs ≠ []) by (unfold bs; cbn; by rewrite Hp).
  destruct (DarkGravityWave_target m params p b Hwf Hp Hh Hl pblock hi Hm) as (r & E & _ & V); [|done..|].
  { apply Forall_forall. intros x Hx. split; [by eapply Forall_forall in Hu|]. eapply Forall_forall in Hr; [|done]. cbn in Hr. lia. }
  fold L spacing bs in V. exists r. split; [done|split; [done|]]. intros Hfit. clearbody L spacing bs.
  assert (Er : limbs_val r = dgw_target L spacing bs).
  { rewrite V. unfold dgw_target. pose proof (dgw_average_range lo hi bs Hne Hr). pose proof (dgw_timespan_range spacing bs Hs).
    rewrite (Z.mod_small (_ * _)); [done|]. split; [apply Z.mul_nonneg_nonneg; lia|].
    eapply Z.le_lt_trans; [|exact Hfit]. apply Z.mul_le_mono_nonneg; lia. }
  split; [done|]. rewrite Er. by apply dgw_target_range.
Qed.

Definition example_header (time : Z) : CBlockHeader := mkCBlockHeader 0 [] [] time 0 0 0 0 [].

Lemma limit_ok_dec l : (length l =? 32)%nat && forallb (λ x, (0 <=? x) && (x <? 256)) l = true → limit_ok l.
Proof.
  rewrite andb_true_iff, Nat.eqb_eq, forallb_forall. intros [H1 H2]. split; [done|].
  apply List.Forall_forall. intros x Hx. specialize (H2 x Hx). unfold_words. lia.
Qed.

(** Blocks of one difficulty, found a given number of seconds apart after KawPow was activated. *)
Definition main_chain (bits gap : Z) : blockmap := example_chain 12 bits 1710200000 gap.
Lemma main_chain_hyps bits gap (P : CBlockIndex → Prop) : (∀ b, nBits b = bits → 1710119893 ≤ nTime b → P b) →
  forallb (λ b, (nBits b =? bits) && (1710119893 <=? nTime b)) (recent_blocks 10 (main_chain bits gap) (Some 12%positive)) = true →
  Forall P (recent_blocks 10 (main_chain bits gap) (Some 12%positive)).
Proof.
  intros HP H. rewrite forallb_forall in H. apply List.Forall_forall. intros c Hc. specialize (H c Hc). apply HP; lia.
Qed.

(** The main network at a difficulty of sixteen times the minimum, with blocks ten seconds apart. *)
Lemma DarkGravityWave_refines_witness :
  ∃ r, DarkGravityWave (main_chain 0x1f0fffff 10) 12 (example_header 1710200200) CMainParams_pow = Some (GetCompact r false) ∧
       3 * (0x0fffff * 2 ^ 224) / 10 ≤ limbs_val r ≤ 3 * (0x0fffff * 2 ^ 224).
Proof.
  set (m := main_chain 0x1f0fffff 10).
  assert (Hwf : wf_index m) by (apply wf_indexb_sound; vm_compute; reflexivity).
  destruct (m !! 12%positive) as [b|] eqn:E; [|vm_compute in E; discriminate].
  assert (Hb : nHeight b = 11) by (vm_compute in E; injection E as <-; reflexivity).
  assert (HL : le_val (powLimit CMainParams_pow) = 2 ^ 248 - 1) by (vm_compute; reflexivity).
  assert (Hv : compact_val 0x1f0fffff = 0x0fffff * 2 ^ 224) by (vm_compute; reflexivity).
  destruct (DarkGravityWave_refines m CMainParams_pow 12%positive b (example_header 1710200200)
    (0x0fffff * 2 ^ 224) (0x0fffff * 2 ^ 224) Hwf E) as (r & Hr & _ & Hle);
    [unfold nPastBlocks; lia|apply limit_ok_dec; vm_compute; reflexivity|reflexivity| |lia| |reflexivity|reflexivity|..].
  - apply main_chain_hyps; [|vm_compute; reflexivity]. intros c Hc _. rewrite Hc, Hv. unfold_words. lia.
  - intros _. apply main_chain_hyps; [|vm_compute; reflexivity]. intros c _ Hc. exact Hc.
  - unfold M256. lia.
  - exists r. split; [exact Hr|]. rewrite HL in Hle. change (nPowTargetSpacing CMainParams_pow) with 60 in Hle. unfold M256 in Hle. lia.
Defined.

(** C28: the next difficulty is always computed: no assertion fails, no
    division is by zero and every loop ends; the resulting word is at most
    the proof-of-work limit, or the KawPow start limit, or the bits of a block
    already on the branch, overflow or not. *)
Theorem GetNextWorkRequired_bounded m params p b pblock :
  wf_index m → bits_ok m → m !! p = Some b → limit_ok (powLimit params) →
  0 < nPowTargetSpacing params < 2 ^ 32 →
  nPowTargetSpacing params ≤ nPowTargetTimespan params < 2 ^ 32 →
  ∃ c, GetNextWorkRequired m p pblock params = Some c ∧
    (compact_val c ≤ le_val (powLimit params) ∨
     c = GetCompact (UintToArith256 (kawpowLimit params)) false ∨ branch_bits m p c).
Proof.
  intros Hwf Hb Hp Hl Hs Ht. unfold GetNextWorkRequired. rewrite Hp. cbn [mbind option_bind].
  destruct (IsDGWActive params (nHeight b + 1)).
  - by apply (DarkGravityWave_bits m params p b).
  - by apply (GetNextWorkRequiredBTC_bits m params p b).
Qed.

Lemma GetNextWorkRequired_bounded_witness :
  ∃ c, GetNextWorkRequired (example_chain 12 0x2000ffff 0 600) 12 (example_header 7200)
         CMainParams_pow = Some c.
Proof.
  set (m := example_chain 12 0x2000ffff 0 600). set (params := CMainParams_pow).
  assert (Hwf : wf_index m) by (apply wf_indexb_sound; vm_compute; reflexivity).
  assert (Hb : bits_ok m).
  { assert (H : forallb (λ '(p, b), (0 <=? nBits b) && (nBits b <? 2 ^ 32)) (map_to_list m) = true)
      by (vm_compute; reflexivity).
    rewrite forallb_forall in H. intros p c Hp. apply elem_of_map_to_list, list_elem_of_In in Hp.
    specialize (H _ Hp). cbn in H. unfold_words. lia. }
  destruct (m !! 12%positive) as [b|] eqn:E; [|vm_compute in E; discriminate].
  destruct (GetNextWorkRequired_bounded m params 12%positive b (example_header 7200) Hwf Hb E)
    as (c & Hc & _); [apply limit_ok_dec; vm_compute; reflexivity|cbn; lia..|].
  exists c. exact Hc.
Defined.

(** a hash passes [CheckProofOfWork] exactly when the word of its header
    decodes to a positive target without the sign bit that is at most the
    limit, and the hash, read as a little-endian number, is at most it. *)
Theorem CheckProofOfWork_iff hash c params :
  is_u32 c → limit_ok hash → limit_ok (powLimit params) →
  CheckProofOfWork hash c params = true ↔
  0 < compact_val c ≤ le_val (powLimit params) ∧ Z.testbit c 23 = false ∧
  le_val hash ≤ compact_val c.
Proof. apply CheckProofOfWork_spec. Qed.

Lemma CheckProofOfWork_iff_witness :
  CheckProofOfWork (repeat 255 27 ++ repeat 0 5) 0x1c0fffff CMainParams_pow = true.
Proof.
  apply CheckProofOfWork_iff.
  - unfold_words; lia.
  - apply limit_ok_dec; vm_compute; reflexivity.
  - apply limit_ok_dec; vm_compute; reflexivity.
  - assert (E1 : compact_val 0x1c0fffff = 0x0fffff * 2 ^ 200) by (vm_compute; reflexivity).
    assert (E2 : le_val (powLimit CMainParams_pow) = 2 ^ 248 - 1) by (vm_compute; reflexivity).
    assert (E3 : le_val (repeat 255 27 ++ repeat 0 5) = 2 ^ 216 - 1) by (vm_compute; reflexivity).
    rewrite E1, E2, E3. split; [lia|split; [vm_compute; reflexivity|lia]].
Defined.

(** the work of a block is the expected number of hashes of its target T,
    2^256 / (T + 1) rounded down, computed without a 257-bit number, and zero
    for words that encode no target. *)
Theorem GetBlockProof_expected c : is_u32 c →
  ∃ r, GetBlockProof c = Some r ∧ wf r ∧
  limbs_val r = if (compact_val c =? 0) || Z.testbit c 23 || (M256 <=? compact_val c) then 0
                else M256 / (compact_val c + 1).
Proof. apply GetBlockProof_spec. Qed.

Lemma GetBlockProof_expected_witness :
  ∃ r, GetBlockProof 0x1d00ffff = Some r ∧ limbs_val r = 0x100010001.
Proof.
  destruct (GetBlockProof_expected 0x1d00ffff ltac:(unfold_words; lia)) as (r & E & _ & V).
  exists r. split; [exact E|]. rewrite V. vm_compute. reflexivity.
Defined.

(** the time equivalent of a work difference is the difference times the
    spacing over the work of the tip, with the sign of the difference and
    saturated at the largest signed 64-bit number. *)
Theorem equivalent_time_saturates to_work from_work c params :
  wf to_work → wf from_work → is_u32 c →
  0 < compact_val c < M256 → Z.testbit c 23 = false →
  0 < nPowTargetSpacing params < 2 ^ 63 →
  Z.abs (limbs_val to_work - limbs_val from_work) * nPowTargetSpacing params < M256 →
  GetBlockProofEquivalentTime to_work from_work c params =
    Some (Z.sgn (limbs_val to_work - limbs_val from_work) *
          Z.min (2 ^ 63 - 1)
            (Z.abs (limbs_val to_work - limbs_val from_work) * nPowTargetSpacing params
             / (M256 / (compact_val c + 1)))).
Proof. apply GetBlockProofEquivalentTime_spec. Qed.

Lemma equivalent_time_saturates_witness :
  GetBlockProofEquivalentTime (uint_of_u64 1) (uint_of_u64 (0x100010001 * 7)) 0x1d00ffff
    CMainParams_pow = Some (-419).
Proof.
  assert (E1 : limbs_val (uint_of_u64 1) = 1) by (vm_compute; reflexivity).
  assert (E2 : limbs_val (uint_of_u64 (0x100010001 * 7)) = 30065229831) by (vm_compute; reflexivity).
  assert (E3 : compact_val 0x1d00ffff = 65535 * 2 ^ 208) by (vm_compute; reflexivity).
  rewrite equivalent_time_saturates.
  - rewrite E1, E2. vm_compute. reflexivity.
  - apply wf_of_u64.
  - apply wf_of_u64.
  - unfold_words; lia.
  - rewrite E3. unfold M256. lia.
  - vm_compute. reflexivity.
  - cbn. lia.
  - rewrite E1, E2. cbn [nPowTargetSpacing CMainParams_pow]. unfold M256. lia.
Defined.

(** C40: where the average of the last ten targets times the timespan does not fit in 256 bits, the
    new target falls short of the one due, however slow the blocks were: it is below 2^256 over the
    intended timespan. The main network's limit allows that for targets above 2^245. *)
Theorem DarkGravityWave_overflow m params p b pblock hi :
  let L := le_val (powLimit params) in
  let spacing := nPowTargetSpacing params in
  let bs := recent_blocks 10 m (Some p) in
  wf_index m → m !! p = Some b → nPastBlocks ≤ nHeight b → limit_ok (powLimit params) →
  fPowAllowMinDifficultyBlocks params && fPowNoRetargeting params = false →
  Forall (λ b, good_bits hi (nBits b)) bs →
  (nKAWPOWActivationTime params ≤ hdr_nTime pblock →
   Forall (λ b, nKAWPOWActivationTime params ≤ nTime b) bs) →
  0 < spacing → 30 * spacing < 2 ^ 32 → 11 * hi < M256 → M256 ≤ L * (10 * spacing) →
  M256 ≤ dgw_average bs * dgw_timespan spacing bs →
  ∃ r, DarkGravityWave m p pblock params = Some (GetCompact r false) ∧
       10 * spacing * limbs_val r < M256 ∧ limbs_val r < dgw_target L spacing bs.
Proof.
  intros L spacing bs Hwf Hp Hh Hl Hm Hg Hk Hs Hs32 Hhi HL Hx.
  destruct (DarkGravityWave_target m params p b Hwf Hp Hh Hl pblock hi Hm Hg Hk Hs Hs32 Hhi) as (r & E & _ & V).
  exists r. split; [done|]. rewrite V. apply wrapped_quotient; [unfold M256; lia|done..].
Qed.

(** At the minimum difficulty of the main network, with blocks ten times slower than intended, the
    target should stay at the limit and drops below half of it. *)
Lemma DarkGravityWave_overflow_witness :
  ∃ r, DarkGravityWave (main_chain 0x2000ffff 600) 12 (example_header 1710207800) CMainParams_pow = Some (GetCompact r false) ∧
    2 * limbs_val r < le_val (powLimit CMainParams_pow) ∧
    dgw_target (le_val (powLimit CMainParams_pow)) 60 (recent_blocks 10 (main_chain 0x2000ffff 600) (Some 12%positive)) = le_val (powLimit CMainParams_pow).
Proof.
  set (m := main_chain 0x2000ffff 600).
  assert (Hwf : wf_index m) by (apply wf_indexb_sound; vm_compute; reflexivity).
  destruct (m !! 12%positive) as [b|] eqn:E; [|vm_compute in E; discriminate].
  assert (Hb : nHeight b = 11) by (vm_compute in E; injection E as <-; reflexivity).
  assert (HL : le_val (powLimit CMainParams_pow) = 2 ^ 248 - 1) by (vm_compute; reflexivity).
  assert (Hv : compact_val 0x2000ffff = 0xffff * 2 ^ 232) by (vm_compute; reflexivity).
  destruct (DarkGravityWave_overflow m CMainParams_pow 12%positive b (example_header 1710207800)
    (2 ^ 248) Hwf E) as (r & Hr & Hs & _);
    [unfold nPastBlocks; lia|apply limit_ok_dec; vm_compute; reflexivity|reflexivity| | |reflexivity|reflexivity|reflexivity|rewrite HL; vm_compute; discriminate|vm_compute; discriminate|].
  - apply main_chain_hyps; [|vm_compute; reflexivity]. intros c Hc _. unfold good_bits. rewrite Hc, Hv. unfold_words. lia.
  - intros _. apply main_chain_hyps; [|vm_compute; reflexivity]. intros c _ Hc. exact Hc.
  - exists r. split; [exact Hr|]. split; [|vm_compute; reflexivity].
    change (nPowTargetSpacing CMainParams_pow) with 60 in Hs. rewrite HL. unfold M256 in Hs. lia.
Defined.
