(* ===== verification/Blocks.v ===== *)
(** Validity of blocks (validation.cpp) and the coinbase that a miner makes (miner.cpp): the subsidy, the reward of
    the coinbase, the checks of headers and blocks without and with their predecessors, and the commitment to witnesses. *)
From stdpp Require Import base list option gmap.
From Stdlib Require Import ZArith Lia.
From Stdlib Require String.
From S2P Require Import Prelude ArithUint256 Serialize Pow Chain Transaction Text AssetNames Sha256 Hash Base58 Merkle Script Interpreter Standard AssetData AssetChecks Coins TxVerify.
Import String.StringSyntax.
Open Scope Z_scope.

(** * Subsidy *)

Definition GetBlockSubsidy (nHeight : Z) : Z :=
  if nHeight <=? 200000 then 300 * COIN
  else if nHeight <=? 400000 then 200 * COIN
  else if nHeight <=? 600000 then 150 * COIN
  else if nHeight <=? 800000 then 100 * COIN
  else if nHeight <=? 1000000 then 75 * COIN
  else if nHeight <=? 1200000 then 50 * COIN
  else 0 * COIN.

(** The share of the community, in percent, and its address. *)
Record Community := mkCommunity { CommunityAutonomousAmount : Z; CommunityAutonomousAddress : text }.
Definition main_community_amount : Z := 10.
Definition main_community_address : text := str "CXy8ovMfgSMG5SYHa2nNAJZXkwEYxMa5xV".
Definition main_community : Community := mkCommunity main_community_amount main_community_address.
Definition testnet_community_amount : Z := 10.
Definition testnet_community_address : text := str "c8db9nuaVL3Jo8hDcfKh77pZnG2J8jvxWH".
Definition testnet_community : Community := mkCommunity testnet_community_amount testnet_community_address.
Definition regtest_community : Community := mkCommunity 5 [].

(** [GetScriptForDestination(DecodeDestination(address))], of an invalid address the empty script. *)
Definition community_script (prefixes : Base58Prefixes) (community : Community) : CScript :=
  GetScriptForDestination (default CNoDestination (DecodeDestination prefixes (CommunityAutonomousAddress community))).

(** The state of the validation of a block: [corruption] is set where the block may have been altered on its way. *)
Inductive block_state := BlockValid | BlockInvalid (level : Z) (reason : text) (corruption : bool) | BlockAbort.
Definition invalid_if (level : Z) (c : bool) (reason : text) : block_state := if c then BlockInvalid level reason false else BlockValid.
Definition of_validation (v : validation) : block_state :=
  match v with Valid => BlockValid | DoS level reason => BlockInvalid level reason false | Abort => BlockAbort end.

Declare Scope block_scope.
Notation "'also' a ; b" := (match a with BlockValid => b | BlockInvalid level reason corruption => BlockInvalid level reason corruption | BlockAbort => BlockAbort end)
  (at level 10, a at level 100, b at level 200) : block_scope.
Open Scope block_scope.

(** The part of [ConnectBlock] about the coinbase. The second output is read without a test of the size. *)
Definition check_reward (prefixes : Base58Prefixes) (community : Community) (fAreEnforcedValues : bool) (coinbase : CTransaction) (nHeight nFees : Z) : block_state :=
  let nSubsidy := GetBlockSubsidy nHeight in
  let blockReward := i64 (nFees + nSubsidy) in
  match GetValueOut IsAssetScript fAreEnforcedValues coinbase with
  | None => BlockAbort
  | Some value =>
      also invalid_if 100 (blockReward <? value) (str "bad-cb-amount");
      match vout coinbase !! 1%nat with
      | None => BlockAbort
      | Some o =>
          also invalid_if 100 (negb (nValue o =? nSubsidy * CommunityAutonomousAmount community /c 100)) (str "bad-cb-community-autonomous-amount");
          invalid_if 100 ((128025 <=? nHeight) && negb (text_eqb (HexStr (scriptPubKey o)) (HexStr (community_script prefixes community))))
            (str "bad-cb-community-autonomous-address")
      end
  end.

(** The coinbase of [CreateNewBlock]. *)
Definition create_coinbase (prefixes : Base58Prefixes) (community : Community) (scriptPubKeyIn : CScript) (nHeight nFees : Z) : CTransaction :=
  let nSubsidy := GetBlockSubsidy nHeight in
  let share := CommunityAutonomousAmount community in
  mkCTransaction 2 [mkCTxIn (mkCOutPoint uint256_null (u32 (-1))) (push_int64 nHeight ++ [OP_0]) SEQUENCE_FINAL []]
    [mkCTxOut (i64 (nFees + (100 - share) * nSubsidy /c 100)) scriptPubKeyIn; mkCTxOut (nSubsidy * share /c 100) (community_script prefixes community)] 0.

(** * Witness commitments *)

(** The commitment of an output, in the form of [GetWitnessCommitmentIndex]. *)
Definition is_commitment (s : CScript) : bool :=
  (38 <=? size s) && (byte_at s 0 =? OP_RETURN) && (byte_at s 1 =? 0x24) && (byte_at s 2 =? 0xaa) && (byte_at s 3 =? 0x21) && (byte_at s 4 =? 0xa9) &&
  (byte_at s 5 =? 0xed).
Fixpoint commitment_loop (vout : list CTxOut) (o commitpos : Z) : Z :=
  match vout with [] => commitpos | x :: vout' => commitment_loop vout' (o + 1) (if is_commitment (scriptPubKey x) then o else commitpos) end.
Definition GetWitnessCommitmentIndex (block : CBlock) : Z := match vtx block with [] => -1 | tx :: _ => commitment_loop (vout tx) 0 (-1) end.

(** [tx.vin[0].scriptWitness.stack]; a transaction without inputs has no [vin[0]]. *)
Definition set_stack (tx : CTransaction) (stack : list bytes) : option CTransaction :=
  match vin tx with [] => None | i :: l => Some (mkCTransaction (tx_nVersion tx) (set_witness i stack :: l) (vout tx) (nLockTime tx)) end.
Definition UpdateUncommittedBlockStructures (block : CBlock) (nSegwitEnabled : bool) : option CBlock :=
  match vtx block with
  | [] => Some block
  | tx :: l =>
      if negb (GetWitnessCommitmentIndex block =? -1) && nSegwitEnabled && negb (HasWitness tx)
      then tx ← set_stack tx [repeat 0 32]; Some (mkCBlock (header block) (tx :: l)) else Some block
  end.

(** [CHash256().Write(root, 32).Write(nonce, 32)] *)
Definition commitment_hash (root nonce : bytes) : bytes := CHash256_Finalize (CHash256_Write (CHash256_Write (CHash256_init hash_mem) root) (take 32 nonce)).

Definition commitment_script (hash : bytes) : CScript := [OP_RETURN; 0x24; 0xaa; 0x21; 0xa9; 0xed] ++ hash.

(** The block with the commitment, and the commitment; [None] where there is no coinbase, or one without inputs. *)
Definition GenerateCoinbaseCommitment (block : CBlock) (nSegwitEnabled : bool) : option (CBlock * bytes) :=
  '(block, commitment) ←
    (if nSegwitEnabled && (GetWitnessCommitmentIndex block =? -1) then
       '(witnessroot, _) ← BlockWitnessMerkleRoot hash_mem block;
       let script := commitment_script (commitment_hash witnessroot (repeat 0 32)) in
       match vtx block with
       | [] => None
       | tx :: l => Some (mkCBlock (header block) (mkCTransaction (tx_nVersion tx) (vin tx) (vout tx ++ [mkCTxOut 0 script]) (nLockTime tx) :: l), script)
       end
     else Some (block, []));
  block ← UpdateUncommittedBlockStructures block nSegwitEnabled;
  Some (block, commitment).

(** The part of [ContextualCheckBlock] about witnesses. *)
Definition check_witness (block : CBlock) (nSegwitEnabled : bool) : block_state :=
  match vtx block with
  | [] => BlockAbort
  | tx :: _ =>
      let commitpos := GetWitnessCommitmentIndex block in
      if nSegwitEnabled && negb (commitpos =? -1) then
        match vin tx, BlockWitnessMerkleRoot hash_mem block with
        | i :: _, Some (hashWitness, _) =>
            match scriptWitness i with
            | [nonce] =>
                if negb (size nonce =? 32) then BlockInvalid 100 (str "bad-witness-nonce-size") true
                else
                  let script := scriptPubKey (nth (Z.to_nat commitpos) (vout tx) null_out) in
                  if negb (memcmp (commitment_hash hashWitness nonce) (take 32 (drop 6 script)) =? 0) then BlockInvalid 100 (str "bad-witness-merkle-match") true
                  else BlockValid
            | _ => BlockInvalid 100 (str "bad-witness-nonce-size") true
            end
        | _, _ => BlockAbort
        end
      else if existsb HasWitness (vtx block) then BlockInvalid 100 (str "unexpected-witness") true
      else BlockValid
  end.

(** * Headers and blocks *)

(** The rules of a network, and the globals that the checks read. *)
Record BlockParams := mkBlockParams {
  pow_params : Pow.Params; nSegwitEnabled : bool; nCSVEnabled : bool; BIP34LockedIn : Z; nHeightHeaderCheckActivation : Z;
  nMaxReorgDepth : Z; nMinReorgPeers : Z; nMinReorgAge : Z }.

Section blocks.
Context `{Platform}.
Context (rules : BlockParams) (params : ChainParams) (dep : Deployments) (uninit : AssetType).
(** The proof-of-work hash with the mix hash that is stored, and the one that is computed, with its mix hash. *)
Context (GetHash : CBlockHeader → uint256) (GetHashFull : CBlockHeader → uint256 * uint256).
(** The height of the last checkpoint. *)
Context (pcheckpoint : option Z).

Abbreviation activation := (nKAWPOWActivationTime (pow_params rules)).

Definition CheckKAWPOWHeaderHeight (block : CBlockHeader) (expectedHeight : Z) : block_state :=
  invalid_if 100 (negb ((hdr_nTime block <? activation) || (expectedHeight <? nHeightHeaderCheckActivation rules) || (hdr_nHeight block =? u32 expectedHeight)))
    (str "bad-blk-height").

(** [prev] is the height of the predecessor, where it is known. *)
Definition CheckBlockHeader (block : CBlockHeader) (fCheckPOW : bool) (prev : option Z) : block_state :=
  let fKAWPOW := activation <=? hdr_nTime block in
  let nHeight := match prev with Some h => h + 1 | None => -1 end in
  also (if fCheckPOW && fKAWPOW && is_some prev then CheckKAWPOWHeaderHeight block nHeight else BlockValid);
  if fCheckPOW && fKAWPOW &&
     match pcheckpoint, prev with
     | Some c, Some _ => nHeight <=? c
     | Some c, None => hdr_nHeight block <=? u32 c
     | None, _ => false
     end
  then invalid_if 50 (negb (CheckProofOfWork (GetHash block) (hdr_nBits block) (pow_params rules))) (str "high-hash")
  else
    also invalid_if 50 (fCheckPOW && negb (CheckProofOfWork (GetHashFull block).1 (hdr_nBits block) (pow_params rules))) (str "high-hash");
    invalid_if 50 (fCheckPOW && fKAWPOW && negb (bool_decide ((GetHashFull block).2 = hdr_mix_hash block))) (str "invalid-mix-hash").

Definition block_size (version : Z) (block : CBlock) : Z := size (CBlock_Serialize activation version block).

Abbreviation MAX_BLOCK_WEIGHT := 8000000.
Abbreviation MAX_BLOCK_SIGOPS_COST := 80000.

Fixpoint check_transactions (fDBCheck : bool) (vtx : list CTransaction) : block_state :=
  match vtx with
  | [] => BlockValid
  | tx :: vtx' => also of_validation (CheckTransaction params dep uninit tx true false (negb fDBCheck)); check_transactions fDBCheck vtx'
  end.

(** The state and the flag [fChecked] of the block. *)
Definition CheckBlock (block : CBlock) (fChecked fCheckPOW fCheckMerkleRoot fDBCheck : bool) : block_state * bool :=
  if fChecked then (BlockValid, true)
  else
    let v :=
      also CheckBlockHeader (header block) fCheckPOW None;
      also (if fCheckMerkleRoot then
              match BlockMerkleRoot hash_mem block with
              | None => BlockAbort
              | Some (hashMerkleRoot2, mutated) =>
                  if negb (bool_decide (hdr_hashMerkleRoot (header block) = hashMerkleRoot2)) then BlockInvalid 100 (str "bad-txnmrklroot") true
                  else if mutated then BlockInvalid 100 (str "bad-txns-duplicate") true else BlockValid
              end
            else BlockValid);
      also invalid_if 100
        (match vtx block with [] => true | _ => false end || (MAX_BLOCK_WEIGHT <? size (vtx block) * WITNESS_SCALE_FACTOR) ||
         (MAX_BLOCK_WEIGHT <? block_size SERIALIZE_TRANSACTION_NO_WITNESS block * WITNESS_SCALE_FACTOR)) (str "bad-blk-length");
      also invalid_if 100 (match vtx block with [] => true | tx :: _ => negb (IsCoinBase tx) end) (str "bad-cb-missing");
      also invalid_if 100 (existsb IsCoinBase (drop 1 (vtx block))) (str "bad-cb-multiple");
      also check_transactions fDBCheck (vtx block);
      let nSigOps := fold_left (λ n tx, u32 (n + GetLegacySigOpCount tx)) (vtx block) 0 in
      invalid_if 100 (MAX_BLOCK_SIGOPS_COST <? u32 (nSigOps * WITNESS_SCALE_FACTOR)) (str "bad-blk-sigops") in
    (v, match v with BlockValid => fCheckPOW && fCheckMerkleRoot | _ => false end).

Definition GetBlockWeight (block : CBlock) : Z :=
  block_size SERIALIZE_TRANSACTION_NO_WITNESS block * (WITNESS_SCALE_FACTOR - 1) + block_size 0 block.

(** Against the predecessor; [None] is the start of a chain. *)
Definition ContextualCheckBlock (m : blockmap) (block : CBlock) (pindexPrev : option ptr) : block_state :=
  match (match pindexPrev with None => Some (0, None) | Some p => b ← m !! p; Some (nHeight b + 1, Some p) end), vtx block with
  | Some (nHeight, prev), coinbase :: _ =>
      let nLockTimeCutoff := match prev with Some p => if nCSVEnabled rules then GetMedianTimePast m p else hdr_nTime (header block) | None => hdr_nTime (header block) end in
      also invalid_if 10 (existsb (λ tx, negb (IsFinalTx tx nHeight nLockTimeCutoff)) (vtx block)) (str "bad-txns-nonfinal");
      also (if BIP34LockedIn rules <=? nHeight then
              match vin coinbase with
              | [] => BlockAbort
              | i :: _ => invalid_if 100 (negb (starts_with (push_int64 nHeight) (scriptSig i))) (str "bad-cb-height")
              end
            else BlockValid);
      also check_witness block (nSegwitEnabled rules);
      invalid_if 100 (MAX_BLOCK_WEIGHT <? GetBlockWeight block) (str "bad-blk-weight")
  | _, _ => BlockAbort
  end.

(** What [ContextualCheckBlockHeader] reads of the node: the height and the time of the active tip, the number of peers when there is a
    connection manager, the clock, and whether checkpoints are enabled. *)
Record node := mkNode { active_height : Z; tip_time : Z; node_count : option Z; current_time : Z; fCheckpointsEnabled : bool }.

Abbreviation MAX_FUTURE_BLOCK_TIME := (2 * 60 * 60).
Abbreviation MAX_FUTURE_BLOCK_TIME_DGW := (2 * 60 * 60 / 10).
Abbreviation VERSIONBITS_TOP_BITS_ASSETS := 0x30000000.

Definition ContextualCheckBlockHeader (n : node) (m : blockmap) (block : CBlockHeader) (pindexPrev : ptr) (nAdjustedTime : Z) : block_state :=
  match m !! pindexPrev with
  | None => BlockAbort
  | Some prev =>
      let nHeight := nHeight prev + 1 in
      also invalid_if 10
        ((nMaxReorgDepth rules <=? active_height n - (nHeight - 1)) &&
         match node_count n with
         | Some count => (nMinReorgPeers rules <=? count) && (current_time n - tip_time n <=? nMinReorgAge rules)
         | None => false
         end) (str "bad-fork-prior-to-maxreorgdepth");
      also CheckKAWPOWHeaderHeight block nHeight;
      also match GetNextWorkRequired m pindexPrev block (pow_params rules) with
           | None => BlockAbort
           | Some bits => invalid_if 100 (negb (hdr_nBits block =? bits)) (str "bad-diffbits")
           end;
      also invalid_if 100 (fCheckpointsEnabled n && match pcheckpoint with Some c => nHeight <? c | None => false end) (str "bad-fork-prior-to-checkpoint");
      also invalid_if 0 (hdr_nTime block <=? GetMedianTimePast m pindexPrev) (str "time-too-old");
      also invalid_if 0
        (nAdjustedTime + (if IsDGWActive (pow_params rules) nHeight then MAX_FUTURE_BLOCK_TIME_DGW else MAX_FUTURE_BLOCK_TIME) <? hdr_nTime block) (str "time-too-new");
      if AreAssetsDeployed dep && (hdr_nVersion block <? VERSIONBITS_TOP_BITS_ASSETS)
      then BlockInvalid 0 (str "bad-version(0x" ++ HexStr (rev (ser_writedata32 (u32 (hdr_nVersion block)))) ++ str ")") false else BlockValid
  end.
End blocks.

(** * Subsidy and reward: proofs *)

Fixpoint total_subsidy (n : nat) : Z := match n with O => 0 | S k => total_subsidy k + GetBlockSubsidy (Z.of_nat n) end.

(** The blocks of an era of 200000 that are among the first [n], the era starting after [s]. *)
Definition in_era (s n : Z) : Z := Z.min (Z.max (n - s) 0) 200000.

Lemma in_era_step s h : in_era s (Z.succ h) = in_era s h + (if (s <=? h) && (h <? s + 200000) then 1 else 0).
Proof. unfold in_era. destruct (Z.leb_spec s h), (Z.ltb_spec h (s + 200000)); cbn [andb]; lia. Qed.

Lemma total_subsidy_eras n : total_subsidy n =
  (300 * in_era 0 (Z.of_nat n) + 200 * in_era 200000 (Z.of_nat n) + 150 * in_era 400000 (Z.of_nat n) + 100 * in_era 600000 (Z.of_nat n) +
   75 * in_era 800000 (Z.of_nat n) + 50 * in_era 1000000 (Z.of_nat n)) * COIN.
Proof.
  induction n as [|n IH]; [done|]. cbn [total_subsidy]. rewrite IH. clear IH. rewrite Nat2Z.inj_succ, !in_era_step. unfold GetBlockSubsidy.
  set (h := Z.of_nat n). assert (0 ≤ h) by lia. clearbody h. repeat match goal with |- context [in_era ?s h] => generalize (in_era s h); intros ? end.
  repeat match goal with |- context [?x <=? ?y] => destruct (Z.leb_spec x y); [|try (exfalso; lia)] | |- context [?x <? ?y] => destruct (Z.ltb_spec x y); [|try (exfalso; lia)] end;
    cbn [andb]; try (exfalso; lia); ring.
Qed.

Lemma total_subsidy_limit n : 0 ≤ total_subsidy n ≤ MAX_MONEY ∧ (1200000 ≤ Z.of_nat n → total_subsidy n = MAX_MONEY).
Proof.
  rewrite total_subsidy_eras. assert (H : ∀ s, 0 ≤ in_era s (Z.of_nat n) ≤ 200000 ∧ (s + 200000 ≤ Z.of_nat n → in_era s (Z.of_nat n) = 200000)) by (intros s; unfold in_era; lia).
  pose proof (H 0). pose proof (H 200000). pose proof (H 400000). pose proof (H 600000). pose proof (H 800000). pose proof (H 1000000). unfold MAX_MONEY, COIN. lia.
Qed.

Lemma subsidy_range h : 0 ≤ GetBlockSubsidy h ≤ 300 * COIN ∧ (100 | GetBlockSubsidy h).
Proof.
  assert (Hd : ∀ k, (100 | k * COIN)) by (intros k; exists (k * 1000000); unfold COIN; lia).
  unfold GetBlockSubsidy, COIN in *. repeat (case_match; [split; [lia|apply Hd]|]). split; [lia|apply Hd].
Qed.

Lemma also_valid (a b : block_state) : (also a; b) = BlockValid ↔ a = BlockValid ∧ b = BlockValid.
Proof. destruct a; intuition done. Qed.
Lemma invalid_if_valid n c e : invalid_if n c e = BlockValid ↔ c = false.
Proof. by destruct c. Qed.

Lemma quot_100 x y : (100 | x) → (100 | y) → x /c 100 + y /c 100 = (x + y) /c 100 ∧ (x + y) /c 100 * 100 = x + y.
Proof.
  intros [p ->] [q ->]. rewrite <- Z.mul_add_distr_r, !Z.quot_mul by lia. lia.
Qed.

(** The two parts of the subsidy. *)
Lemma reward_parts h share : 0 ≤ share ≤ 100 →
  let s := GetBlockSubsidy h in
  0 ≤ (100 - share) * s /c 100 ∧ 0 ≤ s * share /c 100 ∧ (100 - share) * s /c 100 + s * share /c 100 = s.
Proof.
  intros Hs s. destruct (subsidy_range h) as [Hr Hd]. fold s in Hr, Hd.
  destruct (quot_100 ((100 - share) * s) (s * share)) as [E1 E2]; [by apply Z.divide_mul_r|by apply Z.divide_mul_l|].
  split_and!; [apply Z.quot_pos; nia|apply Z.quot_pos; nia|]. rewrite E1. nia.
Qed.

Lemma HexStr_refl s : text_eqb (HexStr s) (HexStr s) = true.
Proof. by apply text_eqb_spec. Qed.

Lemma create_coinbase_rewarded prefixes community enf script h fees :
  0 ≤ CommunityAutonomousAmount community ≤ 100 → 0 ≤ fees → fees + GetBlockSubsidy h ≤ MAX_MONEY →
  sum_values (vout (create_coinbase prefixes community script h fees)) = fees + GetBlockSubsidy h ∧
  check_reward prefixes community enf (create_coinbase prefixes community script h fees) h fees = BlockValid.
Proof.
  intros Hc Hf Hm. destruct (reward_parts h _ Hc) as (H1 & H2 & H3). destruct (subsidy_range h) as [Hr _].
  set (share := CommunityAutonomousAmount community) in *. set (a := (100 - share) * GetBlockSubsidy h /c 100) in *. set (c := GetBlockSubsidy h * share /c 100) in *.
  assert (Ha : i64 (fees + a) = fees + a) by (apply i64_small; unfold is_i64, MAX_MONEY, COIN in *; lia).
  assert (Hs : sum_values (vout (create_coinbase prefixes community script h fees)) = fees + GetBlockSubsidy h).
  { unfold create_coinbase. fold share. cbn [vout sum_values foldr nValue]. fold a c. rewrite Ha. lia. }
  split; [done|]. assert (Hv : values_ok 0 (vout (create_coinbase prefixes community script h fees))).
  { split; [|lia]. unfold create_coinbase. fold share. cbn [vout]. fold a c. rewrite Ha. repeat constructor; cbn [nValue]; lia. }
  unfold check_reward. destruct (GetValueOut_checked (mkDeployments true true true enf true) _ Hv) as [E Ho]. cbn [AreEnforcedValuesDeployed] in E. rewrite E.
  rewrite also_valid, invalid_if_valid, Z.ltb_ge, i64_small by (unfold is_i64, MAX_MONEY, COIN in *; lia). split.
  - destruct (sum_counted IsAssetScript enf _ (proj1 Hv)) as [_ Hle]. unfold value_out. cbn [AreEnforcedValuesDeployed]. lia.
  - unfold create_coinbase at 1. cbn [vout lookup list_lookup nValue scriptPubKey]. rewrite also_valid, !invalid_if_valid, Z.eqb_refl, HexStr_refl, andb_false_r. done.
Qed.

(** * Hexadecimal *)

Definition unhex_digit (c : Z) : Z := if c <? 97 then c - 48 else c - 87.
Definition unhex (s : text) : Z := match s with [a; b] => unhex_digit a * 16 + unhex_digit b | _ => -1 end.

Lemma HexStr_cons x s : HexStr (x :: s) = HexStr [x] ++ HexStr s.
Proof. unfold HexStr. cbn [map concat]. by rewrite app_nil_r. Qed.

Lemma unhex_byte x : is_u8 x → unhex (HexStr [x]) = x.
Proof.
  intros Hx. assert (H : forallb (λ n, unhex (HexStr [Z.of_nat n]) =? Z.of_nat n) (seq 0 256) = true) by (vm_compute; reflexivity).
  rewrite forallb_forall in H. specialize (H (Z.to_nat x)). unfold is_u8 in Hx. rewrite Z2Nat.id in H by lia. apply Z.eqb_eq, H, in_seq. lia.
Qed.

Lemma HexStr_inj s : ∀ t, is_bytes s → is_bytes t → HexStr s = HexStr t → s = t.
Proof.
  induction s as [|x s IH]; intros [|y t] Hs Ht H; try done.
  rewrite HexStr_cons, (HexStr_cons y) in H. apply is_bytes_cons in Hs as [Hx Hs], Ht as [Hy Ht]. apply app_inj_1 in H as [Exy H]; [|done].
  f_equal; [|by apply IH]. by rewrite <- (unhex_byte x), <- (unhex_byte y), Exy.
Qed.

Lemma check_reward_inv prefixes community enf coinbase h fees :
  values_ok 0 (vout coinbase) → Forall (λ o, is_bytes (scriptPubKey o)) (vout coinbase) → is_bytes (community_script prefixes community) →
  0 ≤ fees → fees + GetBlockSubsidy h ≤ MAX_MONEY → check_reward prefixes community enf coinbase h fees = BlockValid →
  sum_values (counted IsAssetScript enf (vout coinbase)) ≤ fees + GetBlockSubsidy h ∧
  ∃ o, vout coinbase !! 1%nat = Some o ∧ nValue o = GetBlockSubsidy h * CommunityAutonomousAmount community /c 100 ∧
    (128025 ≤ h → scriptPubKey o = community_script prefixes community).
Proof.
  intros Hv Hb Hc Hf Hm H. destruct (subsidy_range h) as [Hr _]. unfold check_reward in H.
  destruct (GetValueOut_checked (mkDeployments true true true enf true) _ Hv) as [E Ho]. cbn [AreEnforcedValuesDeployed] in E. rewrite E in H.
  rewrite also_valid, invalid_if_valid, Z.ltb_ge, i64_small in H by (unfold is_i64, MAX_MONEY, COIN in *; lia). destruct H as [H1 H]. split; [done|].
  destruct (vout coinbase !! 1%nat) as [o|] eqn:Eo; [|done]. exists o. rewrite also_valid, !invalid_if_valid, negb_false_iff, Z.eqb_eq in H. destruct H as [H2 H3].
  split_and!; [done|done|]. intros Hh. destruct (Z.leb_spec 128025 h); [|lia]. cbn [andb] in H3. apply negb_false_iff, text_eqb_spec in H3.
  apply HexStr_inj; [|done|done]. by apply (Forall_lookup_1 _ _ _ _ Hb) in Eo.
Qed.

(** * Witness commitments: proofs *)

Lemma commitment_hash_spec root nonce : length nonce = 32%nat → commitment_hash root nonce = sha256 (sha256 (root ++ nonce)).
Proof.
  intros Hn. assert (commitment_hash root nonce = Hash hash_mem [root; take 32 nonce]) as -> by (unfold commitment_hash, Hash; cbn [fold_left]; reflexivity).
  rewrite take_ge by lia. rewrite Hash_spec by reflexivity. cbn [concat]. rewrite app_nil_r. reflexivity.
Qed.
Lemma length_commitment_hash root nonce : length nonce = 32%nat → length (commitment_hash root nonce) = 32%nat.
Proof. intros Hn. rewrite commitment_hash_spec by done. apply sha256_bytes. Qed.

Lemma commitment_loop_snoc l x : ∀ o pos, commitment_loop (l ++ [x]) o pos = if is_commitment (scriptPubKey x) then o + size l else commitment_loop l o pos.
Proof.
  induction l as [|y l IH]; intros o pos; cbn [app commitment_loop]; [case_match; [unfold size; cbn; lia|done]|].
  rewrite IH. case_match; [|done]. unfold size. cbn [length]. lia.
Qed.

Lemma commitment_loop_found l : ∀ o pos, commitment_loop l o pos = pos ∨
  ∃ i x, l !! i = Some x ∧ is_commitment (scriptPubKey x) = true ∧ commitment_loop l o pos = o + Z.of_nat i.
Proof.
  induction l as [|y l IH]; intros o pos; [by left|]. cbn [commitment_loop]. destruct (IH (o + 1) (if is_commitment (scriptPubKey y) then o else pos)) as [-> |(i & x & Hi & Hx & ->)].
  - destruct (is_commitment (scriptPubKey y)) eqn:E; [|by left]. right. exists 0%nat, y. split_and!; [done|done|lia].
  - right. exists (S i), x. split_and!; [done|done|lia].
Qed.

(** The root does not depend on the coinbase. *)
Lemma witness_root_coinbase h h' tx tx' l : BlockWitnessMerkleRoot hash_mem (mkCBlock h (tx :: l)) = BlockWitnessMerkleRoot hash_mem (mkCBlock h' (tx' :: l)).
Proof. done. Qed.

Lemma witness_root_total h tx l : Z.of_nat (length l) < 2 ^ 31 → ∃ root mutated, BlockWitnessMerkleRoot hash_mem (mkCBlock h (tx :: l)) = Some (root, mutated).
Proof.
  intros Hl. unfold BlockWitnessMerkleRoot. cbn [vtx].
  destruct (ComputeMerkleRoot_top hash_mem (uint256_null :: map (GetWitnessHash hash_mem) l)) as (k & mutated & -> & _); [done|cbn [length]; rewrite length_map; lia|]. eauto.
Qed.

Lemma memcmp_refl (a : bytes) : memcmp a a = 0.
Proof. by apply memcmp_eq. Qed.

(** The block of a miner: one input without a witness, no commitment yet. *)
Definition uncommitted (block : CBlock) : Prop :=
  match vtx block with
  | tx :: l => GetWitnessCommitmentIndex block = -1 ∧ Z.of_nat (length l) < 2 ^ 31 ∧ ∃ i, vin tx = [i] ∧ scriptWitness i = []
  | [] => False
  end.

Definition committed (tx : CTransaction) (i : CTxIn) (hash : bytes) : CTransaction :=
  mkCTransaction (tx_nVersion tx) [set_witness i [repeat 0 32]] (vout tx ++ [mkCTxOut 0 (commitment_script hash)]) (nLockTime tx).

Lemma commitment_index h tx l vo hash : length hash = 32%nat → vout tx = vo ++ [mkCTxOut 0 (commitment_script hash)] →
  GetWitnessCommitmentIndex (mkCBlock h (tx :: l)) = size vo ∧ (size vo =? -1) = false.
Proof.
  intros Hl E. split; [|apply Z.eqb_neq; unfold size; lia]. unfold GetWitnessCommitmentIndex. cbn [vtx]. rewrite E, commitment_loop_snoc. cbn [scriptPubKey].
  assert (is_commitment (commitment_script hash) = true) as ->; [|lia]. unfold is_commitment, commitment_script, size. rewrite length_app, Hl. done.
Qed.

Lemma Generate_committed h tx l i root mutated :
  GetWitnessCommitmentIndex (mkCBlock h (tx :: l)) = -1 → vin tx = [i] → scriptWitness i = [] →
  BlockWitnessMerkleRoot hash_mem (mkCBlock h (tx :: l)) = Some (root, mutated) →
  let hash := commitment_hash root (repeat 0 32) in
  GenerateCoinbaseCommitment (mkCBlock h (tx :: l)) true = Some (mkCBlock h (committed tx i hash :: l), commitment_script hash).
Proof.
  intros Hpos Hi Hw Er hash. assert (Hlen : length hash = 32%nat) by (by apply length_commitment_hash).
  unfold GenerateCoinbaseCommitment. rewrite Hpos, Er. change (-1 =? -1) with true. cbn [andb mbind option_bind vtx header]. cbv zeta. fold hash. clearbody hash.
  unfold UpdateUncommittedBlockStructures. cbn [vtx header].
  destruct (commitment_index h (mkCTransaction (tx_nVersion tx) (vin tx) (vout tx ++ [mkCTxOut 0 (commitment_script hash)]) (nLockTime tx)) l (vout tx) hash Hlen eq_refl) as [-> ->].
  unfold HasWitness. cbn [vin]. rewrite Hi. cbn [HasWitness_loop]. rewrite Hw. cbn [witness_IsNull negb andb]. done.
Qed.

Lemma committed_valid h tx l i root mutated hash : BlockWitnessMerkleRoot hash_mem (mkCBlock h (tx :: l)) = Some (root, mutated) →
  commitment_hash root (repeat 0 32) = hash → check_witness (mkCBlock h (committed tx i hash :: l)) true = BlockValid.
Proof.
  intros Er Hh. pose proof (length_commitment_hash root (repeat 0 32) eq_refl) as Hlen. rewrite Hh in Hlen.
  unfold check_witness. cbn [vtx]. destruct (commitment_index h (committed tx i hash) l (vout tx) hash Hlen eq_refl) as [-> ->]. cbn [negb andb].
  rewrite (witness_root_coinbase h h _ tx), Er. cbn [committed vin set_witness scriptWitness vout]. rewrite Hh.
  change (size (repeat 0 32) =? 32) with true. cbn [negb]. unfold size. rewrite Nat2Z.id, nth_middle. cbn [scriptPubKey commitment_script app skipn].
  rewrite drop_0, take_ge by lia. by rewrite memcmp_refl.
Qed.

Lemma GenerateCoinbaseCommitment_valid block : uncommitted block →
  ∃ block' commitment, GenerateCoinbaseCommitment block true = Some (block', commitment) ∧ check_witness block' true = BlockValid ∧
    header block' = header block ∧ drop 1 (vtx block') = drop 1 (vtx block) ∧
    ∃ tx tx', vtx block !! 0%nat = Some tx ∧ vtx block' !! 0%nat = Some tx' ∧ vout tx' = vout tx ++ [mkCTxOut 0 commitment].
Proof.
  destruct block as [h [|tx l]]; [done|]. cbn [uncommitted vtx]. intros (Hpos & Hl & i & Hi & Hw).
  destruct (witness_root_total h tx l Hl) as (root & mutated & Er). rewrite (Generate_committed h tx l i root mutated Hpos Hi Hw Er). cbv zeta.
  pose proof (committed_valid h tx l i root mutated _ Er eq_refl) as Hc. revert Hc. generalize (commitment_hash root (repeat 0 32)). intros hash Hc.
  exists (mkCBlock h (committed tx i hash :: l)), (commitment_script hash). split_and!; try done. by exists tx, (committed tx i hash).
Qed.

Lemma check_witness_inv block : check_witness block true = BlockValid →
  if GetWitnessCommitmentIndex block =? -1 then Forall (λ tx, HasWitness tx = false) (vtx block)
  else ∃ tx l i o root mutated nonce, vtx block = tx :: l ∧ vin tx !! 0%nat = Some i ∧ vout tx !! Z.to_nat (GetWitnessCommitmentIndex block) = Some o ∧
    is_commitment (scriptPubKey o) = true ∧ BlockWitnessMerkleRoot hash_mem block = Some (root, mutated) ∧ scriptWitness i = [nonce] ∧ length nonce = 32%nat ∧
    take 32 (drop 6 (scriptPubKey o)) = sha256 (sha256 (root ++ nonce)).
Proof.
  unfold check_witness. destruct (vtx block) as [|tx l] eqn:Et; [done|]. cbn [andb].
  assert (Hidx : GetWitnessCommitmentIndex block = commitment_loop (vout tx) 0 (-1)) by (unfold GetWitnessCommitmentIndex; by rewrite Et).
  destruct (Z.eqb_spec (GetWitnessCommitmentIndex block) (-1)) as [E|E]; cbn [negb].
  { intros H. apply Forall_forall. intros t Ht. apply not_true_iff_false. intros Hw. destruct (existsb HasWitness (tx :: l)) eqn:Ex; [done|].
    apply not_true_iff_false in Ex. apply Ex, existsb_exists. exists t. by rewrite <- list_elem_of_In. }
  destruct (vin tx) as [|i vl] eqn:Ei; [done|]. destruct (BlockWitnessMerkleRoot hash_mem block) as [[root mutated]|] eqn:Er; [|done].
  destruct (scriptWitness i) as [|nonce [|]] eqn:Ew; try done. destruct (Z.eqb_spec (size nonce) 32) as [Hn|]; cbn [negb]; [|done].
  assert (Hn' : length nonce = 32%nat) by (unfold size in Hn; lia).
  destruct (commitment_loop_found (vout tx) 0 (-1)) as [Hx|(k & o & Ho & Hc & Hx)]; [congruence|]. rewrite Hidx, Hx, Z.add_0_l, Nat2Z.id.
  rewrite (nth_lookup_Some _ _ _ _ Ho), commitment_hash_spec by done. destruct (Z.eqb_spec (memcmp (sha256 (sha256 (root ++ nonce))) (take 32 (drop 6 (scriptPubKey o)))) 0) as [Em|]; [intros _|done].
  exists tx, l, i, o, root, mutated, nonce. rewrite Ei. split_and!; try done. symmetry. apply memcmp_eq; [|done].
  rewrite (proj2 (sha256_bytes _)). unfold is_commitment in Hc. rewrite !andb_true_iff in Hc. destruct Hc as [[[[[[Hc _] _] _] _] _] _].
  apply Z.leb_le in Hc. unfold size in Hc. rewrite length_take, length_drop. lia.
Qed.

(** * Blocks *)

Lemma of_validation_valid v : of_validation v = BlockValid ↔ v = Valid.
Proof. by destruct v. Qed.

Lemma check_transactions_valid params dep uninit db l :
  check_transactions params dep uninit db l = BlockValid ↔ Forall (λ tx, CheckTransaction params dep uninit tx true false (negb db) = Valid) l.
Proof.
  induction l as [|tx l IH]; [done|]. cbn [check_transactions]. by rewrite also_valid, of_validation_valid, Forall_cons, IH.
Qed.

(** ** Signature operations *)

(** A sum over a list. *)
Fixpoint total {A} (f : A → Z) (l : list A) : Z := match l with [] => 0 | x :: l' => f x + total f l' end.
(** What an opcode, a script, a transaction and a block count for. *)
Definition opcode_sigops (opcode : Z) : Z :=
  if (opcode =? OP_CHECKSIG) || (opcode =? OP_CHECKSIGVERIFY) then 1
  else if (opcode =? OP_CHECKMULTISIG) || (opcode =? OP_CHECKMULTISIGVERIFY) then 20 else 0.
Definition script_sigops (script : CScript) : Z := total (λ op, opcode_sigops op.1) (ops script).1.
Definition tx_sigops (tx : CTransaction) : Z :=
  total (λ i, script_sigops (scriptSig i)) (vin tx) + total (λ o, script_sigops (scriptPubKey o)) (vout tx).
Definition tx_script_bytes (tx : CTransaction) : Z := total (λ i, size (scriptSig i)) (vin tx) + total (λ o, size (scriptPubKey o)) (vout tx).

Lemma total_range {A} (f g : A → Z) k l : (∀ x, 0 ≤ f x ≤ k * g x) → 0 ≤ total f l ≤ k * total g l.
Proof. intros Hf. induction l as [|x l IH]; cbn; [lia|]. specialize (Hf x). lia. Qed.
(** A loop that adds up with wrap-around does not wrap while the sum is small. *)
Lemma fold_total {A} (count f : A → Z) (g : A → Z) l : (∀ x, 20 * g x < 2 ^ 32 → count x = f x) → (∀ x, 0 ≤ f x ≤ 20 * g x) → ∀ n, 0 ≤ n →
  n + 20 * total g l < 2 ^ 32 → fold_left (λ n x, u32 (n + count x)) l n = n + total f l.
Proof.
  intros Hc Hf. induction l as [|x l IH]; intros n Hn Hs; cbn in *; [lia|]. pose proof (Hf x) as Hx.
  assert (0 ≤ total g l) by (apply (total_range g g 1); intros y; specialize (Hf y); lia).
  rewrite Hc, u32_small by (unfold is_u32; lia). rewrite IH by lia. lia.
Qed.

Lemma opcode_sigops_range opcode : 0 ≤ opcode_sigops opcode ≤ 20.
Proof. unfold opcode_sigops. repeat destruct (_ || _); lia. Qed.
Lemma GetSigOpCount_loop_total l last : ∀ n, 0 ≤ n → n + 20 * size l < 2 ^ 32 → GetSigOpCount_loop false l last n = n + total (λ op, opcode_sigops op.1) l.
Proof.
  revert last. induction l as [|[opcode data] l IH]; intros last n Hn Hs; cbn [GetSigOpCount_loop total fst andb]; [lia|].
  unfold size in *. cbn [length] in Hs. unfold opcode_sigops at 1.
  destruct (_ || _); [|destruct (_ || _)]; rewrite ?u32_small by (unfold is_u32; lia); rewrite IH by lia; lia.
Qed.
Lemma ops_size script : size (ops script).1 ≤ size script.
Proof.
  unfold ops. assert (∀ fuel pc, (length (ops_from fuel pc).1 ≤ fuel)%nat) as Hf.
  { induction fuel as [|fuel IH]; intros pc; destruct pc as [|b pc]; cbn [ops_from fst length]; try lia. destruct (GetOp (b :: pc)) as [[[[] pc'] opcode] data]; [|cbn; lia].
    specialize (IH pc'). destruct (ops_from fuel pc'). cbn in *. lia. }
  specialize (Hf (length script) script). unfold size. lia.
Qed.
Lemma script_sigops_range script : 0 ≤ script_sigops script ≤ 20 * size script.
Proof.
  assert (∀ l : list (Z * valtype), 0 ≤ total (λ op, opcode_sigops op.1) l ≤ 20 * size l) as Hl.
  { induction l as [|[opcode d] l IH]; unfold size in *; cbn [total length fst] in *; [lia|]. pose proof (opcode_sigops_range opcode). lia. }
  specialize (Hl (ops script).1). pose proof (ops_size script). unfold script_sigops. lia.
Qed.
Lemma GetSigOpCount_total script : 20 * size script < 2 ^ 32 → GetSigOpCount script false = script_sigops script.
Proof. intros Hs. unfold GetSigOpCount. pose proof (ops_size script). rewrite GetSigOpCount_loop_total by lia. done. Qed.

Lemma scripts_sigops_range {A} (g : A → CScript) l : 0 ≤ total (λ x, script_sigops (g x)) l ≤ 20 * total (λ x, size (g x)) l.
Proof. apply total_range. intros x. apply script_sigops_range. Qed.
Lemma tx_sigops_range tx : 0 ≤ tx_sigops tx ≤ 20 * tx_script_bytes tx.
Proof.
  unfold tx_sigops, tx_script_bytes. pose proof (scripts_sigops_range scriptSig (vin tx)). pose proof (scripts_sigops_range scriptPubKey (vout tx)). lia.
Qed.
Lemma GetLegacySigOpCount_total tx : 20 * tx_script_bytes tx < 2 ^ 32 → GetLegacySigOpCount tx = tx_sigops tx.
Proof.
  unfold tx_script_bytes, GetLegacySigOpCount, tx_sigops. intros Hs.
  pose proof (scripts_sigops_range scriptSig (vin tx)). pose proof (scripts_sigops_range scriptPubKey (vout tx)).
  rewrite (fold_total _ (λ i, script_sigops (scriptSig i)) (λ i, size (scriptSig i)) (vin tx)) by (first [lia | intros; apply script_sigops_range | intros; by apply GetSigOpCount_total]).
  rewrite (fold_total _ (λ o, script_sigops (scriptPubKey o)) (λ o, size (scriptPubKey o)) (vout tx)) by (first [lia | intros; apply script_sigops_range | intros; by apply GetSigOpCount_total]).
  lia.
Qed.

(** The scripts of a block fit in its serialization. *)
Lemma size_concat {A} (f : A → bytes) (g : A → Z) l : (∀ x, g x ≤ size (f x)) → total g l ≤ size (concat (map f l)).
Proof. intros Hf. induction l as [|x l IH]; cbn [total map concat]; [done|]. rewrite size_app. specialize (Hf x). lia. Qed.
(** Sizes are not negative. *)
Ltac sizes := rewrite ?size_app;
  repeat match goal with |- context [size ?x] => lazymatch goal with _ : 0 ≤ size x |- _ => fail | _ => pose proof (size_nonneg x) end end.
Lemma CTxIn_size (i : CTxIn) : size (scriptSig i) ≤ size (Serialize i).
Proof. cbn. unfold Serialize_bytes. sizes. lia. Qed.
Lemma CTxOut_size (o : CTxOut) : size (scriptPubKey o) ≤ size (Serialize o).
Proof. cbn. unfold Serialize_bytes. sizes. lia. Qed.
Lemma SerializeTransaction_size `{Platform} version tx : tx_script_bytes tx ≤ size (SerializeTransaction version tx).
Proof.
  unfold tx_script_bytes, SerializeTransaction, Serialize_vector. cbv zeta.
  pose proof (size_concat Serialize (λ i, size (scriptSig i)) (vin tx) CTxIn_size). pose proof (size_concat Serialize (λ o, size (scriptPubKey o)) (vout tx) CTxOut_size). sizes. lia.
Qed.
Lemma block_scripts_size `{Platform} rules version block : total tx_script_bytes (vtx block) ≤ block_size rules version block.
Proof.
  unfold block_size, CBlock_Serialize, Serialize_vector. cbn [Serialize CTransaction_ser].
  pose proof (size_concat (SerializeTransaction version) tx_script_bytes (vtx block) (SerializeTransaction_size version)). sizes. lia.
Qed.
(** So no counter of the signature operations wraps around in a block that fits. *)
Lemma block_sigops `{Platform} rules version block : block_size rules version block * 4 ≤ 8000000 →
  u32 (fold_left (λ n tx, u32 (n + GetLegacySigOpCount tx)) (vtx block) 0 * WITNESS_SCALE_FACTOR) = total tx_sigops (vtx block) * 4.
Proof.
  intros Hs. pose proof (block_scripts_size rules version block) as Hb.
  assert (0 ≤ total tx_sigops (vtx block) ≤ 20 * total tx_script_bytes (vtx block)) by (apply total_range, tx_sigops_range).
  rewrite (fold_total _ tx_sigops tx_script_bytes) by (first [lia | intros; apply tx_sigops_range | intros; by apply GetLegacySigOpCount_total]).
  rewrite u32_small; [done|]. unfold is_u32. lia.
Qed.

(** ** Headers *)

(** The proof of work of a header: a target within the limit, and a hash that is at most it. Below the last checkpoint, a header
    of KawPow is taken with the mix hash it states; above, that is the one computed. *)
Definition below_checkpoint (pcheckpoint : option Z) (h : CBlockHeader) : Prop := match pcheckpoint with Some c => hdr_nHeight h ≤ u32 c | None => False end.
Definition header_ok (rules : BlockParams) (GetHash : CBlockHeader → uint256) (GetHashFull : CBlockHeader → uint256 * uint256) (pcheckpoint : option Z) (h : CBlockHeader) : Prop :=
  let kawpow := nKAWPOWActivationTime (pow_params rules) ≤ hdr_nTime h in
  let target := compact_val (hdr_nBits h) in
  0 < target ≤ le_val (powLimit (pow_params rules)) ∧ Z.testbit (hdr_nBits h) 23 = false ∧
  ((kawpow ∧ below_checkpoint pcheckpoint h ∧ le_val (GetHash h) ≤ target) ∨
   (¬ (kawpow ∧ below_checkpoint pcheckpoint h) ∧ le_val (GetHashFull h).1 ≤ target ∧ (kawpow → (GetHashFull h).2 = hdr_mix_hash h))).

Section header_spec.
Context (rules : BlockParams) (GetHash : CBlockHeader → uint256) (GetHashFull : CBlockHeader → uint256 * uint256) (cp : option Z) (h : CBlockHeader).
Context (Hbits : is_u32 (hdr_nBits h)) (Hlimit : limit_ok (powLimit (pow_params rules))) (Hhash : limit_ok (GetHash h)) (Hfull : limit_ok (GetHashFull h).1).

Lemma CheckBlockHeader_spec : CheckBlockHeader rules GetHash GetHashFull cp h true None = BlockValid ↔ header_ok rules GetHash GetHashFull cp h.
Proof using Hbits Hlimit Hhash Hfull.
  unfold CheckBlockHeader, header_ok. cbv zeta. cbn [is_some andb]. rewrite andb_false_r. cbv iota.
  set (below := match cp with Some c => hdr_nHeight h <=? u32 c | None => false end).
  assert (below = true ↔ below_checkpoint cp h) as Hb by (unfold below, below_checkpoint; destruct cp; [apply Z.leb_le|done]).
  pose proof (Z.leb_le (nKAWPOWActivationTime (pow_params rules)) (hdr_nTime h)) as Hk. set (fKAWPOW := _ <=? _) in *.
  replace (fKAWPOW && match cp with Some c => _ | None => _ end) with (fKAWPOW && below) by (unfold below; by destruct cp).
  pose proof (CheckProofOfWork_spec (GetHash h) (hdr_nBits h) (pow_params rules) Hbits Hhash Hlimit) as P1.
  pose proof (CheckProofOfWork_spec (GetHashFull h).1 (hdr_nBits h) (pow_params rules) Hbits Hfull Hlimit) as P2.
  destruct (fKAWPOW && below) eqn:E.
  - rewrite invalid_if_valid, negb_false_iff, P1. apply andb_true_iff in E as [E1%Hk E2%Hb]. tauto.
  - rewrite also_valid, !invalid_if_valid, negb_false_iff, P2. assert (¬ (nKAWPOWActivationTime (pow_params rules) ≤ hdr_nTime h ∧ below_checkpoint cp h)) as Hn.
    { rewrite <-Hk, <-Hb. intros [-> ->]. done. }
    assert (fKAWPOW && negb (bool_decide ((GetHashFull h).2 = hdr_mix_hash h)) = false ↔ (nKAWPOWActivationTime (pow_params rules) ≤ hdr_nTime h → (GetHashFull h).2 = hdr_mix_hash h)) as Hmix.
    { rewrite <-Hk. case_bool_decide; destruct fKAWPOW; naive_solver. }
    rewrite Hmix. tauto.
Qed.
End header_spec.

(** ** Blocks *)

Lemma merkle_check_valid block :
  match BlockMerkleRoot hash_mem block with
  | None => BlockAbort
  | Some (root, mutated) =>
      if negb (bool_decide (hdr_hashMerkleRoot (header block) = root)) then BlockInvalid 100 (str "bad-txnmrklroot") true
      else if mutated then BlockInvalid 100 (str "bad-txns-duplicate") true else BlockValid
  end = BlockValid ↔ BlockMerkleRoot hash_mem block = Some (hdr_hashMerkleRoot (header block), false).
Proof.
  destruct (BlockMerkleRoot hash_mem block) as [[root mutated]|]; [|done]. case_bool_decide as Er; cbn [negb]; [subst root; by destruct mutated|].
  split; [done|]. intros [= E _]. by destruct Er.
Qed.
Definition one_coinbase (vtx : list CTransaction) : Prop := ∃ coinbase l, vtx = coinbase :: l ∧ IsCoinBase coinbase = true ∧ Forall (λ tx, IsCoinBase tx = false) l.
Lemma one_coinbase_spec vtx : one_coinbase vtx ↔ match vtx with [] => true | tx :: _ => negb (IsCoinBase tx) end = false ∧ existsb IsCoinBase (drop 1 vtx) = false.
Proof.
  unfold one_coinbase. destruct vtx as [|tx l]; [split; [by intros (? & ? & ? & _)|by intros [? _]]|]. cbn [drop]. rewrite drop_0, negb_false_iff.
  assert (existsb IsCoinBase l = false ↔ Forall (λ tx, IsCoinBase tx = false) l) as ->.
  { rewrite <-not_true_iff_false, existsb_exists, Forall_forall. setoid_rewrite <-list_elem_of_In. setoid_rewrite <-not_true_iff_false. naive_solver. }
  naive_solver.
Qed.

Definition block_ok `{Platform} (rules : BlockParams) (params : ChainParams) (dep : Deployments) (uninit : AssetType) (GetHash : CBlockHeader → uint256)
    (GetHashFull : CBlockHeader → uint256 * uint256) (pcheckpoint : option Z) (fDBCheck : bool) (block : CBlock) : Prop :=
  header_ok rules GetHash GetHashFull pcheckpoint (header block) ∧
  BlockMerkleRoot hash_mem block = Some (hdr_hashMerkleRoot (header block), false) ∧
  one_coinbase (vtx block) ∧ size (vtx block) * 4 ≤ 8000000 ∧ block_size rules SERIALIZE_TRANSACTION_NO_WITNESS block * 4 ≤ 8000000 ∧
  Forall (λ tx, CheckTransaction params dep uninit tx true false (negb fDBCheck) = Valid) (vtx block) ∧
  total tx_sigops (vtx block) * 4 ≤ 80000.

Lemma CheckBlock_spec `{Platform} rules params dep uninit GetHash GetHashFull cp block db :
  is_u32 (hdr_nBits (header block)) → limit_ok (powLimit (pow_params rules)) → limit_ok (GetHash (header block)) → limit_ok (GetHashFull (header block)).1 →
  (CheckBlock rules params dep uninit GetHash GetHashFull cp block false true true db).1 = BlockValid ↔
  block_ok rules params dep uninit GetHash GetHashFull cp db block.
Proof.
  intros Hb Hl H1 H2. unfold CheckBlock, block_ok. cbn [fst]. rewrite !also_valid, !invalid_if_valid, CheckBlockHeader_spec, merkle_check_valid, check_transactions_valid, one_coinbase_spec by done.
  rewrite !orb_false_iff, !Z.ltb_ge. pose proof (block_sigops rules SERIALIZE_TRANSACTION_NO_WITNESS block) as Hs.
  split.
  - intros (? & ? & [[? ?] Hsize] & ? & ? & ? & Hops). rewrite Hs in Hops by exact Hsize. done.
  - intros (? & ? & [Hc ?] & ? & Hsize & ? & Hops). rewrite Hs by exact Hsize. split_and!; try done. by destruct (vtx block).
Qed.

(** * Properties *)

(** C21: the supply of coins. The subsidies of the blocks from height 1 on never add up to more than the limit [MAX_MONEY], and reach it exactly
    at height 1200000: by this code the limit is the total supply, whatever the comment at its definition and the older unit tests
    of the subsidy say. A coinbase that passes the check of its reward pays at most the fees and the subsidy, and its second output
    is the share of the community, paid to its address from height 128025 on. The coinbase that a miner creates
    passes, and pays out the fees and the subsidy to the last unit. *)
Theorem coinbase_rewards prefixes community enforced coinbase script nHeight nFees :
  0 ≤ CommunityAutonomousAmount community ≤ 100 → is_bytes (community_script prefixes community) → 0 ≤ nFees → nFees + GetBlockSubsidy nHeight ≤ MAX_MONEY →
  values_ok 0 (vout coinbase) → Forall (λ o, is_bytes (scriptPubKey o)) (vout coinbase) →
  (∀ n, total_subsidy n ≤ MAX_MONEY ∧ (1200000 ≤ Z.of_nat n → total_subsidy n = MAX_MONEY)) ∧
  (check_reward prefixes community enforced coinbase nHeight nFees = BlockValid →
     sum_values (counted IsAssetScript enforced (vout coinbase)) ≤ nFees + GetBlockSubsidy nHeight ∧
     ∃ o, vout coinbase !! 1%nat = Some o ∧ nValue o = GetBlockSubsidy nHeight * CommunityAutonomousAmount community /c 100 ∧
       (128025 ≤ nHeight → scriptPubKey o = community_script prefixes community)) ∧
  check_reward prefixes community enforced (create_coinbase prefixes community script nHeight nFees) nHeight nFees = BlockValid ∧
  sum_values (vout (create_coinbase prefixes community script nHeight nFees)) = nFees + GetBlockSubsidy nHeight.
Proof.
  intros Hc Hcb Hf Hm Hv Hb. split_and!.
  - intros n. destruct (total_subsidy_limit n) as [[_ ?] ?]. done.
  - by apply check_reward_inv.
  - by apply create_coinbase_rewarded.
  - by apply (create_coinbase_rewarded prefixes community enforced).
Qed.

(** The hypotheses, as tests. *)
Definition bytesb (s : bytes) : bool := forallb (λ x, (0 <=? x) && (x <? 256)) s.
Lemma bytesb_sound s : bytesb s = true → is_bytes s.
Proof. unfold bytesb. rewrite forallb_forall. intros H. apply Forall_forall. intros x Hx. apply list_elem_of_In, H in Hx. unfold is_u8. lia. Qed.
Definition outputs_okb (l : list CTxOut) : bool := forallb (λ o, (0 <=? nValue o) && bytesb (scriptPubKey o)) l && (sum_values l <=? MAX_MONEY).
Lemma outputs_okb_sound l : outputs_okb l = true → values_ok 0 l ∧ Forall (λ o, is_bytes (scriptPubKey o)) l.
Proof.
  unfold outputs_okb, values_ok. rewrite andb_true_iff, forallb_forall, Z.leb_le. intros [H Hs].
  split_and!; [|lia|]; apply Forall_forall; intros o Ho; apply list_elem_of_In, H, andb_true_iff in Ho as [Ho Hb]; [lia|by apply bytesb_sound].
Qed.

(** At height 150000, with 7 units of fees; the community has 30 coins. *)
Lemma coinbase_rewards_witness :
  let coinbase := create_coinbase main_prefixes main_community key_script 150000 7 in
  check_reward main_prefixes main_community true coinbase 150000 7 = BlockValid ∧
  ∃ o, vout coinbase !! 1%nat = Some o ∧ nValue o = 30 * COIN ∧ scriptPubKey o = community_script main_prefixes main_community.
Proof.
  intros coinbase. assert (E : check_reward main_prefixes main_community true coinbase 150000 7 = BlockValid) by (vm_compute; reflexivity).
  assert (Hok : outputs_okb (vout coinbase) = true) by (vm_compute; reflexivity). apply outputs_okb_sound in Hok as [Hv Hb].
  assert (Hcb : is_bytes (community_script main_prefixes main_community)) by (apply bytesb_sound; vm_compute; reflexivity).
  assert (Hm : 7 + GetBlockSubsidy 150000 ≤ MAX_MONEY) by (vm_compute; discriminate).
  split; [exact E|]. clearbody coinbase.
  destruct (coinbase_rewards main_prefixes main_community true coinbase key_script 150000 7 ltac:(unfold main_community, main_community_amount; cbn; lia) Hcb ltac:(lia) Hm Hv Hb) as (_ & H & _).
  destruct (H E) as (_ & o & Ho & Hvo & Hs). exists o. split; [exact Ho|]. split; [rewrite Hvo; reflexivity|apply Hs; lia].
Defined.

(** C20: commitments to witnesses. Of the block of a miner, whose coinbase has no witness and no commitment yet,
    [GenerateCoinbaseCommitment] makes a block that passes the check of witnesses, changing only the coinbase, by one output. When any block
    passes the check, either no transaction has a witness, or the last commitment of the coinbase is the double hash of the root of
    the witness tree with the nonce of 32 bytes in the witness of the coinbase. *)
Theorem witness_commitments block b : uncommitted block → check_witness b true = BlockValid →
  (∃ block' commitment, GenerateCoinbaseCommitment block true = Some (block', commitment) ∧ check_witness block' true = BlockValid ∧
    header block' = header block ∧ drop 1 (vtx block') = drop 1 (vtx block) ∧
    ∃ tx tx', vtx block !! 0%nat = Some tx ∧ vtx block' !! 0%nat = Some tx' ∧ vout tx' = vout tx ++ [mkCTxOut 0 commitment]) ∧
  (if GetWitnessCommitmentIndex b =? -1 then Forall (λ tx, HasWitness tx = false) (vtx b)
   else ∃ tx l i o root mutated nonce, vtx b = tx :: l ∧ vin tx !! 0%nat = Some i ∧ vout tx !! Z.to_nat (GetWitnessCommitmentIndex b) = Some o ∧
     is_commitment (scriptPubKey o) = true ∧ BlockWitnessMerkleRoot hash_mem b = Some (root, mutated) ∧ scriptWitness i = [nonce] ∧ length nonce = 32%nat ∧
     take 32 (drop 6 (scriptPubKey o)) = sha256 (sha256 (root ++ nonce))).
Proof. intros Hu Hb. split; [by apply GenerateCoinbaseCommitment_valid|by apply check_witness_inv]. Qed.

Definition example_miner_block : CBlock :=
  mkCBlock example_block_header [create_coinbase main_prefixes main_community key_script 150000 7; example_tx [[1]]].

Lemma witness_commitments_witness :
  ∃ block' commitment, GenerateCoinbaseCommitment example_miner_block true = Some (block', commitment) ∧ check_witness block' true = BlockValid.
Proof.
  destruct (witness_commitments example_miner_block (mkCBlock example_block_header [example_tx []])) as [(b & c & E & H & _) _].
  - split; [vm_compute; reflexivity|]. split; [vm_compute; reflexivity|]. eexists. split; reflexivity.
  - vm_compute. reflexivity.
  - exists b, c. split; [exact E|exact H].
Defined.

(** C9: a block passes [CheckBlock] in full exactly when its header has its proof of work (a target within the limit that its hash
    reaches, with the mix hash computed above the last checkpoint), its root is that of its transactions and not ambiguous, its only
    coinbase comes first, it fits in the limits, its transactions pass [CheckTransaction] and its signature operations, counted
    without wrap-around, are at most 20000. Its transactions then have values in range and spend no output twice, and a block
    with the same root, of which the tree has the same height, that passes has the same transactions, or two pairs of siblings
    of the trees have the same double SHA-256. *)
Theorem CheckBlock_sound `{Platform} rules params dep uninit GetHash GetHashFull pcheckpoint block fDBCheck :
  is_u32 (hdr_nBits (header block)) → limit_ok (powLimit (pow_params rules)) → (∀ h, limit_ok (GetHash h)) → (∀ h, limit_ok (GetHashFull h).1) →
  let passes b := (CheckBlock rules params dep uninit GetHash GetHashFull pcheckpoint b false true true fDBCheck).1 = BlockValid in
  (passes block ↔ block_ok rules params dep uninit GetHash GetHashFull pcheckpoint fDBCheck block) ∧
  (passes block → Forall (basic_ok true) (vtx block)) ∧
  ∀ block', is_u32 (hdr_nBits (header block')) → passes block → passes block' →
    hdr_hashMerkleRoot (header block') = hdr_hashMerkleRoot (header block) →
    Z.log2_up (size (vtx block)) = Z.log2_up (size (vtx block')) →
    let ids := map (CTransaction_ComputeHash hash_mem) (vtx block) in let ids' := map (CTransaction_ComputeHash hash_mem) (vtx block') in
    dsha256_collision (λ p, siblings dsha256_pair ids p ∨ siblings dsha256_pair ids' p) ∨ ids = ids'.
Proof.
  intros Hb Hl H1 H2 passes. split; [by apply CheckBlock_spec|]. split.
  - intros (_ & _ & _ & _ & _ & Ht & _)%CheckBlock_spec; try done. eapply Forall_impl; [exact Ht|]. intros tx. apply CheckTransaction_basic.
  - intros block' Hb' Hp Hp' Er Hlog ids ids'. apply CheckBlock_spec in Hp as (_ & Hm & (c & l & Hc & _) & Hs & _); try done.
    apply CheckBlock_spec in Hp' as (_ & Hm' & (c' & l' & Hc' & _) & Hs' & _); try done. rewrite Er in Hm'. unfold BlockMerkleRoot in Hm, Hm'. unfold size in *.
    apply (roots_commit hash_mem ids ids' (hdr_hashMerkleRoot (header block))); try done; unfold ids, ids'; rewrite ?length_map; [by apply txids_ok..| | |lia|lia|done].
    + by rewrite Hc.
    + by rewrite Hc'.
Qed.

(** The block of a miner with the root of its transactions, at the minimum difficulty of the main network, where its hash is null. *)
Definition example_rules : BlockParams := mkBlockParams CMainParams_pow true true 0 181153 60 4 43200.
Definition checked_block : CBlock :=
  let vtx := [create_coinbase main_prefixes main_community key_script 150000 7; payment [3; 4]] in
  let root := match BlockMerkleRoot hash_mem (mkCBlock example_block_header vtx) with Some (root, _) => root | None => [] end in
  mkCBlock (mkCBlockHeader 0 (repeat 0 32) root 1710200000 0x2000ffff 0 150000 0 (repeat 5 32)) vtx.

Lemma CheckBlock_sound_witness :
  block_ok (H := lp64) example_rules main_params all_rules ROOT (λ _, uint256_null) (λ _, (uint256_null, repeat 5 32)) None false checked_block ∧ Forall (basic_ok true) (vtx checked_block).
Proof.
  destruct (CheckBlock_sound (H := lp64) example_rules main_params all_rules ROOT (λ _, uint256_null) (λ _, (uint256_null, repeat 5 32)) None checked_block false)
    as (Hm & Ht & _); [by vm_compute|apply limit_ok_dec; vm_compute; reflexivity|intros _; apply limit_ok_dec; vm_compute; reflexivity..|].
  assert (E : (CheckBlock (H := lp64) example_rules main_params all_rules ROOT (λ _, uint256_null) (λ _, (uint256_null, repeat 5 32)) None checked_block false true true false).1 = BlockValid)
    by (vm_compute; reflexivity).
  split; [apply Hm; exact E|apply Ht; exact E].
Defined.
