(* ===== verification/LruCache.v ===== *)
(** The least-recently-used cache of the asset databases (assets/assettypes.h, [CLRUCache]): a linked list with a map of
    iterators into it, against a list of the most recent keys; and the class of caches that the cache of assets reads through. *)
From stdpp Require Import base list option gmap sorting.
From Stdlib Require Import ZArith Lia.

(** * Lists of pairs *)

Lemma elem_fst {A B} (l : list (A * B)) x y : (x, y) ∈ l → x ∈ map fst l.
Proof. intros Hl. apply list_elem_of_fmap. by exists (x, y). Qed.
Lemma NoDup_fst_inj {A B} (l : list (A * B)) x y y' : NoDup (map fst l) → (x, y) ∈ l → (x, y') ∈ l → y = y'.
Proof.
  induction l as [|[a b] l IH]; intros Hn H1 H2; [by apply not_elem_of_nil in H1|]. cbn in Hn. apply NoDup_cons in Hn as [Ha Hn].
  apply elem_of_cons in H1 as [E1|H1], H2 as [E2|H2]; [congruence| | |by apply IH].
  - injection E1 as -> ->. exfalso. apply Ha. by eapply elem_fst.
  - injection E2 as -> ->. exfalso. apply Ha. by eapply elem_fst.
Qed.
Lemma NoDup_filter_fst {A B} (P : A * B → Prop) `{∀ x, Decision (P x)} (l : list (A * B)) : NoDup (map fst l) → NoDup (map fst (base.filter P l)).
Proof.
  induction l as [|x l IH]; [done|]. cbn [map]. intros [Hx Hn]%NoDup_cons. rewrite filter_cons. case_decide; [|by apply IH]. cbn [map]. apply NoDup_cons. split; [|by apply IH].
  intros Hin. apply Hx. apply list_elem_of_fmap in Hin as (y & -> & Hy). apply list_elem_of_filter in Hy as [_ Hy]. apply list_elem_of_fmap. eauto.
Qed.

Section lru.
Context {K V : Type} `{Countable K}.

(** * The cache *)

(** Nodes of the list have an identity, which is what an iterator points to; [next] has not been used yet. *)
Record CLRUCache := mkLRU { cacheItemsList : list (nat * (K * V)); cacheItemsMap : gmap K nat; maxSize : nat; next : nat }.

Definition lru_init (size : nat) : CLRUCache := mkLRU [] ∅ size 0.

(** The node of an iterator; [None] where the iterator is not one of the list. *)
Definition node_at (it : nat) (l : list (nat * (K * V))) : option (nat * (K * V)) := snd <$> list_find (λ n, n.1 = it) l.
Definition erase_node (it : nat) (l : list (nat * (K * V))) : option (list (nat * (K * V))) :=
  _ ← node_at it l; Some (base.filter (λ n, n.1 ≠ it) l).

(** A key is put in front, in place of an older entry, and the last entry is dropped when there are too many. *)
Definition Put (key : K) (value : V) (c : CLRUCache) : option CLRUCache :=
  let it := cacheItemsMap c !! key in
  let l := (next c, (key, value)) :: cacheItemsList c in
  '(l, m) ← match it with Some i => l ← erase_node i l; Some (l, delete key (cacheItemsMap c)) | None => Some (l, cacheItemsMap c) end;
  let m := <[key := next c]> m in
  if decide (maxSize c < size m) then
    '(_, (k, _)) ← last l;
    Some (mkLRU (removelast l) (delete k m) (maxSize c) (S (next c)))
  else Some (mkLRU l m (maxSize c) (S (next c))).

Definition Erase (key : K) (c : CLRUCache) : option CLRUCache :=
  match cacheItemsMap c !! key with
  | Some i => l ← erase_node i (cacheItemsList c); Some (mkLRU l (delete key (cacheItemsMap c)) (maxSize c) (next c))
  | None => Some c
  end.

(** The entry moves to the front; [None] is the exception. *)
Definition Get (key : K) (c : CLRUCache) : option (V * CLRUCache) :=
  i ← cacheItemsMap c !! key;
  n ← node_at i (cacheItemsList c);
  l ← erase_node i (cacheItemsList c);
  Some (n.2.2, mkLRU (n :: l) (cacheItemsMap c) (maxSize c) (next c)).

Definition Exists (key : K) (c : CLRUCache) : bool := bool_decide (is_Some (cacheItemsMap c !! key)).
Definition Size (c : CLRUCache) : nat := size (cacheItemsMap c).
Definition Clear (c : CLRUCache) : CLRUCache := mkLRU [] ∅ (maxSize c) (next c).

(** * What it implements *)

(** The entries, the most recent one first. *)
Definition entries (c : CLRUCache) : list (K * V) := map snd (cacheItemsList c).
Definition other (key : K) (l : list (K * V)) : list (K * V) := base.filter (λ e, e.1 ≠ key) l.

(** Nodes and keys are distinct, and the map points to the node of each key. *)
Record lru_wf (c : CLRUCache) : Prop := {
  wf_ids : NoDup (map fst (cacheItemsList c));
  wf_keys : NoDup (map fst (entries c));
  wf_next : Forall (λ n, n.1 < next c) (cacheItemsList c);
  wf_map : ∀ k i, cacheItemsMap c !! k = Some i ↔ ∃ v, (i, (k, v)) ∈ cacheItemsList c }.
(** There are not too many. *)
Definition lru_ok (c : CLRUCache) : Prop := lru_wf c ∧ length (entries c) ≤ maxSize c.

(** * Nodes *)

Lemma node_at_elem l i e : NoDup (map fst l) → (i, e) ∈ l → node_at i l = Some (i, e).
Proof.
  unfold node_at. intros Hn Hi. destruct (list_find (λ n, n.1 = i) l) as [[j [i' e']]|] eqn:E.
  - apply list_find_Some in E as (Hj & Hi' & _). cbn in *. subst i'. f_equal. f_equal. eapply NoDup_fst_inj; [done| |done]. by eapply list_elem_of_lookup_2.
  - apply list_find_None in E. rewrite Forall_forall in E. by destruct (E _ Hi).
Qed.
Lemma erase_node_elem l i e : NoDup (map fst l) → (i, e) ∈ l → erase_node i l = Some (base.filter (λ n, n.1 ≠ i) l).
Proof. intros Hn Hi. unfold erase_node. by rewrite (node_at_elem l i e). Qed.

Lemma wf_inj c i k v n : lru_wf c → (i, (k, v)) ∈ cacheItemsList c → n ∈ cacheItemsList c → n.1 = i ↔ n.2.1 = k.
Proof.
  intros [Hi Hk _ _] Hl Hn. destruct n as [j [k' v']]. cbn. split; intros ->.
  - pose proof (NoDup_fst_inj _ _ _ _ Hi Hl Hn). congruence.
  - assert ((k, v') ∈ entries c) by (apply list_elem_of_fmap; by exists (j, (k, v'))). assert ((k, v) ∈ entries c) as Hv by (apply list_elem_of_fmap; by exists (i, (k, v))).
    assert (v' = v) as -> by (by eapply NoDup_fst_inj). clear -Hi Hk Hl Hn. unfold entries in Hk. induction (cacheItemsList c) as [|[a [b w]] l IH]; [by apply not_elem_of_nil in Hn|].
    cbn in Hi, Hk. apply NoDup_cons in Hi as [Ha Hi], Hk as [Hb Hk]. apply elem_of_cons in Hl as [E|Hl], Hn as [E'|Hn]; [congruence| | |by apply IH].
    + injection E as -> -> ->. exfalso. apply Hb, list_elem_of_fmap. exists (b, w). split; [done|]. apply list_elem_of_fmap. by exists (j, (b, w)).
    + injection E' as -> -> ->. exfalso. apply Hb, list_elem_of_fmap. exists (b, w). split; [done|]. apply list_elem_of_fmap. by exists (i, (b, w)).
Qed.

(** Erasing the node of a key erases the key. *)
Lemma entries_filter c i k v : lru_wf c → (i, (k, v)) ∈ cacheItemsList c → map snd (base.filter (λ n, n.1 ≠ i) (cacheItemsList c)) = other k (entries c).
Proof.
  intros Hw Hl. unfold entries, other. assert (Forall (λ n, n.1 = i ↔ n.2.1 = k) (cacheItemsList c)) as Hf.
  { apply Forall_forall. intros n Hn. by eapply wf_inj. }
  clear Hw Hl. induction (cacheItemsList c) as [|n l IH]; [done|]. apply Forall_cons in Hf as [Hn Hf]. cbn [map]. rewrite !filter_cons.
  destruct (decide (n.1 ≠ i)), (decide (n.2.1 ≠ k)); cbn [map]; rewrite ?IH by done; tauto || done.
Qed.
Lemma other_absent k (l : list (K * V)) : k ∉ map fst l → other k l = l.
Proof.
  unfold other. induction l as [|e l IH]; cbn [map]; [done|]. rewrite not_elem_of_cons. intros [He Hl]. rewrite filter_cons, decide_True by congruence. by rewrite IH.
Qed.

(** * Operations *)

Lemma wf_size c : lru_wf c → size (cacheItemsMap c) = length (entries c).
Proof.
  intros [_ Hk _ Hm]. assert (dom (cacheItemsMap c) = list_to_set (C := gset K) (map fst (entries c))) as E.
  { apply set_eq. intros k. rewrite elem_of_dom, elem_of_list_to_set. unfold is_Some. setoid_rewrite Hm. split.
    - intros (i & v & Hl). apply list_elem_of_fmap. exists (k, v). split; [done|]. apply list_elem_of_fmap. by exists (i, (k, v)).
    - intros Hl. apply list_elem_of_fmap in Hl as ([k' v] & -> & Hl). apply list_elem_of_fmap in Hl as ([i [? ?]] & [= <- <-] & Hl). eauto. }
  rewrite <- size_dom, E, size_list_to_set by done. apply length_map.
Qed.
Lemma wf_absent c k : lru_wf c → cacheItemsMap c !! k = None ↔ k ∉ map fst (entries c).
Proof.
  intros [_ _ _ Hm]. split.
  - intros E Hl. apply list_elem_of_fmap in Hl as ([k' v] & -> & Hl). apply list_elem_of_fmap in Hl as ([i [? ?]] & [= <- <-] & Hl).
    assert (cacheItemsMap c !! k' = Some i) by (apply Hm; eauto). cbn in E. congruence.
  - intros Hl. destruct (cacheItemsMap c !! k) as [i|] eqn:E; [|done]. apply Hm in E as [v Hv]. exfalso. apply Hl, list_elem_of_fmap. exists (k, v). split; [done|].
    apply list_elem_of_fmap. by exists (i, (k, v)).
Qed.

Lemma wf_cons c k v : lru_wf c → k ∉ map fst (entries c) →
  lru_wf (mkLRU ((next c, (k, v)) :: cacheItemsList c) (<[k := next c]> (cacheItemsMap c)) (maxSize c) (S (next c))).
Proof.
  intros Hw Hk. pose proof (wf_absent c k Hw) as Ha. destruct Hw as [Hi Hks Hn Hm]. split; cbn.
  - apply NoDup_cons. split; [|done]. intros Hl. apply list_elem_of_fmap in Hl as (n & E & Hl). rewrite Forall_forall in Hn. apply Hn in Hl. lia.
  - apply NoDup_cons. by split.
  - constructor; [cbn; lia|]. eapply Forall_impl; [exact Hn|]. cbn. lia.
  - intros k' i. destruct (decide (k' = k)) as [->|Hne].
    + rewrite lookup_insert_eq. split; [intros [= <-]; exists v; by left|]. intros (w & [E|Hl]%elem_of_cons); [congruence|].
      exfalso. assert (cacheItemsMap c !! k = Some i) by (apply Hm; eauto). apply Ha in Hk. congruence.
    + rewrite lookup_insert_ne by done. rewrite Hm. split; intros (w & Hl); exists w; [by right|]. apply elem_of_cons in Hl as [E|Hl]; [congruence|done].
Qed.
Lemma wf_erase c k v i n : lru_wf c → (i, (k, v)) ∈ cacheItemsList c →
  lru_wf (mkLRU (base.filter (λ n, n.1 ≠ i) (cacheItemsList c)) (delete k (cacheItemsMap c)) n (next c)).
Proof.
  intros Hw Hl. pose proof (entries_filter c i k v Hw Hl) as He. pose proof (wf_inj c i k v) as Hinj. pose proof Hw as [Hi Hk Hn Hm].
  split; cbn [cacheItemsList cacheItemsMap next].
  - by apply NoDup_filter_fst.
  - unfold entries at 1. cbn [cacheItemsList]. rewrite He. by apply NoDup_filter_fst.
  - apply Forall_forall. intros x [_ Hx]%list_elem_of_filter. rewrite Forall_forall in Hn. by apply Hn.
  - intros k' j. destruct (decide (k' = k)) as [->|Hne].
    + rewrite lookup_delete_eq. split; [done|]. intros (w & [Hj Hx]%list_elem_of_filter). exfalso. apply Hj, (Hinj _ Hw Hl Hx). done.
    + rewrite lookup_delete_ne by done. rewrite Hm. split; intros (w & Hx); exists w.
      * apply list_elem_of_filter. split; [|done]. intros E. apply (Hinj _ Hw Hl Hx) in E. done.
      * by apply list_elem_of_filter in Hx as [_ Hx].
Qed.
Lemma wf_snoc l i k v m n x : lru_wf (mkLRU (l ++ [(i, (k, v))]) m n x) → lru_wf (mkLRU l (delete k m) n x).
Proof.
  intros Hw. assert ((i, (k, v)) ∈ l ++ [(i, (k, v))]) as Hl by (apply elem_of_app; right; by left).
  pose proof (wf_erase _ k v i n Hw Hl) as He. cbn [cacheItemsList cacheItemsMap next] in He.
  destruct Hw as [Hi _ _ _]. cbn [cacheItemsList] in Hi. rewrite map_app in Hi. apply NoDup_app in Hi as (_ & Hi & _). rewrite filter_app in He.
  rewrite (filter_cons_False _ (i, (k, v))), filter_nil, app_nil_r in He by (cbn; congruence).
  assert (base.filter (λ n : nat * (K * V), n.1 ≠ i) l = l) as E; [|by rewrite E in He].
  clear He Hl. induction l as [|a l IH]; [done|]. rewrite filter_cons, decide_True; [f_equal; apply IH|].
  - intros y Hy. apply Hi. by right.
  - intros E. apply (Hi a.1); [by left|]. rewrite E. by left.
Qed.

Lemma erase_node_cons i n l : n.1 ≠ i → erase_node i (n :: l) = cons n <$> erase_node i l.
Proof.
  intros Hn. unfold erase_node, node_at. cbn [list_find]. rewrite decide_False by done. rewrite filter_cons, decide_True by done.
  by destruct (list_find _ l) as [[j y]|].
Qed.

(** The cache without a key. *)
Definition without (k : K) (c : CLRUCache) : CLRUCache :=
  match cacheItemsMap c !! k with
  | Some i => mkLRU (base.filter (λ n, n.1 ≠ i) (cacheItemsList c)) (delete k (cacheItemsMap c)) (maxSize c) (next c)
  | None => c
  end.
Lemma without_spec k c : lru_wf c →
  lru_wf (without k c) ∧ entries (without k c) = other k (entries c) ∧ next (without k c) = next c ∧ maxSize (without k c) = maxSize c.
Proof.
  intros Hw. unfold without. destruct (cacheItemsMap c !! k) as [i|] eqn:E.
  - pose proof (wf_map c Hw k i) as [[w Hl] _]; [done|]. split_and!; [by eapply wf_erase|by eapply entries_filter|done..].
  - split_and!; try done. apply wf_absent in E; [|done]. by rewrite other_absent.
Qed.
Lemma Put_without k v c : lru_wf c →
  Put k v c =
    let c' := without k c in
    let l := (next c, (k, v)) :: cacheItemsList c' in
    let m := <[k := next c]> (cacheItemsMap c') in
    if decide (maxSize c < size m) then '(_, (k, _)) ← last l; Some (mkLRU (removelast l) (delete k m) (maxSize c) (S (next c)))
    else Some (mkLRU l m (maxSize c) (S (next c))).
Proof.
  intros Hw. unfold Put, without. destruct (cacheItemsMap c !! k) as [i|] eqn:E; [|done].
  pose proof (wf_map c Hw k i) as [[w Hl] _]; [done|].
  assert (next c ≠ i) by (pose proof (wf_next c Hw) as Hf; rewrite Forall_forall in Hf; apply Hf in Hl; cbn in Hl; lia).
  rewrite erase_node_cons by done. by rewrite (erase_node_elem _ _ _ (wf_ids c Hw) Hl).
Qed.

Lemma Put_spec k v c : lru_ok c → ∃ c', Put k v c = Some c' ∧ lru_ok c' ∧ maxSize c' = maxSize c ∧ entries c' = take (maxSize c) ((k, v) :: other k (entries c)).
Proof.
  intros [Hw Hs]. rewrite Put_without by done. destruct (without_spec k c Hw) as (Hm & He & Hn & Hx).
  assert (k ∉ map fst (entries (without k c))) as Hk.
  { rewrite He. unfold other. intros Hin. apply list_elem_of_fmap in Hin as (e & -> & [Hne _]%list_elem_of_filter). done. }
  pose proof (wf_cons _ k v Hm Hk) as Hc. rewrite Hn, Hx in Hc. pose proof (wf_size _ Hc) as Hz. cbn zeta.
  set (l := (next c, (k, v)) :: cacheItemsList (without k c)) in *. cbn [cacheItemsMap] in Hz.
  assert (map snd l = (k, v) :: other k (entries c)) as El by (unfold l; cbn [map snd]; by rewrite <- He).
  assert (length (other k (entries c)) ≤ length (entries c)) by apply length_filter.
  unfold entries at 1 in Hz. cbn [cacheItemsList] in Hz. rewrite El in Hz. cbn [length] in Hz. rewrite <- El. case_decide as Hd; rewrite Hz in Hd.
  - destruct (exists_last (l := l)) as (l' & [i [k' v']] & E); [done|]. rewrite E, last_snoc, removelast_last in *. cbn [mbind option_bind].
    assert (length (map snd l') = maxSize c) as Hl.
    { apply (f_equal length) in El. rewrite map_app, length_app in El. cbn in El. lia. }
    eexists. split; [done|]. apply wf_snoc in Hc. rewrite map_app, firstn_app, Hl, Nat.sub_diag, app_nil_r, firstn_all2 by lia.
    split_and!; [split; [done|]|done..]. unfold entries. cbn [cacheItemsList maxSize]. lia.
  - eexists. split; [done|]. rewrite firstn_all2 by (rewrite El; cbn; lia). split_and!; [split; [done|]|done..]. unfold entries. cbn [cacheItemsList maxSize]. rewrite El. cbn. lia.
Qed.

Lemma Erase_spec k c : lru_ok c → ∃ c', Erase k c = Some c' ∧ lru_ok c' ∧ maxSize c' = maxSize c ∧ entries c' = other k (entries c).
Proof.
  intros [Hw Hs]. destruct (without_spec k c Hw) as (Hm & He & Hn & Hx). exists (without k c).
  assert (length (other k (entries c)) ≤ length (entries c)) by apply length_filter. split_and!; [|split; [done|rewrite He; lia]|done..].
  unfold Erase, without. destruct (cacheItemsMap c !! k) as [i|] eqn:E; [|done]. pose proof (wf_map c Hw k i) as [[w Hl] _]; [done|].
  by rewrite (erase_node_elem _ _ _ (wf_ids c Hw) Hl).
Qed.

(** The value of a key. *)
Definition find (k : K) (l : list (K * V)) : option V := snd <$> (snd <$> list_find (λ e, e.1 = k) l).
Lemma find_elem k v l : NoDup (map fst l) → find k l = Some v ↔ (k, v) ∈ l.
Proof.
  intros Hn. unfold find. destruct (list_find (λ e, e.1 = k) l) as [[j [k' v']]|] eqn:E.
  - apply list_find_Some in E as (Hj & Hk & _). cbn in *. subst k'. apply list_elem_of_lookup_2 in Hj. split; [by intros [= <-]|]. intros Hv. f_equal. by eapply NoDup_fst_inj.
  - apply list_find_None in E. rewrite Forall_forall in E. split; [done|]. intros Hv. by destruct (E _ Hv).
Qed.

(** Moving a node to the front. *)
Lemma wf_touch c i k v : lru_wf c → (i, (k, v)) ∈ cacheItemsList c →
  let c' := mkLRU ((i, (k, v)) :: base.filter (λ n, n.1 ≠ i) (cacheItemsList c)) (cacheItemsMap c) (maxSize c) (next c) in
  lru_wf c' ∧ entries c' = (k, v) :: other k (entries c).
Proof.
  intros Hw Hl c'. pose proof (entries_filter c i k v Hw Hl) as He.
  assert (entries c' = (k, v) :: other k (entries c)) as Ee by (unfold entries at 1, c'; cbn [cacheItemsList map snd]; by rewrite He).
  split; [|done]. pose proof (wf_erase c k v i (maxSize c) Hw Hl) as [Hi _ Hn _]. cbn [cacheItemsList cacheItemsMap next] in *. split; cbn [c' cacheItemsList cacheItemsMap next].
  - cbn [map]. apply NoDup_cons. split; [|done]. intros Hin. apply list_elem_of_fmap in Hin as (e & Ei & [Hne _]%list_elem_of_filter). by rewrite <- Ei in Hne.
  - fold c'. rewrite Ee. cbn [map]. apply NoDup_cons. split; [|by apply NoDup_filter_fst, wf_keys].
    unfold other. intros Hin. apply list_elem_of_fmap in Hin as (e & Ei & [Hne _]%list_elem_of_filter). by rewrite <- Ei in Hne.
  - constructor; [|done]. pose proof (wf_next c Hw) as Hf. rewrite Forall_forall in Hf. by apply Hf in Hl.
  - intros k' j. rewrite (wf_map c Hw). split; intros (w & Hx); exists w; rewrite elem_of_cons, list_elem_of_filter in *.
    + destruct (decide (j = i)) as [->|]; [|by right]. left. f_equal. by eapply NoDup_fst_inj; [apply (wf_ids c Hw)|..].
    + destruct Hx as [[= -> -> ->]|[_ ?]]; done.
Qed.
Lemma other_length k v l : (k, v) ∈ l → S (length (other k l)) ≤ length l.
Proof.
  intros (l1 & l2 & ->)%list_elem_of_split. unfold other. rewrite filter_app, filter_cons, decide_False by (cbn; tauto). rewrite !length_app. cbn [length].
  pose proof (length_filter (λ e : K * V, e.1 ≠ k) l1). pose proof (length_filter (λ e : K * V, e.1 ≠ k) l2). lia.
Qed.

Lemma Get_spec k c : lru_ok c →
  match find k (entries c) with
  | Some v => ∃ c', Get k c = Some (v, c') ∧ lru_ok c' ∧ maxSize c' = maxSize c ∧ entries c' = (k, v) :: other k (entries c)
  | None => Get k c = None
  end.
Proof.
  intros [Hw Hs]. unfold Get. destruct (cacheItemsMap c !! k) as [i|] eqn:E.
  - pose proof (wf_map c Hw k i) as [[v Hl] _]; [done|]. assert ((k, v) ∈ entries c) as Hv by (apply list_elem_of_fmap; by exists (i, (k, v))).
    rewrite (proj2 (find_elem k v _ (wf_keys c Hw)) Hv). cbn [mbind option_bind]. rewrite (node_at_elem _ _ _ (wf_ids c Hw) Hl). cbn [mbind option_bind].
    rewrite (erase_node_elem _ _ _ (wf_ids c Hw) Hl). cbn [mbind option_bind snd]. eexists. split; [done|].
    destruct (wf_touch c i k v Hw Hl) as [Hw' He]. split_and!; [split; [done|]|done..]. rewrite He. cbn [maxSize length]. pose proof (other_length _ _ _ Hv). lia.
  - apply wf_absent in E; [|done]. unfold find. destruct (list_find _ _) as [[j [k' v]]|] eqn:Ef; [|done]. exfalso. apply list_find_Some in Ef as (Hj & Hk & _). cbn in Hk. subst k'.
    apply E, list_elem_of_fmap. exists (k, v). split; [done|]. by eapply list_elem_of_lookup_2.
Qed.
Lemma Exists_spec k c : lru_ok c → Exists k c = bool_decide (is_Some (find k (entries c))).
Proof.
  intros Hok. pose proof (Get_spec k c Hok) as Hg. destruct Hok as [Hw _]. unfold Exists. apply bool_decide_ext. destruct (cacheItemsMap c !! k) as [i|] eqn:E.
  - pose proof (wf_map c Hw k i) as [[v Hl] _]; [done|]. rewrite (proj2 (find_elem k v _ (wf_keys c Hw))); [|apply list_elem_of_fmap; by exists (i, (k, v))]. by split.
  - destruct (find k (entries c)) as [v|]; [|done]. destruct Hg as (c' & Hg & _). unfold Get in Hg. by rewrite E in Hg.
Qed.
Lemma lru_init_ok n : lru_ok (lru_init n).
Proof. split; [|cbn; lia]. split; cbn; [constructor..|]. intros k i. rewrite lookup_empty. split; [done|]. intros (v & Hv). by apply not_elem_of_nil in Hv. Qed.
Lemma Clear_ok c : lru_ok (Clear c) ∧ entries (Clear c) = [].
Proof. split; [|done]. destruct (lru_init_ok 0) as [[H1 H2 H3 H4] _]. split; [|cbn; lia]. split; [done|done|constructor|exact H4]. Qed.

(** * Any sequence of calls *)

Inductive call := CallPut (k : K) (v : V) | CallErase (k : K) | CallGet (k : K) | CallClear.
(** A call of [Get] is guarded by [Exists], as all callers do. *)
Definition run_call (o : call) (c : CLRUCache) : option CLRUCache :=
  match o with
  | CallPut k v => Put k v c
  | CallErase k => Erase k c
  | CallGet k => if Exists k c then snd <$> Get k c else Some c
  | CallClear => Some (Clear c)
  end.
Definition run_recent (size : nat) (o : call) (l : list (K * V)) : list (K * V) :=
  match o with
  | CallPut k v => take size ((k, v) :: other k l)
  | CallErase k => other k l
  | CallGet k => match find k l with Some v => (k, v) :: other k l | None => l end
  | CallClear => []
  end.
Lemma run_call_spec o c : lru_ok c → ∃ c', run_call o c = Some c' ∧ lru_ok c' ∧ maxSize c' = maxSize c ∧ entries c' = run_recent (maxSize c) o (entries c).
Proof.
  intros Hc. destruct o as [k v|k|k|]; cbn [run_call run_recent].
  - by apply Put_spec.
  - by apply Erase_spec.
  - rewrite Exists_spec by done. pose proof (Get_spec k c Hc) as Hg. destruct (find k (entries c)) as [v|].
    + destruct Hg as (c' & Hg & ?). rewrite Hg. eauto.
    + by exists c.
  - exists (Clear c). by destruct (Clear_ok c).
Qed.

(** C24: The cache does what it should, for any sequence of calls on an empty cache: no iterator is used after its node is gone, the cache
    never holds more than its size, and it holds the keys that were put and not erased since, as many of them as it can, those that were used
    most recently, with their last values. *)
Theorem lru_refines size (calls : list call) :
  ∃ c, foldl (λ acc o, c ← acc; run_call o c) (Some (lru_init size)) calls = Some c ∧
    entries c = foldl (λ l o, run_recent size o l) [] calls ∧ length (entries c) ≤ size ∧ Size c = length (entries c) ∧
    ∀ k, Exists k c = bool_decide (is_Some (find k (entries c))) ∧ fst <$> Get k c = find k (entries c).
Proof.
  assert (∀ c, lru_ok c → maxSize c = size → ∃ c', foldl (λ acc o, c ← acc; run_call o c) (Some c) calls = Some c' ∧ lru_ok c' ∧ maxSize c' = size ∧
    entries c' = foldl (λ l o, run_recent size o l) (entries c) calls) as Hrun.
  { induction calls as [|o calls IH]; intros c Hc Hs; [by exists c|]. destruct (run_call_spec o c Hc) as (c1 & E & Hc1 & Hs1 & He). cbn [foldl mbind option_bind]. rewrite E.
    destruct (IH c1 Hc1 ltac:(congruence)) as (c' & ? & ? & ? & He'). exists c'. split_and!; try done. by rewrite He', He, Hs. }
  destruct (Hrun (lru_init size) (lru_init_ok size) eq_refl) as (c & E & Hc & Hs & He). exists c. split_and!; [done|done|destruct Hc; lia|by apply wf_size, Hc|].
  intros k. split; [by apply Exists_spec|]. pose proof (Get_spec k c Hc) as Hg. destruct (find k (entries c)); [|by rewrite Hg]. by destruct Hg as (c' & -> & _).
Qed.
End lru.
Arguments CLRUCache K V {_ _}.

(** * Caches to read through *)

(** What a reader needs of a cache with strings as keys: entries may be forgotten, but never come from nowhere. *)
Class TextCache (C : Type → Type) := {
  cached {V} : list Z → C V → option V;
  cache_put {V} : list Z → V → C V → C V;
  cache_erase {V} : list Z → C V → C V;
  cache_get {V} : list Z → C V → C V }.
Class TextCacheLaws (C : Type → Type) `{TextCache C} : Prop := {
  cached_put {V} k v (c : C V) k' w : cached k' (cache_put k v c) = Some w → (k' = k ∧ w = v) ∨ (k' ≠ k ∧ cached k' c = Some w);
  cached_erase {V} k (c : C V) k' w : cached k' (cache_erase k c) = Some w → k' ≠ k ∧ cached k' c = Some w;
  cached_get {V} k (c : C V) k' : cached k' (cache_get k c) = cached k' c }.

(** [CLRUCache] is one. *)
Definition lru (V : Type) : Type := { c : CLRUCache (list Z) V | lru_ok c }.
Lemma Put_ok {V} k (v : V) (c : lru V) : lru_ok (default (`c) (Put k v (`c))).
Proof. destruct c as [c Hc]. destruct (Put_spec k v c Hc) as (c' & E & ? & _). cbn [proj1_sig]. by rewrite E. Qed.
Lemma Erase_ok {V} k (c : lru V) : lru_ok (default (`c) (Erase k (`c))).
Proof. destruct c as [c Hc]. destruct (Erase_spec k c Hc) as (c' & E & ? & _). cbn [proj1_sig]. by rewrite E. Qed.
Lemma Get_ok {V} k (c : lru V) : lru_ok (default (`c) (snd <$> Get k (`c))).
Proof.
  destruct c as [c Hc]. cbn [proj1_sig]. pose proof (Get_spec k c Hc) as Hg. destruct (find k (entries c)); [|by rewrite Hg]. by destruct Hg as (c' & -> & ? & _).
Qed.
#[export] Instance lru_cache : TextCache lru := {
  cached V k c := fst <$> Get k (`c);
  cache_put V k v c := exist _ (default (`c) (Put k v (`c))) (Put_ok k v c);
  cache_erase V k c := exist _ (default (`c) (Erase k (`c))) (Erase_ok k c);
  cache_get V k c := exist _ (default (`c) (snd <$> Get k (`c))) (Get_ok k c) }.

Lemma cached_find {V} k (c : lru V) : cached k c = find k (entries (`c)).
Proof. destruct c as [c Hc]. cbn. pose proof (Get_spec k c Hc) as Hg. destruct (find k (entries c)); [|by rewrite Hg]. by destruct Hg as (c' & -> & _). Qed.
Lemma cached_entries {V} k (c : lru V) v : cached k c = Some v ↔ (k, v) ∈ entries (`c).
Proof. rewrite cached_find. destruct c as [c Hc]. apply find_elem, wf_keys, Hc. Qed.

#[export] Instance lru_laws : TextCacheLaws lru.
Proof.
  split.
  - intros V k v c k' w. rewrite !cached_entries. destruct c as [c Hc]. destruct (Put_spec k v c Hc) as (c' & E & _ & _ & He). cbn. rewrite E. cbn. rewrite He. intros Hin.
    apply elem_of_take in Hin as (i & Hi & _). apply list_elem_of_lookup_2, elem_of_cons in Hi as [[= -> ->]|[Hne Hi]%list_elem_of_filter]; [by left|by right].
  - intros V k c k' w. rewrite !cached_entries. destruct c as [c Hc]. destruct (Erase_spec k c Hc) as (c' & E & _ & _ & He). cbn. rewrite E. cbn. rewrite He. by intros [Hne Hi]%list_elem_of_filter.
  - intros V k c k'. apply option_eq. intros w. rewrite !cached_entries. destruct c as [c Hc]. cbn. pose proof (Get_spec k c Hc) as Hg. destruct (find k (entries c)) as [v|] eqn:Ef; [|by rewrite Hg].
    destruct Hg as (c' & -> & Hc' & _ & He). cbn. rewrite He. unfold other. rewrite elem_of_cons, list_elem_of_filter. cbn. apply find_elem in Ef; [|apply wf_keys, Hc].
    split; [intros [[= -> ->]|[_ ?]]; done|]. intros Hin. destruct (decide (k' = k)) as [->|]; [|by right]. left. f_equal. exact (NoDup_fst_inj _ _ _ _ (wf_keys c (proj1 Hc)) Hin Ef).
Qed.

(** No cache at all is another. *)
#[export] Instance no_cache : TextCache (λ _, unit) := {
  cached V k c := None; cache_put V k v c := tt; cache_erase V k c := tt; cache_get V k c := tt }.
#[export] Instance no_cache_laws : TextCacheLaws (λ _, unit).
Proof. by split. Qed.
