(* ===== verification/AssetsCache.v ===== *)
(** The cache of assets (assets/assets.h, [CAssetsCache] of assets/assets.cpp) over the global cache, the caches to read
    through and the databases (assets/assetdb.cpp, assets/restricteddb.cpp): what a block adds, what undoing a block removes, the
    queries, and the way of the changes into the global cache and the databases. *)
From stdpp Require Import base list option gmap.
From Stdlib Require Import ZArith Lia.
From Stdlib Require String.
From S2P Require Import Prelude Serialize Chain Transaction Text AssetNames Hash Base58 Script Standard AssetData AssetChecks Coins LruCache.
Import String.StringSyntax.
Open Scope Z_scope.

(** * Data *)

Inductive QualifierType := REMOVE_QUALIFIER | ADD_QUALIFIER.
Inductive RestrictedType := UNFREEZE_ADDRESS | FREEZE_ADDRESS | GLOBAL_UNFREEZE | GLOBAL_FREEZE.
#[export] Instance QualifierType_eq : EqDecision QualifierType.
Proof. solve_decision. Defined.
#[export] Instance RestrictedType_eq : EqDecision RestrictedType.
Proof. solve_decision. Defined.

Record CDatabasedAssetData := mkData { data_asset : CNewAsset; data_nHeight : Z; data_blockHash : uint256 }.
(** An entry of a set is stored under what its [operator<] compares. *)
Record CAssetCacheNewAsset := mkNewAsset { new_asset : CNewAsset; new_address : text; new_blockHeight : Z; new_blockHash : uint256 }.
Record CAssetCacheReissueAsset := mkReissue { re_reissue : CReissueAsset; re_address : text; re_blockHeight : Z; re_blockHash : uint256 }.
Record CAssetCacheNewTransfer := mkTransfer { tr_transfer : CAssetTransfer; tr_address : text }.
Record CAssetCacheRestrictedVerifiers := mkVerifiers { ver_verifier : text; fUndoingRessiue : bool }.
Record CAssetAmount := mkAmount { am_assetName : text; am_address : text; am_nAmount : Z }.

(** A pair of sets [...ToAdd] and [...ToRemove]. *)
Record dirty (K V : Type) `{Countable K} := mkDirty { ToAdd : gmap K V; ToRemove : gmap K V }.
Arguments mkDirty {K V _ _} _ _.
Arguments ToAdd {K V _ _} _.
Arguments ToRemove {K V _ _} _.
Definition clean {K V} `{Countable K} : dirty K V := mkDirty ∅ ∅.

(** [insert] of a set does not replace an entry. *)
Definition set_insert {K V} `{Countable K} (k : K) (v : V) (m : gmap K V) : gmap K V := match m !! k with Some _ => m | None => <[k := v]> m end.

(** The entry leaves one set and enters the other, where it replaces an older entry or does not. *)
Definition add_item {K V} `{Countable K} (k : K) (v : V) (d : dirty K V) : dirty K V := mkDirty (set_insert k v (ToAdd d)) (delete k (ToRemove d)).
Definition remove_item {K V} `{Countable K} (k : K) (v : V) (d : dirty K V) : dirty K V := mkDirty (delete k (ToAdd d)) (set_insert k v (ToRemove d)).
Definition add_over {K V} `{Countable K} (k : K) (v : V) (d : dirty K V) : dirty K V := mkDirty (<[k := v]> (ToAdd d)) (delete k (ToRemove d)).
Definition remove_over {K V} `{Countable K} (k : K) (v : V) (d : dirty K V) : dirty K V := mkDirty (delete k (ToAdd d)) (<[k := v]> (ToRemove d)).

Abbreviation pair_set := (gmap (text * text) (gset text)).
Record CAssetsCache := mkAssetsCache {
  mapAssetsAddressAmount : gmap (text * text) Z; mapReissuedAssetData : gmap text CNewAsset;
  vUndoAssetAmount : list CAssetAmount; vSpentAssets : list CAssetAmount;
  setNewAssets : dirty text CAssetCacheNewAsset; setNewReissue : dirty COutPoint CAssetCacheReissueAsset;
  setNewOwnerAssets : dirty text text; setNewTransferAssets : dirty COutPoint CAssetCacheNewTransfer;
  setNewQualifierAddress : dirty (text * text) QualifierType; setNewRestrictedAddress : dirty (text * text) RestrictedType;
  setNewRestrictedGlobal : dirty text RestrictedType; setNewRestrictedVerifier : dirty text CAssetCacheRestrictedVerifiers;
  mapRootQualifierAddressesAdd : pair_set; mapRootQualifierAddressesRemove : pair_set }.
(** [ClearDirtyCache] leaves this, as does the constructor. *)
Definition emptyCache : CAssetsCache := mkAssetsCache ∅ ∅ [] [] clean clean clean clean clean clean clean clean ∅ ∅.

(** Assignments to one member. *)
Definition with_amounts (x : gmap (text * text) Z) (c : CAssetsCache) : CAssetsCache :=
  mkAssetsCache x (mapReissuedAssetData c) (vUndoAssetAmount c) (vSpentAssets c) (setNewAssets c) (setNewReissue c) (setNewOwnerAssets c) (setNewTransferAssets c) (setNewQualifierAddress c) (setNewRestrictedAddress c) (setNewRestrictedGlobal c) (setNewRestrictedVerifier c) (mapRootQualifierAddressesAdd c) (mapRootQualifierAddressesRemove c).
Definition with_reissued_data (x : gmap text CNewAsset) (c : CAssetsCache) : CAssetsCache :=
  mkAssetsCache (mapAssetsAddressAmount c) x (vUndoAssetAmount c) (vSpentAssets c) (setNewAssets c) (setNewReissue c) (setNewOwnerAssets c) (setNewTransferAssets c) (setNewQualifierAddress c) (setNewRestrictedAddress c) (setNewRestrictedGlobal c) (setNewRestrictedVerifier c) (mapRootQualifierAddressesAdd c) (mapRootQualifierAddressesRemove c).
Definition with_undo (x : list CAssetAmount) (c : CAssetsCache) : CAssetsCache :=
  mkAssetsCache (mapAssetsAddressAmount c) (mapReissuedAssetData c) x (vSpentAssets c) (setNewAssets c) (setNewReissue c) (setNewOwnerAssets c) (setNewTransferAssets c) (setNewQualifierAddress c) (setNewRestrictedAddress c) (setNewRestrictedGlobal c) (setNewRestrictedVerifier c) (mapRootQualifierAddressesAdd c) (mapRootQualifierAddressesRemove c).
Definition with_spent (x : list CAssetAmount) (c : CAssetsCache) : CAssetsCache :=
  mkAssetsCache (mapAssetsAddressAmount c) (mapReissuedAssetData c) (vUndoAssetAmount c) x (setNewAssets c) (setNewReissue c) (setNewOwnerAssets c) (setNewTransferAssets c) (setNewQualifierAddress c) (setNewRestrictedAddress c) (setNewRestrictedGlobal c) (setNewRestrictedVerifier c) (mapRootQualifierAddressesAdd c) (mapRootQualifierAddressesRemove c).
Definition with_new_assets (x : dirty text CAssetCacheNewAsset) (c : CAssetsCache) : CAssetsCache :=
  mkAssetsCache (mapAssetsAddressAmount c) (mapReissuedAssetData c) (vUndoAssetAmount c) (vSpentAssets c) x (setNewReissue c) (setNewOwnerAssets c) (setNewTransferAssets c) (setNewQualifierAddress c) (setNewRestrictedAddress c) (setNewRestrictedGlobal c) (setNewRestrictedVerifier c) (mapRootQualifierAddressesAdd c) (mapRootQualifierAddressesRemove c).
Definition with_reissues (x : dirty COutPoint CAssetCacheReissueAsset) (c : CAssetsCache) : CAssetsCache :=
  mkAssetsCache (mapAssetsAddressAmount c) (mapReissuedAssetData c) (vUndoAssetAmount c) (vSpentAssets c) (setNewAssets c) x (setNewOwnerAssets c) (setNewTransferAssets c) (setNewQualifierAddress c) (setNewRestrictedAddress c) (setNewRestrictedGlobal c) (setNewRestrictedVerifier c) (mapRootQualifierAddressesAdd c) (mapRootQualifierAddressesRemove c).
Definition with_owners (x : dirty text text) (c : CAssetsCache) : CAssetsCache :=
  mkAssetsCache (mapAssetsAddressAmount c) (mapReissuedAssetData c) (vUndoAssetAmount c) (vSpentAssets c) (setNewAssets c) (setNewReissue c) x (setNewTransferAssets c) (setNewQualifierAddress c) (setNewRestrictedAddress c) (setNewRestrictedGlobal c) (setNewRestrictedVerifier c) (mapRootQualifierAddressesAdd c) (mapRootQualifierAddressesRemove c).
Definition with_transfers (x : dirty COutPoint CAssetCacheNewTransfer) (c : CAssetsCache) : CAssetsCache :=
  mkAssetsCache (mapAssetsAddressAmount c) (mapReissuedAssetData c) (vUndoAssetAmount c) (vSpentAssets c) (setNewAssets c) (setNewReissue c) (setNewOwnerAssets c) x (setNewQualifierAddress c) (setNewRestrictedAddress c) (setNewRestrictedGlobal c) (setNewRestrictedVerifier c) (mapRootQualifierAddressesAdd c) (mapRootQualifierAddressesRemove c).
Definition with_qualifiers (x : dirty (text * text) QualifierType) (c : CAssetsCache) : CAssetsCache :=
  mkAssetsCache (mapAssetsAddressAmount c) (mapReissuedAssetData c) (vUndoAssetAmount c) (vSpentAssets c) (setNewAssets c) (setNewReissue c) (setNewOwnerAssets c) (setNewTransferAssets c) x (setNewRestrictedAddress c) (setNewRestrictedGlobal c) (setNewRestrictedVerifier c) (mapRootQualifierAddressesAdd c) (mapRootQualifierAddressesRemove c).
Definition with_restricted (x : dirty (text * text) RestrictedType) (c : CAssetsCache) : CAssetsCache :=
  mkAssetsCache (mapAssetsAddressAmount c) (mapReissuedAssetData c) (vUndoAssetAmount c) (vSpentAssets c) (setNewAssets c) (setNewReissue c) (setNewOwnerAssets c) (setNewTransferAssets c) (setNewQualifierAddress c) x (setNewRestrictedGlobal c) (setNewRestrictedVerifier c) (mapRootQualifierAddressesAdd c) (mapRootQualifierAddressesRemove c).
Definition with_global_restrictions (x : dirty text RestrictedType) (c : CAssetsCache) : CAssetsCache :=
  mkAssetsCache (mapAssetsAddressAmount c) (mapReissuedAssetData c) (vUndoAssetAmount c) (vSpentAssets c) (setNewAssets c) (setNewReissue c) (setNewOwnerAssets c) (setNewTransferAssets c) (setNewQualifierAddress c) (setNewRestrictedAddress c) x (setNewRestrictedVerifier c) (mapRootQualifierAddressesAdd c) (mapRootQualifierAddressesRemove c).
Definition with_verifiers (x : dirty text CAssetCacheRestrictedVerifiers) (c : CAssetsCache) : CAssetsCache :=
  mkAssetsCache (mapAssetsAddressAmount c) (mapReissuedAssetData c) (vUndoAssetAmount c) (vSpentAssets c) (setNewAssets c) (setNewReissue c) (setNewOwnerAssets c) (setNewTransferAssets c) (setNewQualifierAddress c) (setNewRestrictedAddress c) (setNewRestrictedGlobal c) x (mapRootQualifierAddressesAdd c) (mapRootQualifierAddressesRemove c).
Definition with_root_add (x : pair_set) (c : CAssetsCache) : CAssetsCache :=
  mkAssetsCache (mapAssetsAddressAmount c) (mapReissuedAssetData c) (vUndoAssetAmount c) (vSpentAssets c) (setNewAssets c) (setNewReissue c) (setNewOwnerAssets c) (setNewTransferAssets c) (setNewQualifierAddress c) (setNewRestrictedAddress c) (setNewRestrictedGlobal c) (setNewRestrictedVerifier c) x (mapRootQualifierAddressesRemove c).
Definition with_root_remove (x : pair_set) (c : CAssetsCache) : CAssetsCache :=
  mkAssetsCache (mapAssetsAddressAmount c) (mapReissuedAssetData c) (vUndoAssetAmount c) (vSpentAssets c) (setNewAssets c) (setNewReissue c) (setNewOwnerAssets c) (setNewTransferAssets c) (setNewQualifierAddress c) (setNewRestrictedAddress c) (setNewRestrictedGlobal c) (setNewRestrictedVerifier c) (mapRootQualifierAddressesAdd c) x.

(** * The databases *)

(** A key begins with the character of its table, which is a constructor here. The two databases use different characters and are one map. *)
Inductive dbkey :=
  | AssetKey (name : text) | AssetAddressKey (name address : text) | AddressAssetKey (address name : text)
  | VerifierKey (name : text) | AddressTagKey (address tag : text) | TagAddressKey (tag address : text)
  | RestrictedKey (address name : text) | GlobalKey (name : text).
#[export] Instance dbkey_eq : EqDecision dbkey.
Proof. solve_decision. Defined.
Definition encode_key (k : dbkey) : Z * (text * text) :=
  match k with
  | AssetKey n => (chr "A", (n, [])) | AssetAddressKey n a => (chr "B", (n, a)) | AddressAssetKey a n => (chr "C", (a, n))
  | VerifierKey n => (chr "V", (n, [])) | AddressTagKey a t => (chr "T", (a, t)) | TagAddressKey t a => (chr "Q", (t, a))
  | RestrictedKey a n => (chr "R", (a, n)) | GlobalKey n => (chr "G", (n, []))
  end.
Definition decode_key (x : Z * (text * text)) : option dbkey :=
  let '(flag, (s, s')) := x in
  if flag =? chr "A" then Some (AssetKey s) else if flag =? chr "B" then Some (AssetAddressKey s s') else if flag =? chr "C" then Some (AddressAssetKey s s')
  else if flag =? chr "V" then Some (VerifierKey s) else if flag =? chr "T" then Some (AddressTagKey s s') else if flag =? chr "Q" then Some (TagAddressKey s s')
  else if flag =? chr "R" then Some (RestrictedKey s s') else if flag =? chr "G" then Some (GlobalKey s) else None.
#[export] Instance dbkey_countable : Countable dbkey.
Proof. refine (inj_countable encode_key decode_key _). by intros []. Defined.
Inductive dbvalue := DBAsset (d : CDatabasedAssetData) | DBAmount (n : Z) | DBText (s : text) | DBOne.
Abbreviation database := (gmap dbkey dbvalue).

Definition ReadAssetData (name : text) (db : database) : option CDatabasedAssetData := match db !! AssetKey name with Some (DBAsset d) => Some d | _ => None end.
Definition ReadAssetAddressQuantity (name address : text) (db : database) : option Z :=
  match db !! AssetAddressKey name address with Some (DBAmount n) => Some n | _ => None end.
Definition ReadVerifier (name : text) (db : database) : option text := match db !! VerifierKey name with Some (DBText v) => Some v | _ => None end.
Definition db_has (k : dbkey) (db : database) : bool := is_some (db !! k).

(** [CheckForAddressRootQualifier] goes from the key of the qualifier on, in the order of the keys, through those of the address. A key
    that it looks for is not smaller than the one it starts from, since lengths are stored before strings. *)
Definition CheckForAddressRootQualifier (address qualifier : text) (db : database) : bool :=
  existsb (λ k,
    match k with
    | AddressTagKey a tag => text_eqb a address && (text_eqb tag qualifier || text_eqb (take (length qualifier + 1) tag) (qualifier ++ str "/"))
    | _ => false
    end) (elements (dom db)).

(** * The state of the node *)

Section cache.
Context {C : Type → Type} `{TextCache C}.

(** The pointers are set, as they are after the start. *)
Record globals := mkGlobals {
  passets : CAssetsCache; db : database; passetsCache : C CDatabasedAssetData; passetsVerifierCache : C text;
  passetsQualifierCache : C unit; passetsRestrictionCache : C unit; passetsGlobalRestrictionCache : C unit }.
Definition put_asset (name : text) (d : CDatabasedAssetData) (g : globals) : globals :=
  mkGlobals (passets g) (db g) (cache_put name d (passetsCache g)) (passetsVerifierCache g) (passetsQualifierCache g) (passetsRestrictionCache g) (passetsGlobalRestrictionCache g).
Definition get_asset (name : text) (g : globals) : globals :=
  mkGlobals (passets g) (db g) (cache_get name (passetsCache g)) (passetsVerifierCache g) (passetsQualifierCache g) (passetsRestrictionCache g) (passetsGlobalRestrictionCache g).
Definition with_passets (c : CAssetsCache) (g : globals) : globals :=
  mkGlobals c (db g) (passetsCache g) (passetsVerifierCache g) (passetsQualifierCache g) (passetsRestrictionCache g) (passetsGlobalRestrictionCache g).
Definition with_verifier_cache (x : C text) (g : globals) : globals :=
  mkGlobals (passets g) (db g) (passetsCache g) x (passetsQualifierCache g) (passetsRestrictionCache g) (passetsGlobalRestrictionCache g).
Definition with_qualifier_cache (x : C unit) (g : globals) : globals :=
  mkGlobals (passets g) (db g) (passetsCache g) (passetsVerifierCache g) x (passetsRestrictionCache g) (passetsGlobalRestrictionCache g).
Definition with_restriction_cache (x : C unit) (g : globals) : globals :=
  mkGlobals (passets g) (db g) (passetsCache g) (passetsVerifierCache g) (passetsQualifierCache g) x (passetsGlobalRestrictionCache g).
Definition with_global_cache (x : C unit) (g : globals) : globals :=
  mkGlobals (passets g) (db g) (passetsCache g) (passetsVerifierCache g) (passetsQualifierCache g) (passetsRestrictionCache g) x.

(** [GetHash().GetHex()] of an entry for an address. *)
Definition address_hash (name address : text) : text := GetHex (Hash hash_mem [name; address]).

Context (fReindex fAssetIndex : bool).

(** * Queries *)

Abbreviation in_set k m := (is_some (m !! k)).

Definition Cache_CheckIfAssetExists (name : text) (fForceDuplicateCheck : bool) (c : CAssetsCache) (g : globals) : bool * globals :=
  if fReindex then (true, g)
  else if in_set name (ToRemove (setNewAssets c)) then (false, g)
  else if in_set name (ToRemove (setNewAssets (passets g))) then (false, g)
  else if in_set name (ToAdd (setNewAssets c)) && fForceDuplicateCheck then (true, g)
  else if in_set name (ToAdd (setNewAssets (passets g))) && fForceDuplicateCheck then (true, g)
  else if is_some (cached name (passetsCache g)) then (fForceDuplicateCheck, g)
  else
    match ReadAssetData name (db g) with
    | Some d => (fForceDuplicateCheck, put_asset (na_strName (data_asset d)) d g)
    | None => (false, g)
    end.

(** The height and the hash of the block are not set for an asset that was reissued and not written yet. *)
Definition Cache_GetAssetMetaDataIfExists (name : text) (c : CAssetsCache) (g : globals) : option (CNewAsset * option (Z * uint256)) * globals :=
  match mapReissuedAssetData c !! name, mapReissuedAssetData (passets g) !! name with
  | Some asset, _ => (Some (asset, None), g)
  | None, Some asset => (Some (asset, None), g)
  | None, None =>
      if in_set name (ToRemove (setNewAssets c)) then (None, g)
      else if in_set name (ToRemove (setNewAssets (passets g))) then (None, g)
      else
        match ToAdd (setNewAssets c) !! name, ToAdd (setNewAssets (passets g)) !! name, cached name (passetsCache g), ReadAssetData name (db g) with
        | Some n, _, _, _ => (Some (new_asset n, Some (new_blockHeight n, new_blockHash n)), g)
        | None, Some n, _, _ => (Some (new_asset n, Some (new_blockHeight n, new_blockHash n)), g)
        | None, None, Some d, _ => (Some (data_asset d, Some (data_nHeight d, data_blockHash d)), get_asset name g)
        | None, None, None, Some d => (Some (data_asset d, Some (data_nHeight d, data_blockHash d)), put_asset (na_strName (data_asset d)) d g)
        | None, None, None, None => (None, g)
        end
  end.

(** The first entry in the order in which the dirty sets are searched, with whether it was found among those to remove. *)
Definition find_dirty {K V} `{Countable K} (fSkipTempCache : bool) (k : K) (c p : dirty K V) : option (bool * V) :=
  match (if fSkipTempCache then None else ToRemove c !! k), ToRemove p !! k, (if fSkipTempCache then None else ToAdd c !! k), ToAdd p !! k with
  | Some v, _, _, _ => Some (true, v)
  | None, Some v, _, _ => Some (true, v)
  | None, None, Some v, _ => Some (false, v)
  | None, None, None, Some v => Some (false, v)
  | None, None, None, None => None
  end.

Definition Cache_GetAssetVerifierStringIfExists (name : text) (fSkipTempCache : bool) (c : CAssetsCache) (g : globals) : option text * globals :=
  match find_dirty fSkipTempCache name (setNewRestrictedVerifier c) (setNewRestrictedVerifier (passets g)) with
  | Some (true, v) => (if fUndoingRessiue v then Some (ver_verifier v) else None, g)
  | Some (false, v) => (Some (ver_verifier v), g)
  | None =>
      match cached name (passetsVerifierCache g) with
      | Some v => (Some v, with_verifier_cache (cache_get name (passetsVerifierCache g)) g)
      | None =>
          match ReadVerifier name (db g) with
          | Some v => (Some v, with_verifier_cache (cache_put name v (passetsVerifierCache g)) g)
          | None => (None, g)
          end
      end
  end.

Definition root_tagged (name address : text) (m : pair_set) : bool := match m !! (name, address) with Some s => negb (bool_decide (s = ∅)) | None => false end.

Definition Cache_CheckForAddressQualifier (qualifier_name address : text) (fSkipTempCache : bool) (c : CAssetsCache) (g : globals) : bool * globals :=
  match find_dirty fSkipTempCache (qualifier_name, address) (setNewQualifierAddress c) (setNewQualifierAddress (passets g)) with
  | Some (true, type) => (bool_decide (type = REMOVE_QUALIFIER), g)
  | Some (false, type) => (bool_decide (type = ADD_QUALIFIER), g)
  | None =>
      if negb fSkipTempCache && root_tagged qualifier_name address (mapRootQualifierAddressesAdd c) then (true, g)
      else if root_tagged qualifier_name address (mapRootQualifierAddressesAdd (passets g)) then (true, g)
      else if is_some (cached (address_hash qualifier_name address) (passetsQualifierCache g)) then (true, g)
      else if db_has (AddressTagKey address qualifier_name) (db g) then
        (true, with_qualifier_cache (cache_put (address_hash qualifier_name address) tt (passetsQualifierCache g)) g)
      else (CheckForAddressRootQualifier address qualifier_name (db g), g)
  end.

Definition Cache_CheckForAddressRestriction (restricted_name address : text) (fSkipTempCache : bool) (c : CAssetsCache) (g : globals) : bool * globals :=
  match find_dirty fSkipTempCache (restricted_name, address) (setNewRestrictedAddress c) (setNewRestrictedAddress (passets g)) with
  | Some (true, type) => (bool_decide (type = UNFREEZE_ADDRESS), g)
  | Some (false, type) => (bool_decide (type = FREEZE_ADDRESS), g)
  | None =>
      if is_some (cached (address_hash restricted_name address) (passetsRestrictionCache g)) then (true, g)
      else if db_has (RestrictedKey address restricted_name) (db g) then
        (true, with_restriction_cache (cache_put (address_hash restricted_name address) tt (passetsRestrictionCache g)) g)
      else (false, g)
  end.

Definition Cache_CheckForGlobalRestriction (restricted_name : text) (fSkipTempCache : bool) (c : CAssetsCache) (g : globals) : bool * globals :=
  match find_dirty fSkipTempCache restricted_name (setNewRestrictedGlobal c) (setNewRestrictedGlobal (passets g)) with
  | Some (true, type) => (bool_decide (type = GLOBAL_UNFREEZE), g)
  | Some (false, type) => (bool_decide (type = GLOBAL_FREEZE), g)
  | None =>
      if is_some (cached restricted_name (passetsGlobalRestrictionCache g)) then (true, g)
      else if db_has (GlobalKey restricted_name) (db g) then
        (true, with_global_cache (cache_put restricted_name tt (passetsGlobalRestrictionCache g)) g)
      else (false, g)
  end.

(** * Balances *)

(** Operations return their result, the cache, and the state of the node where a query may change it. *)
Definition GetBestAssetAddressAmount (assetName address : text) (c : CAssetsCache) (g : globals) : bool * CAssetsCache :=
  let pair := (assetName, address) in
  if negb fAssetIndex then (false, c)
  else
    match mapAssetsAddressAmount c !! pair, mapAssetsAddressAmount (passets g) !! pair, ReadAssetAddressQuantity assetName address (db g) with
    | Some _, _, _ => (true, c)
    | None, Some n, _ => (true, with_amounts (<[pair := n]> (mapAssetsAddressAmount c)) c)
    | None, None, Some n => (true, with_amounts (<[pair := n]> (mapAssetsAddressAmount c)) c)
    | None, None, None => (false, c)
    end.

(** [map[pair]] creates an entry with the value zero. *)
Definition amount_at (pair : text * text) (c : CAssetsCache) : Z := default 0 (mapAssetsAddressAmount c !! pair).
Definition set_amount (pair : text * text) (n : Z) (c : CAssetsCache) : CAssetsCache := with_amounts (<[pair := n]> (mapAssetsAddressAmount c)) c.

Definition AddToAssetBalance (strName address : text) (nAmount : Z) (c : CAssetsCache) (g : globals) : CAssetsCache :=
  if fAssetIndex then
    let pair := (strName, address) in
    let '(found, c) := GetBestAssetAddressAmount strName address c g in
    let c := if found then c else with_amounts (set_insert pair 0 (mapAssetsAddressAmount c)) c in
    set_amount pair (if IsAssetNameAnOwner strName then OWNER_ASSET_AMOUNT else i64 (amount_at pair c + nAmount)) c
  else c.

Context (prefixes : Base58Prefixes) (dep : Deployments).

(** The name, the address and the amount of the asset in a script. *)
Definition coin_asset (script : CScript) : option (text * text * Z) :=
  match IsAssetScript3 script with
  | Some (TX_NEW_ASSET, false, _) => '(asset, address) ← AssetFromScript prefixes script; Some (na_strName asset, address, na_nAmount asset)
  | Some (TX_TRANSFER_ASSET, _, _) =>
      '(transfer, address) ← TransferAssetFromScript prefixes (AreTransferScriptsSizeDeployed dep) script; Some (at_strName transfer, address, at_nAmount transfer)
  | Some (TX_NEW_ASSET, true, _) => '(assetName, address) ← OwnerAssetFromScript prefixes script; Some (assetName, address, OWNER_ASSET_AMOUNT)
  | Some (TX_REISSUE_ASSET, _, _) => '(reissue, address) ← ReissueAssetFromScript prefixes script; Some (ra_strName reissue, address, ra_nAmount reissue)
  | _ => None
  end.

Definition TrySpendCoin (txOut : CTxOut) (c : CAssetsCache) (g : globals) : bool * CAssetsCache :=
  if negb (IsAssetScript (scriptPubKey txOut)) then (true, c)
  else
    match coin_asset (scriptPubKey txOut) with
    | Some (assetName, address, nAmount) =>
        if text_eqb address [] || text_eqb assetName [] then (false, c)
        else if fAssetIndex && (0 <? nAmount) then
          let pair := (assetName, address) in
          let '(found, c) := GetBestAssetAddressAmount assetName address c g in
          if found then
            let n := i64 (amount_at pair c - nAmount) in
            let c := set_amount pair (if n <? 0 then 0 else n) c in
            (true, with_spent (vSpentAssets c ++ [mkAmount assetName address nAmount]) c)
          else (true, c)
        else (true, c)
    | None => (false, c)
    end.

Definition AddBackSpentAsset (assetName address : text) (nAmount : Z) (c : CAssetsCache) (g : globals) : CAssetsCache :=
  let pair := (assetName, address) in
  let c :=
    if fAssetIndex then
      let '(found, c) := GetBestAssetAddressAmount assetName address c g in
      let c := if found then c else with_amounts (set_insert pair 0 (mapAssetsAddressAmount c)) c in
      set_amount pair (i64 (amount_at pair c + nAmount)) c
    else c in
  with_undo (vUndoAssetAmount c ++ [mkAmount assetName address nAmount]) c.

Definition UndoAssetCoin (coin : Coin) (c : CAssetsCache) (g : globals) : bool * CAssetsCache :=
  match coin_asset (scriptPubKey (out coin)) with
  | Some (assetName, strAddress, nAmount) =>
      if text_eqb assetName [] || text_eqb strAddress [] || (nAmount =? 0) then (false, c) else (true, AddBackSpentAsset assetName strAddress nAmount c g)
  | None => (false, c)
  end.

(** * Transfers, issues and owners *)

Definition AddTransferAsset (transferAsset : CAssetTransfer) (address : text) (out : COutPoint) (c : CAssetsCache) (g : globals) : CAssetsCache :=
  let c := AddToAssetBalance (at_strName transferAsset) address (at_nAmount transferAsset) c g in
  with_transfers (add_item out (mkTransfer transferAsset address) (setNewTransferAssets c)) c.

Definition UndoTransfer (transfer : CAssetTransfer) (address : text) (c : CAssetsCache) (g : globals) : bool * CAssetsCache :=
  if fAssetIndex then
    let pair := (at_strName transfer, address) in
    match GetBestAssetAddressAmount (at_strName transfer) address c g with
    | (false, c) => (false, c)
    | (true, c) => if amount_at pair c <? at_nAmount transfer then (false, c) else (true, set_amount pair (i64 (amount_at pair c - at_nAmount transfer)) c)
    end
  else (true, c).
Definition RemoveTransfer (transfer : CAssetTransfer) (address : text) (out : COutPoint) (c : CAssetsCache) (g : globals) : bool * CAssetsCache :=
  match UndoTransfer transfer address c g with
  | (false, c) => (false, c)
  | (true, c) => (true, with_transfers (remove_item out (mkTransfer transfer address) (setNewTransferAssets c)) c)
  end.

Definition AddNewAsset (asset : CNewAsset) (address : text) (nHeight : Z) (blockHash : uint256) (c : CAssetsCache) (g : globals) : bool * (CAssetsCache * globals) :=
  match Cache_CheckIfAssetExists (na_strName asset) true c g with
  | (true, g) => (false, (c, g))
  | (false, g) =>
      let c := with_new_assets (add_item (na_strName asset) (mkNewAsset asset address nHeight blockHash) (setNewAssets c)) c in
      (true, (if fAssetIndex then set_amount (na_strName asset, address) (na_nAmount asset) c else c, g))
  end.
Definition RemoveNewAsset (asset : CNewAsset) (address : text) (c : CAssetsCache) (g : globals) : bool * (CAssetsCache * globals) :=
  match Cache_CheckIfAssetExists (na_strName asset) true c g with
  | (false, g) => (false, (c, g))
  | (true, g) =>
      let c := with_new_assets (remove_item (na_strName asset) (mkNewAsset asset address 0 uint256_null) (setNewAssets c)) c in
      (true, (if fAssetIndex then set_amount (na_strName asset, address) 0 c else c, g))
  end.

Definition AddOwnerAsset (assetsName address : text) (c : CAssetsCache) : CAssetsCache :=
  let c := with_owners (add_item assetsName address (setNewOwnerAssets c)) c in
  if fAssetIndex then set_amount (assetsName, address) OWNER_ASSET_AMOUNT c else c.
Definition RemoveOwnerAsset (assetsName address : text) (c : CAssetsCache) : CAssetsCache :=
  let c := with_owners (remove_item assetsName address (setNewOwnerAssets c)) c in
  if fAssetIndex then set_amount (assetsName, address) 0 c else c.

(** * Tags, restrictions and verifiers *)

Definition AddRestrictedAddress (assetName address : text) (type : RestrictedType) (c : CAssetsCache) : CAssetsCache :=
  with_restricted (add_over (assetName, address) type (setNewRestrictedAddress c)) c.
Definition RemoveRestrictedAddress (assetName address : text) (type : RestrictedType) (c : CAssetsCache) : CAssetsCache :=
  with_restricted (remove_over (assetName, address) type (setNewRestrictedAddress c)) c.
Definition AddGlobalRestricted (assetName : text) (type : RestrictedType) (c : CAssetsCache) : CAssetsCache :=
  with_global_restrictions (add_over assetName type (setNewRestrictedGlobal c)) c.
Definition RemoveGlobalRestricted (assetName : text) (type : RestrictedType) (c : CAssetsCache) : CAssetsCache :=
  with_global_restrictions (remove_over assetName type (setNewRestrictedGlobal c)) c.
Definition AddRestrictedVerifier (assetName verifier : text) (c : CAssetsCache) : CAssetsCache :=
  with_verifiers (add_item assetName (mkVerifiers verifier false) (setNewRestrictedVerifier c)) c.
Definition RemoveRestrictedVerifier (assetName verifier : text) (fUndoingReissue : bool) (c : CAssetsCache) : CAssetsCache :=
  with_verifiers (remove_item assetName (mkVerifiers verifier fUndoingReissue) (setNewRestrictedVerifier c)) c.

(** [map[key].insert(name)] and [map[key].erase(name)] *)
Definition root_insert (key : text * text) (name : text) (m : pair_set) : pair_set := <[key := {[name]} ∪ default ∅ (m !! key)]> m.
Definition root_erase (key : text * text) (name : text) (m : pair_set) : pair_set := <[key := default ∅ (m !! key) ∖ {[name]}]> m.
(** A sub-qualifier is entered for its root in one map and leaves the other. *)
Definition root_change (assetName address : text) (adding : bool) (c : CAssetsCache) : CAssetsCache :=
  if IsAssetNameASubQualifier assetName then
    let key := (GetParentName assetName, address) in
    if adding then
      with_root_remove (root_erase key assetName (mapRootQualifierAddressesRemove c))
        (with_root_add (root_insert key assetName (mapRootQualifierAddressesAdd c)) c)
    else
      with_root_add (root_erase key assetName (mapRootQualifierAddressesAdd c))
        (with_root_remove (root_insert key assetName (mapRootQualifierAddressesRemove c)) c)
  else c.
Definition AddQualifierAddress (assetName address : text) (type : QualifierType) (c : CAssetsCache) : CAssetsCache :=
  let c := root_change assetName address (bool_decide (type = ADD_QUALIFIER)) c in
  with_qualifiers (add_over (assetName, address) type (setNewQualifierAddress c)) c.
Definition RemoveQualifierAddress (assetName address : text) (type : QualifierType) (c : CAssetsCache) : CAssetsCache :=
  let c := root_change assetName address (negb (bool_decide (type = ADD_QUALIFIER))) c in
  with_qualifiers (remove_over (assetName, address) type (setNewQualifierAddress c)) c.

(** * Reissues *)

(** What was not set of a variable is the argument [uninit]. *)
Context (uninit_height : Z) (uninit_hash : uint256).

Definition AddReissueAsset (reissue : CReissueAsset) (address : text) (out : COutPoint) (c : CAssetsCache) (g : globals) : bool * (CAssetsCache * globals) :=
  let name := ra_strName reissue in
  let pair := (name, address) in
  match Cache_GetAssetMetaDataIfExists name c g with
  | (None, g) => (false, (c, g))
  | (Some (asset, where_), g) =>
      let '(assetHeight, assetBlockHash) := default (uninit_height, uninit_hash) where_ in
      let old := default asset (mapReissuedAssetData c !! name) in
      let c := with_reissued_data (<[name := reissued old reissue]> (mapReissuedAssetData c)) c in
      let c := with_reissues (add_item out (mkReissue reissue address assetHeight assetBlockHash) (setNewReissue c)) c in
      let c :=
        if fAssetIndex then
          let '(found, c) := GetBestAssetAddressAmount name address c g in
          let c := if found then c else with_amounts (set_insert pair 0 (mapAssetsAddressAmount c)) c in
          set_amount pair (i64 (amount_at pair c + ra_nAmount reissue)) c
        else c in
      (true, (c, g))
  end.

Record CBlockAssetUndo := mkAssetUndo {
  fChangedIPFS : bool; fChangedUnits : bool; undo_strIPFS : text; undo_nUnits : Z; fChangedVerifierString : bool; undo_verifierString : text }.

(** The asset as it was, with the first undo data of its name. *)
Definition unreissued (asset : CNewAsset) (reissue : CReissueAsset) (undo : option CBlockAssetUndo) : CNewAsset :=
  let '(hash, units, hasIPFS) :=
    match undo with
    | Some u =>
        let hash := if fChangedIPFS u then undo_strIPFS u else na_strIPFSHash asset in
        (hash, if fChangedUnits u then i8 (undo_nUnits u) else na_units asset, if text_eqb hash [] then 0 else na_nHasIPFS asset)
    | None => (na_strIPFSHash asset, na_units asset, na_nHasIPFS asset)
    end in
  mkCNewAsset (na_strName asset) (i64 (na_nAmount asset - ra_nAmount reissue)) units 1 hasIPFS hash.

Definition RemoveReissueAsset (reissue : CReissueAsset) (address : text) (out : COutPoint) (vUndoIPFS : list (text * CBlockAssetUndo))
    (c : CAssetsCache) (g : globals) : bool * (CAssetsCache * globals) :=
  let name := ra_strName reissue in
  let pair := (name, address) in
  match Cache_GetAssetMetaDataIfExists name c g with
  | (None, g) => (false, (c, g))
  | (Some (asset, where_), g) =>
      let '(height, blockHash) := default (uninit_height, uninit_hash) where_ in
      let undo := snd <$> List.find (λ u, text_eqb (fst u) name) vUndoIPFS in
      let assetData := unreissued asset reissue undo in
      let c := with_reissued_data (<[na_strName assetData := assetData]> (mapReissuedAssetData c)) c in
      let c := with_reissues (remove_item out (mkReissue reissue address height blockHash) (setNewReissue c)) c in
      let c :=
        match undo with
        | Some u => if fChangedVerifierString u then RemoveRestrictedVerifier (na_strName assetData) (undo_verifierString u) true c else c
        | None => c
        end in
      if fAssetIndex then
        let '(found, c) := GetBestAssetAddressAmount name address c g in
        if negb found && negb (ra_nAmount reissue =? 0) then (false, (c, g))
        else
          let c := set_amount pair (i64 (amount_at pair c - ra_nAmount reissue)) c in
          (negb (amount_at pair c <? 0), (c, g))
      else (true, (c, g))
  end.

(** * Into the global cache *)

(** The loops over a pair of sets: each entry is added to, or removed from, the pair of the global cache. *)
Definition each {K V A} `{Countable K} (f : K → V → A → A) (m : gmap K V) (a : A) : A := foldl (λ a '(k, v), f k v a) a (map_to_list m).
Definition flush_item {K V} `{Countable K} (d p : dirty K V) : dirty K V := each remove_item (ToRemove d) (each add_item (ToAdd d) p).
Definition flush_over {K V} `{Countable K} (d p : dirty K V) : dirty K V := each remove_over (ToRemove d) (each add_over (ToAdd d) p).
(** [map[item.first].insert(asset)] for every asset of an item. *)
Definition flush_roots (from to : pair_set) : pair_set :=
  each (λ key s to, if bool_decide (s = ∅) then to else <[key := s ∪ default ∅ (to !! key)]> to) from to.

(** Both maps of roots go to [passets->mapRootQualifierAddressesAdd]. *)
Definition flush_into (c p : CAssetsCache) : CAssetsCache :=
  mkAssetsCache (mapAssetsAddressAmount c ∪ mapAssetsAddressAmount p) (mapReissuedAssetData c ∪ mapReissuedAssetData p)
    (vUndoAssetAmount p ++ vUndoAssetAmount c) (vSpentAssets p ++ vSpentAssets c)
    (flush_item (setNewAssets c) (setNewAssets p)) (flush_item (setNewReissue c) (setNewReissue p))
    (flush_item (setNewOwnerAssets c) (setNewOwnerAssets p)) (flush_item (setNewTransferAssets c) (setNewTransferAssets p))
    (flush_over (setNewQualifierAddress c) (setNewQualifierAddress p)) (flush_over (setNewRestrictedAddress c) (setNewRestrictedAddress p))
    (flush_over (setNewRestrictedGlobal c) (setNewRestrictedGlobal p)) (flush_over (setNewRestrictedVerifier c) (setNewRestrictedVerifier p))
    (flush_roots (mapRootQualifierAddressesRemove c) (flush_roots (mapRootQualifierAddressesAdd c) (mapRootQualifierAddressesAdd p)))
    (mapRootQualifierAddressesRemove p).
Definition assets_Flush (c : CAssetsCache) (g : globals) : globals := with_passets (flush_into c (passets g)) g.

(** * Into the databases *)

(** One call of the dump: a write, or a change of a cache to read through. *)
Inductive dump_step :=
  | Write (k : dbkey) (v : dbvalue)
  | EraseKey (k : dbkey)
  | PutAsset (name : text) (d : CDatabasedAssetData)
  | EraseAsset (name : text)
  | EraseVerifierCached (name : text)
  | PutTag (name address : text)
  | EraseTag (name address : text)
  | PutFrozen (name address : text)
  | EraseFrozen (name address : text)
  | PutGlobal (name : text)
  | EraseGlobal (name : text).

Definition with_db (x : database) (g : globals) : globals :=
  mkGlobals (passets g) x (passetsCache g) (passetsVerifierCache g) (passetsQualifierCache g) (passetsRestrictionCache g) (passetsGlobalRestrictionCache g).
Definition with_asset_cache (x : C CDatabasedAssetData) (g : globals) : globals :=
  mkGlobals (passets g) (db g) x (passetsVerifierCache g) (passetsQualifierCache g) (passetsRestrictionCache g) (passetsGlobalRestrictionCache g).
Definition run_step (g : globals) (s : dump_step) : globals :=
  match s with
  | Write k v => with_db (<[k := v]> (db g)) g
  | EraseKey k => with_db (delete k (db g)) g
  | PutAsset name d => put_asset name d g
  | EraseAsset name => with_asset_cache (cache_erase name (passetsCache g)) g
  | EraseVerifierCached name => with_verifier_cache (cache_erase name (passetsVerifierCache g)) g
  | PutTag name address => with_qualifier_cache (cache_put (address_hash name address) tt (passetsQualifierCache g)) g
  | EraseTag name address => with_qualifier_cache (cache_erase (address_hash name address) (passetsQualifierCache g)) g
  | PutFrozen name address => with_restriction_cache (cache_put (address_hash name address) tt (passetsRestrictionCache g)) g
  | EraseFrozen name address => with_restriction_cache (cache_erase (address_hash name address) (passetsRestrictionCache g)) g
  | PutGlobal name => with_global_cache (cache_put name tt (passetsGlobalRestrictionCache g)) g
  | EraseGlobal name => with_global_cache (cache_erase name (passetsGlobalRestrictionCache g)) g
  end.

(** The steps of a loop over a set. *)
Definition steps_of {K V} `{Countable K} (f : K → V → list dump_step) (m : gmap K V) : list dump_step := concat (map (λ '(k, v), f k v) (map_to_list m)).

Section dump.
Context (c : CAssetsCache).

Definition write_amount (name address : text) (n : Z) : list dump_step :=
  [Write (AssetAddressKey name address) (DBAmount n); Write (AddressAssetKey address name) (DBAmount n)].
Definition erase_amount (name address : text) : list dump_step := [EraseKey (AssetAddressKey name address); EraseKey (AddressAssetKey address name)].
(** The amount of the map, where it has one; nothing is stored for zero. *)
Definition update_amount (name address : text) : list dump_step :=
  match mapAssetsAddressAmount c !! (name, address) with
  | Some n => if n =? 0 then erase_amount name address else write_amount name address n
  | None => []
  end.
Definition write_positive (name address : text) : list dump_step :=
  match mapAssetsAddressAmount c !! (name, address) with Some n => if 0 <? n then write_amount name address n else [] | None => [] end.
Definition write_found (name address : text) : list dump_step :=
  match mapAssetsAddressAmount c !! (name, address) with Some n => write_amount name address n | None => [] end.
Definition if_index (l : list dump_step) : list dump_step := if fAssetIndex then l else [].

Definition dump_assets : list dump_step :=
  steps_of (λ _ n, let name := na_strName (new_asset n) in
    [EraseAsset name; EraseKey (AssetKey name); EraseKey (VerifierKey name)] ++ if_index (erase_amount name (new_address n))) (ToRemove (setNewAssets c)) ++
  steps_of (λ _ n, let name := na_strName (new_asset n) in let d := mkData (new_asset n) (new_blockHeight n) (new_blockHash n) in
    [PutAsset name d; Write (AssetKey name) (DBAsset d)] ++ if_index (write_amount name (new_address n) (na_nAmount (new_asset n)))) (ToAdd (setNewAssets c)).

Definition dump_transfers : list dump_step :=
  if_index
    (steps_of (λ name address, erase_amount name address) (ToRemove (setNewOwnerAssets c)) ++
     steps_of (λ name address, write_positive name address) (ToAdd (setNewOwnerAssets c)) ++
     steps_of (λ _ t, update_amount (at_strName (tr_transfer t)) (tr_address t)) (ToRemove (setNewTransferAssets c)) ++
     steps_of (λ _ t, write_found (at_strName (tr_transfer t)) (tr_address t)) (ToAdd (setNewTransferAssets c))).

(** The data is stored under its own name. *)
Definition dump_reissue (r : CAssetCacheReissueAsset) : list dump_step :=
  let name := ra_strName (re_reissue r) in
  match mapReissuedAssetData c !! name with
  | Some asset =>
      [Write (AssetKey (na_strName asset)) (DBAsset (mkData asset (re_blockHeight r) (re_blockHash r))); EraseAsset name] ++ if_index (write_positive name (re_address r))
  | None => []
  end.
Definition dump_undone_reissue (r : CAssetCacheReissueAsset) : list dump_step :=
  let name := ra_strName (re_reissue r) in
  if is_some (ToRemove (setNewAssets c) !! name) then []
  else
    match mapReissuedAssetData c !! name with
    | Some asset =>
        [Write (AssetKey (na_strName asset)) (DBAsset (mkData asset (re_blockHeight r) (re_blockHash r)))] ++ if_index (update_amount name (re_address r)) ++ [EraseAsset name]
    | None => []
    end.
Definition dump_reissues : list dump_step := steps_of (λ _, dump_reissue) (ToAdd (setNewReissue c)) ++ steps_of (λ _, dump_undone_reissue) (ToRemove (setNewReissue c)).

Definition dump_verifiers : list dump_step :=
  steps_of (λ name v, [Write (VerifierKey name) (DBText (ver_verifier v)); EraseVerifierCached name]) (ToAdd (setNewRestrictedVerifier c)) ++
  steps_of (λ name v,
    [if fUndoingRessiue v then Write (VerifierKey name) (DBText (ver_verifier v)) else EraseKey (VerifierKey name); EraseVerifierCached name])
    (ToRemove (setNewRestrictedVerifier c)).

(** The tag of an address is written or erased. *)
Definition tag_step (name address : text) (tagged : bool) : list dump_step :=
  if tagged then [PutTag name address; Write (AddressTagKey address name) DBOne] ++ if_index [Write (TagAddressKey name address) DBOne]
  else [EraseTag name address; EraseKey (AddressTagKey address name)] ++ if_index [EraseKey (TagAddressKey name address)].
Definition freeze_step (name address : text) (frozen : bool) : list dump_step :=
  if frozen then [PutFrozen name address; Write (RestrictedKey address name) DBOne] else [EraseFrozen name address; EraseKey (RestrictedKey address name)].
Definition global_step (name : text) (frozen : bool) : list dump_step :=
  if frozen then [PutGlobal name; Write (GlobalKey name) DBOne] else [EraseGlobal name; EraseKey (GlobalKey name)].

(** A type that does not belong to the set is passed over. *)
Definition dump_restrictions : list dump_step :=
  steps_of (λ '(name, address) type, tag_step name address (bool_decide (type = ADD_QUALIFIER))) (ToAdd (setNewQualifierAddress c)) ++
  steps_of (λ '(name, address) type, tag_step name address (bool_decide (type = REMOVE_QUALIFIER))) (ToRemove (setNewQualifierAddress c)) ++
  steps_of (λ '(name, address) type,
    match type with UNFREEZE_ADDRESS => freeze_step name address false | FREEZE_ADDRESS => freeze_step name address true | _ => [] end) (ToAdd (setNewRestrictedAddress c)) ++
  steps_of (λ '(name, address) type,
    match type with UNFREEZE_ADDRESS => freeze_step name address true | FREEZE_ADDRESS => freeze_step name address false | _ => [] end) (ToRemove (setNewRestrictedAddress c)) ++
  steps_of (λ name type, match type with GLOBAL_UNFREEZE => global_step name false | GLOBAL_FREEZE => global_step name true | _ => [] end) (ToAdd (setNewRestrictedGlobal c)) ++
  steps_of (λ name type, match type with GLOBAL_UNFREEZE => global_step name true | GLOBAL_FREEZE => global_step name false | _ => [] end) (ToRemove (setNewRestrictedGlobal c)).

Definition dump_balances : list dump_step :=
  if_index
    (concat (map (λ u, write_found (am_assetName u) (am_address u)) (vUndoAssetAmount c)) ++
     concat (map (λ s, update_amount (am_assetName s) (am_address s)) (vSpentAssets c))).

Definition dump_steps : list dump_step := dump_assets ++ dump_transfers ++ dump_reissues ++ dump_verifiers ++ dump_restrictions ++ dump_balances.
End dump.

(** [passets->DumpCacheToDatabase()]. A write that fails throws: [failing] is the number of the steps before it. The dirty sets are kept then. *)
Definition DumpCacheToDatabase (failing : option nat) (g : globals) : bool * globals :=
  let steps := dump_steps (passets g) in
  match failing with
  | Some n => (false, foldl run_step g (take n steps))
  | None => (true, with_passets emptyCache (foldl run_step g steps))
  end.
End cache.
Arguments globals : clear implicits.

(** * Sets of changes *)

Section dirty.
Context {K V : Type} `{Countable K}.
Implicit Types (d p : dirty K V) (l : list (K * V)) (m : gmap K V).

Lemma lookup_set_insert k v m k' : set_insert k v m !! k' = match m !! k' with Some w => Some w | None => if decide (k' = k) then Some v else None end.
Proof.
  unfold set_insert. destruct (decide (k' = k)) as [->|].
  - destruct (m !! k) as [w|] eqn:E; rewrite ?E; [done|]. by rewrite lookup_insert_eq.
  - destruct (m !! k) as [w|]; rewrite ?lookup_insert_ne by done; by destruct (m !! k').
Qed.

(** An entry is never in both sets. *)
Definition dirty_ok d : Prop := ToAdd d ##ₘ ToRemove d.
Lemma dirty_ok_spec d : dirty_ok d ↔ ∀ k, ToAdd d !! k = None ∨ ToRemove d !! k = None.
Proof. apply map_disjoint_alt. Qed.
Lemma dirty_ok_clean : dirty_ok (clean (K := K) (V := V)).
Proof. apply map_disjoint_empty_l. Qed.

Ltac dirty_cases := rewrite !dirty_ok_spec; intros Hd k'; specialize (Hd k'); cbn; rewrite ?lookup_set_insert;
  match goal with |- context [delete ?k _ !! _] => destruct (decide (k' = k)) as [->|] end;
  rewrite ?lookup_insert_eq, ?lookup_delete_eq, ?lookup_insert_ne, ?lookup_delete_ne by done; rewrite ?decide_False by done; destruct Hd as [Hd|Hd]; rewrite ?Hd; solve [by left | by right].
Lemma add_item_ok k v d : dirty_ok d → dirty_ok (add_item k v d).
Proof. unfold add_item. dirty_cases. Qed.
Lemma remove_item_ok k v d : dirty_ok d → dirty_ok (remove_item k v d).
Proof. unfold remove_item. dirty_cases. Qed.
Lemma add_over_ok k v d : dirty_ok d → dirty_ok (add_over k v d).
Proof. unfold add_over. dirty_cases. Qed.
Lemma remove_over_ok k v d : dirty_ok d → dirty_ok (remove_over k v d).
Proof. unfold remove_over. dirty_cases. Qed.

Lemma each_ind {A} (P : A → Prop) (f : K → V → A → A) m a : P a → (∀ k v a, m !! k = Some v → P a → P (f k v a)) → P (each f m a).
Proof.
  intros Ha Hf. unfold each. assert (Forall (λ kv, m !! kv.1 = Some kv.2) (map_to_list m)) as Hl.
  { apply Forall_forall. intros [k v] Hkv. by apply elem_of_map_to_list in Hkv. }
  revert a Ha. induction (map_to_list m) as [|[k v] l IH]; intros a Ha; [done|]. apply Forall_cons in Hl as [Hk Hl]. cbn. apply IH; [done|]. by apply Hf.
Qed.

(** The loops, entry by entry. *)
Lemma each_lookup {W} (field : dirty K V → gmap K W) (f : K → V → dirty K V → dirty K V) (g : V → option W → option W) m p k :
  (∀ k v d k', field (f k v d) !! k' = if decide (k' = k) then g v (field d !! k') else field d !! k') →
  field (each f m p) !! k = match m !! k with Some v => g v (field p !! k) | None => field p !! k end.
Proof.
  intros Hf. unfold each. assert (NoDup (map fst (map_to_list m))) as Hn by apply NoDup_fst_map_to_list.
  assert (∀ l p, NoDup (map fst l) → field (foldl (λ a '(k, v), f k v a) p l) !! k = match list_to_map (M := gmap K V) l !! k with Some v => g v (field p !! k) | None => field p !! k end) as Hl.
  { clear m p Hn. induction l as [|[k' v] l IH]; intros p Hn; [done|]. cbn [map fst] in Hn. apply NoDup_cons in Hn as [Hk Hn]. cbn [foldl]. rewrite IH, Hf, list_to_map_cons by done. destruct (decide (k = k')) as [->|Hne].
    - rewrite lookup_insert_eq. by rewrite (not_elem_of_list_to_map_1 l k') by done.
    - by rewrite lookup_insert_ne by done. }
  rewrite Hl by done. by rewrite list_to_map_to_list.
Qed.

Lemma flush_over_add d p k : dirty_ok d → ToAdd (flush_over d p) !! k = match ToRemove d !! k with Some _ => None | None => match ToAdd d !! k with Some v => Some v | None => ToAdd p !! k end end.
Proof.
  intros Hd. unfold flush_over. rewrite (each_lookup ToAdd _ (λ _ _, None)).
  - destruct (ToRemove d !! k); [done|]. rewrite (each_lookup ToAdd _ (λ v _, Some v)); [done|]. intros. cbn. case_decide; subst; [by rewrite lookup_insert_eq|by rewrite lookup_insert_ne].
  - intros. cbn. case_decide; subst; [by rewrite lookup_delete_eq|by rewrite lookup_delete_ne].
Qed.
Lemma flush_over_remove d p k : dirty_ok d → ToRemove (flush_over d p) !! k = match ToRemove d !! k with Some v => Some v | None => match ToAdd d !! k with Some _ => None | None => ToRemove p !! k end end.
Proof.
  intros Hd. unfold flush_over. rewrite (each_lookup ToRemove _ (λ v _, Some v)).
  - destruct (ToRemove d !! k); [done|]. rewrite (each_lookup ToRemove _ (λ _ _, None)); [done|]. intros. cbn. case_decide; subst; [by rewrite lookup_delete_eq|by rewrite lookup_delete_ne].
  - intros. cbn. case_decide; subst; [by rewrite lookup_insert_eq|by rewrite lookup_insert_ne].
Qed.
Definition keep (v : V) (o : option V) : option V := match o with Some w => Some w | None => Some v end.
Lemma flush_item_add d p k : dirty_ok d → ToAdd (flush_item d p) !! k = match ToRemove d !! k with Some _ => None | None => match ToAdd d !! k with Some v => keep v (ToAdd p !! k) | None => ToAdd p !! k end end.
Proof.
  intros Hd. unfold flush_item. rewrite (each_lookup ToAdd _ (λ _ _, None)).
  - destruct (ToRemove d !! k); [done|]. rewrite (each_lookup ToAdd _ keep); [done|]. intros. cbn. rewrite lookup_set_insert. case_decide; subst; unfold keep; by destruct (ToAdd _ !! _).
  - intros. cbn. case_decide; subst; [by rewrite lookup_delete_eq|by rewrite lookup_delete_ne].
Qed.
Lemma flush_item_remove d p k : dirty_ok d → ToRemove (flush_item d p) !! k = match ToRemove d !! k with Some v => keep v (ToRemove p !! k) | None => match ToAdd d !! k with Some _ => None | None => ToRemove p !! k end end.
Proof.
  intros Hd. unfold flush_item. rewrite (each_lookup ToRemove _ keep).
  - rewrite (each_lookup ToRemove _ (λ _ _, None)).
    + rewrite dirty_ok_spec in Hd. specialize (Hd k). destruct (ToRemove d !! k), (ToAdd d !! k); try done. by destruct Hd.
    + intros. cbn. case_decide; subst; [by rewrite lookup_delete_eq|by rewrite lookup_delete_ne].
  - intros. cbn. rewrite lookup_set_insert. case_decide; subst; unfold keep; by destruct (ToRemove _ !! _).
Qed.
End dirty.

(** * Operations, one by one *)

Section exec.
Context {C : Type → Type} `{TextCache C}.
Context (fReindex fAssetIndex : bool) (prefixes : Base58Prefixes) (dep : Deployments) (uninit_height : Z) (uninit_hash : uint256).

(** A call on the cache of a block, its flush, after which the next block has an empty cache, or the dump of the global cache. *)
Inductive op :=
  | QExists (name : text) (fForceDuplicateCheck : bool) | QMetaData (name : text) | QVerifier (name : text) (fSkipTempCache : bool)
  | QTag (name address : text) (fSkipTempCache : bool) | QFrozen (name address : text) (fSkipTempCache : bool) | QGlobal (name : text) (fSkipTempCache : bool)
  | OSpend (txOut : CTxOut) | OUndoSpend (coin : Coin)
  | OTransfer (transfer : CAssetTransfer) (address : text) (out : COutPoint) | OUndoTransfer (transfer : CAssetTransfer) (address : text) (out : COutPoint)
  | OIssue (asset : CNewAsset) (address : text) (nHeight : Z) (blockHash : uint256) | OUndoIssue (asset : CNewAsset) (address : text)
  | OOwner (name address : text) | OUndoOwner (name address : text)
  | OFreeze (name address : text) (type : RestrictedType) | OUndoFreeze (name address : text) (type : RestrictedType)
  | OGlobal (name : text) (type : RestrictedType) | OUndoGlobal (name : text) (type : RestrictedType)
  | OVerifier (name verifier : text) | OUndoVerifier (name verifier : text) (fUndoingReissue : bool)
  | OTag (name address : text) (type : QualifierType) | OUndoTag (name address : text) (type : QualifierType)
  | OReissue (reissue : CReissueAsset) (address : text) (out : COutPoint)
  | OUndoReissue (reissue : CReissueAsset) (address : text) (out : COutPoint) (vUndoIPFS : list (text * CBlockAssetUndo))
  | OFlush | ODump.
Inductive answer := ABool (b : bool) | AMetaData (a : option (CNewAsset * option (Z * uint256))) | AVerifier (v : option text).

Definition exec (o : op) (c : CAssetsCache) (g : globals C) : answer * (CAssetsCache * globals C) :=
  let query {A} (f : A → answer) (r : A * globals C) := (f r.1, (c, r.2)) in
  let change (c : CAssetsCache) := (ABool true, (c, g)) in
  let checked (r : bool * CAssetsCache) := (ABool r.1, (r.2, g)) in
  let both (r : bool * (CAssetsCache * globals C)) := (ABool r.1, r.2) in
  match o with
  | QExists name force => query ABool (Cache_CheckIfAssetExists fReindex name force c g)
  | QMetaData name => query AMetaData (Cache_GetAssetMetaDataIfExists name c g)
  | QVerifier name skip => query AVerifier (Cache_GetAssetVerifierStringIfExists name skip c g)
  | QTag name address skip => query ABool (Cache_CheckForAddressQualifier name address skip c g)
  | QFrozen name address skip => query ABool (Cache_CheckForAddressRestriction name address skip c g)
  | QGlobal name skip => query ABool (Cache_CheckForGlobalRestriction name skip c g)
  | OSpend txOut => checked (TrySpendCoin fAssetIndex prefixes dep txOut c g)
  | OUndoSpend coin => checked (UndoAssetCoin fAssetIndex prefixes dep coin c g)
  | OTransfer t address out => change (AddTransferAsset fAssetIndex t address out c g)
  | OUndoTransfer t address out => checked (RemoveTransfer fAssetIndex t address out c g)
  | OIssue asset address nHeight blockHash => both (AddNewAsset fReindex fAssetIndex asset address nHeight blockHash c g)
  | OUndoIssue asset address => both (RemoveNewAsset fReindex fAssetIndex asset address c g)
  | OOwner name address => change (AddOwnerAsset fAssetIndex name address c)
  | OUndoOwner name address => change (RemoveOwnerAsset fAssetIndex name address c)
  | OFreeze name address type => change (AddRestrictedAddress name address type c)
  | OUndoFreeze name address type => change (RemoveRestrictedAddress name address type c)
  | OGlobal name type => change (AddGlobalRestricted name type c)
  | OUndoGlobal name type => change (RemoveGlobalRestricted name type c)
  | OVerifier name verifier => change (AddRestrictedVerifier name verifier c)
  | OUndoVerifier name verifier b => change (RemoveRestrictedVerifier name verifier b c)
  | OTag name address type => change (AddQualifierAddress name address type c)
  | OUndoTag name address type => change (RemoveQualifierAddress name address type c)
  | OReissue r address out => both (AddReissueAsset fAssetIndex uninit_height uninit_hash r address out c g)
  | OUndoReissue r address out undo => both (RemoveReissueAsset fAssetIndex uninit_height uninit_hash r address out undo c g)
  | OFlush => (ABool true, (emptyCache, assets_Flush c g))
  | ODump => let r := DumpCacheToDatabase fAssetIndex None g in (ABool r.1, (c, r.2))
  end.

Fixpoint exec_all (ops : list op) (c : CAssetsCache) (g : globals C) : list answer * (CAssetsCache * globals C) :=
  match ops with
  | [] => ([], (c, g))
  | o :: ops => let '(a, (c, g)) := exec o c g in let '(l, s) := exec_all ops c g in (a :: l, s)
  end.
End exec.

(** * What a dump does to a key *)

(** What the last step of a list that concerns something does to it. *)
Fixpoint last_event {W} (ev : dump_step → option W) (l : list dump_step) : option W :=
  match l with [] => None | s :: l' => match last_event ev l' with Some r => Some r | None => ev s end end.
Definition ev_db (k : dbkey) (s : dump_step) : option (option dbvalue) :=
  match s with Write k' v => if decide (k' = k) then Some (Some v) else None | EraseKey k' => if decide (k' = k) then Some None else None | _ => None end.
Definition ev_asset (name : text) (s : dump_step) : option (option CDatabasedAssetData) :=
  match s with PutAsset n d => if decide (n = name) then Some (Some d) else None | EraseAsset n => if decide (n = name) then Some None else None | _ => None end.
Definition ev_verifier (name : text) (s : dump_step) : option unit :=
  match s with EraseVerifierCached n => if decide (n = name) then Some tt else None | _ => None end.
Definition ev_tag (name address : text) (s : dump_step) : option bool :=
  match s with
  | PutTag n a => if decide ((n, a) = (name, address)) then Some true else None
  | EraseTag n a => if decide ((n, a) = (name, address)) then Some false else None
  | _ => None
  end.
Definition ev_frozen (name address : text) (s : dump_step) : option bool :=
  match s with
  | PutFrozen n a => if decide ((n, a) = (name, address)) then Some true else None
  | EraseFrozen n a => if decide ((n, a) = (name, address)) then Some false else None
  | _ => None
  end.
Definition ev_global (name : text) (s : dump_step) : option bool :=
  match s with PutGlobal n => if decide (n = name) then Some true else None | EraseGlobal n => if decide (n = name) then Some false else None | _ => None end.

Lemma last_event_app {W} (ev : dump_step → option W) l l' : last_event ev (l ++ l') = match last_event ev l' with Some r => Some r | None => last_event ev l end.
Proof. induction l as [|s l IH]; cbn; [by destruct (last_event ev l')|]. rewrite IH. by destruct (last_event ev l'). Qed.
Lemma last_event_some {W} (ev : dump_step → option W) l l' : last_event ev l ≠ None ∨ last_event ev l' ≠ None → last_event ev (l ++ l') ≠ None.
Proof. rewrite last_event_app. destruct (last_event ev l'); [done|]. by intros [?|?]. Qed.
Lemma last_event_none {W} (ev : dump_step → option W) l : Forall (λ s, ev s = None) l → last_event ev l = None.
Proof. induction 1 as [|s l Hs _ IH]; cbn; [done|]. by rewrite IH. Qed.
Lemma last_event_concat_none {W} (ev : dump_step → option W) ls : Forall (λ l, last_event ev l = None) ls → last_event ev (concat ls) = None.
Proof. induction 1 as [|l ls Hl _ IH]; cbn; [done|]. by rewrite last_event_app, IH. Qed.

(** A loop whose other entries do not concern it. *)
Lemma last_event_steps {W K V} `{Countable K} (ev : dump_step → option W) (f : K → V → list dump_step) (m : gmap K V) k :
  (∀ k' v, m !! k' = Some v → k' ≠ k → last_event ev (f k' v) = None) →
  last_event ev (steps_of f m) = match m !! k with Some v => last_event ev (f k v) | None => None end.
Proof.
  intros Hf. unfold steps_of. assert (NoDup (map fst (map_to_list m))) as Hn by apply NoDup_fst_map_to_list.
  rewrite <- (list_to_map_to_list m) at 2. assert (Forall (λ kv, m !! kv.1 = Some kv.2) (map_to_list m)) as Hm.
  { apply Forall_forall. intros [k' v] Hkv. by apply elem_of_map_to_list in Hkv. }
  induction (map_to_list m) as [|[k' v] l IH]; [done|]. cbn [map fst] in Hn. apply NoDup_cons in Hn as [Hk Hn]. apply Forall_cons in Hm as [Hkv Hm]. cbn in Hkv.
  cbn [map concat]. rewrite last_event_app, IH, list_to_map_cons by done. destruct (decide (k' = k)) as [->|Hne].
  - rewrite lookup_insert_eq. by rewrite (not_elem_of_list_to_map_1 l k) by done.
  - rewrite lookup_insert_ne by done. rewrite Hf by done. by destruct (list_to_map l !! k) as [w|]; [destruct (last_event ev (f k w))|].
Qed.
Lemma last_event_steps_none {W K V} `{Countable K} (ev : dump_step → option W) (f : K → V → list dump_step) (m : gmap K V) :
  (∀ k v, m !! k = Some v → last_event ev (f k v) = None) → last_event ev (steps_of f m) = None.
Proof.
  intros Hf. apply last_event_concat_none, Forall_fmap, Forall_forall. intros [k v] Hkv. apply elem_of_map_to_list in Hkv. by apply Hf.
Qed.

(** Cache and database are changed together, in a way that keeps them in agreement. *)
Definition agree {W} (R : W → option dbvalue → Prop) (ev : dump_step → option W) (k : dbkey) (l : list dump_step) : Prop :=
  match last_event ev l, last_event (ev_db k) l with None, None => True | Some w, Some r => R w r | _, _ => False end.
Lemma agree_app {W} R (ev : dump_step → option W) k l l' : agree R ev k l → agree R ev k l' → agree R ev k (l ++ l').
Proof. unfold agree. rewrite !last_event_app. destruct (last_event ev l'), (last_event (ev_db k) l'); done. Qed.
Lemma agree_steps {W K V} `{Countable K} R (ev : dump_step → option W) k (f : K → V → list dump_step) (m : gmap K V) :
  (∀ k' v, m !! k' = Some v → agree R ev k (f k' v)) → agree R ev k (steps_of f m).
Proof.
  intros Hf. unfold steps_of. assert (Forall (λ kv, m !! kv.1 = Some kv.2) (map_to_list m)) as Hm.
  { apply Forall_forall. intros [k' v] Hkv. by apply elem_of_map_to_list in Hkv. }
  induction Hm as [|[k' v] l Hkv _ IH]; [done|]. cbn. apply agree_app; [by apply Hf|done].
Qed.
Lemma agree_none {W} R (ev : dump_step → option W) k l : Forall (λ s, ev s = None ∧ ev_db k s = None) l → agree R ev k l.
Proof. intros Hl. unfold agree. rewrite !last_event_none; [done|..]; (eapply Forall_impl; [exact Hl|]); naive_solver. Qed.

Section run.
Context {C : Type → Type} `{!TextCache C} `{!TextCacheLaws C}.
Implicit Type g : globals C.

Lemma db_run k l : ∀ g, db (foldl run_step g l) !! k = match last_event (ev_db k) l with Some r => r | None => db g !! k end.
Proof.
  induction l as [|s l IH]; intros g; [done|]. cbn [foldl last_event]. rewrite IH. destruct (last_event (ev_db k) l) as [r|]; [done|].
  destruct s; cbn; try done; case_decide; subst; by rewrite ?lookup_insert_eq, ?lookup_delete_eq, ?lookup_insert_ne, ?lookup_delete_ne.
Qed.
Lemma passets_run l : ∀ g, passets (foldl run_step g l) = passets g.
Proof. induction l as [|s l IH]; intros g; [done|]. cbn. rewrite IH. by destruct s. Qed.

Ltac run_case IH l := induction l as [|s l IH]; intros g; [done|]; cbn [foldl last_event]; intros Hc; apply IH in Hc; destruct (last_event _ l) as [r|]; [done|];
  destruct s; cbn in Hc |- *; try done.
Lemma asset_run name d l : ∀ g, cached name (passetsCache (foldl run_step g l)) = Some d →
  match last_event (ev_asset name) l with Some r => r = Some d | None => cached name (passetsCache g) = Some d end.
Proof.
  run_case IH l.
  - apply cached_put in Hc as [[-> ->]|[Hne Hc]]; [by rewrite decide_True|by rewrite decide_False].
  - apply cached_erase in Hc as [Hne Hc]. by rewrite decide_False.
Qed.
Lemma verifier_run name v l : ∀ g, cached name (passetsVerifierCache (foldl run_step g l)) = Some v →
  match last_event (ev_verifier name) l with Some _ => False | None => cached name (passetsVerifierCache g) = Some v end.
Proof. run_case IH l. apply cached_erase in Hc as [Hne Hc]. by rewrite decide_False. Qed.
Lemma global_run name u l : ∀ g, cached name (passetsGlobalRestrictionCache (foldl run_step g l)) = Some u →
  match last_event (ev_global name) l with Some r => r = true | None => cached name (passetsGlobalRestrictionCache g) = Some u end.
Proof.
  run_case IH l.
  - apply cached_put in Hc as [[-> ->]|[Hne Hc]]; [by rewrite decide_True|by rewrite decide_False].
  - apply cached_erase in Hc as [Hne Hc]. by rewrite decide_False.
Qed.
End run.

(** * The caches to read through are invisible *)

(** The same node without these caches. *)
Definition uncached {C} (g : globals C) : globals (λ _, unit) := mkGlobals (passets g) (db g) tt tt tt tt tt.

(** Entries are stored under their own name. *)
Definition keyed (c : CAssetsCache) : Prop :=
  (∀ k n, ToAdd (setNewAssets c) !! k = Some n → na_strName (new_asset n) = k) ∧
  (∀ k n, ToRemove (setNewAssets c) !! k = Some n → na_strName (new_asset n) = k) ∧
  (∀ k a, mapReissuedAssetData c !! k = Some a → na_strName a = k).
Definition db_keyed (d : database) : Prop := ∀ name x, ReadAssetData name d = Some x → na_strName (data_asset x) = name.

Section transparent.
Context {C : Type → Type} `{!TextCache C} `{!TextCacheLaws C}.
(** The names with addresses that occur, which the keys of the caches tell apart. *)
Context (U : text * text → Prop).
Definition distinguished : Prop := ∀ n a n' a', U (n, a) → U (n', a') → address_hash n a = address_hash n' a' → n = n' ∧ a = a'.
Definition within (c : CAssetsCache) : Prop :=
  (∀ k v, ToAdd (setNewQualifierAddress c) !! k = Some v → U k) ∧ (∀ k v, ToRemove (setNewQualifierAddress c) !! k = Some v → U k) ∧
  (∀ k v, ToAdd (setNewRestrictedAddress c) !! k = Some v → U k) ∧ (∀ k v, ToRemove (setNewRestrictedAddress c) !! k = Some v → U k).

(** What is cached is in the database. *)
Record coherent (g : globals C) : Prop := {
  coh_asset name d : cached name (passetsCache g) = Some d → ReadAssetData name (db g) = Some d;
  coh_verifier name v : cached name (passetsVerifierCache g) = Some v → ReadVerifier name (db g) = Some v;
  coh_tag n a u : U (n, a) → cached (address_hash n a) (passetsQualifierCache g) = Some u → db_has (AddressTagKey a n) (db g) = true;
  coh_frozen n a u : U (n, a) → cached (address_hash n a) (passetsRestrictionCache g) = Some u → db_has (RestrictedKey a n) (db g) = true;
  coh_global n u : cached n (passetsGlobalRestrictionCache g) = Some u → db_has (GlobalKey n) (db g) = true }.

Record state_ok (c : CAssetsCache) (g : globals C) : Prop := {
  ok_coherent : coherent g; ok_db : db_keyed (db g); ok_cache : keyed c; ok_passets : keyed (passets g); ok_within : within c; ok_passets_within : within (passets g) }.

(** A query leaves the caches coherent and nothing else changed. *)
Definition quiet (g g' : globals C) : Prop := uncached g' = uncached g ∧ coherent g'.
Lemma quiet_refl g : coherent g → quiet g g.
Proof. by split. Qed.
Lemma quiet_ok c g g' : state_ok c g → quiet g g' → state_ok c g'.
Proof. intros [] [E ?]. injection E as Ep Ed. split; rewrite ?Ep, ?Ed; done. Qed.

Lemma put_asset_quiet name d g : coherent g → ReadAssetData name (db g) = Some d → quiet g (put_asset name d g).
Proof. intros [] E. split; [done|]. split; try done. intros n x Hx. cbn in Hx. apply cached_put in Hx as [[-> ->]|[_ Hx]]; [done|]. by apply coh_asset0 in Hx. Qed.
Lemma get_asset_quiet name g : coherent g → quiet g (get_asset name g).
Proof. intros []. split; [done|]. split; try done. intros n x. cbn. rewrite cached_get. apply coh_asset0. Qed.

Ltac same_state := split; [by apply quiet_refl|].
Lemma exists_quiet fReindex name force c g : coherent g → db_keyed (db g) →
  quiet g (Cache_CheckIfAssetExists fReindex name force c g).2 ∧ (Cache_CheckIfAssetExists fReindex name force c (uncached g)).1 = (Cache_CheckIfAssetExists fReindex name force c g).1 ∧
  (Cache_CheckIfAssetExists fReindex name force c (uncached g)).2 = uncached g.
Proof.
  intros Hc Hk. unfold Cache_CheckIfAssetExists. cbn [passets db passetsCache uncached cached no_cache].
  destruct fReindex; [by same_state|]. destruct (is_some (ToRemove (setNewAssets c) !! name)); [by same_state|].
  destruct (is_some (ToRemove (setNewAssets (passets g)) !! name)); [by same_state|]. destruct (is_some (ToAdd (setNewAssets c) !! name) && force); [by same_state|].
  destruct (is_some (ToAdd (setNewAssets (passets g)) !! name) && force); [by same_state|]. destruct (cached name (passetsCache g)) as [d|] eqn:Ec; cbn [is_some].
  - rewrite (coh_asset _ Hc _ _ Ec). by same_state.
  - destruct (ReadAssetData name (db g)) as [d|] eqn:Ed; [|by same_state]. rewrite (Hk _ _ Ed). split; [by apply put_asset_quiet|done].
Qed.
Lemma metadata_quiet name c g : coherent g → db_keyed (db g) →
  quiet g (Cache_GetAssetMetaDataIfExists name c g).2 ∧ (Cache_GetAssetMetaDataIfExists name c (uncached g)).1 = (Cache_GetAssetMetaDataIfExists name c g).1 ∧
  (Cache_GetAssetMetaDataIfExists name c (uncached g)).2 = uncached g.
Proof.
  intros Hc Hk. unfold Cache_GetAssetMetaDataIfExists. cbn [passets db passetsCache uncached cached no_cache].
  destruct (mapReissuedAssetData c !! name); [by same_state|]. destruct (mapReissuedAssetData (passets g) !! name); [by same_state|].
  destruct (is_some (ToRemove (setNewAssets c) !! name)); [by same_state|]. destruct (is_some (ToRemove (setNewAssets (passets g)) !! name)); [by same_state|].
  destruct (ToAdd (setNewAssets c) !! name); [by same_state|]. destruct (ToAdd (setNewAssets (passets g)) !! name); [by same_state|].
  destruct (cached name (passetsCache g)) as [d|] eqn:Ec.
  - rewrite (coh_asset _ Hc _ _ Ec). split; [by apply get_asset_quiet|done].
  - destruct (ReadAssetData name (db g)) as [d|] eqn:Ed; [|by same_state]. rewrite (Hk _ _ Ed). split; [by apply put_asset_quiet|done].
Qed.
Lemma verifier_quiet name skip c g : coherent g →
  quiet g (Cache_GetAssetVerifierStringIfExists name skip c g).2 ∧ (Cache_GetAssetVerifierStringIfExists name skip c (uncached g)).1 = (Cache_GetAssetVerifierStringIfExists name skip c g).1 ∧
  (Cache_GetAssetVerifierStringIfExists name skip c (uncached g)).2 = uncached g.
Proof.
  intros Hc. unfold Cache_GetAssetVerifierStringIfExists. cbn [passets db passetsVerifierCache uncached cached no_cache].
  destruct (find_dirty _ _ _ _) as [[[] v]|]; [by same_state..|].
  destruct (cached name (passetsVerifierCache g)) as [v|] eqn:Ec.
  - rewrite (coh_verifier _ Hc _ _ Ec). split; [|done]. split; [done|]. destruct Hc. split; try done. intros n x. cbn. rewrite cached_get. apply coh_verifier0.
  - destruct (ReadVerifier name (db g)) as [v|] eqn:Ed; [|by same_state]. split; [|done]. split; [done|]. destruct Hc. split; try done.
    intros n x Hx. cbn in Hx. apply cached_put in Hx as [[-> ->]|[_ Hx]]; [done|]. by apply coh_verifier0 in Hx.
Qed.

(** An entry of the pairs that are told apart. *)
Lemma cached_put_pair n a n' a' (c : C unit) u : distinguished → U (n, a) → U (n', a') →
  cached (address_hash n' a') (cache_put (address_hash n a) tt c) = Some u → (n' = n ∧ a' = a) ∨ cached (address_hash n' a') c = Some u.
Proof. intros HU Hn Hn' Hc. apply cached_put in Hc as [[E _]|[_ Hc]]; [|by right]. left. by apply HU. Qed.

Lemma tag_quiet n a skip c g : distinguished → U (n, a) → coherent g →
  quiet g (Cache_CheckForAddressQualifier n a skip c g).2 ∧ (Cache_CheckForAddressQualifier n a skip c (uncached g)).1 = (Cache_CheckForAddressQualifier n a skip c g).1 ∧
  (Cache_CheckForAddressQualifier n a skip c (uncached g)).2 = uncached g.
Proof.
  intros HU Hn Hc. unfold Cache_CheckForAddressQualifier. cbn [passets db passetsQualifierCache uncached cached no_cache is_some].
  destruct (find_dirty _ _ _ _) as [[[] v]|]; [by same_state..|].
  destruct (_ && _); [by same_state|]. destruct (root_tagged _ _ _); [by same_state|].
  destruct (cached _ (passetsQualifierCache g)) as [u|] eqn:Ec; cbn [is_some].
  - rewrite (coh_tag _ Hc _ _ _ Hn Ec). by same_state.
  - destruct (db_has _ _) eqn:Ed; [|by same_state]. split; [|done]. split; [done|]. destruct Hc. split; try done.
    intros n' a' u Hn' Hx. cbn in Hx |- *. apply cached_put_pair in Hx as [[-> ->]|Hx]; [done|by eapply coh_tag0|done..].
Qed.
Lemma frozen_quiet n a skip c g : distinguished → U (n, a) → coherent g →
  quiet g (Cache_CheckForAddressRestriction n a skip c g).2 ∧ (Cache_CheckForAddressRestriction n a skip c (uncached g)).1 = (Cache_CheckForAddressRestriction n a skip c g).1 ∧
  (Cache_CheckForAddressRestriction n a skip c (uncached g)).2 = uncached g.
Proof.
  intros HU Hn Hc. unfold Cache_CheckForAddressRestriction. cbn [passets db passetsRestrictionCache uncached cached no_cache is_some].
  destruct (find_dirty _ _ _ _) as [[[] v]|]; [by same_state..|].
  destruct (cached _ (passetsRestrictionCache g)) as [u|] eqn:Ec; cbn [is_some].
  - rewrite (coh_frozen _ Hc _ _ _ Hn Ec). by same_state.
  - destruct (db_has _ _) eqn:Ed; [|by same_state]. split; [|done]. split; [done|]. destruct Hc. split; try done.
    intros n' a' u Hn' Hx. cbn in Hx |- *. apply cached_put_pair in Hx as [[-> ->]|Hx]; [done|by eapply coh_frozen0|done..].
Qed.
Lemma global_quiet n skip c g : coherent g →
  quiet g (Cache_CheckForGlobalRestriction n skip c g).2 ∧ (Cache_CheckForGlobalRestriction n skip c (uncached g)).1 = (Cache_CheckForGlobalRestriction n skip c g).1 ∧
  (Cache_CheckForGlobalRestriction n skip c (uncached g)).2 = uncached g.
Proof.
  intros Hc. unfold Cache_CheckForGlobalRestriction. cbn [passets db passetsGlobalRestrictionCache uncached cached no_cache is_some].
  destruct (find_dirty _ _ _ _) as [[[] v]|]; [by same_state..|].
  destruct (cached _ (passetsGlobalRestrictionCache g)) as [u|] eqn:Ec; cbn [is_some].
  - rewrite (coh_global _ Hc _ _ Ec). by same_state.
  - destruct (db_has _ _) eqn:Ed; [|by same_state]. split; [|done]. split; [done|]. destruct Hc. split; try done.
    intros n' u Hx. cbn in Hx |- *. apply cached_put in Hx as [[-> _]|[_ Hx]]; [done|by eapply coh_global0].
Qed.

(** ** The dump *)

(** A verifier that goes with its asset is erased from the cache by an entry of its own. *)
Definition verifiers_covered (c : CAssetsCache) (d : database) : Prop := ∀ name,
  is_Some (ToRemove (setNewAssets c) !! name) → is_Some (ReadVerifier name d) →
  is_Some (ToAdd (setNewRestrictedVerifier c) !! name) ∨ is_Some (ToRemove (setNewRestrictedVerifier c) !! name).

Context (fAssetIndex : bool).

Lemma Forall_steps {K V} `{Countable K} (P : dump_step → Prop) (f : K → V → list dump_step) (m : gmap K V) :
  (∀ k v, m !! k = Some v → Forall P (f k v)) → Forall P (steps_of f m).
Proof.
  intros Hf. apply Forall_concat, Forall_fmap, Forall_forall. intros [k v] Hkv. apply elem_of_map_to_list in Hkv. by apply Hf.
Qed.
Lemma Forall_amounts (P : dump_step → Prop) (c : CAssetsCache) (l : list CAssetAmount) (f : CAssetsCache → text → text → list dump_step) : (∀ n a, Forall P (f c n a)) → Forall P (concat (map (λ u, f c (am_assetName u) (am_address u)) l)).
Proof. intros Hf. apply Forall_concat, Forall_fmap, Forall_forall. intros u _. apply Hf. Qed.

Ltac dump_chunks := unfold dump_steps, dump_assets, dump_transfers, dump_reissues, dump_verifiers, dump_restrictions, dump_balances.
(** The steps of one entry. *)
Ltac chunk := unfold dump_reissue, dump_undone_reissue, tag_step, freeze_step, global_step, update_amount, write_positive, write_found, write_amount, erase_amount, if_index in *.

Lemma agree_if_index {W} R (ev : dump_step → option W) k l : agree R ev k l → agree R ev k (if_index fAssetIndex l).
Proof. unfold if_index. by destruct fAssetIndex. Qed.
Lemma agree_amounts {W} R (ev : dump_step → option W) k (c : CAssetsCache) (l : list CAssetAmount) (f : CAssetsCache → text → text → list dump_step) :
  (∀ n a, agree R ev k (f c n a)) → agree R ev k (concat (map (λ u, f c (am_assetName u) (am_address u)) l)).
Proof. intros Hf. induction l as [|u l IH]; [done|]. cbn. by apply agree_app. Qed.
Ltac agree_dump := dump_chunks; repeat apply agree_app; try apply agree_if_index; repeat apply agree_app;
  first [apply agree_steps|apply agree_amounts]; intros; chunk; repeat case_match; unfold agree; cbn; repeat case_decide; simplify_eq; try done.

Lemma dump_agree_asset c name : keyed c → agree (λ r v, match r with Some d => v = Some (DBAsset d) | None => True end) (ev_asset name) (AssetKey name) (dump_steps fAssetIndex c).
Proof. intros (_ & _ & Hk). agree_dump. all: match goal with E : mapReissuedAssetData _ !! _ = Some _ |- _ => apply Hk in E end; congruence. Qed.
Lemma dump_agree_tag c n a : agree (λ (r : bool) v, if r then is_Some v else True) (ev_tag n a) (AddressTagKey a n) (dump_steps fAssetIndex c).
Proof. agree_dump. Qed.
Lemma dump_agree_frozen c n a : agree (λ (r : bool) v, if r then is_Some v else True) (ev_frozen n a) (RestrictedKey a n) (dump_steps fAssetIndex c).
Proof. agree_dump. Qed.
Lemma dump_agree_global c n : agree (λ (r : bool) v, if r then is_Some v else True) (ev_global n) (GlobalKey n) (dump_steps fAssetIndex c).
Proof. agree_dump. Qed.

(** The pairs that a step enters into a cache. *)
Definition step_within (s : dump_step) : Prop := match s with PutTag n a | PutFrozen n a => U (n, a) | _ => True end.
Definition step_keyed (s : dump_step) : Prop := match s with Write (AssetKey name) v => ∃ d, v = DBAsset d ∧ na_strName (data_asset d) = name | _ => True end.
Ltac forall_dump := dump_chunks; repeat (apply Forall_app; split); try (unfold if_index; case_match; [|constructor]); repeat (apply Forall_app; split);
  first [apply Forall_steps|apply Forall_amounts]; intros; chunk; repeat case_match; repeat constructor; cbn; eauto.
Lemma dump_within c : within c → Forall step_within (dump_steps fAssetIndex c).
Proof. intros (Ha & Hr & Hfa & Hfr). forall_dump. Qed.
Lemma dump_keyed c : Forall step_keyed (dump_steps fAssetIndex c).
Proof. forall_dump. Qed.

Lemma pair_run (field : globals C → C unit) (ev : dump_step → option bool) n a u l :
  (∀ g s, step_within s → cached (address_hash n a) (field (run_step g s)) = Some u → match ev s with Some r => r = true | None => cached (address_hash n a) (field g) = Some u end) →
  Forall step_within l → ∀ g, cached (address_hash n a) (field (foldl run_step g l)) = Some u →
  match last_event ev l with Some r => r = true | None => cached (address_hash n a) (field g) = Some u end.
Proof.
  intros Hs. induction 1 as [|s l Hw _ IH]; intros g Hc; [done|]. cbn [foldl last_event] in *. apply IH in Hc. destruct (last_event ev l); [done|]. by apply Hs.
Qed.
Lemma tag_run n a u l g : distinguished → U (n, a) → Forall step_within l → cached (address_hash n a) (passetsQualifierCache (foldl run_step g l)) = Some u →
  match last_event (ev_tag n a) l with Some r => r = true | None => cached (address_hash n a) (passetsQualifierCache g) = Some u end.
Proof.
  intros HU Hn Hl. apply (pair_run passetsQualifierCache); [|done]. clear g. intros g [] Hw Hc; cbn in Hc, Hw |- *; try done; case_decide as E; simplify_eq; try done.
  - apply cached_put_pair in Hc as [[-> ->]|Hc]; done.
  - by apply cached_erase in Hc as [? _].
  - by apply cached_erase in Hc as [_ ?].
Qed.
Lemma frozen_run n a u l g : distinguished → U (n, a) → Forall step_within l → cached (address_hash n a) (passetsRestrictionCache (foldl run_step g l)) = Some u →
  match last_event (ev_frozen n a) l with Some r => r = true | None => cached (address_hash n a) (passetsRestrictionCache g) = Some u end.
Proof.
  intros HU Hn Hl. apply (pair_run passetsRestrictionCache); [|done]. clear g. intros g [] Hw Hc; cbn in Hc, Hw |- *; try done; case_decide as E; simplify_eq; try done.
  - apply cached_put_pair in Hc as [[-> ->]|Hc]; done.
  - by apply cached_erase in Hc as [? _].
  - by apply cached_erase in Hc as [_ ?].
Qed.

(** Which entries concern a verifier. *)
Lemma dump_verifier_none c name : keyed c → ToRemove (setNewAssets c) !! name = None → ToAdd (setNewRestrictedVerifier c) !! name = None →
  ToRemove (setNewRestrictedVerifier c) !! name = None → last_event (ev_db (VerifierKey name)) (dump_steps fAssetIndex c) = None.
Proof.
  intros (_ & Hk & _) E1 E2 E3. apply last_event_none. forall_dump; case_decide; simplify_eq; try done.
  all: match goal with E : ToRemove (setNewAssets _) !! _ = Some _ |- _ => pose proof (Hk _ _ E) end; congruence.
Qed.
Lemma dump_verifier_erased c name : is_Some (ToAdd (setNewRestrictedVerifier c) !! name) ∨ is_Some (ToRemove (setNewRestrictedVerifier c) !! name) →
  last_event (ev_verifier name) (dump_steps fAssetIndex c) ≠ None.
Proof.
  intros Hd. unfold dump_steps. do 3 (apply last_event_some; right). apply last_event_some. left.
  unfold dump_verifiers. apply last_event_some. destruct Hd as [[v Hv]|[v Hv]]; [left|right].
  all: rewrite (last_event_steps _ _ _ name) by (intros k' v' _ Hne; cbn; rewrite decide_False by done; by repeat case_match); rewrite Hv; cbn; by rewrite decide_True by done.
Qed.

Lemma dump_db_keyed l : Forall step_keyed l → ∀ g : globals C, db_keyed (db g) → db_keyed (db (foldl run_step g l)).
Proof.
  induction 1 as [|s l Hs _ IH]; intros g Hg; [done|]. cbn [foldl]. apply IH. intros name x. destruct s; cbn in *; try apply Hg; unfold ReadAssetData.
  - destruct (decide (k = AssetKey name)) as [->|]; [rewrite lookup_insert_eq|rewrite lookup_insert_ne by done; apply Hg]. destruct Hs as (d & -> & E). by intros [= <-].
  - destruct (decide (k = AssetKey name)) as [->|]; [by rewrite lookup_delete_eq|rewrite lookup_delete_ne by done; apply Hg].
Qed.

Lemma db_has_run k l (g : globals C) (r : option bool) : match r, last_event (ev_db k) l with None, None => True | Some r, Some v => if r then is_Some v else True | _, _ => False end →
  match r with Some r => r = true | None => db_has k (db g) = true end → db_has k (db (foldl run_step g l)) = true.
Proof. intros Ha Hr. unfold db_has in *. rewrite db_run. destruct r as [[]|], (last_event (ev_db k) l) as [v|]; try done. by destruct Ha as [w ->]. Qed.

Lemma dump_coherent g : distinguished → coherent g → keyed (passets g) → within (passets g) → verifiers_covered (passets g) (db g) →
  coherent (foldl run_step g (dump_steps fAssetIndex (passets g))).
Proof.
  intros HU Hc Hk Hw Hv. set (l := dump_steps fAssetIndex (passets g)). split.
  - intros name d Hd. apply asset_run in Hd. pose proof (dump_agree_asset (passets g) name Hk) as Ha. fold l in Ha. unfold agree in Ha. unfold ReadAssetData. rewrite db_run.
    destruct (last_event (ev_asset name) l) as [r|], (last_event (ev_db (AssetKey name)) l) as [v|]; try done; [|by apply (coh_asset _ Hc)]. subst r. by subst v.
  - intros name v Hd. pose proof (dump_verifier_erased (passets g) name) as He. fold l in He. apply verifier_run in Hd. destruct (last_event (ev_verifier name) l) eqn:E; [done|].
    apply (coh_verifier _ Hc) in Hd. unfold ReadVerifier. rewrite db_run. unfold l. rewrite dump_verifier_none; [done|done|..].
    + apply eq_None_not_Some. intros Hs. apply He; [|done]. apply Hv; [done|]. by rewrite Hd.
    + apply eq_None_not_Some. intros Hs. apply He; [by left|done].
    + apply eq_None_not_Some. intros Hs. apply He; [by right|done].
  - intros n a u Hn Hd. eapply db_has_run; [apply dump_agree_tag|]. apply tag_run in Hd; [|done..|by apply dump_within]. fold l. destruct (last_event (ev_tag n a) l); [done|by eapply (coh_tag _ Hc)].
  - intros n a u Hn Hd. eapply db_has_run; [apply dump_agree_frozen|]. apply frozen_run in Hd; [|done..|by apply dump_within]. fold l. destruct (last_event (ev_frozen n a) l); [done|by eapply (coh_frozen _ Hc)].
  - intros n u Hd. eapply db_has_run; [apply dump_agree_global|]. apply global_run in Hd. fold l. destruct (last_event (ev_global n) l); [done|by eapply (coh_global _ Hc)].
Qed.

(** ** The other operations *)

(** What the invariants are about; the rest may change freely. *)
Definition essential (c : CAssetsCache) := (setNewAssets c, mapReissuedAssetData c, setNewQualifierAddress c, setNewRestrictedAddress c).
Lemma essential_keyed c c' : essential c' = essential c → keyed c → keyed c'.
Proof. intros [= E1 E2 _ _]. unfold keyed. by rewrite E1, E2. Qed.
Lemma essential_within c c' : essential c' = essential c → within c → within c'.
Proof. intros [= _ _ E1 E2]. unfold within. by rewrite E1, E2. Qed.
Lemma essential_ok c c' g : essential c' = essential c → state_ok c g → state_ok c' g.
Proof. intros E []. split; try done; [by eapply essential_keyed|by eapply essential_within]. Qed.

(** All that the operations on balances leave alone. *)
Definition unbalanced (c : CAssetsCache) := (essential c, setNewRestrictedGlobal c, setNewRestrictedVerifier c).
Lemma unbalanced_essential c c' : unbalanced c' = unbalanced c → essential c' = essential c.
Proof. unfold unbalanced. congruence. Qed.
Lemma GetBest_unbalanced index n a c (g : globals C) : unbalanced (GetBestAssetAddressAmount index n a c g).2 = unbalanced c.
Proof. unfold GetBestAssetAddressAmount. by repeat case_match. Qed.
(** An operation that starts with the best amount. *)
Ltac best := match goal with |- context [GetBestAssetAddressAmount ?i ?n ?a ?c ?g] =>
  pose proof (GetBest_unbalanced i n a c g); destruct (GetBestAssetAddressAmount i n a c g) as [[] ?]; cbn [snd] in * end.
Lemma AddToAssetBalance_unbalanced n a x c (g : globals C) : unbalanced (AddToAssetBalance fAssetIndex n a x c g) = unbalanced c.
Proof. unfold AddToAssetBalance. destruct fAssetIndex; [|done]. by best. Qed.
Lemma TrySpendCoin_unbalanced prefixes dep o c (g : globals C) : unbalanced (TrySpendCoin fAssetIndex prefixes dep o c g).2 = unbalanced c.
Proof.
  unfold TrySpendCoin. destruct (negb _); [done|]. destruct (coin_asset _ _ _) as [[[n a] x]|]; [|done]. destruct (_ || _); [done|]. destruct (_ && _); [|done]. by best.
Qed.
Lemma AddBackSpentAsset_unbalanced n a x c (g : globals C) : unbalanced (AddBackSpentAsset fAssetIndex n a x c g) = unbalanced c.
Proof. unfold AddBackSpentAsset. destruct fAssetIndex; [|done]. by best. Qed.
Lemma UndoAssetCoin_unbalanced prefixes dep o c (g : globals C) : unbalanced (UndoAssetCoin fAssetIndex prefixes dep o c g).2 = unbalanced c.
Proof. unfold UndoAssetCoin. destruct (coin_asset _ _ _) as [[[n a] x]|]; [|done]. destruct (_ || _); [done|]. apply AddBackSpentAsset_unbalanced. Qed.
Lemma RemoveTransfer_unbalanced x a o c (g : globals C) : unbalanced (RemoveTransfer fAssetIndex x a o c g).2 = unbalanced c.
Proof. unfold RemoveTransfer, UndoTransfer. destruct fAssetIndex; [|done]. best; [|done]. by destruct (_ <? _). Qed.
Lemma root_change_unbalanced n a b c : unbalanced (root_change n a b c) = unbalanced c.
Proof. unfold root_change. by repeat case_match. Qed.

Lemma metadata_named name c g asset w : state_ok c g → (Cache_GetAssetMetaDataIfExists name c g).1 = Some (asset, w) → na_strName asset = name.
Proof.
  intros [Hc Hd [K1 [K2 K3]] [P1 [P2 P3]] _ _]. unfold Cache_GetAssetMetaDataIfExists.
  destruct (mapReissuedAssetData c !! name) eqn:E1; [intros [= <- _]; by apply K3|]. destruct (mapReissuedAssetData (passets g) !! name) eqn:E2; [intros [= <- _]; by apply P3|].
  do 2 (destruct (is_some _); [done|]). destruct (ToAdd (setNewAssets c) !! name) eqn:E3; [intros [= <- _]; by apply K1|].
  destruct (ToAdd (setNewAssets (passets g)) !! name) eqn:E4; [intros [= <- _]; by apply P1|]. destruct (cached name _) eqn:E5.
  - intros [= <- _]. apply (coh_asset _ Hc) in E5. by apply Hd.
  - destruct (ReadAssetData name (db g)) eqn:E6; [|done]. intros [= <- _]. by apply Hd.
Qed.

(** Entries of a set that all have a property. *)
Definition all_of {K V} `{Countable K} (P : K → V → Prop) (d : dirty K V) : Prop := (∀ k v, ToAdd d !! k = Some v → P k v) ∧ (∀ k v, ToRemove d !! k = Some v → P k v).
Lemma all_add_item {K V} `{Countable K} (P : K → V → Prop) k v d : P k v → all_of P d → all_of P (add_item k v d).
Proof.
  intros Hk [Ha Hr]. split; intros k' v'; cbn.
  - rewrite lookup_set_insert. case_match eqn:E; [intros [= <-]; by apply Ha|]. case_decide as Ek; [|done]. intros [= <-]. by rewrite Ek.
  - intros [_ E]%lookup_delete_Some. by apply Hr.
Qed.
Lemma all_remove_item {K V} `{Countable K} (P : K → V → Prop) k v d : P k v → all_of P d → all_of P (remove_item k v d).
Proof.
  intros Hk [Ha Hr]. split; intros k' v'; cbn.
  - intros [_ E]%lookup_delete_Some. by apply Ha.
  - rewrite lookup_set_insert. case_match eqn:E; [intros [= <-]; by apply Hr|]. case_decide as Ek; [|done]. intros [= <-]. by rewrite Ek.
Qed.
Lemma all_add_over {K V} `{Countable K} (P : K → V → Prop) k v d : P k v → all_of P d → all_of P (add_over k v d).
Proof.
  intros Hk [Ha Hr]. split; intros k' v'; cbn; [intros [[<- <-]|[_ E]]%lookup_insert_Some; [done|by apply Ha]|intros [_ E]%lookup_delete_Some; by apply Hr].
Qed.
Lemma all_remove_over {K V} `{Countable K} (P : K → V → Prop) k v d : P k v → all_of P d → all_of P (remove_over k v d).
Proof.
  intros Hk [Ha Hr]. split; intros k' v'; cbn; [intros [_ E]%lookup_delete_Some; by apply Ha|intros [[<- <-]|[_ E]]%lookup_insert_Some; [done|by apply Hr]].
Qed.
Lemma all_flush_item {K V} `{Countable K} (P : K → V → Prop) d p : all_of P d → all_of P p → all_of P (flush_item d p).
Proof. intros [Ha Hr] Hp. unfold flush_item. apply each_ind; [apply each_ind|]; eauto using all_add_item, all_remove_item. Qed.
Lemma all_flush_over {K V} `{Countable K} (P : K → V → Prop) d p : all_of P d → all_of P p → all_of P (flush_over d p).
Proof. intros [Ha Hr] Hp. unfold flush_over. apply each_ind; [apply each_ind|]; eauto using all_add_over, all_remove_over. Qed.

Lemma keyed_all c : keyed c ↔ all_of (λ k n, na_strName (new_asset n) = k) (setNewAssets c) ∧ ∀ k a, mapReissuedAssetData c !! k = Some a → na_strName a = k.
Proof. unfold keyed, all_of. tauto. Qed.
Lemma within_all c : within c ↔ all_of (λ k _, U k) (setNewQualifierAddress c) ∧ all_of (λ k _, U k) (setNewRestrictedAddress c).
Proof. unfold within, all_of. tauto. Qed.
Lemma keyed_flush c p : keyed c → keyed p → keyed (flush_into c p).
Proof.
  rewrite !keyed_all. intros [Ha Hm] [Ha' Hm']. split; [by apply all_flush_item|]. cbn. intros k a [E|[_ E]]%lookup_union_Some_raw; eauto.
Qed.
Lemma within_flush c p : within c → within p → within (flush_into c p).
Proof. rewrite !within_all. intros [Ha Hr] [Ha' Hr']. split; by apply all_flush_over. Qed.
Lemma empty_ok : keyed emptyCache ∧ within emptyCache.
Proof. rewrite keyed_all, within_all. by repeat split. Qed.

(** ** Sequences of operations *)

Context (fReindex : bool) (prefixes : Base58Prefixes) (dep : Deployments) (uninit_height : Z) (uninit_hash : uint256).
Abbreviation run o c g := (exec fReindex fAssetIndex prefixes dep uninit_height uninit_hash o c g).

(** The pairs of an operation are among those told apart; a dump writes a verifier with every restricted asset that has one. *)
Definition op_ok (o : op) (g : globals (λ _, unit)) : Prop :=
  match o with
  | QTag n a _ | QFrozen n a _ | OFreeze n a _ | OUndoFreeze n a _ | OTag n a _ | OUndoTag n a _ => U (n, a)
  | ODump => verifiers_covered (passets g) (db g)
  | _ => True
  end.
Definition transparent (o : op) (c : CAssetsCache) (g : globals C) : Prop :=
  let r := run o c g in run o c (uncached g) = (r.1, (r.2.1, uncached r.2.2)) ∧ state_ok r.2.1 r.2.2.

Lemma quiet_answer {A} (q : A * globals C) (q' : A * globals (λ _, unit)) g : quiet g q.2 ∧ q'.1 = q.1 ∧ q'.2 = uncached g → q' = (q.1, uncached q.2).
Proof. intros [[E _] [E1 E2]]. destruct q', q. cbn in *. congruence. Qed.

Lemma issue_transparent asset a h b c g : state_ok c g → transparent (OIssue asset a h b) c g.
Proof.
  intros Hs. unfold transparent. cbn [exec]. unfold AddNewAsset.
  pose proof (exists_quiet fReindex (na_strName asset) true c g (ok_coherent _ _ Hs) (ok_db _ _ Hs)) as Hq. rewrite (quiet_answer _ _ _ Hq). destruct Hq as [Hq _].
  apply (quiet_ok c) in Hq; [|done]. destruct (Cache_CheckIfAssetExists fReindex (na_strName asset) true c g) as [[] g']; split; try done.
  cbn [fst snd] in *. destruct Hq as [? ? Hk ? ? ?]. rewrite keyed_all in Hk. destruct fAssetIndex; (split; [done..| |done|done|done]); rewrite keyed_all; (split; [|apply Hk]); (apply all_add_item; [done|apply Hk]).
Qed.
Lemma undo_issue_transparent asset a c g : state_ok c g → transparent (OUndoIssue asset a) c g.
Proof.
  intros Hs. unfold transparent. cbn [exec]. unfold RemoveNewAsset.
  pose proof (exists_quiet fReindex (na_strName asset) true c g (ok_coherent _ _ Hs) (ok_db _ _ Hs)) as Hq. rewrite (quiet_answer _ _ _ Hq). destruct Hq as [Hq _].
  apply (quiet_ok c) in Hq; [|done]. destruct (Cache_CheckIfAssetExists fReindex (na_strName asset) true c g) as [[] g']; split; try done.
  cbn [fst snd] in *. destruct Hq as [? ? Hk ? ? ?]. rewrite keyed_all in Hk. destruct fAssetIndex; (split; [done..| |done|done|done]); rewrite keyed_all; (split; [|apply Hk]); (apply all_remove_item; [done|apply Hk]).
Qed.

(** Changed data of a reissued asset under its own name. *)
Lemma reissued_ok c c' g name asset : na_strName asset = name →
  essential c' = essential (with_reissued_data (<[name := asset]> (mapReissuedAssetData c)) c) → state_ok c g → state_ok c' g.
Proof.
  intros Hn E [? ? [K1 [K2 K3]] ? ? ?]. apply (essential_ok _ _ _ E). split; try done. split; [done|]. split; [done|].
  cbn. intros k a [[<- <-]|[_ Hk]]%lookup_insert_Some; [done|by apply K3].
Qed.
Lemma reissue_transparent r a o c g : state_ok c g → transparent (OReissue r a o) c g.
Proof.
  intros Hs. unfold transparent. cbn [exec]. unfold AddReissueAsset.
  pose proof (metadata_quiet (ra_strName r) c g (ok_coherent _ _ Hs) (ok_db _ _ Hs)) as Hq. rewrite (quiet_answer _ _ _ Hq). destruct Hq as [Hq _].
  apply (quiet_ok c) in Hq; [|done]. pose proof (metadata_named (ra_strName r) c g) as Hn.
  destruct (Cache_GetAssetMetaDataIfExists (ra_strName r) c g) as [[[asset w]|] g']; [|done]. cbn [fst snd] in *.
  specialize (Hn _ _ Hs eq_refl). destruct (default _ w) as [h b]. split; [done|]. cbn [fst snd].
  eapply (reissued_ok c _ _ (ra_strName r) (reissued (default asset (mapReissuedAssetData c !! ra_strName r)) r)); [|..|done].
  - unfold reissued. cbn. destruct (mapReissuedAssetData c !! ra_strName r) eqn:E; [|done]. cbn. destruct (ok_cache _ _ Hs) as [_ [_ Hk]]. by apply Hk.
  - destruct fAssetIndex; [|done]. best; by apply (unbalanced_essential (with_reissued_data _ c)).
Qed.
Lemma undo_reissue_transparent r a o undo c g : state_ok c g → transparent (OUndoReissue r a o undo) c g.
Proof.
  intros Hs. unfold transparent. cbn [exec]. unfold RemoveReissueAsset.
  pose proof (metadata_quiet (ra_strName r) c g (ok_coherent _ _ Hs) (ok_db _ _ Hs)) as Hq. rewrite (quiet_answer _ _ _ Hq). destruct Hq as [Hq _].
  apply (quiet_ok c) in Hq; [|done]. destruct (Cache_GetAssetMetaDataIfExists (ra_strName r) c g) as [[[asset w]|] g']; [|done]. cbn [fst snd] in *.
  destruct (default _ w) as [h b]. set (u := snd <$> _). set (c' := match u with Some _ => _ | None => _ end).
  assert (state_ok c' g') as Hc'.
  { eapply (reissued_ok c _ _ _ (unreissued asset r u)); [done| |done]. subst c'. destruct u as [u|]; [destruct (fChangedVerifierString u)|]; done. }
  clearbody c'. destruct fAssetIndex; [|done]. change (GetBestAssetAddressAmount true (ra_strName r) a c' (uncached g')) with (GetBestAssetAddressAmount true (ra_strName r) a c' g').
  pose proof (unbalanced_essential _ _ (GetBest_unbalanced true (ra_strName r) a c' g')) as E. destruct (GetBestAssetAddressAmount true _ a c' g') as [found c'']. cbn [snd] in E.
  destruct (negb found && _); (split; [done|]); cbn [fst snd]; by apply (essential_ok c').
Qed.

Lemma uncached_run l (g : globals C) : uncached (foldl run_step g l) = foldl run_step (uncached g) l.
Proof. revert g. induction l as [|s l IH]; intros g; [done|]. cbn [foldl]. rewrite IH. f_equal. by destruct s. Qed.
Lemma coherent_passets p (g : globals C) : coherent g → coherent (with_passets p g).
Proof. intros []. by split. Qed.
Lemma flush_transparent c g : state_ok c g → transparent OFlush c g.
Proof. intros []. split; [done|]. destruct empty_ok. split; try done; [by apply coherent_passets|by apply keyed_flush|by apply within_flush]. Qed.
Lemma dump_transparent c g : distinguished → verifiers_covered (passets g) (db g) → state_ok c g → transparent ODump c g.
Proof.
  intros HU Hv [Hc Hd ? ? ? ?]. split.
  - cbn. by rewrite <-uncached_run.
  - cbn. destruct empty_ok as [? ?]. split; try done; [by apply coherent_passets, dump_coherent|]. apply (dump_db_keyed _ (dump_keyed (passets g)) g Hd).
Qed.

(** The operations that only change the sets of the cache. *)
Lemma change_transparent o c c' g : state_ok c g → run o c g = (ABool true, (c', g)) → run o c (uncached g) = (ABool true, (c', uncached g)) →
  keyed c' → within c' → transparent o c g.
Proof. intros [] E E' Hk Hw. unfold transparent. rewrite E, E'. by split. Qed.
Lemma essential_transparent o b c c' g : state_ok c g → run o c g = (ABool b, (c', g)) → run o c (uncached g) = (ABool b, (c', uncached g)) → essential c' = essential c → transparent o c g.
Proof. intros Hs E E' He. unfold transparent. rewrite E, E'. split; [done|]. by apply (essential_ok c). Qed.

Lemma pairs_transparent o c g : distinguished → op_ok o (uncached g) → state_ok c g →
  match o with QTag _ _ _ | QFrozen _ _ _ | OFreeze _ _ _ | OUndoFreeze _ _ _ | OTag _ _ _ | OUndoTag _ _ _ => True | _ => False end → transparent o c g.
Proof.
  intros HU Ho Hs Hp. pose proof (ok_cache _ _ Hs) as Hk. pose proof (ok_within _ _ Hs) as Hw. rewrite within_all in Hw. destruct Hw as [Hw Hw'].
  destruct o as [| | |n a skip|n a skip| | | | | | | | | |n a type|n a type| | | | |n a type|n a type| | | |]; try done; cbn in Ho.
  - pose proof (tag_quiet n a skip c g HU Ho (ok_coherent _ _ Hs)) as Hq. unfold transparent. cbn [exec]. rewrite (quiet_answer _ _ _ Hq). destruct Hq as [Hq _]. split; [done|]. by apply (quiet_ok c g).
  - pose proof (frozen_quiet n a skip c g HU Ho (ok_coherent _ _ Hs)) as Hq. unfold transparent. cbn [exec]. rewrite (quiet_answer _ _ _ Hq). destruct Hq as [Hq _]. split; [done|]. by apply (quiet_ok c g).
  - eapply change_transparent; [done..|]. rewrite within_all. split; [done|]. by apply all_add_over.
  - eapply change_transparent; [done..|]. rewrite within_all. split; [done|]. by apply all_remove_over.
  - pose proof (unbalanced_essential _ _ (root_change_unbalanced n a (bool_decide (type = ADD_QUALIFIER)) c)) as E. eapply change_transparent; [done..| |].
    + by apply (essential_keyed _ _ E) in Hk.
    + rewrite within_all. injection E as _ _ Eq Er. cbn. rewrite Er. split; [|done]. apply all_add_over; [done|by rewrite Eq].
  - pose proof (unbalanced_essential _ _ (root_change_unbalanced n a (negb (bool_decide (type = ADD_QUALIFIER))) c)) as E. eapply change_transparent; [done..| |].
    + by apply (essential_keyed _ _ E) in Hk.
    + rewrite within_all. injection E as _ _ Eq Er. cbn. rewrite Er. split; [|done]. apply all_remove_over; [done|by rewrite Eq].
Qed.

Lemma exec_transparent o c g : distinguished → op_ok o (uncached g) → state_ok c g → transparent o c g.
Proof.
  intros HU Ho Hs. pose proof (ok_coherent _ _ Hs) as Hc. pose proof (ok_db _ _ Hs) as Hd. destruct o; try by apply pairs_transparent.
  1-4: unfold transparent; cbn [exec];
    first [rewrite (quiet_answer _ _ _ (exists_quiet _ _ _ _ _ Hc Hd)) | rewrite (quiet_answer _ _ _ (metadata_quiet _ _ _ Hc Hd))
          | rewrite (quiet_answer _ _ _ (verifier_quiet _ _ _ _ Hc)) | rewrite (quiet_answer _ _ _ (global_quiet _ _ _ _ Hc))]; (split; [done|]); apply (quiet_ok c g _ Hs);
    first [by apply exists_quiet | by apply metadata_quiet | by apply verifier_quiet | by apply global_quiet].
  - eapply essential_transparent; [done..|]. apply unbalanced_essential, TrySpendCoin_unbalanced.
  - eapply essential_transparent; [done..|]. apply unbalanced_essential, UndoAssetCoin_unbalanced.
  - eapply essential_transparent; [done..|]. apply (unbalanced_essential c), (AddToAssetBalance_unbalanced _ _ _ c g).
  - eapply essential_transparent; [done..|]. apply unbalanced_essential, RemoveTransfer_unbalanced.
  - by apply issue_transparent.
  - by apply undo_issue_transparent.
  - eapply essential_transparent; [done..|]. unfold AddOwnerAsset. by destruct fAssetIndex.
  - eapply essential_transparent; [done..|]. unfold RemoveOwnerAsset. by destruct fAssetIndex.
  - by eapply essential_transparent.
  - by eapply essential_transparent.
  - by eapply essential_transparent.
  - by eapply essential_transparent.
  - by apply reissue_transparent.
  - by apply undo_reissue_transparent.
  - by apply flush_transparent.
  - by apply dump_transparent.
Qed.

(** The operations of a run without these caches. *)
Fixpoint ops_ok (ops : list op) (c : CAssetsCache) (g : globals (λ _, unit)) : Prop :=
  match ops with
  | [] => True
  | o :: ops => op_ok o g ∧ let r := run o c g in ops_ok ops r.2.1 r.2.2
  end.

(** C13: Through any sequence of operations a node answers every query as a node without the caches to read through would, and ends in the same state,
    whatever the caches evict. It is assumed that what is cached at the start is in the databases, that the keys of the caches tell the pairs of a name and an
    address that occur apart (they are hashes), and that whenever the node dumps, a removed asset with a verifier in the database has an entry for its verifier. *)
Theorem read_caches_transparent ops c g : distinguished → state_ok c g → ops_ok ops c (uncached g) →
  let r := exec_all fReindex fAssetIndex prefixes dep uninit_height uninit_hash ops c g in
  exec_all fReindex fAssetIndex prefixes dep uninit_height uninit_hash ops c (uncached g) = (r.1, (r.2.1, uncached r.2.2)) ∧ state_ok r.2.1 r.2.2.
Proof.
  intros HU. revert c g. induction ops as [|o ops IH]; intros c g Hs Ho; [done|]. destruct Ho as [Ho Hops]. cbn [exec_all].
  destruct (exec_transparent o c g HU Ho Hs) as [E Hs']. cbn zeta in Hops. rewrite E in Hops |- *. destruct (run o c g) as [a [c' g']]. cbn [fst snd] in *.
  destruct (IH c' g' Hs' Hops) as [E' Hs'']. rewrite E'. by destruct (exec_all _ _ _ _ _ _ ops c' g') as [l s].
Qed.
End transparent.

(** * From the start *)

(** The caches after the start, over a database. *)
Definition MAX_CACHE_ASSETS_SIZE : nat := 2500.
Definition new_lru {V} : lru V := exist _ (lru_init MAX_CACHE_ASSETS_SIZE) (lru_init_ok MAX_CACHE_ASSETS_SIZE).
Definition AppInitMain_assets (d : database) : globals lru := mkGlobals emptyCache d new_lru new_lru new_lru new_lru new_lru.

Lemma AppInitMain_ok U d : db_keyed d → state_ok U emptyCache (AppInitMain_assets d).
Proof. intros Hd. destruct (empty_ok U). by split. Qed.

(** Whether a sequence of operations is one of these can be computed. *)
#[export] Instance verifiers_covered_dec c d : Decision (verifiers_covered c d).
Proof.
  refine (cast_if (decide (map_Forall (λ name _, is_Some (ReadVerifier name d) →
    is_Some (ToAdd (setNewRestrictedVerifier c) !! name) ∨ is_Some (ToRemove (setNewRestrictedVerifier c) !! name)) (ToRemove (setNewAssets c)))));
    [intros name [x Hx]; by apply (m name x)|intros Hv; destruct n; intros name x Hx; apply Hv; eauto].
Defined.
#[export] Instance op_ok_dec U o g : (∀ p, Decision (U p)) → Decision (op_ok U o g).
Proof. intros HU. destruct o; cbn; apply _. Defined.
#[export] Instance ops_ok_dec U i r pr dep h b ops c g : (∀ p, Decision (U p)) → Decision (ops_ok U i r pr dep h b ops c g).
Proof. intros HU. revert c g. induction ops as [|o ops IH]; intros c g; cbn; apply _. Defined.

(** Two addresses with a tag, a restricted asset with its verifier, and their queries before and after the dump. *)
Definition sample_pairs (p : text * text) : Prop := p = (str "#KYC", str "alice") ∨ p = (str "#KYC", str "bob").
Definition sample_asset : CNewAsset := mkCNewAsset (str "$TOKEN") 100 0 1 0 [].
Definition sample_ops : list op :=
  [OTag (str "#KYC") (str "alice") ADD_QUALIFIER; OIssue sample_asset (str "alice") 7 uint256_null; OVerifier (str "$TOKEN") (str "#KYC"); OFlush; ODump;
   QTag (str "#KYC") (str "alice") false; QTag (str "#KYC") (str "bob") false; QVerifier (str "$TOKEN") false; QExists (str "$TOKEN") true;
   OUndoIssue sample_asset (str "alice"); OUndoVerifier (str "$TOKEN") [] false; OTag (str "#KYC") (str "alice") REMOVE_QUALIFIER; OFlush; ODump;
   QTag (str "#KYC") (str "alice") false; QVerifier (str "$TOKEN") false; QExists (str "$TOKEN") true].
Definition sample_dep : Deployments := mkDeployments true true true true true.

Lemma sample_hashes : text_eqb (address_hash (str "#KYC") (str "alice")) (address_hash (str "#KYC") (str "bob")) = false.
Proof. vm_compute. reflexivity. Qed.
Lemma sample_distinguished : distinguished sample_pairs.
Proof.
  pose proof sample_hashes as Hne. apply not_true_iff_false in Hne. rewrite text_eqb_spec in Hne. unfold distinguished, sample_pairs.
  revert Hne. generalize address_hash, (str "#KYC"), (str "alice"), (str "bob"). intros h kyc alice bob Hne n a n' a' [[= -> ->]|[= -> ->]] [[= -> ->]|[= -> ->]] E; first [by split | by destruct Hne].
Qed.
#[export] Instance sample_pairs_dec p : Decision (sample_pairs p).
Proof. unfold sample_pairs. apply _. Defined.

Lemma read_caches_transparent_witness :
  (exec_all false true main_prefixes sample_dep 0 uint256_null sample_ops emptyCache (AppInitMain_assets ∅)).1 =
  [ABool true; ABool true; ABool true; ABool true; ABool true; ABool true; ABool false; AVerifier (Some (str "#KYC")); ABool true;
   ABool true; ABool true; ABool true; ABool true; ABool true; ABool false; AVerifier None; ABool false].
Proof.
  destruct (read_caches_transparent sample_pairs true false main_prefixes sample_dep 0 uint256_null sample_ops emptyCache (AppInitMain_assets ∅)) as [E _].
  - exact sample_distinguished.
  - by apply AppInitMain_ok.
  - apply (bool_decide_eq_true_1 _). vm_compute. reflexivity.
  - revert E. generalize (exec_all false true main_prefixes sample_dep 0 uint256_null sample_ops emptyCache (AppInitMain_assets ∅)). intros r E.
    apply (f_equal fst) in E. cbn [fst] in E. rewrite <-E. vm_compute. reflexivity.
Defined.
