(* ===== verification/AssetsFlush.v ===== *)
(** The cache of a block goes into the global cache ([CAssetsCache::Flush]) and the global cache into the databases
    ([CAssetsCache::DumpCacheToDatabase]). Neither changes what the node answers, as long as what is added was not removed
    before in the global cache; an interrupted dump can be repeated. Where that fails, the answers depend on when a node
    flushed: assets issued again after a reorganisation and removed tags. *)
From stdpp Require Import base list option gmap.
From Stdlib Require Import ZArith Lia.
From Stdlib Require String.
From S2P Require Import Prelude Serialize Chain Transaction Text AssetNames Hash Base58 Script Standard AssetData AssetChecks Coins LruCache AssetsCache.
Import String.StringSyntax.
Open Scope Z_scope.

(** * Sets of changes in use *)

(** No entry of a cache is both to add and to remove. *)
Definition sets_ok (c : CAssetsCache) : Prop :=
  dirty_ok (setNewAssets c) ∧ dirty_ok (setNewQualifierAddress c) ∧ dirty_ok (setNewRestrictedAddress c) ∧ dirty_ok (setNewRestrictedGlobal c) ∧ dirty_ok (setNewRestrictedVerifier c).

Section flush.
Context {C : Type → Type} `{!TextCache C}.
Context (fReindex fAssetIndex : bool) (prefixes : Base58Prefixes) (dep : Deployments) (uninit_height : Z) (uninit_hash : uint256).
Abbreviation run o c g := (exec fReindex fAssetIndex prefixes dep uninit_height uninit_hash o c g).

(** Every operation keeps the sets apart. *)
Lemma sets_ok_unbalanced c c' : unbalanced c' = unbalanced c → sets_ok c → sets_ok c'.
Proof. intros [= E1 _ E2 E3 E4 E5]. unfold sets_ok. by rewrite E1, E2, E3, E4, E5. Qed.
Lemma sets_ok_empty : sets_ok emptyCache.
Proof. unfold sets_ok. repeat split; apply dirty_ok_clean. Qed.
Lemma flush_over_ok {K V} `{Countable K} (d p : dirty K V) : dirty_ok p → dirty_ok (flush_over d p).
Proof. intros Hp. unfold flush_over. apply each_ind; [apply each_ind|]; eauto using add_over_ok, remove_over_ok. Qed.
Lemma flush_item_ok {K V} `{Countable K} (d p : dirty K V) : dirty_ok p → dirty_ok (flush_item d p).
Proof. intros Hp. unfold flush_item. apply each_ind; [apply each_ind|]; eauto using add_item_ok, remove_item_ok. Qed.
Lemma sets_ok_flush c p : sets_ok p → sets_ok (flush_into c p).
Proof. intros (? & ? & ? & ? & ?). repeat split; first [by apply flush_item_ok | by apply flush_over_ok]. Qed.

Lemma exists_passets name force c (g : globals C) : passets (Cache_CheckIfAssetExists fReindex name force c g).2 = passets g.
Proof. unfold Cache_CheckIfAssetExists. by repeat case_match. Qed.
Lemma metadata_passets name c (g : globals C) : passets (Cache_GetAssetMetaDataIfExists name c g).2 = passets g.
Proof. unfold Cache_GetAssetMetaDataIfExists. by repeat case_match. Qed.

Lemma AddNewAsset_sets asset a h b c (g : globals C) : sets_ok c → sets_ok (AddNewAsset fReindex fAssetIndex asset a h b c g).2.1.
Proof.
  intros (? & ? & ? & ? & ?). unfold AddNewAsset. destruct (Cache_CheckIfAssetExists _ _ _ _ _) as [[] g']; [done|]. destruct fAssetIndex; repeat split; try done; by apply add_item_ok.
Qed.
Lemma RemoveNewAsset_sets asset a c (g : globals C) : sets_ok c → sets_ok (RemoveNewAsset fReindex fAssetIndex asset a c g).2.1.
Proof.
  intros (? & ? & ? & ? & ?). unfold RemoveNewAsset. destruct (Cache_CheckIfAssetExists _ _ _ _ _) as [[] g']; [|done]. destruct fAssetIndex; repeat split; try done; by apply remove_item_ok.
Qed.
Lemma AddReissueAsset_sets r a o c (g : globals C) : sets_ok c → sets_ok (AddReissueAsset fAssetIndex uninit_height uninit_hash r a o c g).2.1.
Proof.
  intros Hs. unfold AddReissueAsset. destruct (Cache_GetAssetMetaDataIfExists _ _ _) as [[[asset w]|] g']; [|done]. destruct (default _ w) as [h b]. destruct fAssetIndex; [|done].
  cbn [fst snd]. set (c' := with_reissues _ _). pose proof (GetBest_unbalanced true (ra_strName r) a c' g') as E. destruct (GetBestAssetAddressAmount _ _ _ c' g') as [[] c'']; by apply (sets_ok_unbalanced c').
Qed.
Lemma RemoveReissueAsset_sets r a o undo c (g : globals C) : sets_ok c → sets_ok (RemoveReissueAsset fAssetIndex uninit_height uninit_hash r a o undo c g).2.1.
Proof.
  intros Hs. unfold RemoveReissueAsset. destruct (Cache_GetAssetMetaDataIfExists _ _ _) as [[[asset w]|] g']; [|done]. destruct (default _ w) as [h b].
  set (u := snd <$> _). set (c' := match u with Some _ => _ | None => _ end). assert (sets_ok c') as Hc'.
  { subst c'. destruct u as [u|]; [destruct (fChangedVerifierString u)|]; try done. destruct Hs as (? & ? & ? & ? & ?). repeat split; try done. by apply remove_item_ok. }
  clearbody c'. destruct fAssetIndex; [|done]. pose proof (GetBest_unbalanced true (ra_strName r) a c' g') as E. destruct (GetBestAssetAddressAmount true _ a c' g') as [found c'']. cbn [snd] in E.
  destruct (negb found && _); by apply (sets_ok_unbalanced c').
Qed.

Lemma exec_sets o c (g : globals C) : sets_ok c → sets_ok (run o c g).2.1.
Proof.
  intros Hs. pose proof Hs as (? & Hq & Hr & ? & ?). destruct o; try done; cbn [exec fst snd].
  - eapply sets_ok_unbalanced, Hs. apply TrySpendCoin_unbalanced.
  - eapply sets_ok_unbalanced, Hs. apply UndoAssetCoin_unbalanced.
  - eapply sets_ok_unbalanced, Hs. apply (AddToAssetBalance_unbalanced _ _ _ _ c g).
  - eapply sets_ok_unbalanced, Hs. apply RemoveTransfer_unbalanced.
  - by apply AddNewAsset_sets.
  - by apply RemoveNewAsset_sets.
  - unfold AddOwnerAsset. by destruct fAssetIndex.
  - unfold RemoveOwnerAsset. by destruct fAssetIndex.
  - repeat split; try done. by apply add_over_ok.
  - repeat split; try done. by apply remove_over_ok.
  - repeat split; try done. by apply add_over_ok.
  - repeat split; try done. by apply remove_over_ok.
  - repeat split; try done. by apply add_item_ok.
  - repeat split; try done. by apply remove_item_ok.
  - destruct (sets_ok_unbalanced _ _ (root_change_unbalanced name address (bool_decide (type = ADD_QUALIFIER)) c) Hs) as (? & ? & ? & ? & ?). repeat split; try done. by apply add_over_ok.
  - destruct (sets_ok_unbalanced _ _ (root_change_unbalanced name address (negb (bool_decide (type = ADD_QUALIFIER))) c) Hs) as (? & ? & ? & ? & ?). repeat split; try done. by apply remove_over_ok.
  - by apply AddReissueAsset_sets.
  - by apply RemoveReissueAsset_sets.
Qed.

Lemma exec_passets o c (g : globals C) : passets (run o c g).2.2 = match o with OFlush => flush_into c (passets g) | ODump => emptyCache | _ => passets g end.
Proof.
  destruct o; try done; cbn [exec fst snd].
  - apply exists_passets.
  - apply metadata_passets.
  - unfold Cache_GetAssetVerifierStringIfExists. by repeat case_match.
  - unfold Cache_CheckForAddressQualifier. by repeat case_match.
  - unfold Cache_CheckForAddressRestriction. by repeat case_match.
  - unfold Cache_CheckForGlobalRestriction. by repeat case_match.
  - unfold AddNewAsset. pose proof (exists_passets (na_strName asset) true c g). by destruct (Cache_CheckIfAssetExists _ _ _ _ _) as [[] g'].
  - unfold RemoveNewAsset. pose proof (exists_passets (na_strName asset) true c g). by destruct (Cache_CheckIfAssetExists _ _ _ _ _) as [[] g'].
  - unfold AddReissueAsset. pose proof (metadata_passets (ra_strName reissue) c g). destruct (Cache_GetAssetMetaDataIfExists _ _ _) as [[[asset w]|] g']; [|done]. by destruct (default _ w).
  - unfold RemoveReissueAsset. pose proof (metadata_passets (ra_strName reissue) c g). destruct (Cache_GetAssetMetaDataIfExists _ _ _) as [[[asset w]|] g']; [|done].
    destruct (default _ w). destruct fAssetIndex; [|done]. destruct (GetBestAssetAddressAmount _ _ _ _ _) as [found c']. by destruct (_ && _).
Qed.
(** So both caches stay as they should from the start on. *)
Lemma exec_all_sets ops : ∀ c (g : globals C), sets_ok c → sets_ok (passets g) →
  let r := exec_all fReindex fAssetIndex prefixes dep uninit_height uninit_hash ops c g in sets_ok r.2.1 ∧ sets_ok (passets r.2.2).
Proof.
  induction ops as [|o ops IH]; intros c g Hc Hp; [done|]. cbn [exec_all]. pose proof (exec_sets o c g Hc) as Hc'. pose proof (exec_passets o c g) as Hp'.
  destruct (run o c g) as [a [c' g']]. cbn [fst snd] in *. assert (sets_ok (passets g')) as Hg' by (rewrite Hp'; destruct o; eauto using sets_ok_flush, sets_ok_empty).
  specialize (IH c' g' Hc' Hg'). by destruct (exec_all _ _ _ _ _ _ ops c' g').
Qed.

(** What is added is not removed below. *)
Definition compatible {K V} `{Countable K} (d p : dirty K V) : Prop := ∀ k, is_Some (ToAdd d !! k) → ToRemove p !! k = None.

Record flush_ok (c p : CAssetsCache) : Prop := {
  flush_sets : sets_ok c;
  flush_assets : compatible (setNewAssets c) (setNewAssets p);
  flush_new k : is_Some (ToAdd (setNewAssets c) !! k) → ToAdd (setNewAssets p) !! k = None;
  flush_tags : compatible (setNewQualifierAddress c) (setNewQualifierAddress p);
  flush_frozen : compatible (setNewRestrictedAddress c) (setNewRestrictedAddress p);
  flush_global : compatible (setNewRestrictedGlobal c) (setNewRestrictedGlobal p);
  flush_verifiers : compatible (setNewRestrictedVerifier c) (setNewRestrictedVerifier p);
  flush_no_roots key s : mapRootQualifierAddressesRemove c !! key = Some s → s = ∅ }.

(** The queries that see both caches. *)
Definition query (o : op) : bool :=
  match o with QExists _ _ | QMetaData _ | QVerifier _ false | QTag _ _ false | QFrozen _ _ false | QGlobal _ false => true | _ => false end.

Lemma find_dirty_flush {K V} `{Countable K} (k : K) (d p : dirty K V) : dirty_ok d → compatible d p →
  find_dirty false k clean (flush_over d p) = find_dirty false k d p.
Proof.
  intros Hd Hc. unfold find_dirty, clean. cbn [ToAdd ToRemove]. rewrite !lookup_empty, flush_over_add, flush_over_remove by done. specialize (Hc k).
  destruct (ToRemove d !! k); [done|]. destruct (ToAdd d !! k); [by rewrite Hc|done].
Qed.

Lemma flush_roots_lookup from to key : flush_roots from to !! key =
  match from !! key with Some s => if bool_decide (s = ∅) then to !! key else Some (s ∪ default ∅ (to !! key)) | None => to !! key end.
Proof.
  unfold flush_roots, each. assert (NoDup (map fst (map_to_list from))) as Hn by apply NoDup_fst_map_to_list. rewrite <-(list_to_map_to_list from) at 2. revert to.
  induction (map_to_list from) as [|[k s] l IH]; intros to; [done|]. cbn [map fst] in Hn. apply NoDup_cons in Hn as [Hk Hn]. cbn [foldl]. rewrite IH by done.
  rewrite list_to_map_cons. destruct (decide (k = key)) as [->|Hne].
  - rewrite lookup_insert_eq, (not_elem_of_list_to_map_1 l key) by done. destruct (bool_decide (s = ∅)); [done|]. by rewrite lookup_insert_eq.
  - rewrite lookup_insert_ne by done. destruct (bool_decide (s = ∅)); [done|]. by rewrite lookup_insert_ne.
Qed.
Lemma root_tagged_flush name a c p : (∀ key s, mapRootQualifierAddressesRemove c !! key = Some s → s = ∅) →
  root_tagged name a (mapRootQualifierAddressesAdd (flush_into c p)) = root_tagged name a (mapRootQualifierAddressesAdd c) || root_tagged name a (mapRootQualifierAddressesAdd p).
Proof.
  intros Hr. unfold root_tagged. cbn [mapRootQualifierAddressesAdd flush_into]. rewrite !flush_roots_lookup.
  replace (match mapRootQualifierAddressesRemove c !! (name, a) with Some s => _ | None => _ end) with
    (match mapRootQualifierAddressesAdd c !! (name, a) with Some s => if bool_decide (s = ∅) then mapRootQualifierAddressesAdd p !! (name, a) else Some (s ∪ default ∅ (mapRootQualifierAddressesAdd p !! (name, a))) | None => mapRootQualifierAddressesAdd p !! (name, a) end).
  - destruct (mapRootQualifierAddressesAdd c !! (name, a)) as [s|]; [|done]. case_bool_decide as Es; [done|]. cbn. rewrite bool_decide_false; [done|]. set_solver.
  - destruct (mapRootQualifierAddressesRemove c !! (name, a)) as [s|] eqn:E; [|done]. by rewrite (Hr _ _ E), bool_decide_true.
Qed.

Lemma flush_exists name force c (g : globals C) : flush_ok c (passets g) →
  (Cache_CheckIfAssetExists fReindex name force emptyCache (assets_Flush c g)).1 = (Cache_CheckIfAssetExists fReindex name force c g).1.
Proof.
  intros [(Hd & _) Hc _ _ _ _ _ _]. unfold Cache_CheckIfAssetExists. cbn. rewrite !lookup_empty, flush_item_add, flush_item_remove by done. specialize (Hc name).
  destruct fReindex; [done|]. rewrite dirty_ok_spec in Hd. destruct (ToRemove (setNewAssets c) !! name) as [n|]; cbn.
  - by destruct (ToRemove (setNewAssets (passets g)) !! name).
  - destruct (ToAdd (setNewAssets c) !! name) as [n|]; cbn.
    + rewrite Hc by done. cbn. destruct (ToAdd (setNewAssets (passets g)) !! name), force; cbn; try done; (destruct (is_some _); [done|]); by destruct (ReadAssetData _ _).
    + destruct (is_some _); [done|]. destruct (_ && _); [done|]. destruct (is_some _); [done|]. by destruct (ReadAssetData _ _).
Qed.
Lemma flush_metadata name c (g : globals C) : flush_ok c (passets g) →
  (Cache_GetAssetMetaDataIfExists name emptyCache (assets_Flush c g)).1 = (Cache_GetAssetMetaDataIfExists name c g).1.
Proof.
  intros [(Hd & _) Hc Hn _ _ _ _ _]. unfold Cache_GetAssetMetaDataIfExists. cbn. rewrite !lookup_empty, lookup_union, flush_item_add, flush_item_remove by done. specialize (Hc name). specialize (Hn name).
  destruct (mapReissuedAssetData c !! name); [by destruct (mapReissuedAssetData (passets g) !! name)|]. rewrite option_union_left_id. destruct (mapReissuedAssetData (passets g) !! name); [done|].
  destruct (ToRemove (setNewAssets c) !! name) as [n|]; cbn.
  - by destruct (ToRemove (setNewAssets (passets g)) !! name).
  - destruct (ToAdd (setNewAssets c) !! name) as [n|]; cbn; [by rewrite Hc, Hn|]. destruct (is_some _); [done|]. by repeat case_match.
Qed.

(** C22: What the node answers for a block is what it answers after the block, with the empty cache of the next one, to the queries that look at both
    caches. It is assumed that the entries of the block are compatible with those of the global cache, which does not already have the assets that
    the block issues, and that the block removes no tag below a root. The section on reorganisations and the one on tags below show what happens otherwise. *)
Theorem flush_keeps_answers o c (g : globals C) : query o = true → flush_ok c (passets g) → (run o emptyCache (assets_Flush c g)).1 = (run o c g).1.
Proof.
  intros Hq Hf. pose proof (flush_sets _ _ Hf) as (_ & Ht & Hr & Hg & Hv).
  destruct o as [| |n []|n a []|n a []|n []| | | | | | | | | | | | | | | | | | | |]; try done; cbn [exec fst snd].
  - f_equal. by apply flush_exists.
  - f_equal. by apply flush_metadata.
  - f_equal. unfold Cache_GetAssetVerifierStringIfExists. cbn [emptyCache setNewRestrictedVerifier assets_Flush with_passets passets flush_into].
    rewrite find_dirty_flush by first [done|apply Hf]. destruct (find_dirty _ _ _ _) as [[[] v]|]; [done..|]. cbn. destruct (cached n _); [done|]. by destruct (ReadVerifier n (db g)).
  - f_equal. unfold Cache_CheckForAddressQualifier. cbn [emptyCache setNewQualifierAddress assets_Flush with_passets passets].
    change (setNewQualifierAddress (flush_into c (passets g))) with (flush_over (setNewQualifierAddress c) (setNewQualifierAddress (passets g))).
    rewrite find_dirty_flush by first [done|apply Hf]. destruct (find_dirty _ _ _ _) as [[[] v]|]; [done..|]. rewrite root_tagged_flush by apply Hf.
    change (root_tagged n a (mapRootQualifierAddressesAdd emptyCache)) with false. cbn.
    destruct (root_tagged n a (mapRootQualifierAddressesAdd c)); [done|]. cbn. destruct (root_tagged _ _ _); [done|]. destruct (is_some _); [done|]. by destruct (db_has _ _).
  - f_equal. unfold Cache_CheckForAddressRestriction. cbn [emptyCache setNewRestrictedAddress assets_Flush with_passets passets flush_into].
    rewrite find_dirty_flush by first [done|apply Hf]. destruct (find_dirty _ _ _ _) as [[[] v]|]; [done..|]. cbn. destruct (is_some _); [done|]. by destruct (db_has _ _).
  - f_equal. unfold Cache_CheckForGlobalRestriction. cbn [emptyCache setNewRestrictedGlobal assets_Flush with_passets passets flush_into].
    rewrite find_dirty_flush by first [done|apply Hf]. destruct (find_dirty _ _ _ _) as [[[] v]|]; [done..|]. cbn. destruct (is_some _); [done|]. by destruct (db_has _ _).
Qed.
End flush.

(** * Into the databases *)

Section dump.
Context (fAssetIndex : bool) (c : CAssetsCache).
Abbreviation event k l := (last_event (ev_db k) l).

Ltac entry := unfold dump_reissue, dump_undone_reissue, tag_step, freeze_step, global_step, update_amount, write_positive, write_found, write_amount, erase_amount, if_index in *.
(** The steps of a chunk do not concern a key. *)
Ltac untouched := apply last_event_none; repeat (apply Forall_app; split); try (unfold if_index; destruct fAssetIndex; [|constructor]); repeat (apply Forall_app; split);
  first [apply Forall_steps|apply Forall_amounts]; intros; entry; repeat case_match; repeat constructor; cbn; rewrite ?decide_False by done; done.

Definition restriction_key (k : dbkey) : bool := match k with AddressTagKey _ _ | RestrictedKey _ _ | GlobalKey _ => true | _ => false end.
Lemma event_restrictions k : restriction_key k = true → event k (dump_steps fAssetIndex c) = event k (dump_restrictions fAssetIndex c).
Proof.
  intros Hk. unfold dump_steps. rewrite !last_event_app. destruct k; try done.
  all: replace (event _ (dump_balances fAssetIndex c)) with (@None (option dbvalue)) by (symmetry; unfold dump_balances; untouched).
  all: replace (event _ (dump_verifiers c)) with (@None (option dbvalue)) by (symmetry; unfold dump_verifiers; untouched).
  all: replace (event _ (dump_reissues fAssetIndex c)) with (@None (option dbvalue)) by (symmetry; unfold dump_reissues; untouched).
  all: replace (event _ (dump_transfers fAssetIndex c)) with (@None (option dbvalue)) by (symmetry; unfold dump_transfers; untouched).
  all: replace (event _ (dump_assets fAssetIndex c)) with (@None (option dbvalue)) by (symmetry; unfold dump_assets; untouched).
  all: by destruct (event _ (dump_restrictions fAssetIndex c)).
Qed.

(** The entry of a set that concerns a key, the removed ones last. *)
Definition last_of {K V W} `{Countable K} (d : dirty K V) (k : K) (removed added : V → option W) : option W :=
  match ToRemove d !! k with
  | Some v => match removed v with Some w => Some w | None => match ToAdd d !! k with Some v => added v | None => None end end
  | None => match ToAdd d !! k with Some v => added v | None => None end
  end.
Ltac other_entry := intros; entry; repeat case_match; cbn; by rewrite ?decide_False by congruence.
Ltac own_entry := entry; destruct fAssetIndex; repeat destruct (bool_decide _); cbn; repeat case_decide; try done; by repeat case_match.

Lemma event_frozen n a : event (RestrictedKey a n) (dump_steps fAssetIndex c) =
  last_of (setNewRestrictedAddress c) (n, a)
    (λ type, match type with UNFREEZE_ADDRESS => Some (Some DBOne) | FREEZE_ADDRESS => Some None | _ => None end)
    (λ type, match type with FREEZE_ADDRESS => Some (Some DBOne) | UNFREEZE_ADDRESS => Some None | _ => None end).
Proof.
  rewrite event_restrictions by done. unfold dump_restrictions. rewrite !last_event_app.
  rewrite (last_event_steps_none _ _ (ToRemove (setNewRestrictedGlobal c))) by other_entry.
  rewrite (last_event_steps_none _ _ (ToAdd (setNewRestrictedGlobal c))) by other_entry.
  rewrite (last_event_steps_none _ _ (ToAdd (setNewQualifierAddress c))), (last_event_steps_none _ _ (ToRemove (setNewQualifierAddress c))) by other_entry.
  rewrite (last_event_steps _ _ (ToRemove (setNewRestrictedAddress c)) (n, a)), (last_event_steps _ _ (ToAdd (setNewRestrictedAddress c)) (n, a)) by (intros [n' a']; other_entry).
  unfold last_of. destruct (ToRemove _ !! _) as [[]|], (ToAdd _ !! _) as [[]|]; own_entry.
Qed.
Lemma event_global n : event (GlobalKey n) (dump_steps fAssetIndex c) =
  last_of (setNewRestrictedGlobal c) n
    (λ type, match type with GLOBAL_UNFREEZE => Some (Some DBOne) | GLOBAL_FREEZE => Some None | _ => None end)
    (λ type, match type with GLOBAL_FREEZE => Some (Some DBOne) | GLOBAL_UNFREEZE => Some None | _ => None end).
Proof.
  rewrite event_restrictions by done. unfold dump_restrictions. rewrite !last_event_app.
  rewrite (last_event_steps_none _ _ (ToRemove (setNewRestrictedAddress c))), (last_event_steps_none _ _ (ToAdd (setNewRestrictedAddress c))) by (intros [n' a']; other_entry).
  rewrite (last_event_steps_none _ _ (ToAdd (setNewQualifierAddress c))), (last_event_steps_none _ _ (ToRemove (setNewQualifierAddress c))) by (intros [n' a']; other_entry).
  rewrite (last_event_steps _ _ (ToRemove (setNewRestrictedGlobal c)) n), (last_event_steps _ _ (ToAdd (setNewRestrictedGlobal c)) n) by other_entry.
  unfold last_of. destruct (ToRemove _ !! _) as [[]|], (ToAdd _ !! _) as [[]|]; own_entry.
Qed.
Lemma event_tag n a : event (AddressTagKey a n) (dump_steps fAssetIndex c) =
  last_of (setNewQualifierAddress c) (n, a)
    (λ type, Some (if bool_decide (type = REMOVE_QUALIFIER) then Some DBOne else None)) (λ type, Some (if bool_decide (type = ADD_QUALIFIER) then Some DBOne else None)).
Proof.
  rewrite event_restrictions by done. unfold dump_restrictions. rewrite !last_event_app.
  rewrite (last_event_steps_none _ _ (ToRemove (setNewRestrictedGlobal c))), (last_event_steps_none _ _ (ToAdd (setNewRestrictedGlobal c))) by other_entry.
  rewrite (last_event_steps_none _ _ (ToRemove (setNewRestrictedAddress c))), (last_event_steps_none _ _ (ToAdd (setNewRestrictedAddress c))) by (intros [n' a']; other_entry).
  rewrite (last_event_steps _ _ (ToRemove (setNewQualifierAddress c)) (n, a)), (last_event_steps _ _ (ToAdd (setNewQualifierAddress c)) (n, a)) by (intros [n' a']; other_entry).
  unfold last_of. destruct (ToRemove _ !! _) as [v|], (ToAdd _ !! _) as [w|]; own_entry.
Qed.

Lemma event_verifier name : keyed c → event (VerifierKey name) (dump_steps fAssetIndex c) =
  match last_of (setNewRestrictedVerifier c) name (λ v, Some (if fUndoingRessiue v then Some (DBText (ver_verifier v)) else None)) (λ v, Some (Some (DBText (ver_verifier v)))) with
  | Some r => Some r
  | None => if is_some (ToRemove (setNewAssets c) !! name) then Some None else None
  end.
Proof.
  intros (_ & Hk & _). unfold dump_steps. rewrite !last_event_app.
  replace (event _ (dump_balances fAssetIndex c)) with (@None (option dbvalue)) by (symmetry; unfold dump_balances; untouched).
  replace (event _ (dump_restrictions fAssetIndex c)) with (@None (option dbvalue)) by (symmetry; unfold dump_restrictions; untouched).
  replace (event _ (dump_reissues fAssetIndex c)) with (@None (option dbvalue)) by (symmetry; unfold dump_reissues; untouched).
  replace (event _ (dump_transfers fAssetIndex c)) with (@None (option dbvalue)) by (symmetry; unfold dump_transfers; untouched).
  unfold dump_verifiers, dump_assets. rewrite !last_event_app.
  rewrite (last_event_steps _ _ (ToRemove (setNewRestrictedVerifier c)) name), (last_event_steps _ _ (ToAdd (setNewRestrictedVerifier c)) name) by other_entry.
  rewrite (last_event_steps_none _ _ (ToAdd (setNewAssets c))) by other_entry.
  rewrite (last_event_steps _ _ (ToRemove (setNewAssets c)) name) by (intros k v Hv; rewrite (Hk _ _ Hv); other_entry).
  unfold last_of. destruct (ToRemove (setNewRestrictedVerifier c) !! _) as [[v []]|], (ToAdd (setNewRestrictedVerifier c) !! _) as [w|], (ToRemove (setNewAssets c) !! name) as [n|] eqn:E; rewrite ?(Hk _ _ E); own_entry.
Qed.

(** A loop in which several entries may concern a key. *)
Lemma last_event_steps_from {W K V} `{Countable K} (ev : dump_step → option W) (f : K → V → list dump_step) (m : gmap K V) :
  match last_event ev (steps_of f m) with
  | Some w => ∃ k v, m !! k = Some v ∧ last_event ev (f k v) = Some w
  | None => ∀ k v, m !! k = Some v → last_event ev (f k v) = None
  end.
Proof.
  unfold steps_of. assert (∀ l, match last_event ev (concat (map (λ '(k, v), f k v) l)) with
    | Some w => ∃ k v, (k, v) ∈ l ∧ last_event ev (f k v) = Some w | None => ∀ k v, (k, v) ∈ l → last_event ev (f k v) = None end) as Hl.
  { induction l as [|[k v] l IH]; [intros k v Hkv; by apply not_elem_of_nil in Hkv|]. cbn [map concat]. rewrite last_event_app. destruct (last_event ev (concat _)) as [w|].
    - destruct IH as (k' & v' & Hin & E). exists k', v'. split; [by right|done].
    - destruct (last_event ev (f k v)) as [w|] eqn:E; [exists k, v; split; [by left|done]|]. intros k' v' [[= -> ->]|Hin]%elem_of_cons; eauto. }
  specialize (Hl (map_to_list m)). destruct (last_event ev _) as [w|].
  - destruct Hl as (k & v & Hin & E). exists k, v. by rewrite <-elem_of_map_to_list.
  - intros k v Hkv. apply Hl. by apply elem_of_map_to_list.
Qed.

(** The names of the reissues to write or to take back. *)
Definition reissue_recorded (name : text) : Prop :=
  ∃ out r, (ToAdd (setNewReissue c) !! out = Some r ∨ ToRemove (setNewReissue c) !! out = Some r) ∧ ra_strName (re_reissue r) = name.

(** The steps of one entry write the changed data of its name. *)
Lemma event_reissue name r : keyed c → event (AssetKey name) (dump_reissue fAssetIndex c r) =
  if decide (ra_strName (re_reissue r) = name) then (λ asset, Some (DBAsset (mkData asset (re_blockHeight r) (re_blockHash r)))) <$> mapReissuedAssetData c !! name else None.
Proof.
  intros (_ & _ & Hk). unfold dump_reissue. destruct (mapReissuedAssetData c !! ra_strName (re_reissue r)) as [asset|] eqn:E; [rewrite (Hk _ _ E), last_event_app|].
  - replace (event _ (if_index _ _)) with (@None (option dbvalue)) by (entry; destruct fAssetIndex; [|done]; by repeat case_match).
    cbn. repeat case_decide; simplify_eq; try done. by rewrite E.
  - case_decide as Ek; [|done]. by rewrite <-Ek, E.
Qed.
Lemma event_undone_reissue name r : keyed c → ToRemove (setNewAssets c) !! name = None → event (AssetKey name) (dump_undone_reissue fAssetIndex c r) =
  if decide (ra_strName (re_reissue r) = name) then (λ asset, Some (DBAsset (mkData asset (re_blockHeight r) (re_blockHash r)))) <$> mapReissuedAssetData c !! name else None.
Proof.
  intros (_ & _ & Hk) Hr. unfold dump_undone_reissue. destruct (decide (ra_strName (re_reissue r) = name)) as [<-|Hne].
  - rewrite Hr. cbn [is_some]. destruct (mapReissuedAssetData c !! ra_strName (re_reissue r)) as [asset|] eqn:E; [rewrite (Hk _ _ E), !last_event_app|done].
    replace (event _ (if_index _ _)) with (@None (option dbvalue)) by (entry; destruct fAssetIndex; [|done]; by repeat case_match). cbn. by rewrite decide_True.
  - destruct (is_some _); [done|]. destruct (mapReissuedAssetData c !! ra_strName (re_reissue r)) as [asset|] eqn:E; [rewrite (Hk _ _ E), !last_event_app|done].
    replace (event _ (if_index _ _)) with (@None (option dbvalue)) by (entry; destruct fAssetIndex; [|done]; by repeat case_match). cbn. rewrite decide_False; [done|congruence].
Qed.
Lemma event_reissues_none name : keyed c → mapReissuedAssetData c !! name = None → event (AssetKey name) (dump_reissues fAssetIndex c) = None.
Proof.
  intros Hk Hn. unfold dump_reissues. rewrite last_event_app, !last_event_steps_none; [done|intros _ r _..].
  - rewrite event_reissue, Hn by done. by case_decide.
  - unfold dump_undone_reissue. destruct (is_some _); [done|]. destruct (mapReissuedAssetData c !! ra_strName (re_reissue r)) as [asset|] eqn:E; [|done]. destruct Hk as (_ & _ & Hk). rewrite (Hk _ _ E).
    rewrite !last_event_app. replace (event _ (if_index _ _)) with (@None (option dbvalue)) by (entry; destruct fAssetIndex; [|done]; by repeat case_match). cbn. rewrite decide_False; [done|congruence].
Qed.
Lemma event_reissues name asset : keyed c → mapReissuedAssetData c !! name = Some asset → ToRemove (setNewAssets c) !! name = None → reissue_recorded name →
  ∃ h b, event (AssetKey name) (dump_reissues fAssetIndex c) = Some (Some (DBAsset (mkData asset h b))).
Proof.
  intros Hk Hn Hr (out & r & Hin & Er). unfold dump_reissues. rewrite last_event_app.
  pose proof (last_event_steps_from (ev_db (AssetKey name)) (λ _, dump_undone_reissue fAssetIndex c) (ToRemove (setNewReissue c))) as Hu. destruct (event _ (steps_of _ (ToRemove _))) as [w|].
  - destruct Hu as (k & v & _ & E). rewrite event_undone_reissue, Hn in E by done. case_decide; [|done]. injection E as <-. eauto.
  - pose proof (last_event_steps_from (ev_db (AssetKey name)) (λ _, dump_reissue fAssetIndex c) (ToAdd (setNewReissue c))) as Ha. destruct (event _ (steps_of _ _)) as [w|].
    + destruct Ha as (k & v & _ & E). rewrite event_reissue, Hn in E by done. case_decide; [|done]. injection E as <-. eauto.
    + exfalso. destruct Hin as [Hin|Hin]; [apply Ha in Hin; rewrite event_reissue, Hn in Hin by done|apply Hu in Hin; rewrite event_undone_reissue, Hn in Hin by done]; by rewrite decide_True in Hin.
Qed.
Lemma event_asset name : keyed c → event (AssetKey name) (dump_steps fAssetIndex c) =
  match event (AssetKey name) (dump_reissues fAssetIndex c) with
  | Some r => Some r
  | None => last_of (mkDirty (ToRemove (setNewAssets c)) (ToAdd (setNewAssets c))) name (λ n, Some (Some (DBAsset (mkData (new_asset n) (new_blockHeight n) (new_blockHash n))))) (λ _, Some None)
  end.
Proof.
  intros (Hk & Hk' & _). unfold dump_steps. rewrite !last_event_app.
  replace (event _ (dump_balances fAssetIndex c)) with (@None (option dbvalue)) by (symmetry; unfold dump_balances; untouched).
  replace (event _ (dump_restrictions fAssetIndex c)) with (@None (option dbvalue)) by (symmetry; unfold dump_restrictions; untouched).
  replace (event _ (dump_verifiers c)) with (@None (option dbvalue)) by (symmetry; unfold dump_verifiers; untouched).
  destruct (event _ (dump_reissues fAssetIndex c)) as [w|]; [done|].
  replace (event _ (dump_transfers fAssetIndex c)) with (@None (option dbvalue)) by (symmetry; unfold dump_transfers; untouched).
  unfold dump_assets. rewrite last_event_app.
  rewrite (last_event_steps _ _ (ToRemove (setNewAssets c)) name) by (intros k v Hv; rewrite (Hk' _ _ Hv); other_entry).
  rewrite (last_event_steps _ _ (ToAdd (setNewAssets c)) name) by (intros k v Hv; rewrite (Hk _ _ Hv); other_entry).
  unfold last_of. cbn [ToAdd ToRemove]. destruct (ToAdd (setNewAssets c) !! _) as [v|] eqn:E, (ToRemove (setNewAssets c) !! name) as [n|] eqn:E'; rewrite ?(Hk _ _ E), ?(Hk' _ _ E'); own_entry.
Qed.
End dump.

Section dumped.
Context (fReindex fAssetIndex : bool) (prefixes : Base58Prefixes) (dep : Deployments) (uninit_height : Z) (uninit_hash : uint256).
Abbreviation run o c g := (exec fReindex fAssetIndex prefixes dep uninit_height uninit_hash o c g).
Implicit Type g : globals (λ _, unit).

(** Frozen addresses and assets are entered with the types that belong to them. *)
Definition frozen_types (d : dirty (text * text) RestrictedType) : Prop := all_of (λ _ type, type = FREEZE_ADDRESS ∨ type = UNFREEZE_ADDRESS) d.
Definition global_types (d : dirty text RestrictedType) : Prop := all_of (λ _ type, type = GLOBAL_FREEZE ∨ type = GLOBAL_UNFREEZE) d.

(** What is to be dumped over a database: reissued assets exist and have a reissue that was recorded. *)
Record dump_ok (c : CAssetsCache) (d : database) : Prop := {
  dump_sets : sets_ok c;
  dump_names : keyed c;
  dump_frozen : frozen_types (setNewRestrictedAddress c);
  dump_global : global_types (setNewRestrictedGlobal c);
  dump_covered : verifiers_covered c d;
  dump_recorded name : is_Some (mapReissuedAssetData c !! name) → reissue_recorded c name ∧ ToRemove (setNewAssets c) !! name = None ∧
    (is_Some (ToAdd (setNewAssets c) !! name) ∨ is_Some (ReadAssetData name d)) }.

(** The tags of an address below a name. *)
Definition below (name tag : text) : bool := text_eqb (take (length name + 1) tag) (name ++ str "/").
(** A query of the node; of a tag, one that has no tags below it. *)
Definition dump_query (c : CAssetsCache) (d : database) (o : op) : Prop :=
  match o with
  | QExists _ _ | QMetaData _ | QVerifier _ _ | QFrozen _ _ _ | QGlobal _ _ => True
  | QTag n a _ => root_tagged n a (mapRootQualifierAddressesAdd c) = false ∧
      ∀ tag, below n tag = true → db_has (AddressTagKey a tag) d = false ∧ ToAdd (setNewQualifierAddress c) !! (tag, a) = None ∧ ToRemove (setNewQualifierAddress c) !! (tag, a) = None
  | _ => False
  end.

(** The block of an asset becomes known when it is read from the database. *)
Definition same_answer (x y : answer) : Prop := match x, y with AMetaData a, AMetaData b => fst <$> a = fst <$> b | _, _ => x = y end.

Abbreviation after g := (DumpCacheToDatabase fAssetIndex None g).2.
Lemma after_passets g : passets (after g) = emptyCache.
Proof. done. Qed.
Lemma after_db g k : db (after g) !! k = match last_event (ev_db k) (dump_steps fAssetIndex (passets g)) with Some r => r | None => db g !! k end.
Proof. cbn. apply db_run. Qed.

Lemma dump_asset name g : dump_ok (passets g) (db g) →
  match mapReissuedAssetData (passets g) !! name with
  | Some asset => data_asset <$> ReadAssetData name (db (after g)) = Some asset
  | None => ReadAssetData name (db (after g)) =
      match ToRemove (setNewAssets (passets g)) !! name, ToAdd (setNewAssets (passets g)) !! name with
      | Some _, _ => None
      | None, Some n => Some (mkData (new_asset n) (new_blockHeight n) (new_blockHash n))
      | None, None => ReadAssetData name (db g)
      end
  end.
Proof.
  intros [(Hs & _) Hk _ _ _ Hr]. specialize (Hr name). unfold ReadAssetData. rewrite after_db, event_asset by done. destruct (mapReissuedAssetData (passets g) !! name) as [asset|] eqn:E.
  - destruct Hr as (Hrec & Hrm & _); [done|]. by destruct (event_reissues fAssetIndex (passets g) name asset Hk E Hrm Hrec) as (h & b & ->).
  - rewrite event_reissues_none by done. unfold last_of. cbn [ToAdd ToRemove]. rewrite dirty_ok_spec in Hs. specialize (Hs name).
    destruct (ToAdd (setNewAssets (passets g)) !! name), (ToRemove (setNewAssets (passets g)) !! name); try done. by destruct Hs.
Qed.

(** The first search of the caches, for a cache of a block that is empty. *)
Lemma find_dirty_empty {K V} `{Countable K} skip (k : K) (p : dirty K V) :
  find_dirty skip k clean p = match ToRemove p !! k with Some v => Some (true, v) | None => match ToAdd p !! k with Some v => Some (false, v) | None => None end end.
Proof. unfold find_dirty, clean. cbn [ToAdd ToRemove]. rewrite !lookup_empty. destruct skip, (ToRemove p !! k), (ToAdd p !! k); done. Qed.

Lemma dump_exists name force g : dump_ok (passets g) (db g) →
  (Cache_CheckIfAssetExists fReindex name force emptyCache (after g)).1 = (Cache_CheckIfAssetExists fReindex name force emptyCache g).1.
Proof.
  intros Hd. pose proof (dump_asset name g Hd) as E. pose proof (dump_recorded _ _ Hd name) as Hr. unfold Cache_CheckIfAssetExists. destruct fReindex; [done|]. rewrite after_passets.
  cbn [emptyCache setNewAssets clean ToAdd ToRemove]. rewrite !lookup_empty. cbn [is_some andb cached no_cache]. destruct (mapReissuedAssetData (passets g) !! name) as [asset|].
  - destruct Hr as (_ & Hn & Hx); [done|]. rewrite Hn. destruct (ReadAssetData name (db (after g))) as [d|]; [|done]. cbn. destruct Hx as [[n ->]|[d' E']]; [by destruct force, (ReadAssetData name (db g))|]. rewrite E'. by destruct (is_some _), force.
  - rewrite E. destruct (ToRemove _ !! name) as [n|]; [done|]. destruct (ToAdd _ !! name) as [n|]; cbn; by destruct force, (ReadAssetData name (db g)).
Qed.
Lemma dump_metadata name g : dump_ok (passets g) (db g) →
  fst <$> (Cache_GetAssetMetaDataIfExists name emptyCache (after g)).1 = fst <$> (Cache_GetAssetMetaDataIfExists name emptyCache g).1.
Proof.
  intros Hd. pose proof (dump_asset name g Hd) as E. unfold Cache_GetAssetMetaDataIfExists. rewrite after_passets.
  cbn [emptyCache mapReissuedAssetData setNewAssets clean ToAdd ToRemove]. rewrite !lookup_empty. cbn [is_some cached no_cache]. destruct (mapReissuedAssetData (passets g) !! name) as [asset|].
  - by destruct (ReadAssetData name (db (after g))).
  - rewrite E. destruct (ToRemove _ !! name) as [n|]; [done|]. destruct (ToAdd _ !! name) as [n|]; [done|]. by destruct (ReadAssetData name (db g)).
Qed.
Lemma dump_verifier name skip g : dump_ok (passets g) (db g) →
  (Cache_GetAssetVerifierStringIfExists name skip emptyCache (after g)).1 = (Cache_GetAssetVerifierStringIfExists name skip emptyCache g).1.
Proof.
  intros Hd. pose proof (dump_covered _ _ Hd name) as Hv. unfold Cache_GetAssetVerifierStringIfExists. rewrite after_passets. cbn [emptyCache setNewRestrictedVerifier]. rewrite !find_dirty_empty.
  cbn [clean ToAdd ToRemove]. rewrite !lookup_empty. cbn [cached no_cache]. unfold ReadVerifier in *. rewrite after_db, event_verifier by apply Hd. unfold last_of.
  destruct (ToRemove (setNewRestrictedVerifier (passets g)) !! name) as [[v []]|]; [done..|]. destruct (ToAdd (setNewRestrictedVerifier (passets g)) !! name) as [v|]; [done|].
  destruct (ToRemove (setNewAssets (passets g)) !! name); cbn; [|by case_match; [case_match|]]. destruct (match db g !! VerifierKey name with Some _ => _ | None => _ end); [|done].
  by destruct Hv as [[? ?]|[? ?]].
Qed.
Lemma dump_frozen_address n a skip g : dump_ok (passets g) (db g) →
  (Cache_CheckForAddressRestriction n a skip emptyCache (after g)).1 = (Cache_CheckForAddressRestriction n a skip emptyCache g).1.
Proof.
  intros Hd. pose proof (dump_frozen _ _ Hd) as [Ht Ht']. unfold Cache_CheckForAddressRestriction. rewrite after_passets. cbn [emptyCache setNewRestrictedAddress]. rewrite !find_dirty_empty.
  cbn [clean ToAdd ToRemove]. rewrite !lookup_empty. cbn [cached no_cache is_some]. unfold db_has. rewrite after_db, event_frozen. unfold last_of.
  destruct (ToRemove (setNewRestrictedAddress (passets g)) !! (n, a)) as [v|] eqn:E; [by destruct (Ht' _ _ E) as [-> | ->]|].
  destruct (ToAdd (setNewRestrictedAddress (passets g)) !! (n, a)) as [v|] eqn:E'; [by destruct (Ht _ _ E') as [-> | ->]|]. by destruct (db g !! _).
Qed.
Lemma dump_global_frozen n skip g : dump_ok (passets g) (db g) →
  (Cache_CheckForGlobalRestriction n skip emptyCache (after g)).1 = (Cache_CheckForGlobalRestriction n skip emptyCache g).1.
Proof.
  intros Hd. pose proof (dump_global _ _ Hd) as [Ht Ht']. unfold Cache_CheckForGlobalRestriction. rewrite after_passets. cbn [emptyCache setNewRestrictedGlobal]. rewrite !find_dirty_empty.
  cbn [clean ToAdd ToRemove]. rewrite !lookup_empty. cbn [cached no_cache is_some]. unfold db_has. rewrite after_db, event_global. unfold last_of.
  destruct (ToRemove (setNewRestrictedGlobal (passets g)) !! n) as [v|] eqn:E; [by destruct (Ht' _ _ E) as [-> | ->]|].
  destruct (ToAdd (setNewRestrictedGlobal (passets g)) !! n) as [v|] eqn:E'; [by destruct (Ht _ _ E') as [-> | ->]|]. by destruct (db g !! _).
Qed.

Lemma root_qualifier_spec a n d : CheckForAddressRootQualifier a n d = true ↔ ∃ tag, db_has (AddressTagKey a tag) d = true ∧ (tag = n ∨ below n tag = true).
Proof.
  unfold CheckForAddressRootQualifier. rewrite existsb_exists. split.
  - intros (k & Hk & E). destruct k as [| | | |a' tag| | |]; try done. apply andb_true_iff in E as [->%text_eqb_spec E]. exists tag. apply list_elem_of_In, elem_of_elements, elem_of_dom in Hk.
    split; [unfold db_has; by destruct Hk as [v ->]|]. apply orb_true_iff in E as [->%text_eqb_spec|E]; [by left|by right].
  - intros (tag & Hd & E). exists (AddressTagKey a tag). split.
    + apply list_elem_of_In, elem_of_elements, elem_of_dom. unfold db_has in Hd. by destruct (d !! AddressTagKey a tag).
    + apply andb_true_iff. split; [by apply text_eqb_spec|]. apply orb_true_iff. destruct E as [->|E]; [left; by apply text_eqb_spec|by right].
Qed.
Lemma dump_tag n a skip g : dump_ok (passets g) (db g) → dump_query (passets g) (db g) (QTag n a skip) →
  (Cache_CheckForAddressQualifier n a skip emptyCache (after g)).1 = (Cache_CheckForAddressQualifier n a skip emptyCache g).1.
Proof.
  intros Hd [Hroot Hb].
  assert (∀ d, (∀ tag, below n tag = true → db_has (AddressTagKey a tag) d = false) → db_has (AddressTagKey a n) d = false → CheckForAddressRootQualifier a n d = false) as Hscan.
  { intros d Ht Hn. apply not_true_iff_false. rewrite root_qualifier_spec. intros (tag & Htag & [->|E]); [congruence|]. by rewrite Ht in Htag. }
  assert (∀ tag, below n tag = true → db_has (AddressTagKey a tag) (db (after g)) = false) as Hafter.
  { intros tag Ht. destruct (Hb tag Ht) as (E & E1 & E2). unfold db_has. rewrite after_db, event_tag. unfold last_of. rewrite E1, E2. exact E. }
  unfold Cache_CheckForAddressQualifier. rewrite after_passets. cbn [emptyCache setNewQualifierAddress mapRootQualifierAddressesAdd]. rewrite !find_dirty_empty.
  change (root_tagged n a ∅) with false. rewrite Hroot, andb_false_r. cbn [clean ToAdd ToRemove]. rewrite !lookup_empty. cbn [cached no_cache is_some].
  pose proof (Hscan _ Hafter) as Hs'. pose proof (Hscan (db g) (λ tag Ht, proj1 (Hb tag Ht))) as Hs. unfold db_has in *. rewrite after_db, event_tag in *. unfold last_of in *.
  destruct (ToRemove (setNewQualifierAddress (passets g)) !! (n, a)) as [v|]; [destruct (bool_decide _); cbn; [done|by apply Hs']|].
  destruct (ToAdd (setNewQualifierAddress (passets g)) !! (n, a)) as [v|]; [destruct (bool_decide _); cbn; [done|by apply Hs']|].
  destruct (db g !! AddressTagKey a n); [done|]. cbn [is_some fst] in *. by rewrite Hs, Hs'.
Qed.

(** C23: Writing the global cache to the databases does not change what the node answers, except that the block of an asset may become known. It is
    assumed that the entries of the cache are well formed ([dump_ok]) and, for a query of a tag, that the address has no tags below it ([dump_query]). The node is one without the caches to
    read through, which make no difference ([AssetsCache]). *)
Theorem dump_keeps_answers o g : dump_ok (passets g) (db g) → dump_query (passets g) (db g) o → same_answer (run o emptyCache (after g)).1 (run o emptyCache g).1.
Proof.
  intros Hd Hq. destruct o; try done; cbn [exec fst snd same_answer].
  - f_equal. by apply dump_exists.
  - by apply dump_metadata.
  - f_equal. by apply dump_verifier.
  - f_equal. by apply dump_tag.
  - f_equal. by apply dump_frozen_address.
  - f_equal. by apply dump_global_frozen.
Qed.

Lemma last_event_take {W} (ev : dump_step → option W) n l : last_event ev l = None → last_event ev (take n l) = None.
Proof. intros H. rewrite <-(take_drop n l), last_event_app in H. by destruct (last_event ev (drop n l)). Qed.
(** A dump that failed at any write leaves a state from which a second one ends as an undisturbed one does. *)
Theorem dump_retried n g : (DumpCacheToDatabase fAssetIndex None (DumpCacheToDatabase fAssetIndex (Some n) g).2).2 = after g.
Proof.
  assert (passets (DumpCacheToDatabase fAssetIndex (Some n) g).2 = passets g) as Ep by apply passets_run.
  unfold DumpCacheToDatabase at 1 3. rewrite Ep. cbn [snd]. unfold with_passets. f_equal; [|match goal with |- ?x = ?y => change (@eq unit x y); by destruct x, y end..].
  apply map_eq. intros k. rewrite !db_run. destruct (last_event (ev_db k) _) as [r|] eqn:E; [done|]. unfold DumpCacheToDatabase. cbn [snd]. by rewrite db_run, last_event_take.
Qed.
End dumped.

(** * Where the time of a flush shows *)

Section reorganised.
Context {C : Type → Type} `{!TextCache C}.
Context (fAssetIndex : bool) (uninit_height : Z) (uninit_hash : uint256).

(** C38: An asset whose block was disconnected, and which the node has not dumped since, can be issued again, but is not seen in the block that does: a second
    issue of it is accepted there and a reissue is not. With a global cache that does not remember the old block, it is seen. *)
Theorem reorganised_issue_hidden asset a h b c (g : globals C) :
  is_Some (ToRemove (setNewAssets (passets g)) !! na_strName asset) → mapReissuedAssetData c !! na_strName asset = None → mapReissuedAssetData (passets g) !! na_strName asset = None →
  ToAdd (setNewAssets c) !! na_strName asset = None →
  let issue s := AddNewAsset false fAssetIndex asset a h b (s : CAssetsCache * globals C).1 s.2 in
  let s := (issue (c, g)).2 in
  (issue (c, g)).1 = true ∧
  (Cache_CheckIfAssetExists false (na_strName asset) true s.1 s.2).1 = false ∧ (Cache_GetAssetMetaDataIfExists (na_strName asset) s.1 s.2).1 = None ∧
  (issue s).1 = true ∧ (∀ r out, ra_strName r = na_strName asset → (AddReissueAsset fAssetIndex uninit_height uninit_hash r a out s.1 s.2).1 = false) ∧
  ∀ g', ToRemove (setNewAssets (passets g')) !! na_strName asset = None → mapReissuedAssetData (passets g') !! na_strName asset = None →
    (Cache_CheckIfAssetExists false (na_strName asset) true s.1 g').1 = true ∧ (Cache_GetAssetMetaDataIfExists (na_strName asset) s.1 g').1 = Some (asset, Some (h, b)) ∧ (issue (s.1, g')).1 = false.
Proof.
  intros [n Hn] Hc Hp Ha. cbv zeta. cbn [fst snd].
  assert (∀ c, Cache_CheckIfAssetExists false (na_strName asset) true c g = (false, g)) as Hex by (intros c'; unfold Cache_CheckIfAssetExists; rewrite Hn; by destruct (is_some _)).
  set (c1 := if fAssetIndex then set_amount (na_strName asset, a) (na_nAmount asset) (with_new_assets (add_item (na_strName asset) (mkNewAsset asset a h b) (setNewAssets c)) c)
    else with_new_assets (add_item (na_strName asset) (mkNewAsset asset a h b) (setNewAssets c)) c).
  assert (AddNewAsset false fAssetIndex asset a h b c g = (true, (c1, g))) as E by (unfold AddNewAsset; by rewrite Hex). rewrite E. cbn [fst snd].
  assert (mapReissuedAssetData c1 = mapReissuedAssetData c ∧ setNewAssets c1 = add_item (na_strName asset) (mkNewAsset asset a h b) (setNewAssets c)) as [Em Es] by (by subst c1; destruct fAssetIndex).
  assert ((Cache_GetAssetMetaDataIfExists (na_strName asset) c1 g) = (None, g)) as Emd by (unfold Cache_GetAssetMetaDataIfExists; rewrite Em, Hc, Hp, Hn; by destruct (is_some _)).
  split_and!; [done|by rewrite Hex|by rewrite Emd|by unfold AddNewAsset; rewrite Hex|intros r out Er; unfold AddReissueAsset; by rewrite Er, Emd|].
  intros g' Hr Hp'. assert (Cache_CheckIfAssetExists false (na_strName asset) true c1 g' = (true, g')) as Ex.
  { unfold Cache_CheckIfAssetExists. rewrite Es, Hr. cbn [add_item ToAdd ToRemove]. by rewrite lookup_delete_eq, lookup_set_insert, Ha, decide_True. }
  split_and!; [by rewrite Ex| |unfold AddNewAsset; by rewrite Ex].
  unfold Cache_GetAssetMetaDataIfExists. rewrite Em, Hc, Hp', Es, Hr. cbn [add_item ToAdd ToRemove]. by rewrite lookup_delete_eq, lookup_set_insert, Ha, decide_True.
Qed.
End reorganised.

Section removed_tag.
Context (fAssetIndex : bool).
Implicit Type g : globals (λ _, unit).

Lemma removed_tag_sets sub a : IsAssetNameASubQualifier sub = true →
  let p := flush_into (AddQualifierAddress sub a REMOVE_QUALIFIER emptyCache) emptyCache in
  (∀ k, ToAdd (setNewQualifierAddress p) !! k = if decide ((sub, a) = k) then Some REMOVE_QUALIFIER else None) ∧ (∀ k, ToRemove (setNewQualifierAddress p) !! k = None) ∧
  root_tagged (GetParentName sub) a (mapRootQualifierAddressesAdd p) = true.
Proof.
  intros Hs p. assert (dirty_ok (setNewQualifierAddress (AddQualifierAddress sub a REMOVE_QUALIFIER emptyCache))) as Hd.
  { apply add_over_ok. unfold root_change. rewrite Hs, bool_decide_false by done. apply dirty_ok_clean. }
  assert (setNewQualifierAddress (AddQualifierAddress sub a REMOVE_QUALIFIER emptyCache) = add_over (sub, a) REMOVE_QUALIFIER clean) as E.
  { unfold AddQualifierAddress, root_change. by rewrite Hs, bool_decide_false. }
  split_and!.
  - intros k. subst p. cbn [flush_into setNewQualifierAddress]. rewrite flush_over_add by done. rewrite E. cbn. rewrite delete_empty, !lookup_empty. case_decide as Ek; [rewrite Ek, lookup_insert_eq; done|by rewrite lookup_insert_ne, lookup_empty].
  - intros k. subst p. cbn [flush_into setNewQualifierAddress]. rewrite flush_over_remove by done. rewrite E. cbn. rewrite delete_empty, !lookup_empty. by case_match.
  - subst p. unfold root_tagged. cbn [flush_into mapRootQualifierAddressesAdd]. rewrite flush_roots_lookup. unfold AddQualifierAddress, root_change. rewrite Hs, bool_decide_false by done. cbn.
    rewrite lookup_insert_eq, bool_decide_false by set_solver. apply negb_true_iff, bool_decide_eq_false. set_solver.
Qed.

(** C37: Removing the only tag of an address below a root, which has just been written to the database, leaves the address with the tag of the root, and it loses
    it at the next dump. So the answer depends on when the node dumps. *)
Theorem removed_tag_stays sub a g :
  IsAssetNameASubQualifier sub = true → GetParentName sub ≠ sub → passets g = emptyCache →
  (∀ tag, db_has (AddressTagKey a tag) (db g) = true → tag = sub ∨ (tag ≠ GetParentName sub ∧ below (GetParentName sub) tag = false)) →
  let g' := assets_Flush (AddQualifierAddress sub a REMOVE_QUALIFIER emptyCache) g in
  let check_root g := (Cache_CheckForAddressQualifier (GetParentName sub) a false emptyCache g).1 in
  check_root g' = true ∧ check_root (DumpCacheToDatabase fAssetIndex None g').2 = false.
Proof.
  intros Hs Hne Hp Hdb. cbv zeta. set (g' := assets_Flush _ g). destruct (removed_tag_sets sub a Hs) as (Ha & Hr & Ht). cbv zeta in Ha, Hr, Ht.
  assert (passets g' = flush_into (AddQualifierAddress sub a REMOVE_QUALIFIER emptyCache) emptyCache) as Ep by (subst g'; cbn; by rewrite Hp). rewrite <-Ep in Ha, Hr, Ht. split.
  - unfold Cache_CheckForAddressQualifier. cbn [emptyCache setNewQualifierAddress]. rewrite find_dirty_empty, Hr, Ha, decide_False by congruence. rewrite Ht.
    by change (root_tagged _ _ ∅) with false.
  - assert (∀ tag, tag = GetParentName sub ∨ below (GetParentName sub) tag = true → db_has (AddressTagKey a tag) (db (DumpCacheToDatabase fAssetIndex None g').2) = false) as Hafter.
    { intros tag Htag. unfold db_has. rewrite after_db, event_tag. unfold last_of. rewrite Hr, Ha. case_decide as Ek; [done|]. destruct (db g' !! AddressTagKey a tag) eqn:E; [|done].
      destruct (Hdb tag) as [->|[H1 H2]]; [unfold db_has; by change (db g) with (db g'); rewrite E|done|]. destruct Htag as [->|Htag]; [done|congruence]. }
    assert (CheckForAddressRootQualifier a (GetParentName sub) (db (DumpCacheToDatabase fAssetIndex None g').2) = false) as Hscan.
    { apply not_true_iff_false. rewrite root_qualifier_spec. intros (tag & Htag & Hx). by rewrite Hafter in Htag. }
    unfold Cache_CheckForAddressQualifier. rewrite after_passets. cbn [emptyCache setNewQualifierAddress mapRootQualifierAddressesAdd]. rewrite find_dirty_empty.
    change (root_tagged _ _ ∅) with false. cbn [clean ToAdd ToRemove negb andb cached no_cache is_some]. rewrite !lookup_empty, Hafter by (by left). exact Hscan.
Qed.
End removed_tag.

(** * Examples *)

(** That maps have no key in common can be computed. *)
Lemma apart {K V W} `{Countable K} (m : gmap K V) (m' : gmap K W) : bool_decide (map_Forall (λ k _, m' !! k = None) m) = true → ∀ k, is_Some (m !! k) → m' !! k = None.
Proof. intros Hm k [x Hx]. apply bool_decide_eq_true in Hm. by apply (Hm k x). Qed.

Abbreviation sample_run ops c g := (exec_all false true main_prefixes sample_dep 0 uint256_null ops c g).
Definition sample_start : globals (λ _, unit) := uncached (AppInitMain_assets ∅).
Definition sample_out : COutPoint := mkCOutPoint uint256_null 0.
(** A block that issues an asset with a verifier, reissues it, tags one address and freezes another. *)
Definition sample_block : list op :=
  [OIssue sample_asset (str "alice") 7 uint256_null; OVerifier (str "$TOKEN") (str "#KYC"); OReissue (mkCReissueAsset (str "$TOKEN") 50 (-1) 1 []) (str "alice") sample_out;
   OTag (str "#KYC") (str "alice") ADD_QUALIFIER; OFreeze (str "$TOKEN") (str "bob") FREEZE_ADDRESS; OGlobal (str "$TOKEN") GLOBAL_FREEZE].
Definition sample_state : CAssetsCache * globals (λ _, unit) :=
  (sample_run ([OIssue (mkCNewAsset (str "#KYC") 1 0 0 0 []) (str "alice") 6 uint256_null; OFlush] ++ sample_block) emptyCache sample_start).2.
Definition sample_queries : list op :=
  [QExists (str "$TOKEN") true; QMetaData (str "$TOKEN"); QVerifier (str "$TOKEN") false; QTag (str "#KYC") (str "alice") false; QFrozen (str "$TOKEN") (str "bob") false; QGlobal (str "$TOKEN") false].

Lemma sample_sets : sets_ok sample_state.1 ∧ sets_ok (passets sample_state.2).
Proof. apply exec_all_sets; apply sets_ok_empty. Qed.
Lemma sample_flush_ok : flush_ok sample_state.1 (passets sample_state.2).
Proof.
  split; [exact (proj1 sample_sets)|refine (apart _ _ _); vm_compute; reflexivity..|].
  assert (mapRootQualifierAddressesRemove sample_state.1 = ∅) as -> by (vm_compute; reflexivity). intros key s. by rewrite lookup_empty.
Qed.

Lemma flush_keeps_answers_witness : map (λ o, (exec false true main_prefixes sample_dep 0 uint256_null o emptyCache (assets_Flush sample_state.1 sample_state.2)).1) sample_queries =
  [ABool true; AMetaData (Some (mkCNewAsset (str "$TOKEN") 150 0 1 0 [], None)); AVerifier (Some (str "#KYC")); ABool true; ABool true; ABool true].
Proof.
  cbn [map sample_queries]. rewrite !flush_keeps_answers by first [exact sample_flush_ok | reflexivity]. vm_compute. reflexivity.
Defined.

Definition sample_flushed : globals (λ _, unit) := assets_Flush sample_state.1 sample_state.2.
Lemma sample_reissued : mapReissuedAssetData (passets sample_flushed) = {[str "$TOKEN" := mkCNewAsset (str "$TOKEN") 150 0 1 0 []]}.
Proof. vm_compute. reflexivity. Qed.
Lemma sample_recorded : reissue_recorded (passets sample_flushed) (str "$TOKEN") ∧ ToRemove (setNewAssets (passets sample_flushed)) !! str "$TOKEN" = None ∧
  is_Some (ToAdd (setNewAssets (passets sample_flushed)) !! str "$TOKEN").
Proof.
  split_and!; [|vm_compute; reflexivity|eexists; vm_compute; reflexivity].
  eexists sample_out, _. split; [left; vm_compute; reflexivity|reflexivity].
Qed.
Lemma sample_dump_ok : dump_ok (passets sample_flushed) (db sample_flushed).
Proof.
  split.
  - exact (sets_ok_flush _ _ (proj2 sample_sets)).
  - split; [|split]; refine (bool_decide_eq_true_1 (map_Forall (λ k v, _ = k) _) _); vm_compute; reflexivity.
  - split; refine (bool_decide_eq_true_1 (map_Forall (λ k v, v = _ ∨ v = _) _) _); vm_compute; reflexivity.
  - split; refine (bool_decide_eq_true_1 (map_Forall (λ k v, v = _ ∨ v = _) _) _); vm_compute; reflexivity.
  - refine (bool_decide_eq_true_1 _ _). vm_compute. reflexivity.
  - intros name [asset Ha]. rewrite sample_reissued in Ha. apply lookup_singleton_Some in Ha as [<- _]. destruct sample_recorded as (? & ? & ?). split_and!; [done..|]. by left.
Qed.
Lemma sample_tag_leaf : dump_query (passets sample_flushed) (db sample_flushed) (QTag (str "#KYC") (str "alice") false).
Proof.
  split; [vm_compute; reflexivity|]. intros tag Ht. split_and!.
  - assert (db sample_flushed = ∅) as -> by (vm_compute; reflexivity). unfold db_has. by rewrite lookup_empty.
  - assert (ToAdd (setNewQualifierAddress (passets sample_flushed)) = {[(str "#KYC", str "alice") := ADD_QUALIFIER]}) as -> by (vm_compute; reflexivity).
    apply lookup_singleton_None. intros [= <-]. discriminate Ht.
  - assert (ToRemove (setNewQualifierAddress (passets sample_flushed)) = ∅) as -> by (vm_compute; reflexivity). by rewrite lookup_empty.
Qed.

Lemma dump_keeps_answers_witness :
  Forall (λ o, same_answer (exec false true main_prefixes sample_dep 0 uint256_null o emptyCache (DumpCacheToDatabase true None sample_flushed).2).1
    (exec false true main_prefixes sample_dep 0 uint256_null o emptyCache sample_flushed).1) sample_queries.
Proof.
  unfold sample_queries. repeat (apply List.Forall_cons; [apply dump_keeps_answers; [exact sample_dump_ok|first [exact I|exact sample_tag_leaf]]|]). apply List.Forall_nil.
Defined.

(** The asset is issued, its block is disconnected and another block issues it. *)
Definition sample_disconnected : globals (λ _, unit) :=
  (sample_run [OIssue sample_asset (str "alice") 7 uint256_null; OFlush; OUndoIssue sample_asset (str "alice"); OFlush] emptyCache sample_start).2.2.
Lemma reorganised_issue_hidden_witness :
  let issue s := AddNewAsset false true sample_asset (str "bob") 7 uint256_null (s : CAssetsCache * globals (λ _, unit)).1 s.2 in
  let s := (issue (emptyCache, sample_disconnected)).2 in
  (issue (emptyCache, sample_disconnected)).1 = true ∧
  (Cache_CheckIfAssetExists false (na_strName sample_asset) true s.1 s.2).1 = false ∧ (Cache_GetAssetMetaDataIfExists (na_strName sample_asset) s.1 s.2).1 = None ∧
  (issue s).1 = true ∧ (∀ r out, ra_strName r = na_strName sample_asset → (AddReissueAsset true 0 uint256_null r (str "bob") out s.1 s.2).1 = false) ∧
  ∀ g', ToRemove (setNewAssets (passets g')) !! na_strName sample_asset = None → mapReissuedAssetData (passets g') !! na_strName sample_asset = None →
    (Cache_CheckIfAssetExists false (na_strName sample_asset) true s.1 g').1 = true ∧
    (Cache_GetAssetMetaDataIfExists (na_strName sample_asset) s.1 g').1 = Some (sample_asset, Some (7, uint256_null)) ∧ (issue (s.1, g')).1 = false.
Proof. apply (reorganised_issue_hidden true 0 uint256_null); [eexists; vm_compute; reflexivity|vm_compute; reflexivity..]. Defined.

(** The tag of a sub-qualifier is added, written and removed. *)
Definition sample_tagged : globals (λ _, unit) := (sample_run [OTag (str "#KYC/#EU") (str "alice") ADD_QUALIFIER; OFlush; ODump] emptyCache sample_start).2.2.
Lemma removed_tag_stays_witness :
  let g := assets_Flush (AddQualifierAddress (str "#KYC/#EU") (str "alice") REMOVE_QUALIFIER emptyCache) sample_tagged in
  GetParentName (str "#KYC/#EU") = str "#KYC" ∧
  (Cache_CheckForAddressQualifier (GetParentName (str "#KYC/#EU")) (str "alice") false emptyCache g).1 = true ∧
  (Cache_CheckForAddressQualifier (GetParentName (str "#KYC/#EU")) (str "alice") false emptyCache (DumpCacheToDatabase true None g).2).1 = false.
Proof.
  split; [vm_compute; reflexivity|]. apply removed_tag_stays; [vm_compute; reflexivity|discriminate|vm_compute; reflexivity|].
  assert (bool_decide (map_Forall (λ k _, match k with AddressTagKey _ tag => text_eqb tag (str "#KYC/#EU") | _ => true end = true) (db sample_tagged)) = true) as E by (vm_compute; reflexivity).
  apply bool_decide_eq_true in E. intros tag. unfold db_has. destruct (db sample_tagged !! AddressTagKey (str "alice") tag) as [v|] eqn:Ek; [|done]. left. apply text_eqb_spec. exact (E _ _ Ek).
Defined.
